(* ===== verification/_CoqProject ===== *)
-Q . S2P
Prelude.v
CppString.v
Convert.v
Timer.v
Scheduler.v
PCQueue.v
Prepared.v
Callbacks.v
QueryMemory.v
Pipeline.v
Connection.v
Transaction.v
Config.v
LogChannels.v
Log.v
Fetcher.v
DatabaseMgr.v
WorkerPool.v
Field.v
QueryResult.v
Shutdown.v
Containers.v
Utf8.v
Substr.v
Discord.v
Commands.v
BotStart.v
MPSCQueue.v
IntrusiveQueue.v
DBUpdater.v
ExtraFile.v
PoolStatements.v
Opening.v
QueryHolder.v
Digest.v
HMAC.v
Crypto.v
Ciphers.v
PoolTasks.v
PoolLife.v
Main.v
StartProcess.v
ProgressBar.v
