(* ===== verification/Prelude.v ===== *)
(** * WarheadDiscordBot: a verification library

    The program is a Discord bot with a MySQL database.  [main] loads the
    configuration, starts the log, opens the pool of database connections
    (creating, filling and updating the database first), starts the bot, and
    then runs a loop that lets callbacks of finished queries run and lets every
    pool run its scheduled tasks.  The handlers of Discord's events put queries
    into the queue of the pool; worker threads, one for each asynchronous
    connection, take them out and keep promises, whose callbacks the main loop
    runs.  This library models these parts (source under src/src/) and proves
    them correct, from the strings and integers up to the main loop.

    * The files

    A file models a component; definitions carry the names of the code.

    - Prelude: the outcome of code that may throw or crash, the state monad,
      machine integers, tactics and lemmas the others share.
    - CppString, Convert, Timer (common/Utilities): the string operations of
      the standard library the code uses, Tokenize, Trim, the hexadecimal
      conversions, the case maps; StringTo and ToString; ToTimeString.
    - Containers (common/Utilities/Containers.h, Random.cpp): the algorithms on
      containers and the random ranges.
    - Scheduler (common/Utilities/TaskScheduler): tasks, contexts and queues
      over a store of shared objects.
    - PCQueue (common/Threading/PCQueue.h, DatabaseAsyncQueueWorker): queue,
      worker threads and notifications as a transition system.
    - MPSCQueue, IntrusiveQueue (common/Threading/MPSCQueue.h): the two lock-free
      queues as machines over one memory.
    - StartProcess (common/Utilities/StartProcess.cpp): a child, its pipes and
      the parent.
    - ProgressBar (common/Progress): when and what the bar of the updater draws.
    - Config (common/Configuration): parsing, layering and reading options.
    - LogChannels, Log (common/Logging): message patterns, console, log files
      and their purge; loggers and channels.
    - Digest, HMAC (common/Cryptography/CryptoHash.h, HMAC.h): the objects that
      compute a hash, without and with a key.
    - Crypto (common/Cryptography): SRP6 over the big numbers of OpenSSL, tokens,
      session keys, authenticated encryption over any cipher.
    - Ciphers (AES, ARC4, AuthCrypt): the objects over the cipher contexts.
    - Prepared, Connection, QueryResult, Field, QueryHolder, Transaction
      (server/database/Database): parameters and their binding, one connection
      with its reconnections, the copy of a result and its walk, the
      conversions of a field, and the tasks that run on a connection.
    - Callbacks (AsyncCallbackProcessor.h, AsyncCallbackMgr, QueryCallback): the
      processor and the four types it processes.
    - QueryMemory (QueryCallback.cpp, AsyncCallbackProcessor.h): the unions and the
      vector the callbacks of queries live in.
    - Pipeline (BotMgr.cpp over the two above and PCQueue): a query from AsyncQuery
      through the queue and a worker's thread to its callback in the main loop.
    - WorkerPool, PoolStatements, PoolTasks (DatabaseWorkerPool.cpp): who may use
      which connection, what the calls of the pool turn into, and its tasks
      over the scheduler of Scheduler.
    - Opening (MySQLConnection.cpp, OpenConnection of DatabaseWorkerPool.cpp): an
      asynchronous connection that is opened while its worker already runs.
    - PoolLife (DatabaseWorkerPool.h and .cpp): the checks of the constructor, the
      destruction of the pool among its threads, EscapeString, GetPoolInfo.
    - Fetcher, DBUpdater (server/database/Updater): which SQL files are applied,
      and the driver around it.
    - ExtraFile (DatabaseWorkerPool.cpp): the option file with the password for
      the client that applies them.
    - DatabaseMgr (DatabaseMgr.cpp): the queues of Load and the closing.
    - Utf8 (deps/utf8cpp, Utf8toWStr and WStrToUtf8 of common/Utilities/Util.cpp),
      Substr (utf8len and utf8substr of D++): the conversions of encodings, code
      unit by code unit.
    - Discord (server/bot/Discord): the handlers of the bot.
    - Commands (ConfigureCommands, on_slashcommand and on_form_submit of
      DiscordMgr.cpp): which commands and dialogs exist, and who serves them.
    - BotStart (Start of DiscordMgr.cpp; events and cluster of D++): how the bot
      starts, and how an interaction gets from D++ to its handler.
    - Main (app/Main.cpp, BotMgr.cpp): the program around all of them.
    - Shutdown (common/Threading, Main.cpp, BotMgr.cpp, DiscordMgr.cpp): the threads
      from a signal to the end of the process.

    * How they interact

    Main runs the definitions of Config and DatabaseMgr, and calls the pools
    through the class PoolOps of DatabaseMgr, whose operations may end the
    process; what a pool promises the main loop
    (its Update is the one of its own scheduler) is the class PoolSched of Main,
    and PoolTasks is the implementation it names.  Discord normalizes names with
    Utf8; the cut of a text it takes as an argument is the one of Substr.  The
    authenticated encryption of Crypto is proved against the class AECipher, of
    which AES of Ciphers is an instance.  Callbacks proves the processor against
    the class AsyncCallback, of which the callback types are instances;
    QueryMemory refines that processor, and Pipeline composes it with the queue
    and the threads of PCQueue.  DBUpdater runs Fetcher's Update against
    the class Server, which contains the class UpdateDB of Fetcher.  Connection,
    Transaction, QueryHolder and PoolStatements share one monad over the record
    mysql_client, the functions of the client library; PoolStatements sends lists
    of connections through it, and Opening interleaves its requests with those
    of Connection and Transaction.  BotStart registers what Commands defines.

    * What is proved

    - Main: when main returns, every database it opened has been closed once and
      in order, and nothing was updated afterwards; over the whole loop each
      pool's tasks run exactly as often as time says, as long as time fits into
      its 64 bits.  What a pool or the bot does may throw or end the process.
    - Scheduler: the invariant of the queue in every reachable state; order and
      termination of Update, when handlers repeat and schedule through their own
      context (what a captured one does is in two examples); group operations; a
      crash by CancelAll.
    - PCQueue, WorkerPool, MPSCQueue, IntrusiveQueue, StartProcess, Shutdown:
      under every interleaving, operations run once and in order, no wake-up is
      lost, a destroyed worker ends, no connection has two users and none is
      used after its end, polling finds a free one, the lock-free queues refine
      a FIFO and touch live nodes only, a child's output is logged completely,
      and when it can block for ever; a signal ends the process unless a handler
      waits for its callback.
    - Pipeline: every callback gets the answer to its own query, once; when
      nothing falls between AddCallback and the hand-over of the callback, no call
      is undefined, and while the pool serves, the threads come to rest and then
      no callback is left.
    - Callbacks, QueryMemory, Transaction, QueryHolder: every callback is completed
      or kept, every promise is kept exactly once with the right answer, retries
      end when time passes; no member of a union is used in the wrong state.
    - Connection, Prepared, QueryResult, Field: the requests of a transaction in
      order, parameters and results read back exactly, no access outside of a
      buffer, blocks freed once, what each conversion returns.
    - PoolStatements: after a successful start every statement has the number of
      parameters its text has.
    - Opening: an operation that is over before its connection is open is lost, a
      statement before its preparation ends the process, and a ready connection
      has every statement; requests may come in any order, not at the same time.
    - PoolLife: the destruction of a pool uses nothing destroyed before and ends,
      if no connection is left; else it never ends.
    - BotStart: once Start has ended, every interaction reaches its listeners.
    - Fetcher, DBUpdater, ExtraFile, DatabaseMgr: files are applied once and in the
      documented order, a second update applies nothing (when names differ in the
      collation of the table and fit its columns), a failure closes what was
      opened and is reported, unless a call of a pool ends the process; the client
      reads the password from the file it is given first.
    - Config, Log, LogChannels: layering of the files, round trips of options
      and patterns, the purge of old files, logging never throws.
    - Utf8, Substr: decoding accepts exactly the encodings of code points and says
      what is wrong with any other text, conversions to UTF-16 and back are
      inverse; the first characters of a text.
    - Commands: every registered command has a handler that finds the options it
      reads, the only exception is that of a failed request, and a reply keeps the
      limits of Discord.
    - Discord: a role is removed only after the author's confirmation, what a
      form adds (if the columns hold it) a deletion removes, which players a list shows.
    - Crypto: the server and a client that follows the protocol have the same
      key, tokens are those of RFC 6238, the key generator is one stream.
    - Digest, HMAC, Ciphers: hash objects are values, keys are counted; AEDecrypt
      opens exactly what was sealed; the traffic of AuthCrypt is two streams.
    - Containers: RandomResize is uniform; EraseIf, Intersects and
      MultimapErasePair are what their comments say.

    Theorems without a number in their comment are facts of the components that
    the others build on or that document a defect.

    * Loops and fuel

    Loops whose end is not structural take fuel, and run out of it with an
    error of their own.  How much is enough is a theorem for the weight of the due
    tasks in Scheduler (Update_terminates), the number of due runs in PoolTasks
    (enough_fuel), the number of the test that finds the stop flag in Main, and
    the rounds of a minute in Transaction (deadlock_retries_end).  There is none
    for the repetitions of a statement in Connection: the code repeats it after
    every reconnection, as often as the connection is lost, and the theorems about
    it hold for every fuel.  The other fuels are lengths of what the loop
    consumes.

    * Conventions

    A w-bit integer is a [Z] with [wrap_u w] or [wrap_s w] where the code
    converts or computes.  [Throw] is an exception, [Crash] a failed assertion,
    an ABORT, or undefined behaviour.  Third-party code (MySQL's client and server,
    OpenSSL, D++, fmt, Boost) is a parameter, what is assumed of it a named class
    or record of laws, and an instance shows that the laws can hold.  The order
    of hash tables, the clock, the file system and random draws are arguments.

    * Not modelled

    OpenSSL itself, its set-up and its random bytes.  Of Boost.Asio what Shutdown
    needs is in its steps.
    GitRevision is generated text, Errors.cpp the end of the process, which is
    [Crash].  Of Timer the calendar functions of the C library, of Random and
    Containers the floating-point distributions.  The weak memory orders of the
    lock-free queues are taken as sequentially consistent.  The vendored
    libraries under src/deps are not this program's code, except where a file
    above says what it models of them. *)
From Stdlib Require Export Ascii.
From stdpp Require Export base tactics numbers list strings gmap sorting relations.

(** ** Outcomes of fallible code

    A C++ function either returns ([Done]), throws an exception ([Throw]) or
    terminates the process through [ASSERT] / [ABORT] of Errors.h, or runs into
    undefined behaviour ([Crash]). *)
Inductive outcome (E A : Type) : Type :=
| Done (a : A)
| Throw (e : E)
| Crash (why : string).
Arguments Done {E A} a.
Arguments Throw {E A} e.
Arguments Crash {E A} why.

#[export] Instance outcome_ret {E : Type} : MRet (outcome E) := λ A a, Done a.
#[export] Instance outcome_bind {E : Type} : MBind (outcome E) := λ A B f o,
  match o with
  | Done a => f a
  | Throw e => Throw e
  | Crash w => Crash w
  end.
#[export] Instance outcome_map {E : Type} : FMap (outcome E) := λ A B f o, o ≫= λ a, Done (f a).

(** [ASSERT(b)] of Errors.h. *)
Definition assert {E : Type} (b : bool) (why : string) : outcome E unit :=
  if b then Done () else Crash why.

Definition is_done {E A : Type} (o : outcome E A) : bool :=
  match o with Done _ => true | _ => false end.

(** ** State and exceptions

    Code that changes a state and may throw: the state is what the code has
    made of it, also when an exception leaves it. *)
Definition SM (E S A : Type) : Type := S → outcome E A * S.
#[export] Instance SM_ret {E S : Type} : MRet (SM E S) := λ A a s, (Done a, s).
#[export] Instance SM_bind {E S : Type} : MBind (SM E S) := λ A B f m s,
  match m s with
  | (Done a, s) => f a s
  | (Throw e, s) => (Throw e, s)
  | (Crash w, s) => (Crash w, s)
  end.
Definition get_state {E S : Type} : SM E S S := λ s, (Done s, s).
Definition modify_state {E S : Type} (f : S → S) : SM E S unit := λ s, (Done (), f s).
Definition throw {E S A : Type} (e : E) : SM E S A := λ s, (Throw e, s).
(** [ABORT(why)] of Errors.h. *)
Definition abort {E S A : Type} (why : string) : SM E S A := λ s, (Crash why, s).
(** [try { m } catch (E const& e) { h(e) }] *)
Definition try_catch {E S A : Type} (m : SM E S A) (h : E → SM E S A) : SM E S A := λ s,
  match m s with
  | (Throw e, s') => h e s'
  | r => r
  end.

Fixpoint for_each {E S A : Type} (f : A → SM E S unit) (l : list A) : SM E S unit :=
  match l with
  | [] => mret ()
  | a :: l => _ ← f a; for_each f l
  end.

Lemma SM_bind_Done {E S A B : Type} (m : SM E S A) (f : A → SM E S B) s a s' :
  m s = (Done a, s') → (m ≫= f) s = f a s'.
Proof. intros H. unfold mbind, SM_bind. by rewrite H. Qed.

(** ** Machine integers: values of width [w] kept as [Z] *)
Definition wrap_u (w z : Z) : Z := (z mod 2 ^ w)%Z.
Definition wrap_s (w z : Z) : Z :=
  (let m := z mod 2 ^ w in if m <? 2 ^ (w - 1) then m else m - 2 ^ w)%Z.

(** ** Characters *)
Definition ch (n : nat) : ascii := ascii_of_nat n.

Definition tolower (c : ascii) : ascii :=
  let n := nat_of_ascii c in
  if (65 <=? n)%nat && (n <=? 90)%nat then ascii_of_nat (n + 32) else c.

(** [std::isspace] in the "C" locale. *)
Definition isspace (c : ascii) : bool :=
  let n := nat_of_ascii c in (n =? 32)%nat || ((9 <=? n)%nat && (n <=? 13)%nat).

Definition isdigit (c : ascii) : bool :=
  let n := nat_of_ascii c in (48 <=? n)%nat && (n <=? 57)%nat.

(** ** Loops that process a list with a state, and may fail *)
Fixpoint ofold {E S A : Type} (f : S → A → outcome E S) (l : list A) (s : S) : outcome E S :=
  match l with
  | [] => Done s
  | a :: l => s' ← f s a; ofold f l s'
  end.

(** ** Generic lemmas *)
Lemma outcome_bind_assoc {E A B C : Type} (o : outcome E A)
    (f : A → outcome E B) (g : B → outcome E C) :
  (o ≫= f) ≫= g = o ≫= (λ a, f a ≫= g).
Proof. by destruct o. Qed.

Lemma outcome_bind_Done {E A B : Type} (o : outcome E A) (f : A → outcome E B) b :
  o ≫= f = Done b ↔ ∃ a, o = Done a ∧ f a = Done b.
Proof. destruct o; naive_solver. Qed.

Lemma ofold_app {E S A : Type} (f : S → A → outcome E S) l1 l2 s :
  ofold f (l1 ++ l2) s = ofold f l1 s ≫= ofold f l2.
Proof.
  revert s. induction l1 as [|a l1 IH]; intros s; [done|]. simpl.
  destruct (f s a); simpl; auto.
Qed.

Lemma wrap_u_range w z : (0 ≤ w)%Z → (0 ≤ wrap_u w z < 2 ^ w)%Z.
Proof. intros. unfold wrap_u. apply Z.mod_pos_bound, Z.pow_pos_nonneg; lia. Qed.

Lemma wrap_u_small w z : (0 ≤ z < 2 ^ w)%Z → wrap_u w z = z.
Proof. apply Z.mod_small. Qed.

Lemma wrap_s_range w z : (0 < w)%Z → (- 2 ^ (w - 1) ≤ wrap_s w z < 2 ^ (w - 1))%Z.
Proof.
  intros Hw. unfold wrap_s.
  pose proof (Z.mod_pos_bound z (2 ^ w) ltac:(apply Z.pow_pos_nonneg; lia)).
  assert (2 ^ w = 2 * 2 ^ (w - 1))%Z.
  { rewrite <- Z.pow_succ_r by lia. f_equal; lia. }
  destruct (Z.ltb_spec (z mod 2 ^ w)%Z (2 ^ (w - 1))%Z); lia.
Qed.

Lemma wrap_s_small w z : (0 < w)%Z → (- 2 ^ (w - 1) ≤ z < 2 ^ (w - 1))%Z → wrap_s w z = z.
Proof.
  intros Hw Hz. unfold wrap_s.
  assert (2 ^ w = 2 * 2 ^ (w - 1))%Z as Hp.
  { rewrite <- Z.pow_succ_r by lia. f_equal; lia. }
  destruct (decide (0 ≤ z)%Z).
  - rewrite Z.mod_small by lia. destruct (Z.ltb_spec z (2 ^ (w - 1))%Z); lia.
  - replace (z mod 2 ^ w)%Z with (z + 2 ^ w)%Z.
    + destruct (Z.ltb_spec (z + 2 ^ w)%Z (2 ^ (w - 1))%Z); lia.
    + apply Z.mod_unique_pos with (-1)%Z; lia.
Qed.

(** An invariant preserved by every step holds on every reachable state. *)
Lemma rtc_preserves {A : Type} (R : relation A) (I : A → Prop) :
  (∀ a b, R a b → I a → I b) → ∀ a b, rtc R a b → I a → I b.
Proof. intros Hstep a b. induction 1; eauto. Qed.

(** ** Automation *)
Create HintDb warhead.
#[export] Hint Resolve wrap_u_range wrap_s_range : warhead.

(** Concatenation of strings computes on a constructor. *)
#[global] Arguments String.append !s1 s2 / : simpl nomatch.

(** Destruct the scrutinee of the outermost [match]/[if] of the goal or a
    hypothesis, keeping the equation. *)
Ltac split_match :=
  match goal with
  | |- context [match ?x with _ => _ end] => destruct x eqn:?
  | H : context [match ?x with _ => _ end] |- _ => destruct x eqn:?
  end.
Ltac split_matches := repeat (split_match; simplify_eq/=); simplify_eq/=.

(** Unfold the operations of the monad of state and exceptions. *)
Ltac sm_unfold :=
  unfold mbind, SM_bind, mret, SM_ret, get_state, modify_state, throw, abort, try_catch in *.

(** ** Triples for code with state and exceptions

    From a state of [P] the code does not crash; it returns in [Q] or throws in
    [X]. *)
Definition triple {E S A : Type} (P : S → Prop) (m : SM E S A) (Q : A → S → Prop)
    (X : E → S → Prop) : Prop :=
  ∀ s, P s → match m s with
             | (Done a, s') => Q a s'
             | (Throw e, s') => X e s'
             | (Crash _, _) => False
             end.

Section Triple.
Context {E S : Type}.
Implicit Types (P : S → Prop) (X : E → S → Prop).

Lemma triple_ret {A : Type} (a : A) P X : triple P (mret a : SM E S A) (λ b s, b = a ∧ P s) X.
Proof. intros s H. by split. Qed.

Lemma triple_get P X : triple P (get_state : SM E S S) (λ a s, a = s ∧ P s) X.
Proof. intros s H. by split. Qed.

Lemma triple_modify (f : S → S) P (Q : unit → S → Prop) X :
  (∀ s, P s → Q () (f s)) → triple P (modify_state f) Q X.
Proof. intros H s Hs. by apply H. Qed.

Lemma triple_bind {A B : Type} (m : SM E S A) (f : A → SM E S B) P Q R X :
  triple P m Q X → (∀ a, triple (Q a) (f a) R X) → triple P (m ≫= f) R X.
Proof.
  intros Hm Hf s Hs. specialize (Hm s Hs). unfold mbind, SM_bind.
  destruct (m s) as [[a|e|w] s']; [by apply Hf|done|done].
Qed.

Lemma triple_weaken {A : Type} (m : SM E S A) P P' Q Q' X X' :
  triple P m Q X → (∀ s, P' s → P s) → (∀ a s, Q a s → Q' a s) → (∀ e s, X e s → X' e s) →
  triple P' m Q' X'.
Proof.
  intros Hm HP HQ HX s Hs. specialize (Hm s (HP s Hs)). destruct (m s) as [[a|e|w] s']; auto.
Qed.

Lemma triple_try {A : Type} (m : SM E S A) (h : E → SM E S A) P Q X X' :
  triple P m Q X → (∀ e, triple (X e) (h e) Q X') → triple P (try_catch m h) Q X'.
Proof.
  intros Hm Hh s Hs. specialize (Hm s Hs). unfold try_catch.
  destruct (m s) as [[a|e|w] s']; [done|by apply Hh|done].
Qed.

Lemma triple_for_each {A : Type} (f : A → SM E S unit) (l : list A) P X :
  (∀ a, a ∈ l → triple P (f a) (λ _, P) X) → triple P (for_each f l) (λ _, P) X.
Proof.
  induction l as [|a l IH]; intros Hf; [exact (λ s Hs, Hs)|]. cbn [for_each].
  eapply triple_bind; [apply Hf; by left|]. intros u. apply IH. intros b Hb. apply Hf. by right.
Qed.
End Triple.

(** ** Sums over a list, under an update of one element *)
Lemma sum_list_with_insert {A : Type} (f : A → nat) (l : list A) i x y :
  l !! i = Some x → sum_list_with f (<[i := y]> l) + f x = sum_list_with f l + f y.
Proof.
  revert i. induction l as [|z l IH]; intros [|i] Hi; simplify_eq/=; [lia|].
  specialize (IH i Hi). lia.
Qed.

Lemma sum_list_with_le {A : Type} (f g : A → nat) l :
  (∀ x, x ∈ l → f x ≤ g x) → sum_list_with f l ≤ sum_list_with g l.
Proof.
  induction l as [|x l IH]; intros H; cbn; [lia|].
  pose proof (H x ltac:(by left)). pose proof (IH ltac:(intros; apply H; by right)). lia.
Qed.

Lemma sum_list_with_submseteq {A : Type} (f : A → nat) l k :
  l ⊆+ k → sum_list_with f l ≤ sum_list_with f k.
Proof. intros [k' ->]%submseteq_Permutation. rewrite sum_list_with_app. lia. Qed.

Lemma concat_map_insert {A B : Type} (f : A → list B) (l : list A) i x y :
  l !! i = Some x → concat (f <$> <[i := y]> l) ++ f x ≡ₚ concat (f <$> l) ++ f y.
Proof.
  revert i. induction l as [|z l IH]; intros [|i] Hi; cbn in *; simplify_eq.
  - rewrite <- !app_assoc. rewrite (Permutation_app_comm (concat (f <$> l)) (f x)),
      (Permutation_app_comm (concat (f <$> l)) (f y)). rewrite !app_assoc.
    apply Permutation_app_tail, Permutation_app_comm.
  - rewrite <- !app_assoc. by rewrite (IH i Hi).
Qed.
