(* ===== verification/CppString.v ===== *)
(** * Strings: the standard library's string operations and common/Utilities

    [std::string] and [std::string_view] are Rocq strings of 8-bit characters.
    Section by section:
    - the members of [std::string_view] the program calls ([find], [substr],
      [find_last_of]);
    - common/Utilities/StringFormat.cpp: [Trim], [TrimLeft], [TrimRight];
    - common/Utilities/Tokenize.cpp: [Tokenize];
    - common/Utilities/Util.cpp: [StringEqualI], the hexadecimal conversions;
    - common/Utilities/Util.h: the case mappings of wide characters. *)
From S2P Require Import Prelude.

(** ** Members of [std::string_view] *)
Definition at_ (s : string) (i : nat) : option ascii := String.get i s.

(** [find(c, pos)]: [None] is [npos]. *)
Fixpoint find_from (c : ascii) (s : string) (pos : nat) : option nat :=
  match s with
  | EmptyString => None
  | String a s' =>
      match pos with
      | O => if Ascii.eqb a c then Some 0 else S <$> find_from c s' 0
      | S pos' => S <$> find_from c s' pos'
      end
  end.

(** [find_last_of(c)] *)
Fixpoint find_last (c : ascii) (s : string) : option nat :=
  match s with
  | EmptyString => None
  | String a s' =>
      match find_last c s' with
      | Some i => Some (S i)
      | None => if Ascii.eqb a c then Some 0 else None
      end
  end.

(** [substr(pos)] *)
Definition substr_from (pos : nat) (s : string) : string :=
  String.substring pos (String.length s - pos) s.

(** [find(needle) != npos] *)
Fixpoint contains_sub (needle s : string) : bool :=
  String.prefix needle s ||
  match s with
  | EmptyString => false
  | String _ s' => contains_sub needle s'
  end.

(** [str.erase(std::remove(str.begin(), str.end(), c), str.end())] *)
Fixpoint erase_char (c : ascii) (s : string) : string :=
  match s with
  | EmptyString => EmptyString
  | String a s' => if Ascii.eqb a c then erase_char c s' else String a (erase_char c s')
  end.

Definition is_empty (s : string) : bool :=
  match s with EmptyString => true | _ => false end.

(** [path.filename().generic_string()]: what follows the last slash. *)
Definition path_filename (path : string) : string :=
  match find_last "/" path with
  | Some i => substr_from (S i) path
  | None => path
  end.

(** ** StringFormat.cpp *)

(** [while (first != end && isspace( *first)) ++first;] *)
Fixpoint trim_first (p : ascii → bool) (s : string) : nat :=
  match s with
  | EmptyString => 0
  | String c s' => if p c then S (trim_first p s') else 0
  end.

(** [do --last; while (isspace( *last));] started at [n]; the result is
    [last + 1]. *)
Fixpoint trim_last (p : ascii → bool) (s : string) (n : nat) : nat :=
  match n with
  | O => 0
  | S n' =>
      match at_ s n' with
      | Some c => if p c then trim_last p s n' else n
      | None => trim_last p s n'
      end
  end.

Definition Trim (s : string) : string :=
  let len := String.length s in
  let first := trim_first isspace s in
  if (first =? len)%nat then EmptyString
  else
    let last1 := trim_last isspace s len in
    if negb (first =? 0)%nat || negb (last1 =? len)%nat
    then String.substring first (last1 - first) s
    else s.

Definition CHAR_WHITESPACE : ascii := " "%char.

Fixpoint TrimLeft (str : string) : string :=
  match str with
  | EmptyString => EmptyString
  | String c s' => if Ascii.eqb c CHAR_WHITESPACE then TrimLeft s' else str
  end.

Definition TrimRight (str : string) : string :=
  String.substring 0
    (trim_last (λ c, Ascii.eqb c CHAR_WHITESPACE) str (String.length str)) str.

(** ** Tokenize.cpp *)

(** The [for] loop: [start] is the loop's variable, [tokens] what was emitted;
    each round moves [start] past a separator, so [length str + 1] rounds are
    enough. *)
Fixpoint Tokenize_loop (fuel : nat) (str : string) (sep : ascii) (keepEmpty : bool)
    (start : nat) (tokens : list string) : nat * list string :=
  match fuel with
  | O => (start, tokens)
  | S fuel =>
      match find_from sep str start with
      | None => (start, tokens)
      | Some end_ =>
          let tokens' :=
            if keepEmpty || (start <? end_)%nat
            then tokens ++ [String.substring start (end_ - start) str] else tokens in
          Tokenize_loop fuel str sep keepEmpty (S end_) tokens'
      end
  end.

Definition Tokenize (str : string) (sep : ascii) (keepEmpty : bool) : list string :=
  let '(start, tokens) := Tokenize_loop (S (String.length str)) str sep keepEmpty 0 [] in
  if keepEmpty || (start <? String.length str)%nat
  then tokens ++ [substr_from start str] else tokens.

(** Reference: the maximal separator-free pieces. *)
Fixpoint split_on (sep : ascii) (s : string) : list string :=
  match s with
  | EmptyString => [EmptyString]
  | String c s' =>
      if Ascii.eqb c sep then EmptyString :: split_on sep s'
      else match split_on sep s' with
           | t :: ts => String c t :: ts
           | [] => [String c EmptyString]
           end
  end.

Fixpoint join (sep : ascii) (ts : list string) : string :=
  match ts with
  | [] => EmptyString
  | [t] => t
  | t :: ts => t +:+ String sep (join sep ts)
  end.

Fixpoint no_char (c : ascii) (s : string) : bool :=
  match s with
  | EmptyString => true
  | String a s' => negb (Ascii.eqb a c) && no_char c s'
  end.

(** ** Util.cpp: comparison *)
Fixpoint StringEqualI (a b : string) : bool :=
  match a, b with
  | EmptyString, EmptyString => true
  | String c1 a', String c2 b' => Ascii.eqb (tolower c1) (tolower c2) && StringEqualI a' b'
  | _, _ => false
  end.

Fixpoint lower (s : string) : string :=
  match s with
  | EmptyString => EmptyString
  | String c s' => String (tolower c) (lower s')
  end.

(** ** Util.cpp: hexadecimal conversions

    The loops run on an [int32] index from [init] to [end] by [op]; a read or
    a write outside its array is a [Crash], and so is a loop that outlives its
    fuel (one more than the number of elements). *)
Definition hex_digit (upper : bool) (d : Z) : ascii :=
  if (d <? 10)%Z then ascii_of_nat (Z.to_nat (48 + d))
  else ascii_of_nat (Z.to_nat ((if upper then 55 else 87) + d)).

(** [sprintf(buffer, "%02X", b)] *)
Definition sprintf_02X (b : Z) : string :=
  String (hex_digit true (b / 16)) (String (hex_digit true (b mod 16)) EmptyString).

Definition read_at {A : Type} (get : nat → option A) (i : Z) : outcome Empty_set A :=
  match (if (0 <=? i)%Z then get (Z.to_nat i) else None) with
  | Some a => Done a
  | None => Crash "read out of bounds"
  end.

Fixpoint ByteArrayToHexStr_loop (fuel : nat) (bytes : list Z) (i end_ op : Z) (ss : string)
    : outcome Empty_set string :=
  if (i =? end_)%Z then Done ss
  else match fuel with
  | O => Crash "loop does not end"
  | S fuel =>
      b ← read_at (λ n, bytes !! n) i;
      ByteArrayToHexStr_loop fuel bytes (i + op) end_ op (ss +:+ sprintf_02X b)
  end.

Definition ByteArrayToHexStr (bytes : list Z) (reverse : bool) : outcome Empty_set string :=
  let arrayLen := Z.of_nat (length bytes) in
  let init := if reverse then wrap_s 32 (arrayLen - 1) else 0%Z in
  let end_ := if reverse then (-1)%Z else wrap_s 32 arrayLen in
  let op := if reverse then (-1)%Z else 1%Z in
  ByteArrayToHexStr_loop (S (length bytes)) bytes init end_ op EmptyString.

(** Value of one digit in a base up to 16, as [strtoul] and [from_chars] read it. *)
Definition digit_value (base : Z) (c : ascii) : option Z :=
  let n := Z.of_nat (nat_of_ascii c) in
  let v :=
    if (48 <=? n)%Z && (n <=? 57)%Z then Some (n - 48)%Z
    else if (65 <=? n)%Z && (n <=? 90)%Z then Some (n - 55)%Z
    else if (97 <=? n)%Z && (n <=? 122)%Z then Some (n - 87)%Z
    else None in
  match v with
  | Some d => if (d <? base)%Z then Some d else None
  | None => None
  end.

(** The longest prefix of digits: its value from [acc], how many digits, the rest. *)
Fixpoint parse_digits (base : Z) (s : string) (acc : Z) (count : nat) : Z * nat * string :=
  match s with
  | EmptyString => (acc, count, s)
  | String c s' =>
      match digit_value base c with
      | Some d => parse_digits base s' (acc * base + d) (S count)
      | None => (acc, count, s)
      end
  end.

Fixpoint skip_space (s : string) : string :=
  match s with
  | String c s' => if isspace c then skip_space s' else s
  | EmptyString => s
  end.

(** [strtoul(s, nullptr, 16)], 64-bit [unsigned long]. *)
Definition strtoul16 (s : string) : Z :=
  let s := skip_space s in
  let '(neg, s) :=
    match s with
    | String "-" s' => (true, s')
    | String "+" s' => (false, s')
    | _ => (false, s)
    end in
  let s :=
    match s with
    | String "0" (String x (String c _ as s')) =>
        if (Ascii.eqb x "x" || Ascii.eqb x "X") && bool_decide (is_Some (digit_value 16 c))
        then s' else s
    | _ => s
    end in
  let v := Z.min (parse_digits 16 s 0 0).1.1 (2 ^ 64 - 1) in
  if neg then wrap_u 64 (- v) else v.

Fixpoint HexStrToByteArray_loop (fuel : nat) (str : string) (i end_ op : Z) (j : nat)
    (out : list Z) : outcome Empty_set (list Z) :=
  if (i =? end_)%Z then Done out
  else match fuel with
  | O => Crash "loop does not end"
  | S fuel =>
      c0 ← read_at (at_ str) i;
      c1 ← read_at (at_ str) (i + 1);
      if (j <? length out)%nat then
        HexStrToByteArray_loop fuel str (i + 2 * op) end_ op (S j)
          (<[j := wrap_u 8 (strtoul16 (String c0 (String c1 EmptyString)))]> out)
      else Crash "write out of bounds"
  end.

Definition HexStrToByteArray (str : string) (out : list Z) (reverse : bool)
    : outcome Empty_set (list Z) :=
  let len := Z.of_nat (String.length str) in
  let init := if reverse then wrap_s 32 (len - 2) else 0%Z in
  let end_ := if reverse then (-2)%Z else wrap_s 32 len in
  let op := if reverse then (-1)%Z else 1%Z in
  HexStrToByteArray_loop (S (String.length str)) str init end_ op 0 out.

(** ** Util.h: case mapping of wide characters (code units of width 16) *)
Definition wcharToLower (wchar : Z) : Z :=
  (if (65 <=? wchar) && (wchar <=? 90) then wrap_u 16 wchar + 0x20
   else if (0xC0 <=? wchar) && (wchar <=? 0xD6) then wrap_u 16 wchar + 0x20
   else if (0xD8 <=? wchar) && (wchar <=? 0xDE) then wrap_u 16 wchar + 0x20
   else if ((0x100 <=? wchar) && (wchar <=? 0x12E)) && (wchar mod 2 =? 0)
        then wrap_u 16 wchar + 1
   else if wchar =? 0x1E9E then 0xDF
   else if wchar =? 0x401 then 0x451
   else if (0x410 <=? wchar) && (wchar <=? 0x42F) then wrap_u 16 wchar + 0x20
   else wchar)%Z.

Definition wcharToUpper (wchar : Z) : Z :=
  (if (97 <=? wchar) && (wchar <=? 122) then wrap_u 16 wchar - 0x20
   else if wchar =? 0xDF then 0x1E9E
   else if (0xE0 <=? wchar) && (wchar <=? 0xF6) then wrap_u 16 wchar - 0x20
   else if (0xF8 <=? wchar) && (wchar <=? 0xFE) then wrap_u 16 wchar - 0x20
   else if ((0x101 <=? wchar) && (wchar <=? 0x12F)) && (wchar mod 2 =? 1)
        then wrap_u 16 wchar - 1
   else if (0x430 <=? wchar) && (wchar <=? 0x44F) then wrap_u 16 wchar - 0x20
   else if wchar =? 0x451 then 0x401
   else wchar)%Z.

Definition wstrToLower (str : list Z) : list Z := wcharToLower <$> str.
Definition wstrToUpper (str : list Z) : list Z := wcharToUpper <$> str.

Example split_ex : Tokenize "a,,b," "," true = ["a"; ""; "b"; ""].
Proof. reflexivity. Qed.
Example trim_ex : Trim " 	a b  " = "a b".
Proof. reflexivity. Qed.
Example hex_ex : ByteArrayToHexStr [1;171]%Z true = Done "AB01".
Proof. reflexivity. Qed.
Example unhex_ex : HexStrToByteArray "AB01" [0;0]%Z true = Done [1;171]%Z.
Proof. reflexivity. Qed.
Example trim_ex2 : Trim "a b" = "a b" /\ Trim "   " = "" /\ TrimRight "x y  " = "x y".
Proof. repeat split. Qed.

(** ** Lemmas on strings *)
Lemma str_app_assoc (a b c : string) : (a +:+ b) +:+ c = a +:+ (b +:+ c).
Proof. induction a as [|x a IH]; [done|]. cbn. by rewrite IH. Qed.

Lemma str_app_nil_r (a : string) : a +:+ "" = a.
Proof. induction a as [|x a IH]; [done|]. cbn. by rewrite IH. Qed.

Lemma str_length_app (a b : string) :
  String.length (a +:+ b) = String.length a + String.length b.
Proof. induction a as [|x a IH]; [done|]. cbn. by rewrite IH. Qed.

Lemma substring_0_app (t rest : string) : String.substring 0 (String.length t) (t +:+ rest) = t.
Proof. induction t as [|x t IH]; [by destruct rest|]. cbn. by rewrite IH. Qed.

Lemma substring_app (pre t rest : string) :
  String.substring (String.length pre) (String.length t) (pre +:+ t +:+ rest) = t.
Proof. induction pre as [|x pre IH]; [exact (substring_0_app t rest)|done]. Qed.

Lemma substr_from_app (pre suf : string) : substr_from (String.length pre) (pre +:+ suf) = suf.
Proof.
  unfold substr_from. rewrite str_length_app.
  replace (_ + _ - _) with (String.length suf) by lia.
  pose proof (substring_app pre suf "") as H. by rewrite str_app_nil_r in H.
Qed.

Lemma find_from_app (c : ascii) (pre suf : string) :
  find_from c (pre +:+ suf) (String.length pre) = Nat.add (String.length pre) <$> find_from c suf 0.
Proof.
  induction pre as [|x pre IH]; cbn.
  - by destruct (find_from c suf 0).
  - rewrite IH. by destruct (find_from c suf 0).
Qed.

Lemma find_from_None (c : ascii) (s : string) : find_from c s 0 = None → no_char c s = true.
Proof.
  induction s as [|a s IH]; [done|]. cbn. destruct (Ascii.eqb a c); [done|].
  destruct (find_from c s 0) eqn:E; cbn; [done|]. auto.
Qed.

Lemma find_from_Some (c : ascii) (s : string) n :
  find_from c s 0 = Some n →
  ∃ t s', s = t +:+ String c s' ∧ String.length t = n ∧ no_char c t = true.
Proof.
  revert n. induction s as [|a s IH]; [done|]. cbn. intros n.
  destruct (Ascii.eqb a c) eqn:Ea.
  - apply Ascii.eqb_eq in Ea as ->. intros [= <-]. by exists "", s.
  - destruct (find_from c s 0) as [m|]; cbn; [|done]. intros [= <-].
    destruct (IH m) as (t & s' & -> & Ht & Hn); [done|].
    exists (String a t), s'. cbn. by rewrite Ht, Ea, Hn.
Qed.

Lemma find_from_intro (c : ascii) (t s : string) :
  no_char c t = true → find_from c (t +:+ String c s) 0 = Some (String.length t).
Proof.
  induction t as [|a t IH]; cbn.
  - by rewrite Ascii.eqb_refl.
  - destruct (Ascii.eqb a c); cbn; [done|]. intros H. by rewrite IH.
Qed.

Lemma no_char_find (c : ascii) (s : string) : no_char c s = true → find_from c s 0 = None.
Proof.
  induction s as [|a s IH]; [done|]. cbn. destruct (Ascii.eqb a c); cbn; [done|].
  intros H. by rewrite IH.
Qed.

(** ** [Tokenize] agrees with its reference *)
Lemma split_on_no_char (sep : ascii) (s : string) : no_char sep s = true → split_on sep s = [s].
Proof.
  induction s as [|a s IH]; [done|]. cbn. destruct (Ascii.eqb a sep); cbn; [done|].
  intros H. by rewrite IH.
Qed.

Lemma split_on_app (sep : ascii) (t s : string) :
  no_char sep t = true → split_on sep (t +:+ String sep s) = t :: split_on sep s.
Proof.
  induction t as [|a t IH]; cbn.
  - by rewrite Ascii.eqb_refl.
  - destruct (Ascii.eqb a sep); cbn; [done|]. intros H. by rewrite IH.
Qed.

Lemma split_on_nonempty (sep : ascii) (s : string) : split_on sep s ≠ [].
Proof. destruct s as [|c s]; [done|]. cbn. destruct (Ascii.eqb c sep); [done|]. by destruct split_on. Qed.

Lemma join_split_on (sep : ascii) (s : string) : join sep (split_on sep s) = s.
Proof.
  induction s as [|c s IH]; [done|]. cbn.
  destruct (Ascii.eqb c sep) eqn:E.
  - apply Ascii.eqb_eq in E as ->. pose proof (split_on_nonempty sep s).
    destruct (split_on sep s) eqn:Es; [done|]. cbn in *. by rewrite IH.
  - destruct (split_on sep s) as [|t [|t' ts]]; cbn in *; [by rewrite <- IH|by rewrite IH|].
    by rewrite <- IH.
Qed.

Lemma split_on_no_sep (sep : ascii) (s : string) : Forall (λ t, no_char sep t = true) (split_on sep s).
Proof.
  induction s as [|c s IH]; cbn; [by repeat constructor|].
  destruct (Ascii.eqb c sep) eqn:E; [by constructor|].
  destruct (split_on sep s); inversion_clear IH; repeat constructor; cbn; by rewrite ?E.
Qed.

Lemma split_on_join (sep : ascii) (ts : list string) :
  ts ≠ [] → Forall (λ t, no_char sep t = true) ts → split_on sep (join sep ts) = ts.
Proof.
  intros Hne H. induction H as [|t ts Ht Hts IH]; [done|].
  destruct ts as [|t' ts]; [by apply split_on_no_char|].
  change (join sep (t :: t' :: ts)) with (t +:+ String sep (join sep (t' :: ts))).
  rewrite split_on_app by done. by rewrite IH.
Qed.

Definition keep_token (keepEmpty : bool) (t : string) : bool := keepEmpty || negb (is_empty t).

Lemma start_lt_length (t : string) n : (n <? n + String.length t)%nat = negb (is_empty t).
Proof. destruct t; cbn; [apply Nat.ltb_ge|apply Nat.ltb_lt]; lia. Qed.

Lemma Tokenize_loop_spec fuel sep keep pre suf acc :
  String.length suf < fuel →
  let '(start, tokens) := Tokenize_loop fuel (pre +:+ suf) sep keep (String.length pre) acc in
  (if keep || (start <? String.length (pre +:+ suf))%nat
   then tokens ++ [substr_from start (pre +:+ suf)] else tokens)
  = acc ++ List.filter (keep_token keep) (split_on sep suf).
Proof.
  revert pre suf acc. induction fuel as [|fuel IH]; intros pre suf acc Hf; [lia|].
  cbn [Tokenize_loop]. rewrite find_from_app.
  destruct (find_from sep suf 0) as [n|] eqn:E; cbn [fmap option_fmap option_map].
  - apply find_from_Some in E as (t & s' & -> & <- & Hno).
    rewrite str_length_app in Hf; cbn in Hf.
    replace (String.length pre + String.length t - String.length pre)
      with (String.length t) by lia.
    rewrite substring_app, start_lt_length.
    specialize (IH (pre +:+ t +:+ String sep "") s').
    replace ((pre +:+ t +:+ String sep "") +:+ s') with (pre +:+ t +:+ String sep s') in IH
      by (by rewrite !str_app_assoc).
    replace (S (String.length pre + String.length t))
      with (String.length (pre +:+ t +:+ String sep ""))
      by (rewrite !str_length_app; cbn; lia).
    rewrite split_on_app by done. cbn [List.filter]. unfold keep_token at 1.
    destruct (keep || negb (is_empty t)); cbv iota.
    + specialize (IH (acc ++ [t]) ltac:(lia)). destruct Tokenize_loop. by rewrite IH, <- app_assoc.
    + specialize (IH acc ltac:(lia)). destruct Tokenize_loop. by rewrite IH.
  - apply find_from_None in E. rewrite split_on_no_char by done.
    rewrite substr_from_app, str_length_app, start_lt_length. cbn [List.filter].
    unfold keep_token. destruct (keep || negb (is_empty suf)); cbn; [done|]. by rewrite app_nil_r.
Qed.

Lemma Tokenize_filter (str : string) (sep : ascii) (keepEmpty : bool) :
  Tokenize str sep keepEmpty = List.filter (keep_token keepEmpty) (split_on sep str).
Proof.
  pose proof (Tokenize_loop_spec (S (String.length str)) sep keepEmpty "" str [] ltac:(lia)) as H.
  unfold Tokenize. change ("" +:+ str) with str in H. change (String.length "") with 0 in H.
  by destruct (Tokenize_loop _ _ _ _ 0 []).
Qed.

Lemma filter_keep_all (ts : list string) : List.filter (keep_token true) ts = ts.
Proof. induction ts as [|t ts IH]; [done|]. cbn. by rewrite IH. Qed.

(** ** The hexadecimal text of a byte array *)
Fixpoint hexstr (l : list Z) : string :=
  match l with
  | [] => EmptyString
  | b :: l => sprintf_02X b +:+ hexstr l
  end.

Definition is_byte (b : Z) : Prop := (0 ≤ b < 256)%Z.

Lemma hexstr_length l : String.length (hexstr l) = 2 * length l.
Proof. induction l as [|b l IH]; [done|]. cbn. rewrite IH. lia. Qed.

Lemma hexstr_get l k b :
  l !! k = Some b →
  at_ (hexstr l) (2 * k) = Some (hex_digit true (b / 16)) ∧
  at_ (hexstr l) (2 * k + 1) = Some (hex_digit true (b mod 16)).
Proof.
  revert k. induction l as [|b' l IH]; [done|]. intros [|k] Hk; cbn in Hk.
  - by simplify_eq.
  - replace (2 * S k) with (S (S (2 * k))) by lia. by apply IH.
Qed.

(** Reading two digits back gives the byte: a finite check. *)
Lemma strtoul16_byte b :
  is_byte b →
  strtoul16 (String (hex_digit true (b / 16)) (String (hex_digit true (b mod 16)) EmptyString)) = b.
Proof.
  intros [H0 H1].
  assert (forallb (λ n, let b := Z.of_nat n in
    Z.eqb (strtoul16 (String (hex_digit true (b / 16)) (String (hex_digit true (b mod 16)) EmptyString))) b)
    (seq 0 256) = true) as H by (vm_compute; reflexivity).
  rewrite forallb_forall in H. specialize (H (Z.to_nat b)).
  rewrite Z2Nat.id in H by done. apply Z.eqb_eq, H, in_seq. lia.
Qed.

Lemma ByteArrayToHexStr_loop_spec bytes end_ op l fuel i ss :
  length l ≤ fuel → op ≠ 0%Z → (i + Z.of_nat (length l) * op = end_)%Z →
  (∀ k b, l !! k = Some b →
     0 ≤ i + Z.of_nat k * op ∧ bytes !! Z.to_nat (i + Z.of_nat k * op) = Some b)%Z →
  ByteArrayToHexStr_loop fuel bytes i end_ op ss = Done (ss +:+ hexstr l).
Proof.
  revert fuel i ss. induction l as [|b l IH]; intros fuel i ss Hf Hop Hend Hget; cbn in Hf, Hend.
  - replace i with end_ by lia. destruct fuel; cbn; by rewrite Z.eqb_refl, str_app_nil_r.
  - destruct fuel as [|fuel]; [lia|]. cbn [ByteArrayToHexStr_loop].
    destruct (Z.eqb_spec i end_) as [->|_]; [nia|].
    destruct (Hget 0 b eq_refl) as [Hi Hb]. rewrite Z.mul_0_l, Z.add_0_r in Hi, Hb.
    unfold read_at. destruct (Z.leb_spec 0 i); [|lia]. rewrite Hb. cbn [mbind outcome_bind].
    rewrite IH; [by rewrite str_app_assoc|lia|done|lia|].
    intros k b' Hk. destruct (Hget (S k) b' Hk) as [? Hg].
    replace (i + op + Z.of_nat k * op)%Z with (i + Z.of_nat (S k) * op)%Z by lia. done.
Qed.

Lemma HexStrToByteArray_loop_spec str end_ op l fuel i j out :
  length l ≤ fuel → op ≠ 0%Z → (i + Z.of_nat (length l) * (2 * op) = end_)%Z →
  Forall is_byte l → j + length l ≤ length out →
  (∀ k b, l !! k = Some b →
     0 ≤ i + Z.of_nat k * (2 * op) ∧
     at_ str (Z.to_nat (i + Z.of_nat k * (2 * op))) = Some (hex_digit true (b / 16)) ∧
     at_ str (Z.to_nat (i + Z.of_nat k * (2 * op) + 1)) = Some (hex_digit true (b mod 16)))%Z →
  HexStrToByteArray_loop fuel str i end_ op j out
  = Done (take j out ++ l ++ drop (j + length l) out).
Proof.
  revert fuel i j out.
  induction l as [|b l IH]; intros fuel i j out Hf Hop Hend Hb Hout Hget; cbn in Hf, Hend.
  - replace i with end_ by lia. rewrite Nat.add_0_r; cbn [app].
    rewrite take_drop. destruct fuel; cbn; by rewrite Z.eqb_refl.
  - destruct fuel as [|fuel]; [lia|]. cbn [HexStrToByteArray_loop]. cbn in Hout.
    destruct (Z.eqb_spec i end_) as [->|_]; [nia|].
    apply Forall_cons in Hb as [Hb Hl].
    destruct (Hget 0 b eq_refl) as (Hi & H0 & H1). rewrite Z.mul_0_l, Z.add_0_r in Hi, H0, H1.
    unfold read_at. destruct (Z.leb_spec 0 i), (Z.leb_spec 0 (i + 1)); try lia.
    rewrite H0, H1. cbn [mbind outcome_bind].
    destruct (Nat.ltb_spec j (length out)); [|lia].
    rewrite strtoul16_byte, wrap_u_small by done.
    rewrite IH; [|lia|done|lia|done|rewrite length_insert; lia|].
    + f_equal. replace (take (S j) (<[j:=b]> out)) with (take j out ++ [b]).
      2:{ erewrite take_S_r by (apply list_lookup_insert_eq; lia). by rewrite take_insert_ge by lia. }
      rewrite <- app_assoc. cbn [app length]. rewrite drop_insert_lt by lia.
      by replace (S j + length l) with (j + S (length l)) by lia.
    + intros k b' Hk. destruct (Hget (S k) b' Hk) as (?&?&?).
      by replace (i + 2 * op + Z.of_nat k * (2 * op))%Z
        with (i + Z.of_nat (S k) * (2 * op))%Z by lia.
Qed.

Lemma ByteArrayToHexStr_eq bytes reverse_ :
  (Z.of_nat (length bytes) < 2 ^ 31)%Z →
  ByteArrayToHexStr bytes reverse_ = Done (hexstr (if reverse_ then reverse bytes else bytes)).
Proof.
  intros Hlen. unfold ByteArrayToHexStr. destruct reverse_.
  - rewrite wrap_s_small by lia.
    rewrite (ByteArrayToHexStr_loop_spec _ _ _ (reverse bytes)); [done|rewrite ?length_reverse; lia..|].
    intros k b Hk. pose proof (lookup_lt_Some _ _ _ Hk) as Hlt. rewrite length_reverse in Hlt.
    split; [lia|]. rewrite reverse_lookup in Hk by done. rewrite <- Hk. f_equal. lia.
  - rewrite wrap_s_small by lia.
    rewrite (ByteArrayToHexStr_loop_spec _ _ _ bytes); [done|lia..|].
    intros k b Hk. split; [lia|]. rewrite <- Hk. f_equal. lia.
Qed.

Lemma HexStrToByteArray_eq bytes out reverse_ :
  (Z.of_nat (length bytes) < 2 ^ 30)%Z → Forall is_byte bytes → length out = length bytes →
  HexStrToByteArray (hexstr bytes) out reverse_ = Done (if reverse_ then reverse bytes else bytes).
Proof.
  intros Hlen Hb Hout. unfold HexStrToByteArray. rewrite hexstr_length.
  assert (∀ l, length l = length out → take 0 out ++ l ++ drop (0 + length l) out = l) as Hall.
  { intros l Hl. rewrite Nat.add_0_l, drop_ge by lia. by rewrite app_nil_r. }
  destruct reverse_; rewrite wrap_s_small by lia.
  - rewrite (HexStrToByteArray_loop_spec _ _ _ (reverse bytes));
      [|rewrite ?length_reverse; try apply Forall_reverse; lia || done..|].
    + by rewrite Hall by (rewrite length_reverse; lia).
    + intros k b Hk. pose proof (lookup_lt_Some _ _ _ Hk) as Hlt. rewrite length_reverse in Hlt.
      split; [lia|]. rewrite reverse_lookup in Hk by done.
      apply hexstr_get in Hk as [<- <-]. split; f_equal; lia.
  - rewrite (HexStrToByteArray_loop_spec _ _ _ bytes); [|lia || done..|].
    + by rewrite Hall.
    + intros k b Hk. split; [lia|]. apply hexstr_get in Hk as [<- <-]. split; f_equal; lia.
Qed.

Lemma Forall_byte_reverse bytes : Forall is_byte bytes → Forall is_byte (reverse bytes).
Proof. apply Forall_reverse. Qed.

(** ** Trimming *)
Fixpoint all_char (p : ascii → bool) (s : string) : bool :=
  match s with
  | EmptyString => true
  | String c s' => p c && all_char p s'
  end.

Lemma trim_first_split p s :
  ∃ pre rest, s = pre +:+ rest ∧ String.length pre = trim_first p s ∧ all_char p pre = true ∧
    (∀ c, at_ rest 0 = Some c → p c = false).
Proof.
  induction s as [|c s (pre & rest & -> & Hl & Hp & Hr)]; cbn [trim_first].
  - by exists "", "".
  - destruct (p c) eqn:Hc.
    + exists (String c pre), rest. cbn. by rewrite Hl, Hc, Hp.
    + exists "", (String c (pre +:+ rest)). repeat split. cbn. by intros ? [= ->].
Qed.

Lemma trim_last_app p a b :
  all_char p b = true → trim_last p (a +:+ b) (String.length (a +:+ b)) = trim_last p (a +:+ b) (String.length a).
Proof.
  intros Hb. rewrite str_length_app.
  assert (∀ n, n ≤ String.length b →
    trim_last p (a +:+ b) (String.length a + n) = trim_last p (a +:+ b) (String.length a)) as H;
    [|by apply H].
  induction n as [|n IH]; intros Hn; [by rewrite Nat.add_0_r|].
  replace (String.length a + S n) with (S (String.length a + n)) by lia. cbn [trim_last].
  assert (at_ (a +:+ b) (String.length a + n) = at_ b n) as ->.
  { clear. induction a as [|x a IH]; [done|]. cbn. done. }
  destruct (at_ b n) as [c|] eqn:Hc; [|apply IH; lia].
  assert (p c = true) as ->; [|apply IH; lia].
  clear -Hb Hc. revert n Hc. induction b as [|x b IH]; [done|]. intros n Hc. cbn in Hb.
  apply andb_true_iff in Hb as [Hx Hb]. destruct n as [|n]; cbn in Hc; [congruence|eauto].
Qed.

(** Every string is a non-matching core followed by matching characters. *)
Lemma trim_last_split p s :
  ∃ core post, s = core +:+ post ∧ all_char p post = true ∧
    trim_last p s (String.length s) = String.length core ∧
    (core = "" ∨ ∃ core' c, core = core' +:+ String c "" ∧ p c = false).
Proof.
  induction s as [|c s (core & post & Hs & Hp & Hl & Hc)].
  - exists "", "". by repeat split; [left|..].
  - destruct Hc as [->|(core' & d & -> & Hd)].
    + cbn in Hs. subst post. destruct (p c) eqn:Hpc.
      * exists "", (String c s). repeat split; [cbn; by rewrite Hpc, Hp| |by left].
        apply (trim_last_app p "" (String c s)). cbn. by rewrite Hpc, Hp.
      * exists (String c ""), s. repeat split; [done| |right; by exists "", c].
        etransitivity; [by apply (trim_last_app p (String c "") s)|]. cbn. by rewrite Hpc.
    + exists (String c (core' +:+ String d "")), post. subst s. repeat split; [done| |].
      * change (String c ((core' +:+ String d "") +:+ post)) with ((String c (core' +:+ String d "")) +:+ post).
        rewrite trim_last_app by done. cbn [String.length].
        rewrite str_length_app. cbn [String.length]. rewrite Nat.add_1_r. cbn [trim_last].
        change (at_ (String c (core' +:+ String d "") +:+ post) (S (String.length core')))
          with (at_ ((core' +:+ String d "") +:+ post) (String.length core')).
        assert (at_ ((core' +:+ String d "") +:+ post) (String.length core') = Some d) as ->.
        { clear. induction core' as [|x l IH]; [done|]. cbn. done. }
        by rewrite Hd.
      * right. exists (String c core'), d. done.
Qed.

Lemma str_app_split a b c d :
  a +:+ b = c +:+ d → String.length a ≤ String.length c →
  ∃ m, c = a +:+ m ∧ b = m +:+ d.
Proof.
  revert c. induction a as [|x a IH]; intros c; cbn; [by exists c|].
  destruct c as [|y c]; cbn; [lia|]. intros [= -> Heq] Hl.
  destruct (IH c Heq ltac:(lia)) as (m & -> & ->). by exists m.
Qed.

Lemma all_char_app p a b : all_char p (a +:+ b) = all_char p a && all_char p b.
Proof. induction a as [|x a IH]; [done|]. cbn. by rewrite IH, andb_assoc. Qed.

Lemma str_length_0 s : String.length s = 0 → s = "".
Proof. by destruct s. Qed.

(** The string is [pre ++ Trim s ++ post] with white space around a result
    that neither starts nor ends with white space. *)
Lemma Trim_split (s : string) :
  ∃ pre post, s = pre +:+ Trim s +:+ post ∧ all_char isspace pre = true ∧
    all_char isspace post = true ∧
    (Trim s = "" ∨
      (∃ c r, Trim s = String c r ∧ isspace c = false) ∧
      (∃ r c, Trim s = r +:+ String c "" ∧ isspace c = false)).
Proof.
  unfold Trim.
  destruct (trim_first_split isspace s) as (pre & rest & Hs & Hpre & Hsp & Hhd). rewrite <- Hpre.
  destruct (Nat.eqb_spec (String.length pre) (String.length s)) as [He|Hne].
  { rewrite Hs, str_length_app in He. rewrite (str_length_0 rest) in Hs by lia.
    exists pre, "". rewrite str_app_nil_r in *. subst. by repeat split; [..|left]. }
  destruct (trim_last_split isspace s) as (core & post & Hs' & Hpost & Hlast & Hc). rewrite Hlast.
  destruct rest as [|c r]; [by rewrite Hs, str_app_nil_r in Hne|].
  specialize (Hhd c eq_refl).
  destruct (le_lt_dec (String.length core) (String.length pre)) as [Hle|Hlt].
  { destruct (str_app_split core post pre (String c r)) as (m & -> & ->); [congruence|done|].
    rewrite all_char_app in Hpost. cbn in Hpost. by rewrite Hhd, andb_false_r in Hpost. }
  destruct (str_app_split pre (String c r) core post) as (m & -> & Hm); [congruence|lia|].
  destruct m as [|c' m]; [rewrite str_app_nil_r in Hlt; lia|].
  injection Hm as <- ->.
  assert (∃ t d, String c m = t +:+ String d "" ∧ isspace d = false) as Hend.
  { destruct Hc as [Hc|(k & d & Hk & Hd)]; [by destruct pre|].
    destruct (str_app_split pre (String c m) k (String d "")) as (t & -> & Ht); [done| |eauto].
    apply (f_equal String.length) in Hk. rewrite !str_length_app in Hk. cbn in Hk. lia. }
  assert ((if negb (String.length pre =? 0)%nat || negb (String.length (pre +:+ String c m) =? String.length s)%nat
     then String.substring (String.length pre) (String.length (pre +:+ String c m) - String.length pre) s
     else s) = String c m) as ->.
  { rewrite Hs, !str_length_app.
    replace (String.length pre + String.length (String c m) - String.length pre)
      with (String.length (String c m)) by lia.
    destruct (Nat.eqb_spec (String.length pre) 0) as [H0|]; cbn [negb orb].
    - rewrite (str_length_0 pre) by done. destruct (Nat.eqb_spec
        (String.length "" + String.length (String c m))
        (String.length "" + String.length (String c (m +:+ post)))) as [H1|]; cbn [negb].
      + cbn in H1. rewrite str_length_app in H1.
        rewrite (str_length_0 post) by lia. by rewrite str_app_nil_r.
      + exact (substring_app "" (String c m) post).
    - exact (substring_app pre (String c m) post). }
  exists pre, post. rewrite Hs. repeat split; [done..|]. right. eauto.
Qed.

(** ** What [Trim] leaves alone *)
Definition trimmed (s : string) : bool := String.eqb (Trim s) s && negb (is_empty s).

Lemma all_char_prefix_unique p a c r a' c' r' :
  all_char p a = true → all_char p a' = true → p c = false → p c' = false →
  a +:+ String c r = a' +:+ String c' r' → a = a' ∧ String c r = String c' r'.
Proof.
  intros Ha Ha' Hc Hc'. revert a' Ha'. induction a as [|x a IH]; intros [|x' a'] Ha'; cbn in *.
  - done.
  - intros [= -> _]. apply andb_true_iff in Ha' as [? _]. congruence.
  - intros [= -> _]. apply andb_true_iff in Ha as [? _]. congruence.
  - intros [= -> Heq]. apply andb_true_iff in Ha as [_ Ha], Ha' as [_ Ha'].
    destruct (IH Ha a' Ha' Heq) as [-> ?]. done.
Qed.

Lemma all_char_suffix_le p core post r c post' :
  all_char p post = true → p c = false →
  String.length core ≤ String.length (r +:+ String c "") →
  core +:+ post = (r +:+ String c "") +:+ post' → core = r +:+ String c "".
Proof.
  intros Hp Hc Hl Heq. destruct (str_app_split _ _ _ _ Heq Hl) as (m & Hm & ->).
  destruct m as [|x m]; [by rewrite str_app_nil_r in Hm|]. exfalso.
  symmetry in Hm. destruct (str_app_split core (String x m) r (String c "")) as (k & -> & Hk); [done| |].
  { apply (f_equal String.length) in Hm. rewrite !str_length_app in Hm. cbn in Hm. lia. }
  rewrite Hk, !all_char_app in Hp. cbn in Hp. rewrite Hc in Hp.
  by rewrite andb_false_r in Hp.
Qed.

(** White space around a trimmed string is all that [Trim] removes. *)
Lemma Trim_app pre core post :
  all_char isspace pre = true → all_char isspace post = true → trimmed core = true →
  Trim (pre +:+ core +:+ post) = core.
Proof.
  intros Hpre Hpost [Hcore%String.eqb_eq Hne]%andb_true_iff.
  destruct (Trim_split core) as (? & ? & _ & _ & _ & [Hc|[(c & r & Hc & Hcs) (r2 & c2 & Hc2 & Hcs2)]]).
  { rewrite Hcore in Hc. by rewrite Hc in Hne. }
  rewrite Hcore in Hc, Hc2. clear Hcore.
  destruct (Trim_split (pre +:+ core +:+ post)) as (pre' & post' & Heq & Hpre' & Hpost' & Ht).
  set (T := Trim _) in *. clearbody T. destruct Ht as [->|[(d & k & Hd & Hds) (k2 & d2 & Hd2 & Hds2)]].
  { exfalso. apply (f_equal (all_char isspace)) in Heq. rewrite !all_char_app in Heq.
    rewrite Hc in Heq. cbn in Heq. by rewrite Hcs, Hpre', Hpost', andb_false_r in Heq. }
  assert (core +:+ post = T +:+ post') as Hct.
  { rewrite Hc, Hd in Heq. destruct (all_char_prefix_unique isspace pre c (r +:+ post) pre' d (k +:+ post'))
      as [_ Hx]; try done. rewrite Hc, Hd. exact Hx. }
  destruct (le_lt_dec (String.length core) (String.length T)) as [Hle|Hlt].
  - rewrite Hd2 in Hct, Hle. rewrite Hd2. symmetry. by apply (all_char_suffix_le isspace core post k2 d2 post').
  - rewrite Hc2 in Hct, Hlt. rewrite Hc2. apply (all_char_suffix_le isspace T post' r2 c2 post);
      [done|done|lia|done].
Qed.

(** ** Properties *)

(** [Tokenize] cuts a string at every separator: its result is the list of
    the maximal separator-free pieces, less the empty ones when [keepEmpty] is
    false; the pieces joined with the separator are the string again. *)
Theorem Tokenize_correct (str : string) (sep : ascii) (keepEmpty : bool) :
  Tokenize str sep keepEmpty = List.filter (keep_token keepEmpty) (split_on sep str) ∧
  Forall (λ t, no_char sep t = true) (Tokenize str sep true) ∧
  join sep (Tokenize str sep true) = str.
Proof.
  rewrite !Tokenize_filter, filter_keep_all.
  split; [done|]. split; [apply split_on_no_sep|apply join_split_on].
Qed.

(** [HexStrToByteArray] undoes [ByteArrayToHexStr], in either byte order:
    no loop runs on for ever, no index leaves its array, and the bytes come
    back. *)
Theorem hex_roundtrip (bytes out : list Z) (reverse_ : bool) :
  (Z.of_nat (length bytes) < 2 ^ 30)%Z → Forall is_byte bytes → length out = length bytes →
  (s ← ByteArrayToHexStr bytes reverse_; HexStrToByteArray s out reverse_) = Done bytes.
Proof.
  intros Hl Hb Ho. rewrite ByteArrayToHexStr_eq by lia. cbn [mbind outcome_bind].
  destruct reverse_.
  - rewrite HexStrToByteArray_eq by (rewrite ?length_reverse; try apply Forall_byte_reverse; done).
    by rewrite reverse_involutive.
  - by apply HexStrToByteArray_eq.
Qed.

Lemma hex_roundtrip_witness :
  (s ← ByteArrayToHexStr [0; 31; 255]%Z true; HexStrToByteArray s [9; 9; 9]%Z true)
  = Done [0; 31; 255]%Z.
Proof.
  apply (hex_roundtrip [0; 31; 255]%Z [9; 9; 9]%Z true);
    [reflexivity|repeat constructor; lia|reflexivity].
Defined.

(** [Trim] removes exactly the white space around a string: the string is
    white space, the result and white space again, and the result is empty or
    starts and ends with characters that are not white space. *)
Theorem Trim_correct (s : string) :
  ∃ pre post, s = pre +:+ Trim s +:+ post ∧ all_char isspace pre = true ∧
    all_char isspace post = true ∧
    (Trim s = "" ∨
      (∃ c r, Trim s = String c r ∧ isspace c = false) ∧
      (∃ r c, Trim s = r +:+ String c "" ∧ isspace c = false)).
Proof. apply Trim_split. Qed.

(** A code unit that [wcharToLower] changes is one of finitely many. *)
Lemma wcharToLower_small (w : Z) :
  wcharToLower w ≠ w → (65 ≤ w < 0x42F + 1)%Z ∨ w = 0x1E9E%Z.
Proof.
  unfold wcharToLower. intros H. repeat (split_match; [lia|]). lia.
Qed.

Lemma wcharToLower_table (w : Z) :
  wcharToLower w ≠ w →
  wcharToUpper (wcharToLower w) = w ∧ wcharToLower (wcharToLower w) = wcharToLower w.
Proof.
  intros Hne.
  assert (∀ l, forallb (λ n, let w := Z.of_nat n in
    Z.eqb (wcharToLower w) w || (Z.eqb (wcharToUpper (wcharToLower w)) w &&
      Z.eqb (wcharToLower (wcharToLower w)) (wcharToLower w))) l = true →
    Z.to_nat w ∈ l → (0 ≤ w)%Z →
    wcharToUpper (wcharToLower w) = w ∧ wcharToLower (wcharToLower w) = wcharToLower w) as Htab.
  { intros l Hl Hin Hw. rewrite forallb_forall in Hl. specialize (Hl (Z.to_nat w)).
    rewrite Z2Nat.id in Hl by done. rewrite list_elem_of_In in Hin. specialize (Hl Hin).
    apply orb_true_iff in Hl as [Hl|Hl]; [by apply Z.eqb_eq in Hl|].
    by apply andb_true_iff in Hl as [?%Z.eqb_eq ?%Z.eqb_eq]. }
  destruct (wcharToLower_small w Hne) as [Hr| ->].
  - apply (Htab (seq 65 (0x430 - 65))); [by vm_compute| |lia]. apply elem_of_seq. lia.
  - by vm_compute.
Qed.

(** Lower case is a normal form: [wcharToLower] is idempotent on every wide
    character, and [wcharToUpper] takes back every character it changes, so
    that [wstrToLower] is idempotent as well. *)
Theorem wcharToLower_correct (w : Z) :
  wcharToLower (wcharToLower w) = wcharToLower w ∧
  (wcharToLower w = w ∨ wcharToUpper (wcharToLower w) = w) ∧
  (∀ s, wstrToLower (wstrToLower s) = wstrToLower s).
Proof.
  assert (∀ v, wcharToLower (wcharToLower v) = wcharToLower v) as Hid.
  { intros v. destruct (decide (wcharToLower v = v)) as [He|Hne]; [by rewrite !He|].
    by apply wcharToLower_table. }
  split; [apply Hid|]. split.
  - destruct (decide (wcharToLower w = w)); [by left|right]. by apply wcharToLower_table.
  - intros s. unfold wstrToLower. rewrite <- list_fmap_compose. apply list_fmap_ext.
    intros i v _. apply Hid.
Qed.
