(* ===== verification/Convert.v ===== *)
(** * String conversions: common/Utilities/StringConvert.h

    [StringTo] and [ToString] for the integral types, which are given by their
    width and their sign, and for [bool].  [std::from_chars] and [std::to_chars]
    are the standard library's: an optional minus sign (signed types only), then
    the longest run of digits; a value out of the type's range is an error. *)
From S2P Require Import Prelude CppString.

(** ** Integral types *)
Record int_type := mk_int_type { it_signed : bool; it_width : Z }.
Definition uint8 : int_type := mk_int_type false 8.
Definition uint16 : int_type := mk_int_type false 16.
Definition uint32 : int_type := mk_int_type false 32.
Definition uint64 : int_type := mk_int_type false 64.
Definition int8 : int_type := mk_int_type true 8.
Definition int16 : int_type := mk_int_type true 16.
Definition int32 : int_type := mk_int_type true 32.
Definition int64 : int_type := mk_int_type true 64.

Definition it_min (t : int_type) : Z := if it_signed t then (- 2 ^ (it_width t - 1))%Z else 0%Z.
Definition it_max (t : int_type) : Z :=
  if it_signed t then (2 ^ (it_width t - 1) - 1)%Z else (2 ^ it_width t - 1)%Z.
Definition in_range (t : int_type) (v : Z) : bool := ((it_min t <=? v) && (v <=? it_max t))%Z.

(** ** std::from_chars and std::to_chars *)

(** [from_chars(start, end, val, base)]: the value if [ec] is success, and the
    text from [ptr] on. *)
Definition from_chars (t : int_type) (str : string) (base : Z) : option Z * string :=
  let '(neg, digits) :=
    match str with
    | String "-" rest => if it_signed t then (true, rest) else (false, str)
    | _ => (false, str)
    end in
  let '(v, count, rest) := parse_digits base digits 0 0 in
  if (count =? 0)%nat then (None, str)
  else
    let v := if neg then (- v)%Z else v in
    if in_range t v then (Some v, rest) else (None, rest).

Definition digit_char (d : Z) : ascii := ascii_of_nat (Z.to_nat (48 + d)).

(** The decimal digits of [n], put in front of [acc]. *)
Fixpoint print_digits (fuel : nat) (n : Z) (acc : string) : string :=
  match fuel with
  | O => acc
  | S fuel =>
      let acc := String (digit_char (n mod 10)) acc in
      if (n <? 10)%Z then acc else print_digits fuel (n / 10) acc
  end.

Definition print_nat (n : Z) : string := print_digits (S (Z.to_nat (Z.log2 n))) n EmptyString.
Definition print_Z (z : Z) : string :=
  if (z <? 0)%Z then String "-" (print_nat (- z)) else print_nat z.

(** ** StringConvert.h *)
Definition FromString (t : int_type) (str : string) (base : Z) : option Z :=
  let res :=
    if (base =? 0)%Z then
      let prefix := String.substring 0 2 str in
      let '(base, str) :=
        if StringEqualI prefix "0x" then (16%Z, substr_from 2 str)
        else if StringEqualI prefix "0b" then (2%Z, substr_from 2 str)
        else (10%Z, str) in
      if is_empty str then None else Some (base, str)
    else Some (base, str) in
  '(base, str) ← res;
  match from_chars t str base with
  | (Some val, EmptyString) => Some val
  | _ => None
  end.

(** The buffer has 20 characters. *)
Definition ToString (val : Z) : outcome Empty_set string :=
  let s := print_Z val in
  _ ← assert (String.length s <=? 20)%nat "res.ec == std::errc()";
  Done s.

Definition FromString_bool (str : string) (strict : bool) : option bool :=
  if strict then
    if String.eqb str "1" then Some true else if String.eqb str "0" then Some false else None
  else if String.eqb str "1" || StringEqualI str "y" || StringEqualI str "on"
          || StringEqualI str "yes" || StringEqualI str "true" then Some true
  else if String.eqb str "0" || StringEqualI str "n" || StringEqualI str "off"
          || StringEqualI str "no" || StringEqualI str "false" then Some false
  else None.

Definition ToString_bool (val : bool) : string := if val then "1" else "0".

(** [StringTo<T>(str)]: base 10 by default. *)
Definition StringTo (t : int_type) (str : string) : option Z := FromString t str 10.

Example FromString_ex1 : FromString uint8 "0xfF" 0 = Some 255%Z /\ FromString uint8 "256" 10 = None
  /\ FromString int8 "-128" 10 = Some (-128)%Z /\ FromString uint8 "-1" 10 = None
  /\ FromString uint32 "0b101" 0 = Some 5%Z /\ FromString uint32 "12a" 10 = None.
Proof. repeat split. Qed.

(** ** Lemmas *)
Lemma digit_value_char d : (0 ≤ d < 10)%Z → digit_value 10 (digit_char d) = Some d.
Proof.
  intros Hd. assert (d = 0 ∨ d = 1 ∨ d = 2 ∨ d = 3 ∨ d = 4 ∨ d = 5 ∨ d = 6 ∨ d = 7 ∨ d = 8 ∨ d = 9)%Z
    as H by lia. by decompose [or] H; subst.
Qed.

Lemma parse_print_digits fuel n acc a c :
  (0 ≤ n < 2 ^ Z.of_nat fuel)%Z →
  ∃ k, 1 ≤ k ∧ parse_digits 10 (print_digits fuel n acc) a c
    = parse_digits 10 acc (a * 10 ^ Z.of_nat k + n) (c + k) ∨ fuel = 0.
Proof.
  revert n acc a c. induction fuel as [|fuel IH]; intros n acc a c Hn; [exists 0; by right|].
  cbn [print_digits]. pose proof (Z.mod_pos_bound n 10 ltac:(lia)) as Hm.
  destruct (Z.ltb_spec n 10) as [Hlt|Hge].
  - exists 1. left. split; [lia|]. cbn [parse_digits]. rewrite digit_value_char by lia.
    rewrite Z.mod_small by lia. f_equal; lia.
  - assert (0 ≤ n / 10 < 2 ^ Z.of_nat fuel)%Z as Hq.
    { split; [apply Z.div_pos; lia|]. rewrite Nat2Z.inj_succ, Z.pow_succ_r in Hn by lia.
      apply Z.div_lt_upper_bound; lia. }
    destruct (IH (n / 10)%Z (String (digit_char (n mod 10)) acc) a c Hq) as (k & [[Hk Hp]|Hf]).
    + exists (S k). left. split; [lia|]. rewrite Hp. cbn [parse_digits].
      rewrite digit_value_char by lia. f_equal; [|lia].
      rewrite Nat2Z.inj_succ, Z.pow_succ_r by lia.
      pose proof (Z.div_mod n 10 ltac:(lia)). lia.
    + subst fuel. cbn in Hq. lia.
Qed.

Lemma print_fuel n : (0 ≤ n)%Z → (0 ≤ n < 2 ^ Z.of_nat (S (Z.to_nat (Z.log2 n))))%Z.
Proof.
  intros Hn. rewrite Nat2Z.inj_succ, Z2Nat.id by apply Z.log2_nonneg.
  destruct (decide (n = 0)%Z) as [->|]; [done|]. pose proof (Z.log2_spec n ltac:(lia)). lia.
Qed.

Lemma parse_print_nat n :
  (0 ≤ n)%Z → ∃ k, 1 ≤ k ∧ parse_digits 10 (print_nat n) 0 0 = (n, k, EmptyString).
Proof.
  intros Hn.
  destruct (parse_print_digits (S (Z.to_nat (Z.log2 n))) n EmptyString 0 0 (print_fuel n Hn))
    as (k & [[Hk Hp]|?]); [|done].
  exists k. split; [done|]. unfold print_nat. rewrite Hp. cbn. f_equal.
Qed.

Lemma print_digits_length fuel n acc D :
  (n < 10 ^ Z.of_nat D)%Z → 1 ≤ D → (0 ≤ n)%Z →
  String.length (print_digits fuel n acc) ≤ D + String.length acc.
Proof.
  revert n acc D. induction fuel as [|fuel IH]; intros n acc D Hn HD H0; cbn [print_digits]; [lia|].
  destruct (Z.ltb_spec n 10) as [|Hge]; [cbn; lia|].
  destruct D as [|[|D]]; [lia|cbn in Hn; lia|].
  assert (n / 10 < 10 ^ Z.of_nat (S D))%Z.
  { apply Z.div_lt_upper_bound; [lia|]. rewrite Nat2Z.inj_succ, Z.pow_succ_r in Hn by lia. lia. }
  pose proof (IH (n / 10)%Z (String (digit_char (n mod 10)) acc) (S D)
    ltac:(done) ltac:(lia) ltac:(apply Z.div_pos; lia)). cbn in *. lia.
Qed.

(** The first character of a number is a digit. *)
Lemma print_nat_head n : (0 ≤ n)%Z → ∃ c rest, print_nat n = String c rest ∧ c ≠ "-"%char.
Proof.
  intros Hn. destruct (parse_print_nat n Hn) as (k & Hk & Hp).
  destruct (print_nat n) as [|c rest]; cbn in Hp; [injection Hp as _ <-; lia|].
  exists c, rest. split; [done|]. intros ->. cbn in Hp. injection Hp as _ <-. lia.
Qed.

Lemma StringTo_print t z :
  in_range t z = true → StringTo t (print_Z z) = Some z.
Proof.
  intros Hr. unfold StringTo, FromString. cbn [Z.eqb]. cbn [mbind option_bind].
  unfold print_Z, from_chars. destruct (Z.ltb_spec z 0) as [Hneg|Hpos].
  - assert (it_signed t = true) as ->.
    { destruct (it_signed t) eqn:E; [done|]. unfold in_range, it_min in Hr. rewrite E in Hr. lia. }
    destruct (parse_print_nat (- z) ltac:(lia)) as (k & Hk & Hp). rewrite Hp.
    destruct (Nat.eqb_spec k 0); [lia|]. rewrite Z.opp_involutive. by rewrite Hr.
  - destruct (print_nat_head z Hpos) as (c & rest & He & Hc).
    destruct (parse_print_nat z Hpos) as (k & Hk & Hp).
    assert (∀ (A : Type) (x : A) (f : string → A),
      match print_nat z with String "-" r => f r | _ => x end = x) as Hm.
    { intros A x f. rewrite He. destruct c as [[] [] [] [] [] [] [] []]; done. }
    rewrite (Hm _ (false, print_nat z) (λ r, if it_signed t then (true, r) else (false, print_nat z))).
    rewrite Hp. destruct (Nat.eqb_spec k 0); [lia|]. by rewrite Hr.
Qed.

Lemma ToString_fits t z :
  (0 < it_width t ≤ 64)%Z → in_range t z = true → ToString z = Done (print_Z z).
Proof.
  intros Hw Hr. unfold ToString.
  assert (String.length (print_Z z) ≤ 20) as Hl; [|by apply Nat.leb_le in Hl as ->].
  unfold in_range, it_min, it_max in Hr.
  assert (2 ^ (it_width t - 1) ≤ 2 ^ 63)%Z by (apply Z.pow_le_mono_r; lia).
  assert (2 ^ it_width t ≤ 2 ^ 64)%Z by (apply Z.pow_le_mono_r; lia).
  unfold print_Z. destruct (Z.ltb_spec z 0) as [Hneg|Hpos].
  - cbn. pose proof (print_digits_length (S (Z.to_nat (Z.log2 (- z)))) (- z) EmptyString 19) as Hl.
    unfold print_nat. cbn in Hl |- *. destruct (it_signed t); lia.
  - pose proof (print_digits_length (S (Z.to_nat (Z.log2 z))) z EmptyString 20) as Hl.
    unfold print_nat. cbn in Hl |- *. destruct (it_signed t); lia.
Qed.

(** The text of an integer holds digits and a sign only. *)
Lemma no_char_print_digits c fuel n acc :
  isdigit c = false → (0 ≤ n)%Z → no_char c (print_digits fuel n acc) = no_char c acc.
Proof.
  intros Hc. revert n acc. induction fuel as [|fuel IH]; intros n acc Hn; [done|].
  cbn [print_digits]. assert (Ascii.eqb (digit_char (n mod 10)) c = false) as Hd.
  { apply Ascii.eqb_neq. intros <-. pose proof (Z.mod_pos_bound n 10 ltac:(lia)).
    unfold digit_char, isdigit in Hc. rewrite Ascii.nat_ascii_embedding in Hc by lia.
    apply andb_false_iff in Hc. rewrite !Nat.leb_gt in Hc. lia. }
  case_match.
  - cbn. by rewrite Hd.
  - rewrite IH by (apply Z.div_pos; lia). cbn. by rewrite Hd.
Qed.

Lemma no_char_print_Z c z : isdigit c = false → c ≠ "-"%char → no_char c (print_Z z) = true.
Proof.
  intros Hc Hm. unfold print_Z, print_nat. case_match.
  - cbn [no_char]. rewrite no_char_print_digits by (try done; lia).
    assert (Ascii.eqb "-" c = false) as ->; [|done]. apply Ascii.eqb_neq. congruence.
  - by rewrite no_char_print_digits by (try done; lia).
Qed.

(** ** Properties *)

(** Round trip at every width up to 64 and either sign: [ToString] fits its
    buffer of 20 characters, and [StringTo] reads the value back. *)
Theorem StringTo_ToString (t : int_type) (v : Z) :
  (0 < it_width t ≤ 64)%Z → in_range t v = true →
  ∃ s, ToString v = Done s ∧ StringTo t s = Some v.
Proof.
  intros Hw Hr. exists (print_Z v). split; [by eapply ToString_fits|by apply StringTo_print].
Qed.

Lemma StringTo_ToString_witness :
  ∃ s, ToString (-9223372036854775808) = Done s ∧ StringTo int64 s = Some (-9223372036854775808)%Z.
Proof. apply (StringTo_ToString int64); [cbn; lia|reflexivity]. Defined.

(** [StringTo] never wraps around: whatever the text and the base, a value
    it returns is in the range of the type. *)
Theorem FromString_in_range (t : int_type) (str : string) (base v : Z) :
  FromString t str base = Some v → in_range t v = true.
Proof.
  unfold FromString. intros ([base' str'] & _ & H)%bind_Some. revert H. unfold from_chars.
  destruct (match str' with String "-" rest => _ | _ => _ end) as [neg digits].
  destruct (parse_digits base' digits 0 0) as [[u k] rest].
  destruct (k =? 0)%nat; [done|]. destruct (in_range t _) eqn:Hr; [|done].
  destruct rest; [|done]. by intros [= <-].
Qed.

Lemma FromString_in_range_witness : in_range int8 (-128) = true.
Proof. apply (FromString_in_range int8 "-128" 10). reflexivity. Defined.
