(* ===== verification/Timer.v ===== *)
(** * Durations as text: common/Utilities/Timer.cpp and Timer.h

    [ToTimeString] with its integers at their widths: the count of a
    [Microseconds] is a 64-bit signed integer, the units are [uint64] (a quotient
    by a [uint64] constant first converts the count), [AddOut] takes a
    [uint32]. *)
From S2P Require Import Prelude CppString Convert.

Definition MILLISECONDS : Z := 1000.
Definition SECONDS : Z := 1000 * MILLISECONDS.
Definition MINUTES : Z := 60 * SECONDS.
Definition HOURS : Z := 60 * MINUTES.
Definition DAYS : Z := 24 * HOURS.

Inductive TimeFormat := FullText | ShortText | Numeric.

Record time_units := mk_time_units {
  days : Z; hours : Z; minutes : Z; secs : Z; millisecs : Z; microsecs : Z;
}.

Definition split_time (count : Z) : time_units :=
  let u := wrap_u 64 count in
  mk_time_units
    (u / DAYS) ((u / HOURS) mod 24) ((u / MINUTES) mod 60) ((u / SECONDS) mod 60)
    ((u / MILLISECONDS) mod 1000) (wrap_u 64 (Z.rem count 1000)).

(** What the two lambdas capture by reference. *)
Record out_state := mk_out_state { out : string; count_ : Z; isFirst : bool }.

Definition print_pad2 (n : Z) : string := if (n <? 10)%Z then "0" +:+ print_Z n else print_Z n.

Definition AddOutNumerlic (outCount time : Z) (s : out_state) : out_state :=
  if (outCount <=? count_ s)%Z then s
  else if negb (isFirst s)
  then mk_out_state (out s +:+ print_Z time +:+ ":") (wrap_u 8 (count_ s + 1)) true
  else mk_out_state (out s +:+ print_pad2 time +:+ ":") (wrap_u 8 (count_ s + 1)) true.

Definition AddOut (timeFormat : TimeFormat) (outCount timeCount : Z)
    (shortText fullText1 fullText : string) (s : out_state) : out_state :=
  let timeCount := wrap_u 32 timeCount in
  if (outCount <=? count_ s)%Z then s
  else
    let suffix :=
      match timeFormat with
      | ShortText => shortText
      | FullText => if (timeCount =? 1)%Z then fullText1 else fullText
      | Numeric => "<Unknown time format>"
      end in
    mk_out_state (out s +:+ print_Z timeCount +:+ suffix) (wrap_u 8 (count_ s + 1)) (isFirst s).

(** [if (unit) add(unit)] *)
Definition if_unit (u : Z) (add : Z → out_state → out_state) (s : out_state) : out_state :=
  if (u =? 0)%Z then s else add u s.

Definition ToTimeString (durationTime outCount : Z) (timeFormat : TimeFormat) : string :=
  let t := split_time durationTime in
  let s := mk_out_state "" 0 false in
  match timeFormat with
  | Numeric =>
      let s := if_unit (days t) (AddOutNumerlic outCount) s in
      let s := if_unit (hours t) (AddOutNumerlic outCount) s in
      let s := if_unit (minutes t) (AddOutNumerlic outCount) s in
      let s := if_unit (secs t) (AddOutNumerlic outCount) s in
      let s := if_unit (millisecs t) (AddOutNumerlic outCount) s in
      let s := if_unit (microsecs t) (AddOutNumerlic outCount) s in
      if is_empty (out s) then out s
      else String.substring 0 (String.length (out s) - 1) (out s)
  | _ =>
      let add := AddOut timeFormat outCount in
      let s := if_unit (days t) (λ u, add u "d " " Day " " Days ") s in
      let s := if_unit (hours t) (λ u, add u "h " " Hour " " Hours ") s in
      let s := if_unit (minutes t) (λ u, add u "m " " Minute " " Minutes ") s in
      let s := if_unit (secs t) (λ u, add u "s " " Second " " Seconds ") s in
      let s := if_unit (millisecs t) (λ u, add u "ms " " Millisecond " " Milliseconds ") s in
      let s := if_unit (microsecs t) (λ u, add u "us " " Microsecond " " Microseconds ") s in
      TrimRight (out s)
  end.

Definition GetMSTimeDiff (oldMSTime newMSTime : Z) : Z :=
  if (newMSTime <? oldMSTime)%Z then (oldMSTime - newMSTime)%Z else (newMSTime - oldMSTime)%Z.

Example ToTimeString_ex :
  ToTimeString 93784005006 3 ShortText = "1d 2h 3m" /\
  ToTimeString 93784005006 6 FullText
    = "1 Day 2 Hours 3 Minutes 4 Seconds 5 Milliseconds 6 Microseconds" /\
  ToTimeString 93784005006 6 Numeric = "1:02:03:04:05:06".
Proof. by vm_compute. Qed.

(** Zero units are skipped in the numeric format too: an hour and five seconds
    reads like a minute and five seconds. *)
Example Numeric_ambiguous :
  ToTimeString 3605000000 6 Numeric = "1:05" /\ ToTimeString 65000000 6 Numeric = "1:05".
Proof. by vm_compute. Qed.

(** ** The reference: the leading non-zero units, in order *)
Record unit_text := mk_unit_text { ut_value : Z; ut_short : string; ut_one : string; ut_full : string }.

Definition unit_texts (t : time_units) : list unit_text :=
  [mk_unit_text (days t) "d " " Day " " Days "; mk_unit_text (hours t) "h " " Hour " " Hours ";
   mk_unit_text (minutes t) "m " " Minute " " Minutes "; mk_unit_text (secs t) "s " " Second " " Seconds ";
   mk_unit_text (millisecs t) "ms " " Millisecond " " Milliseconds ";
   mk_unit_text (microsecs t) "us " " Microsecond " " Microseconds "].

Definition show_unit (full : bool) (u : unit_text) : string :=
  print_Z (ut_value u) +:+
  if full then if (ut_value u =? 1)%Z then ut_one u else ut_full u else ut_short u.

Fixpoint concat_str (l : list string) : string :=
  match l with [] => EmptyString | s :: l => s +:+ concat_str l end.

Definition nonzero (u : unit_text) : bool := negb (ut_value u =? 0)%Z.

Definition reference_text (full : bool) (outCount : Z) (t : time_units) : string :=
  concat_str (show_unit full <$> take (Z.to_nat outCount) (List.filter nonzero (unit_texts t))).

Definition add_unit (fmt : TimeFormat) (outCount : Z) (s : out_state) (u : unit_text) : out_state :=
  if_unit (ut_value u) (λ v, AddOut fmt outCount v (ut_short u) (ut_one u) (ut_full u)) s.

Lemma ToTimeString_fold d outCount full :
  ToTimeString d outCount (if full : bool then FullText else ShortText)
  = TrimRight (out (foldl (add_unit (if full then FullText else ShortText) outCount)
      (mk_out_state "" 0 false) (unit_texts (split_time d)))).
Proof. by destruct full. Qed.

Lemma take_0_nat {A} (l : list A) n : n = 0 → take n l = [].
Proof. by intros ->. Qed.

Lemma add_units_spec full outCount l s :
  (0 ≤ outCount < 256)%Z → (0 ≤ count_ s)%Z → (count_ s + Z.of_nat (length l) < 256)%Z →
  Forall (λ u, 0 ≤ ut_value u < 2 ^ 32)%Z l →
  out (foldl (add_unit (if full : bool then FullText else ShortText) outCount) s l)
  = out s +:+ concat_str (show_unit full <$>
      take (Z.to_nat (outCount - count_ s)) (List.filter nonzero l)).
Proof.
  intros Ho. revert s. induction l as [|u l IH]; intros s Hc Hl Hall.
  { cbn. by rewrite firstn_nil; cbn; rewrite str_app_nil_r. }
  apply Forall_cons in Hall as [Hu Hall]. rewrite length_cons in Hl. cbn [foldl List.filter].
  unfold add_unit at 2, if_unit. unfold nonzero at 1.
  destruct (Z.eqb_spec (ut_value u) 0) as [Hz|Hz]; cbn [negb]; [apply IH; [done|lia|done]|].
  unfold AddOut. rewrite wrap_u_small by done.
  destruct (Z.leb_spec outCount (count_ s)) as [Hle|Hlt].
  - rewrite IH by (done || lia). by rewrite !take_0_nat by lia.
  - rewrite wrap_u_small by lia. rewrite IH by (cbn; done || lia). cbn [out count_].
    replace (Z.to_nat (outCount - count_ s)) with (S (Z.to_nat (outCount - (count_ s + 1)))) by lia.
    cbn [take fmap list_fmap concat_str]. rewrite str_app_assoc. f_equal. unfold show_unit.
    by destruct full.
Qed.

Lemma split_time_units d :
  (0 ≤ d < 2 ^ 63)%Z →
  let t := split_time d in
  (d = (((((days t * 24 + hours t) * 60 + minutes t) * 60 + secs t) * 1000 + millisecs t) * 1000
        + microsecs t) ∧
   0 ≤ days t < 2 ^ 32 ∧ 0 ≤ hours t < 24 ∧ 0 ≤ minutes t < 60 ∧ 0 ≤ secs t < 60 ∧
   0 ≤ millisecs t < 1000 ∧ 0 ≤ microsecs t < 1000)%Z.
Proof.
  intros Hd. unfold split_time. cbn zeta. cbn [days hours minutes secs millisecs microsecs].
  rewrite (wrap_u_small 64 d) by lia. rewrite Z.rem_mod_nonneg by lia.
  pose proof (Z.mod_pos_bound d 1000 ltac:(lia)). rewrite (wrap_u_small 64 (d mod 1000)) by lia.
  unfold DAYS, HOURS, MINUTES, SECONDS, MILLISECONDS. cbn [Z.mul Pos.mul].
  change (24 * (60 * (60 * (1000 * 1000))))%Z with 86400000000%Z.
  change (60 * (60 * (1000 * 1000)))%Z with 3600000000%Z.
  change (60 * (1000 * 1000))%Z with 60000000%Z. change (1000 * 1000)%Z with 1000000%Z.
  replace 86400000000%Z with (1000 * 1000 * 60 * 60 * 24)%Z by lia.
  replace 3600000000%Z with (1000 * 1000 * 60 * 60)%Z by lia.
  replace 60000000%Z with (1000 * 1000 * 60)%Z by lia.
  replace 1000000%Z with (1000 * 1000)%Z by lia.
  rewrite <- !Z.div_div by lia.
  set (a := (d / 1000)%Z). set (b := (a / 1000)%Z). set (c := (b / 60)%Z). set (e := (c / 60)%Z).
  pose proof (Z.div_mod d 1000 ltac:(lia)). pose proof (Z.div_mod a 1000 ltac:(lia)).
  pose proof (Z.div_mod b 60 ltac:(lia)). pose proof (Z.div_mod c 60 ltac:(lia)).
  pose proof (Z.div_mod e 24 ltac:(lia)).
  pose proof (Z.mod_pos_bound a 1000 ltac:(lia)). pose proof (Z.mod_pos_bound b 60 ltac:(lia)).
  pose proof (Z.mod_pos_bound c 60 ltac:(lia)). pose proof (Z.mod_pos_bound e 24 ltac:(lia)).
  split; [lia|]. repeat split; try (apply Z.mod_pos_bound; lia); lia.
Qed.

(** ** Properties *)

(** A duration that is not negative is split without loss into days, hours,
    minutes, seconds, milliseconds and microseconds within their ranges, and
    [ToTimeString] shows the first [outCount] units that are not zero, in order,
    with their suffixes (no width wraps around). *)
Theorem ToTimeString_correct (d outCount : Z) (full : bool) :
  (0 ≤ d < 2 ^ 63)%Z → (0 ≤ outCount < 256)%Z →
  let t := split_time d in
  (d = (((((days t * 24 + hours t) * 60 + minutes t) * 60 + secs t) * 1000 + millisecs t) * 1000
        + microsecs t) ∧
   0 ≤ hours t < 24 ∧ 0 ≤ minutes t < 60 ∧ 0 ≤ secs t < 60 ∧
   0 ≤ millisecs t < 1000 ∧ 0 ≤ microsecs t < 1000)%Z ∧
  ToTimeString d outCount (if full then FullText else ShortText)
    = TrimRight (reference_text full outCount t).
Proof.
  intros Hd Ho t. pose proof (split_time_units d Hd) as (He & Hdy & Hh & Hm & Hs & Hms & Hus).
  split; [done|]. rewrite ToTimeString_fold. f_equal.
  rewrite add_units_spec; [|done|done|done|].
  - cbn [out count_]. by rewrite Z.sub_0_r.
  - fold t in Hdy, Hh, Hm, Hs, Hms, Hus. unfold unit_texts.
    fold t. clear -Hdy Hh Hm Hs Hms Hus. clearbody t.
    repeat (apply Forall_cons_2; [cbn [ut_value]; lia|]). apply Forall_nil_2.
Qed.

Lemma ToTimeString_correct_witness :
  ToTimeString 93784005006 4 FullText = TrimRight (reference_text true 4 (split_time 93784005006)).
Proof. apply (ToTimeString_correct 93784005006 4 true); lia. Defined.
