(* ===== verification/Scheduler.v ===== *)
(** * TaskScheduler: common/Utilities/TaskScheduler.h and TaskScheduler.cpp

    Tasks live in a store ([heap]) and the queue, the contexts and the captured
    closures hold their identifiers, as the code holds [std::shared_ptr<Task>]:
    a handler that keeps a [TaskContext] mutates the very task that sits in the
    queue.  The [std::multiset] is the list of its elements in iteration order;
    an insertion goes to the upper bound of the equal range.

    The callables are tables indexed by an identifier: [handlers] for the
    functions that receive a [TaskContext], [asyncs] for the functions without
    an argument, [validators] for the predicate.  Each is given a counter
    ([tick]) that changes with every call, so a callable can answer differently
    every time, as a closure over outside state does.  Time points and durations
    are integers of the clock's unit. *)
From S2P Require Import Prelude.

(** ** Data *)
Record Task := mk_Task {
  _end : Z;
  _duration : Z;
  _group : option Z;
  _repeated : Z;
  _task : nat;
}.

(** [IsInGroup] *)
Definition IsInGroup (t : Task) (group : Z) : bool := bool_decide (_group t = Some group).

(** A [TaskContext]: its task and the flag its copies share. *)
Record TaskContext := mk_TaskContext {
  ctx_task : nat;
  _consumed : bool;
}.

(** A callable of [Async]: one that captures nothing of the scheduler, or one
    that captured a context. *)
Inductive async_callable :=
| APlain (a : nat)
| ACtx (h : nat) (c : nat).

Record TaskScheduler := mk_TaskScheduler {
  self_alive : bool;
  _now : Z;
  _task_holder : list nat;
  _asyncHolder : list async_callable;
  _predicate : option nat;
  heap : gmap nat Task;
  contexts : gmap nat TaskContext;
  next_task : nat;
  next_ctx : nat;
  tick : nat;
  executed : list (nat * Z);
}.

Inductive fuel_error := OutOfFuel.
#[export] Instance fuel_error_eq_dec : EqDecision fuel_error.
Proof. solve_decision. Defined.

Abbreviation result := (outcome fuel_error).

(** Field updates. *)
Definition set_now (n : Z) (s : TaskScheduler) : TaskScheduler :=
  let '(mk_TaskScheduler al _ q a p h c nt nc t e) := s in mk_TaskScheduler al n q a p h c nt nc t e.
Definition set_queue (q : list nat) (s : TaskScheduler) : TaskScheduler :=
  let '(mk_TaskScheduler al n _ a p h c nt nc t e) := s in mk_TaskScheduler al n q a p h c nt nc t e.
Definition set_asyncs (a : list async_callable) (s : TaskScheduler) : TaskScheduler :=
  let '(mk_TaskScheduler al n q _ p h c nt nc t e) := s in mk_TaskScheduler al n q a p h c nt nc t e.
Definition set_predicate (p : option nat) (s : TaskScheduler) : TaskScheduler :=
  let '(mk_TaskScheduler al n q a _ h c nt nc t e) := s in mk_TaskScheduler al n q a p h c nt nc t e.
Definition set_heap (h : gmap nat Task) (s : TaskScheduler) : TaskScheduler :=
  let '(mk_TaskScheduler al n q a p _ c nt nc t e) := s in mk_TaskScheduler al n q a p h c nt nc t e.
Definition set_contexts (c : gmap nat TaskContext) (s : TaskScheduler) : TaskScheduler :=
  let '(mk_TaskScheduler al n q a p h _ nt nc t e) := s in mk_TaskScheduler al n q a p h c nt nc t e.
Definition next_tick (s : TaskScheduler) : TaskScheduler :=
  let '(mk_TaskScheduler al n q a p h c nt nc t e) := s in mk_TaskScheduler al n q a p h c nt nc (S t) e.
Definition add_executed (x : nat * Z) (s : TaskScheduler) : TaskScheduler :=
  let '(mk_TaskScheduler al n q a p h c nt nc t e) := s in
  mk_TaskScheduler al n q a p h c nt nc t (e ++ [x]).

(** [new Task(...)]: a fresh object. *)
Definition new_task (t : Task) (s : TaskScheduler) : nat * TaskScheduler :=
  let '(mk_TaskScheduler al n q a p h c nt nc tk e) := s in
  (nt, mk_TaskScheduler al n q a p (<[nt := t]> h) c (S nt) nc tk e).
(** [TaskContext(task, owner)]: not consumed. *)
Definition new_context (id : nat) (s : TaskScheduler) : nat * TaskScheduler :=
  let '(mk_TaskScheduler al n q a p h c nt nc tk e) := s in
  (nc, mk_TaskScheduler al n q a p h (<[nc := mk_TaskContext id false]> c) nt (S nc) tk e).

(** The constructor. *)
Definition TaskScheduler_new (now : Z) (predicate : option nat) : TaskScheduler :=
  mk_TaskScheduler true now [] [] predicate ∅ ∅ 0 0 0 [].

(** ** TaskQueue *)
Definition end_of (h : gmap nat Task) (id : nat) : Z :=
  match h !! id with Some t => _end t | None => 0%Z end.

(** [multiset::insert]: after the elements that are not greater. *)
Fixpoint multiset_insert (h : gmap nat Task) (id : nat) (q : list nat) : list nat :=
  match q with
  | [] => [id]
  | x :: q' =>
      if (end_of h id <? end_of h x)%Z then id :: q else x :: multiset_insert h id q'
  end.

Definition TaskQueue_Push (id : nat) (s : TaskScheduler) : TaskScheduler :=
  set_queue (multiset_insert (heap s) id (_task_holder s)) s.

Definition TaskQueue_Pop (s : TaskScheduler) : result (nat * TaskScheduler) :=
  match _task_holder s with
  | id :: q => Done (id, set_queue q s)
  | [] => Crash "dereference of end()"
  end.

Definition TaskQueue_First (s : TaskScheduler) : result nat :=
  match _task_holder s with
  | id :: _ => Done id
  | [] => Crash "dereference of end()"
  end.

Definition TaskQueue_Clear (s : TaskScheduler) : TaskScheduler := set_queue [] s.

Definition TaskQueue_IsEmpty (s : TaskScheduler) : bool :=
  match _task_holder s with [] => true | _ => false end.

Fixpoint RemoveIf_loop (h : gmap nat Task) (f : Task → bool) (q : list nat) : list nat :=
  match q with
  | [] => []
  | id :: q =>
      match h !! id with
      | Some t => if f t then RemoveIf_loop h f q else id :: RemoveIf_loop h f q
      | None => id :: RemoveIf_loop h f q
      end
  end.

Definition TaskQueue_RemoveIf (f : Task → bool) (s : TaskScheduler) : TaskScheduler :=
  set_queue (RemoveIf_loop (heap s) f (_task_holder s)) s.

(** The filter of [ModifyIf] changes the task it accepts: [Some t'] is the
    changed task and [true], [None] is [false].  The result: the store, the
    [cache] and what is left in the container. *)
Fixpoint ModifyIf_loop (h : gmap nat Task) (f : Task → option Task) (q : list nat)
    : gmap nat Task * list nat * list nat :=
  match q with
  | [] => (h, [], [])
  | id :: q =>
      match h !! id ≫= f with
      | Some t' =>
          let '(h', cache, kept) := ModifyIf_loop (<[id := t']> h) f q in (h', id :: cache, kept)
      | None => let '(h', cache, kept) := ModifyIf_loop h f q in (h', cache, id :: kept)
      end
  end.

Definition TaskQueue_ModifyIf (f : Task → option Task) (s : TaskScheduler) : TaskScheduler :=
  let '(h', cache, kept) := ModifyIf_loop (heap s) f (_task_holder s) in
  set_queue (foldl (λ q id, multiset_insert h' id q) kept cache) (set_heap h' s).

(** ** Members of TaskScheduler *)
Definition SetValidator (v : nat) (s : TaskScheduler) : TaskScheduler := set_predicate (Some v) s.
Definition ClearValidator (s : TaskScheduler) : TaskScheduler := set_predicate None s.

Definition Async (a : async_callable) (s : TaskScheduler) : TaskScheduler :=
  set_asyncs (_asyncHolder s ++ [a]) s.

Definition CancelAll (s : TaskScheduler) : TaskScheduler := set_asyncs [] (TaskQueue_Clear s).

Definition CancelGroup (group : Z) (s : TaskScheduler) : TaskScheduler :=
  TaskQueue_RemoveIf (λ t, IsInGroup t group) s.

Definition CancelGroupsOf (groups : list Z) (s : TaskScheduler) : TaskScheduler :=
  foldl (λ s g, CancelGroup g s) s groups.

Definition InsertTask (id : nat) (s : TaskScheduler) : TaskScheduler := TaskQueue_Push id s.

(** Both overloads of [ScheduleAt]: the group is optional, the repeat counter
    starts at 0. *)
Definition ScheduleAt (end_ time : Z) (group : option Z) (h : nat) (s : TaskScheduler)
    : TaskScheduler :=
  let '(id, s) := new_task (mk_Task (end_ + time) time group 0 h) s in InsertTask id s.

Definition Schedule (time : Z) (group : option Z) (h : nat) (s : TaskScheduler) : TaskScheduler :=
  ScheduleAt (_now s) time group h s.

Definition delay (d : Z) (t : Task) : Task :=
  mk_Task (_end t + d) (_duration t) (_group t) (_repeated t) (_task t).
Definition with_end (e : Z) (t : Task) : Task :=
  mk_Task e (_duration t) (_group t) (_repeated t) (_task t).

Definition DelayAll (d : Z) (s : TaskScheduler) : TaskScheduler :=
  TaskQueue_ModifyIf (λ t, Some (delay d t)) s.
Definition DelayGroup (group d : Z) (s : TaskScheduler) : TaskScheduler :=
  TaskQueue_ModifyIf (λ t, if IsInGroup t group then Some (delay d t) else None) s.
Definition RescheduleAll (d : Z) (s : TaskScheduler) : TaskScheduler :=
  let end_ := (_now s + d)%Z in
  TaskQueue_ModifyIf (λ t, Some (with_end end_ t)) s.
Definition RescheduleGroup (group d : Z) (s : TaskScheduler) : TaskScheduler :=
  let end_ := (_now s + d)%Z in
  TaskQueue_ModifyIf (λ t, if IsInGroup t group then Some (with_end end_ t) else None) s.

(** ** Members of TaskContext *)

(** [Dispatch]: only while the scheduler is alive. *)
Definition ctx_Dispatch (apply : TaskScheduler → TaskScheduler) (s : TaskScheduler)
    : TaskScheduler :=
  if self_alive s then apply s else s.

Definition ctx_IsExpired (s : TaskScheduler) : bool := negb (self_alive s).

Definition get_context (c : nat) (s : TaskScheduler) : result TaskContext :=
  match contexts s !! c with Some x => Done x | None => Crash "no such context" end.
Definition get_task (id : nat) (s : TaskScheduler) : result Task :=
  match heap s !! id with Some t => Done t | None => Crash "null task" end.

Definition ctx_IsInGroup (c : nat) (group : Z) (s : TaskScheduler) : result bool :=
  x ← get_context c s; t ← get_task (ctx_task x) s; Done (IsInGroup t group).

Definition ctx_GetRepeatCounter (c : nat) (s : TaskScheduler) : result Z :=
  x ← get_context c s; t ← get_task (ctx_task x) s; Done (_repeated t).

Definition set_task_group (g : option Z) (t : Task) : Task :=
  mk_Task (_end t) (_duration t) g (_repeated t) (_task t).

Definition ctx_SetGroup (c : nat) (group : Z) (s : TaskScheduler) : result TaskScheduler :=
  x ← get_context c s; t ← get_task (ctx_task x) s;
  Done (set_heap (<[ctx_task x := set_task_group (Some group) t]> (heap s)) s).

Definition ctx_ClearGroup (c : nat) (s : TaskScheduler) : result TaskScheduler :=
  x ← get_context c s; t ← get_task (ctx_task x) s;
  Done (set_heap (<[ctx_task x := set_task_group None t]> (heap s)) s).

Definition bad_task_logic : string := "Bad task logic, task context was consumed already!".

Definition AssertOnConsumed (x : TaskContext) : result unit :=
  assert (negb (_consumed x)) bad_task_logic.

Definition repeated_task (d : Z) (t : Task) : Task :=
  mk_Task (_end t + d) d (_group t) (wrap_u 32 (_repeated t + 1)) (_task t).

Definition ctx_Repeat (c : nat) (d : Z) (s : TaskScheduler) : result TaskScheduler :=
  x ← get_context c s;
  _ ← AssertOnConsumed x;
  t ← get_task (ctx_task x) s;
  let s := set_heap (<[ctx_task x := repeated_task d t]> (heap s)) s in
  let s := set_contexts (<[c := mk_TaskContext (ctx_task x) true]> (contexts s)) s in
  Done (ctx_Dispatch (InsertTask (ctx_task x)) s).

Definition ctx_RepeatSame (c : nat) (s : TaskScheduler) : result TaskScheduler :=
  x ← get_context c s; t ← get_task (ctx_task x) s; ctx_Repeat c (_duration t) s.

Definition ctx_Schedule (c : nat) (time : Z) (group : option Z) (h : nat) (s : TaskScheduler)
    : result TaskScheduler :=
  x ← get_context c s; t ← get_task (ctx_task x) s;
  let end_ := _end t in
  Done (ctx_Dispatch (ScheduleAt end_ time group h) s).

Definition ctx_Async (a : async_callable) (s : TaskScheduler) : TaskScheduler :=
  ctx_Dispatch (Async a) s.
Definition ctx_CancelAll (s : TaskScheduler) : TaskScheduler := ctx_Dispatch CancelAll s.
Definition ctx_CancelGroup (group : Z) (s : TaskScheduler) : TaskScheduler :=
  ctx_Dispatch (CancelGroup group) s.
Definition ctx_CancelGroupsOf (groups : list Z) (s : TaskScheduler) : TaskScheduler :=
  ctx_Dispatch (CancelGroupsOf groups) s.
Definition ctx_DelayAll (d : Z) (s : TaskScheduler) : TaskScheduler := ctx_Dispatch (DelayAll d) s.
Definition ctx_DelayGroup (group d : Z) (s : TaskScheduler) : TaskScheduler :=
  ctx_Dispatch (DelayGroup group d) s.
Definition ctx_RescheduleGroup (group d : Z) (s : TaskScheduler) : TaskScheduler :=
  ctx_Dispatch (RescheduleGroup group d) s.

(** ** Callables as sequences of calls *)
Inductive sop :=
| OpAsync (a : nat)
| OpSchedule (time : Z) (group : option Z) (h : nat)
| OpCancelAll
| OpCancelGroup (group : Z)
| OpCancelGroupsOf (groups : list Z)
| OpDelayAll (d : Z)
| OpDelayGroup (group d : Z)
| OpRescheduleAll (d : Z)
| OpRescheduleGroup (group d : Z)
| OpSetValidator (v : nat)
| OpClearValidator.

Inductive cop :=
| CopRepeat (d : Z)
| CopRepeatSame
| CopSetGroup (group : Z)
| CopClearGroup
| CopSchedule (time : Z) (group : option Z) (h : nat)
| CopAsync (a : nat)
| CopAsyncCtx (h : nat)
| CopCancelAll
| CopCancelGroup (group : Z)
| CopCancelGroupsOf (groups : list Z)
| CopDelayAll (d : Z)
| CopDelayGroup (group d : Z)
| CopRescheduleGroup (group d : Z)
| CopScheduler (o : sop)
| CopCaptured (c : nat) (o : cop).   (* the same call on a copy of another context *)

Definition run_sop (o : sop) (s : TaskScheduler) : TaskScheduler :=
  match o with
  | OpAsync a => Async (APlain a) s
  | OpSchedule time g h => Schedule time g h s
  | OpCancelAll => CancelAll s
  | OpCancelGroup g => CancelGroup g s
  | OpCancelGroupsOf gs => CancelGroupsOf gs s
  | OpDelayAll d => DelayAll d s
  | OpDelayGroup g d => DelayGroup g d s
  | OpRescheduleAll d => RescheduleAll d s
  | OpRescheduleGroup g d => RescheduleGroup g d s
  | OpSetValidator v => SetValidator v s
  | OpClearValidator => ClearValidator s
  end.

(** A handler receives its own context [c]; a context it captured is one of
    those there are. *)
Fixpoint run_cop (c : nat) (o : cop) (s : TaskScheduler) : result TaskScheduler :=
  match o with
  | CopRepeat d => ctx_Repeat c d s
  | CopRepeatSame => ctx_RepeatSame c s
  | CopSetGroup g => ctx_SetGroup c g s
  | CopClearGroup => ctx_ClearGroup c s
  | CopSchedule time g h => ctx_Schedule c time g h s
  | CopAsync a => Done (ctx_Async (APlain a) s)
  | CopAsyncCtx h => Done (ctx_Async (ACtx h c) s)
  | CopCancelAll => Done (ctx_CancelAll s)
  | CopCancelGroup g => Done (ctx_CancelGroup g s)
  | CopCancelGroupsOf gs => Done (ctx_CancelGroupsOf gs s)
  | CopDelayAll d => Done (ctx_DelayAll d s)
  | CopDelayGroup g d => Done (ctx_DelayGroup g d s)
  | CopRescheduleGroup g d => Done (ctx_RescheduleGroup g d s)
  | CopScheduler o => Done (run_sop o s)
  | CopCaptured c o => match contexts s !! c with Some _ => run_cop c o s | None => Done s end
  end.

Section Callables.
Variable handlers : nat → nat → Task → list cop.
Variable asyncs : nat → nat → list sop.
Variable validators : nat → nat → bool.

(** [_predicate()] *)
Definition call_predicate (s : TaskScheduler) : bool * TaskScheduler :=
  match _predicate s with
  | None => (true, s)
  | Some v => (validators v (tick s), next_tick s)
  end.

(** [TaskContext::Invoke], and a closure that captured a context: the calls
    the handler makes on its context [c] and on those it captured. *)
Definition Invoke (h c : nat) (s : TaskScheduler) : result TaskScheduler :=
  x ← get_context c s;
  t ← get_task (ctx_task x) s;
  ofold (λ s o, run_cop c o s) (handlers h (tick s) t) (next_tick s).

(** [_asyncHolder.front()()] *)
Definition call_async (a : async_callable) (s : TaskScheduler) : result TaskScheduler :=
  match a with
  | APlain a => Done (foldl (λ s o, run_sop o s) (next_tick s) (asyncs a (tick s)))
  | ACtx h c => Invoke h c s
  end.

Definition pop_empty : string := "pop of an empty queue".

(** The first loop of [Dispatch]; the result says whether dispatching goes on. *)
Fixpoint Dispatch_asyncs (fuel : nat) (s : TaskScheduler) : result (bool * TaskScheduler) :=
  match _asyncHolder s with
  | [] => Done (true, s)
  | a :: _ =>
      match fuel with
      | O => Throw OutOfFuel
      | S fuel =>
          s ← call_async a s;
          match _asyncHolder s with
          | [] => Crash pop_empty
          | _ :: rest =>
              let s := set_asyncs rest s in
              let '(ok, s) := call_predicate s in
              if ok then Dispatch_asyncs fuel s else Done (false, s)
          end
      end
  end.

(** The second loop of [Dispatch]. *)
Fixpoint Dispatch_tasks (fuel : nat) (s : TaskScheduler) : result (bool * TaskScheduler) :=
  if TaskQueue_IsEmpty s then Done (true, s)
  else
    first ← TaskQueue_First s;
    if (_now s <? end_of (heap s) first)%Z then Done (true, s)
    else match fuel with
    | O => Throw OutOfFuel
    | S fuel =>
        '(id, s) ← TaskQueue_Pop s;
        let '(c, s) := new_context id s in
        t ← get_task id s;
        let s := add_executed (id, _end t) s in
        s ← Invoke (_task t) c s;
        let '(ok, s) := call_predicate s in
        if ok then Dispatch_tasks fuel s else Done (false, s)
    end.

(** [Dispatch]: the result says whether the final callback is called. *)
Definition Dispatch (fuel : nat) (s : TaskScheduler) : result (bool * TaskScheduler) :=
  let '(ok, s) := call_predicate s in
  if negb ok then Done (false, s)
  else
    '(ok, s) ← Dispatch_asyncs fuel s;
    if (ok : bool) then Dispatch_tasks fuel s else Done (false, s).

(** [Update(callback)] with the clock's reading, [Update(difftime, callback)]. *)
Definition Update (fuel : nat) (now : Z) (s : TaskScheduler) : result (bool * TaskScheduler) :=
  Dispatch fuel (set_now now s).
Definition Update_by (fuel : nat) (difftime : Z) (s : TaskScheduler) : result (bool * TaskScheduler) :=
  Dispatch fuel (set_now (_now s + difftime) s).
End Callables.

(** ** The queue *)
Definition ends_le (h : gmap nat Task) (a b : nat) : Prop := (end_of h a ≤ end_of h b)%Z.

Definition queue_sorted (h : gmap nat Task) (q : list nat) : Prop := StronglySorted (ends_le h) q.

Lemma multiset_insert_perm h id q : multiset_insert h id q ≡ₚ id :: q.
Proof.
  induction q as [|x q IH]; [done|]. cbn. destruct (_ <? _)%Z; [done|].
  rewrite IH. apply Permutation_swap.
Qed.

Lemma multiset_insert_sorted h id q :
  queue_sorted h q → queue_sorted h (multiset_insert h id q).
Proof.
  unfold queue_sorted. induction 1 as [|x q Hq IH Hx]; cbn; [by repeat constructor|].
  destruct (Z.ltb_spec (end_of h id) (end_of h x)) as [Hlt|Hge].
  - constructor; [by constructor|]. constructor; [unfold ends_le; lia|].
    eapply Forall_impl; [exact Hx|]. unfold ends_le. lia.
  - constructor; [done|]. rewrite multiset_insert_perm. by constructor.
Qed.

Lemma multiset_inserts_perm h cache q :
  foldl (λ q id, multiset_insert h id q) q cache ≡ₚ cache ++ q.
Proof.
  revert q. induction cache as [|x cache IH]; intros q; [done|]. cbn.
  rewrite IH, multiset_insert_perm. by rewrite Permutation_middle.
Qed.

Lemma multiset_inserts_sorted h cache q :
  queue_sorted h q → queue_sorted h (foldl (λ q id, multiset_insert h id q) q cache).
Proof.
  revert q. induction cache as [|x cache IH]; intros q Hq; [done|]. cbn.
  by apply IH, multiset_insert_sorted.
Qed.

Lemma queue_sorted_sublist h q q' : sublist q' q → queue_sorted h q → queue_sorted h q'.
Proof.
  unfold queue_sorted. induction 1 as [|x l1 l2 Hl IH|x l1 l2 Hl IH]; [done| |].
  - intros [Hs Hx]%StronglySorted_inv. constructor; [auto|].
    rewrite Forall_forall in *. intros y Hy. apply Hx. by eapply elem_of_sublist.
  - intros [Hs _]%StronglySorted_inv. auto.
Qed.

Lemma queue_sorted_ext h h' q :
  (∀ id, id ∈ q → end_of h' id = end_of h id) → queue_sorted h q → queue_sorted h' q.
Proof.
  unfold queue_sorted. intros Heq Hs. induction Hs as [|x q Hq IH Hx]; [constructor|].
  constructor; [apply IH; set_solver|]. rewrite Forall_forall in *. unfold ends_le in *.
  intros y Hy. rewrite !Heq by set_solver. by apply Hx.
Qed.

Lemma RemoveIf_sublist h f q : sublist (RemoveIf_loop h f q) q.
Proof.
  induction q as [|id q IH]; cbn; [constructor|].
  destruct (h !! id); [destruct (f _)|]; by constructor.
Qed.

(** What [RemoveIf] keeps: exactly the elements the filter refuses. *)
Lemma RemoveIf_elem h f q id :
  id ∈ RemoveIf_loop h f q ↔ id ∈ q ∧ (∀ t, h !! id = Some t → f t = false).
Proof.
  induction q as [|x q IH]; cbn; [set_solver|].
  destruct (h !! x) as [t|] eqn:Hx; [destruct (f t) eqn:Hf|]; rewrite ?elem_of_cons, IH.
  - split; [tauto|]. intros [[->|Hq] Hf']; [|tauto]. specialize (Hf' t Hx). congruence.
  - split; [|tauto]. intros [->|?]; [|tauto]. split; [by left|]. intros. congruence.
  - split; [|tauto]. intros [->|?]; [|tauto]. split; [by left|]. intros. congruence.
Qed.

(** [ModifyIf] splits the queue into the tasks the filter changed and the ones
    it left alone. *)
Lemma ModifyIf_loop_spec f q : NoDup q → ∀ h,
  let '(h', cache, kept) := ModifyIf_loop h f q in
  cache ++ kept ≡ₚ q ∧ sublist kept q ∧
  (∀ id, id ∉ cache → h' !! id = h !! id) ∧
  (∀ id, id ∈ cache → ∃ t t', h !! id = Some t ∧ f t = Some t' ∧ h' !! id = Some t') ∧
  (∀ id, id ∈ kept → h !! id ≫= f = None).
Proof.
  induction 1 as [|x q Hx Hq IH]; intros h; cbn; [set_solver by constructor|].
  destruct (h !! x ≫= f) as [t'|] eqn:Hf.
  - specialize (IH (<[x:=t']> h)).
    destruct (ModifyIf_loop (<[x:=t']> h) f q) as [[h' cache] kept].
    destruct IH as (Hp & Hs & Hout & Hin & Hk).
    assert (∀ y, y ∈ q → y ≠ x) as Hne by set_solver.
    assert (∀ y, y ∈ cache → y ∈ q) as Hcq by (intros y; rewrite <- Hp; set_solver).
    assert (∀ y, y ∈ kept → y ∈ q) as Hkq by (intros y; rewrite <- Hp; set_solver).
    apply bind_Some in Hf as (t & Ht & Hf).
    repeat split; [cbn; by rewrite Hp|by constructor| | |].
    + intros y [Hyx Hy]%not_elem_of_cons. rewrite Hout by done. by apply lookup_insert_ne.
    + intros y [->|Hy]%elem_of_cons.
      * exists t, t'. rewrite Hout by (intros Hc; by apply Hx, Hcq).
        by rewrite lookup_insert_eq.
      * destruct (Hin y Hy) as (u & u' & Hu & ?). rewrite lookup_insert_ne in Hu by (symmetry; auto).
        eauto.
    + intros y Hy. specialize (Hk y Hy). by rewrite lookup_insert_ne in Hk by (symmetry; auto).
  - specialize (IH h). destruct (ModifyIf_loop h f q) as [[h' cache] kept].
    destruct IH as (Hp & Hs & Hout & Hin & Hk).
    repeat split; [rewrite <- Permutation_middle; by rewrite Hp|by constructor|done|done|].
    intros y [->|Hy]%elem_of_cons; auto.
Qed.

(** ** The invariant

    The multiset is ordered under the current store and holds each task once.
    A context that can still repeat its task is the only one of that task, and
    the task is then out of the queue: this is why [Repeat] may change [_end] in
    place without breaking the order. *)
Record wf (s : TaskScheduler) : Prop := mk_wf {
  wf_sorted : queue_sorted (heap s) (_task_holder s);
  wf_nodup : NoDup (_task_holder s);
  wf_queue : ∀ id, id ∈ _task_holder s → is_Some (heap s !! id);
  wf_ctx : ∀ c x, contexts s !! c = Some x → is_Some (heap s !! ctx_task x);
  wf_open : ∀ c x, contexts s !! c = Some x → _consumed x = false → ctx_task x ∉ _task_holder s;
  wf_unique : ∀ c1 c2 x1 x2, contexts s !! c1 = Some x1 → contexts s !! c2 = Some x2 →
    _consumed x1 = false → _consumed x2 = false → ctx_task x1 = ctx_task x2 → c1 = c2;
  wf_tasks : ∀ id t, heap s !! id = Some t → id < next_task s;
  wf_ctxs : ∀ c x, contexts s !! c = Some x → c < next_ctx s;
  wf_asyncs : ∀ h c, ACtx h c ∈ _asyncHolder s → is_Some (contexts s !! c);
}.

Lemma TaskScheduler_new_wf now p : wf (TaskScheduler_new now p).
Proof. split; cbn; try set_solver; constructor. Qed.

Lemma wf_now n s : wf s → wf (set_now n s).
Proof. destruct s. by intros []. Qed.
Lemma wf_predicate p s : wf s → wf (set_predicate p s).
Proof. destruct s. by intros []. Qed.
Lemma wf_tick s : wf s → wf (next_tick s).
Proof. destruct s. by intros []. Qed.
Lemma wf_executed x s : wf s → wf (add_executed x s).
Proof. destruct s. by intros []. Qed.
Lemma wf_set_asyncs a s :
  wf s → (∀ h c, ACtx h c ∈ a → is_Some (contexts s !! c)) → wf (set_asyncs a s).
Proof. destruct s. by intros [] ?. Qed.

Lemma NoDup_submseteq_inv {A} (l k : list A) : NoDup k → l ⊆+ k → NoDup l.
Proof. intros Hk [l' Hp]%submseteq_Permutation. rewrite Hp in Hk. by apply NoDup_app in Hk as [? _]. Qed.

(** A smaller queue over a store with the same tasks. *)
Lemma wf_shrink h' q' s :
  wf s → (∀ id, is_Some (heap s !! id) ↔ is_Some (h' !! id)) → q' ⊆+ _task_holder s →
  queue_sorted h' q' → wf (set_queue q' (set_heap h' s)).
Proof.
  destruct s as [al n q a p h c nt nc tk e]. intros [] Hdom Hsub Hs. cbn in *.
  assert (∀ id, id ∈ q' → id ∈ q) as Hin by (intros; by eapply elem_of_submseteq).
  split; cbn; eauto.
  - by eapply NoDup_submseteq_inv.
  - intros id Hid. apply Hdom. auto.
  - intros c0 x Hc. apply Hdom. eauto.
  - intros c0 x Hc Ho Hq. apply (wf_open0 c0 x Hc Ho). auto.
  - intros id t Ht. destruct (proj2 (Hdom id)) as [t' Ht']; eauto.
Qed.

Lemma set_heap_id s : set_heap (heap s) s = s.
Proof. by destruct s. Qed.

Lemma wf_RemoveIf f s : wf s → wf (TaskQueue_RemoveIf f s).
Proof.
  intros Hwf. unfold TaskQueue_RemoveIf. pose proof (RemoveIf_sublist (heap s) f (_task_holder s)) as Hs.
  rewrite <- (set_heap_id s) at 3. apply wf_shrink; [done|done| |].
  - by apply sublist_submseteq.
  - eapply queue_sorted_sublist; [done|apply Hwf].
Qed.

Lemma wf_Clear s : wf s → wf (TaskQueue_Clear s).
Proof.
  intros Hwf. unfold TaskQueue_Clear. rewrite <- (set_heap_id s).
  apply wf_shrink; [done|done| |constructor]. apply submseteq_nil_l.
Qed.

Lemma wf_ModifyIf f s : wf s → wf (TaskQueue_ModifyIf f s).
Proof.
  intros Hwf. unfold TaskQueue_ModifyIf.
  pose proof (ModifyIf_loop_spec f _ (wf_nodup s Hwf) (heap s)) as H.
  destruct (ModifyIf_loop (heap s) f (_task_holder s)) as [[h' cache] kept].
  destruct H as (Hp & Hs & Hout & Hin & Hk).
  pose proof (wf_nodup s Hwf) as Hnd. rewrite <- Hp in Hnd. apply NoDup_app in Hnd as (_ & Hdis & _).
  apply wf_shrink; [done| | |].
  - intros id. destruct (decide (id ∈ cache)) as [Hc|Hc]; [|by rewrite Hout].
    destruct (Hin id Hc) as (t & t' & -> & _ & ->). split; eauto.
  - by rewrite multiset_inserts_perm, Hp.
  - apply multiset_inserts_sorted. eapply queue_sorted_ext.
    + intros id Hid. unfold end_of. rewrite Hout; [done|]. intros Hc. by apply (Hdis id).
    + eapply queue_sorted_sublist; [done|apply Hwf].
Qed.

(** Pushing a task that is out of the queue and has no open context. *)
Lemma wf_Push id s :
  wf s → is_Some (heap s !! id) → id ∉ _task_holder s →
  (∀ c x, contexts s !! c = Some x → _consumed x = false → ctx_task x ≠ id) →
  wf (TaskQueue_Push id s).
Proof.
  destruct s as [al n q a p h c nt nc tk e]. intros [] Hid Hq Hopen.
  unfold TaskQueue_Push in *. cbn in *.
  pose proof (multiset_insert_perm h id q) as Hp.
  split; cbn; eauto using multiset_insert_sorted.
  - rewrite Hp. by constructor.
  - intros y. rewrite Hp. intros [->|?]%elem_of_cons; auto.
  - intros c0 x Hc Ho. rewrite Hp. intros [He|Hin]%elem_of_cons.
    + by apply (Hopen c0 x Hc Ho).
    + by apply (wf_open0 c0 x Hc Ho).
Qed.

Lemma wf_ScheduleAt e time g h s : wf s → wf (ScheduleAt e time g h s).
Proof.
  destruct s as [al n q a p hp c nt nc tk ex]. intros Hwf. unfold ScheduleAt, InsertTask. cbn.
  set (t := mk_Task _ _ _ _ _).
  assert (hp !! nt = None) as Hnone.
  { destruct (hp !! nt) eqn:E; [|done]. pose proof (wf_tasks _ Hwf nt _ E) as Hlt. cbn in Hlt. lia. }
  assert (nt ∉ q) as Hnq.
  { intros Hin. destruct (wf_queue _ Hwf nt Hin) as [? Heq]. cbn in Heq. congruence. }
  assert (∀ id, is_Some (hp !! id) → id ≠ nt) as Hne by (intros id [? ?] ->; congruence).
  destruct Hwf; cbn in *.
  pose proof (wf_Push nt (mk_TaskScheduler al n q a p (<[nt:=t]> hp) c (S nt) nc tk ex)) as HP.
  unfold TaskQueue_Push in HP. cbn in HP. apply HP; clear HP.
  - split; cbn; eauto.
    + eapply queue_sorted_ext; [|done]. intros id Hid. unfold end_of.
      rewrite lookup_insert_ne; [done|]. intros <-. done.
    + intros id Hid. rewrite lookup_insert_is_Some'. auto.
    + intros c0 x Hc. rewrite lookup_insert_is_Some'. eauto.
    + intros id u Hu. apply lookup_insert_Some in Hu as [[<- _]|[_ Hu]]; [lia|].
      specialize (wf_tasks0 id u Hu). lia.
  - rewrite lookup_insert_eq. eauto.
  - done.
  - intros c0 x Hc _. apply Hne. eauto.
Qed.

Lemma wf_CancelAll s : wf s → wf (CancelAll s).
Proof. intros Hwf. apply wf_set_asyncs; [by apply wf_Clear|]. set_solver. Qed.

Lemma wf_CancelGroupsOf gs s : wf s → wf (CancelGroupsOf gs s).
Proof.
  revert s. induction gs as [|g gs IH]; intros s Hwf; [done|]. apply IH. by apply wf_RemoveIf.
Qed.

Lemma wf_Async a s :
  wf s → (∀ h c, a = ACtx h c → is_Some (contexts s !! c)) → wf (Async a s).
Proof.
  intros Hwf Ha. apply wf_set_asyncs; [done|]. intros h c [Hin|Hin]%elem_of_app.
  - by eapply wf_asyncs.
  - apply list_elem_of_singleton in Hin. eauto.
Qed.

Lemma wf_set_group id g t s :
  wf s → heap s !! id = Some t → wf (set_heap (<[id := set_task_group g t]> (heap s)) s).
Proof.
  intros Hwf Ht.
  replace (set_heap _ s)
    with (set_queue (_task_holder s) (set_heap (<[id := set_task_group g t]> (heap s)) s))
    by (by destruct s).
  apply wf_shrink; [done| |done|].
  - intros y. destruct (decide (id = y)) as [<-|].
    + rewrite lookup_insert_eq, Ht. split; eauto.
    + by rewrite lookup_insert_ne.
  - eapply queue_sorted_ext; [|apply Hwf]. intros y _. unfold end_of.
    destruct (decide (id = y)) as [<-|]; [by rewrite lookup_insert_eq, Ht|by rewrite lookup_insert_ne].
Qed.

Lemma wf_Repeat c d s s' : wf s → ctx_Repeat c d s = Done s' → wf s'.
Proof.
  intros Hwf. unfold ctx_Repeat, get_context, get_task, AssertOnConsumed, assert.
  destruct (contexts s !! c) as [x|] eqn:Hc; cbn; [|done].
  destruct (_consumed x) eqn:Hx; cbn; [done|].
  destruct (heap s !! ctx_task x) as [t|] eqn:Ht; cbn; [|done]. intros [= <-].
  pose proof (wf_open _ Hwf c x Hc Hx) as Hnq.
  set (s1 := set_contexts _ _).
  assert (wf s1) as Hwf1.
  { subst s1. destruct s as [al n q a p hp cs nt nc tk ex]; destruct Hwf; cbn in *.
    split; cbn; eauto.
    - eapply queue_sorted_ext; [|done]. intros id Hid. unfold end_of.
      rewrite lookup_insert_ne; [done|]. intros <-. done.
    - intros id Hid. rewrite lookup_insert_is_Some'. auto.
    - intros c0 y Hy. rewrite lookup_insert_is_Some'. right.
      apply lookup_insert_Some in Hy as [[<- <-]|[_ Hy]]; eauto.
    - intros c0 y Hy. apply lookup_insert_Some in Hy as [[<- <-]|[_ Hy]]; [done|eauto].
    - intros c1 c2 x1 x2 H1 H2.
      apply lookup_insert_Some in H1 as [[<- <-]|[_ H1]]; [done|].
      apply lookup_insert_Some in H2 as [[<- <-]|[_ H2]]; [done|]. eauto.
    - intros id u Hu. apply lookup_insert_Some in Hu as [[<- _]|[_ Hu]]; eauto.
    - intros c0 y Hy. apply lookup_insert_Some in Hy as [[<- _]|[_ Hy]]; eauto.
    - intros h c0 Hin. rewrite lookup_insert_is_Some'. right. eauto. }
  unfold ctx_Dispatch. destruct (self_alive s1); [|done].
  apply wf_Push; [done| | |].
  - replace (heap s1) with (<[ctx_task x := repeated_task d t]> (heap s)) by (subst s1; by destruct s).
    rewrite lookup_insert_eq. eauto.
  - subst s1. by destruct s.
  - intros c0 y Hy Hyo He. assert (contexts s1 = <[c := mk_TaskContext (ctx_task x) true]> (contexts s))
      as Hcs by (subst s1; by destruct s).
    rewrite Hcs in Hy. apply lookup_insert_Some in Hy as [[<- <-]|[Hne Hy]]; [done|].
    apply Hne. symmetry. by eapply (wf_unique _ Hwf c0 c y x).
Qed.

Lemma wf_ctx_Dispatch f s : wf s → (wf s → wf (f s)) → wf (ctx_Dispatch f s).
Proof. intros Hwf Hf. unfold ctx_Dispatch. destruct (self_alive s); auto. Qed.

#[export] Hint Resolve wf_now wf_predicate wf_tick wf_executed wf_RemoveIf wf_ModifyIf wf_CancelAll
  wf_CancelGroupsOf wf_ScheduleAt wf_set_group wf_Repeat wf_ctx_Dispatch : warhead.

Lemma wf_run_sop o s : wf s → wf (run_sop o s).
Proof.
  intros Hwf. destruct o; cbn; unfold SetValidator, ClearValidator, Schedule, CancelGroup, DelayAll,
    DelayGroup, RescheduleAll, RescheduleGroup; eauto with warhead. by apply wf_Async.
Qed.

Lemma wf_run_sops os s : wf s → wf (foldl (λ s o, run_sop o s) s os).
Proof. revert s. induction os as [|o os IH]; intros s Hwf; [done|]. by apply IH, wf_run_sop. Qed.

(** Only [Repeat] touches the contexts, and it keeps them and their tasks. *)
Definition ctx_ext (s s' : TaskScheduler) : Prop :=
  ∀ c x, contexts s !! c = Some x → ∃ x', contexts s' !! c = Some x' ∧ ctx_task x' = ctx_task x.

Lemma ctx_ext_is_Some s s' c :
  ctx_ext s s' → is_Some (contexts s !! c) → is_Some (contexts s' !! c).
Proof. intros He [x Hx]. destruct (He c x Hx) as (x' & Hx' & _). eauto. Qed.

Lemma contexts_ModifyIf f s : contexts (TaskQueue_ModifyIf f s) = contexts s.
Proof. unfold TaskQueue_ModifyIf. destruct (ModifyIf_loop _ _ _) as [[??]?]. by destruct s. Qed.
Lemma contexts_RemoveIf f s : contexts (TaskQueue_RemoveIf f s) = contexts s.
Proof. by destruct s. Qed.
Lemma contexts_Push id s : contexts (TaskQueue_Push id s) = contexts s.
Proof. by destruct s. Qed.
Lemma contexts_CancelGroupsOf gs s : contexts (CancelGroupsOf gs s) = contexts s.
Proof. revert s. induction gs as [|g gs IH]; intros s; [done|]. unfold CancelGroupsOf in *. cbn. by rewrite IH; apply contexts_RemoveIf. Qed.
Lemma contexts_ScheduleAt e time g h s : contexts (ScheduleAt e time g h s) = contexts s.
Proof. by destruct s. Qed.
Lemma contexts_ctx_Dispatch f s :
  (contexts (f s) = contexts s) → contexts (ctx_Dispatch f s) = contexts s.
Proof. unfold ctx_Dispatch. by destruct (self_alive s). Qed.

Lemma contexts_run_sop o s : contexts (run_sop o s) = contexts s.
Proof.
  destruct o; cbn; try by destruct s.
  all: unfold DelayAll, DelayGroup, RescheduleAll, RescheduleGroup;
    by rewrite ?contexts_CancelGroupsOf, ?contexts_ModifyIf.
Qed.

Lemma contexts_run_sops os s : contexts (foldl (λ s o, run_sop o s) s os) = contexts s.
Proof. revert s. induction os as [|o os IH]; intros s; [done|]. cbn. by rewrite IH, contexts_run_sop. Qed.

Lemma ctx_ext_Repeat c d s s' : ctx_Repeat c d s = Done s' → ctx_ext s s'.
Proof.
  unfold ctx_Repeat, get_context, get_task, AssertOnConsumed, assert.
  destruct (contexts s !! c) as [x|] eqn:Hc; cbn; [|done].
  destruct (_consumed x) eqn:Hx; cbn; [done|].
  destruct (heap s !! ctx_task x) as [t|] eqn:Ht; cbn; [|done]. intros [= <-] c' y Hc'.
  rewrite contexts_ctx_Dispatch by apply contexts_Push.
  destruct s as [al n q a p hp cs nt nc tk ex]; cbn in *.
  destruct (decide (c = c')) as [<-|Hne].
  - rewrite lookup_insert_eq. eexists; split; [done|]. cbn. congruence.
  - rewrite lookup_insert_ne by done. eauto.
Qed.

Lemma ctx_ext_run_cop c o s s' : run_cop c o s = Done s' → ctx_ext s s'.
Proof.
  assert (∀ s', contexts s' = contexts s → ctx_ext s s') as Heq
    by (unfold ctx_ext; intros ? ->; eauto).
  revert c. induction o as [| | | | | | | | | | | | | |c' o IH]; intros c; cbn;
    [..|destruct (contexts s !! c'); [apply IH|by intros [= <-]; apply Heq]]; unfold ctx_RepeatSame, ctx_SetGroup, ctx_ClearGroup, ctx_Schedule,
    get_context, get_task.
  all: try (destruct (contexts s !! c) as [x|] eqn:Hc; cbn; [|done];
    destruct (heap s !! ctx_task x) as [t|] eqn:Ht; cbn; [|done]); eauto using ctx_ext_Repeat.
  all: intros [= <-]; apply Heq; unfold ctx_CancelGroupsOf, ctx_DelayAll, ctx_DelayGroup,
    ctx_RescheduleGroup, DelayAll, DelayGroup, RescheduleGroup.
  all: try (apply contexts_ctx_Dispatch; by rewrite ?contexts_ScheduleAt,
    ?contexts_CancelGroupsOf, ?contexts_ModifyIf || by destruct s).
  - by destruct s.
  - by destruct s.
  - apply contexts_run_sop.
Qed.

Ltac get_ctx_task :=
  unfold get_context, get_task;
  match goal with
  | |- context [contexts ?s !! ?c] =>
      destruct (contexts s !! c) as [x|] eqn:Hc; cbn; [|done];
      destruct (heap s !! ctx_task x) as [t|] eqn:Ht; cbn; [|done]
  end.

Lemma wf_run_cop c o s s' :
  wf s → is_Some (contexts s !! c) → run_cop c o s = Done s' → wf s'.
Proof.
  intros Hwf. revert c. induction o as [| | | | | | | | | | | | | |c' o IH]; intros c Hctx; cbn [run_cop].
  - by apply wf_Repeat.
  - unfold ctx_RepeatSame. get_ctx_task. by apply wf_Repeat.
  - unfold ctx_SetGroup. get_ctx_task. intros [= <-]. by apply wf_set_group.
  - unfold ctx_ClearGroup. get_ctx_task. intros [= <-]. by apply wf_set_group.
  - unfold ctx_Schedule. get_ctx_task. intros [= <-]. apply wf_ctx_Dispatch; auto using wf_ScheduleAt.
  - intros [= <-]. apply wf_ctx_Dispatch; [done|]. intros. by apply wf_Async.
  - intros [= <-]. apply wf_ctx_Dispatch; [done|]. intros. apply wf_Async; [done|]. by intros h' c' [= <- <-].
  - intros [= <-]. apply wf_ctx_Dispatch; auto using wf_CancelAll.
  - intros [= <-]. apply wf_ctx_Dispatch; unfold CancelGroup; auto using wf_RemoveIf.
  - intros [= <-]. apply wf_ctx_Dispatch; auto using wf_CancelGroupsOf.
  - intros [= <-]. apply wf_ctx_Dispatch; unfold DelayAll; auto using wf_ModifyIf.
  - intros [= <-]. apply wf_ctx_Dispatch; unfold DelayGroup; auto using wf_ModifyIf.
  - intros [= <-]. apply wf_ctx_Dispatch; unfold RescheduleGroup; auto using wf_ModifyIf.
  - intros [= <-]. by apply wf_run_sop.
  - destruct (contexts s !! c') eqn:Hc'; [apply IH; eauto|by intros [= <-]].
Qed.

Lemma wf_run_cops c os s s' :
  wf s → is_Some (contexts s !! c) → ofold (λ s o, run_cop c o s) os s = Done s' → wf s'.
Proof.
  revert s. induction os as [|o os IH]; cbn; intros s Hwf Hc; [by intros [= <-]|].
  destruct (run_cop c o s) as [s1| |] eqn:E; cbn; [|done..].
  apply IH; [by eapply wf_run_cop|eapply ctx_ext_is_Some; [by eapply ctx_ext_run_cop|done]].
Qed.

Lemma wf_new_context id s :
  wf s → is_Some (heap s !! id) → id ∉ _task_holder s →
  (∀ c x, contexts s !! c = Some x → _consumed x = false → ctx_task x ≠ id) →
  wf (new_context id s).2.
Proof.
  destruct s as [al n q a p hp c nt nc tk ex]. intros [] Hid Hq Hopen. cbn in *.
  assert (∀ y, is_Some (c !! y) → y ≠ nc) as Hne.
  { intros y [x Hx] ->. specialize (wf_ctxs0 nc x Hx). lia. }
  split; cbn; eauto.
  - intros c0 x Hx. apply lookup_insert_Some in Hx as [[<- <-]|[_ Hx]]; eauto.
  - intros c0 x Hx. apply lookup_insert_Some in Hx as [[<- <-]|[_ Hx]]; eauto.
  - intros c1 c2 x1 x2 H1 H2 Ho1 Ho2 He.
    apply lookup_insert_Some in H1 as [[<- <-]|[_ H1]];
      apply lookup_insert_Some in H2 as [[<- <-]|[_ H2]]; cbn in *; [done| | |eauto].
    + by destruct (Hopen c2 x2 H2 Ho2).
    + by destruct (Hopen c1 x1 H1 Ho1).
  - intros c0 x Hx. apply lookup_insert_Some in Hx as [[<- <-]|[_ Hx]]; [lia|].
    specialize (wf_ctxs0 c0 x Hx). lia.
  - intros h c0 Hin. rewrite lookup_insert_is_Some'. eauto.
Qed.

(** Popping the first task and wrapping it in a context. *)
Lemma wf_Pop id s q :
  wf s → _task_holder s = id :: q → wf (new_context id (set_queue q s)).2.
Proof.
  intros Hwf Hq.
  assert (wf (set_queue q s)) as Hwf'.
  { rewrite <- (set_heap_id s). apply wf_shrink; [done|done| |].
    - rewrite Hq. by apply submseteq_cons.
    - pose proof (wf_sorted _ Hwf) as Hs. rewrite Hq in Hs. by apply StronglySorted_inv in Hs as [? _]. }
  assert (heap (set_queue q s) = heap s ∧ contexts (set_queue q s) = contexts s
    ∧ _task_holder (set_queue q s) = q) as (Hh & Hc & Hq') by (by destruct s).
  pose proof (wf_nodup _ Hwf) as Hnd. rewrite Hq in Hnd. apply NoDup_cons in Hnd as [Hnq _].
  apply wf_new_context; [done| | |].
  - rewrite Hh. apply (wf_queue _ Hwf). rewrite Hq. by left.
  - by rewrite Hq'.
  - rewrite Hc. intros c x Hx Ho <-. apply (wf_open _ Hwf c x Hx Ho). rewrite Hq. by left.
Qed.

(** The pointers a context follows are never null: the only call that can stop
    the program is a second [Repeat]. *)
Lemma run_cop_crash c o s w :
  wf s → is_Some (contexts s !! c) → run_cop c o s = Crash w → w = bad_task_logic.
Proof.
  intros Hwf. revert c. induction o as [| | | | | | | | | | | | | |c' o IH]; intros c [x Hc];
    destruct (wf_ctx _ Hwf c x Hc) as [t Ht]; cbn [run_cop];
    [..|destruct (contexts s !! c') eqn:Hc'; [apply IH; eauto|done]]; unfold ctx_RepeatSame, ctx_SetGroup, ctx_ClearGroup, ctx_Schedule,
    ctx_Repeat, AssertOnConsumed, get_context, get_task; rewrite ?Hc; cbn; rewrite ?Ht; cbn;
    try done.
  - destruct (_consumed x); cbn; [by intros [= <-]|]. by rewrite ?Ht.
  - destruct (_consumed x); cbn; [by intros [= <-]|]. by rewrite ?Ht.
Qed.

Lemma run_cops_crash c os s w :
  wf s → is_Some (contexts s !! c) → ofold (λ s o, run_cop c o s) os s = Crash w → w = bad_task_logic.
Proof.
  revert s. induction os as [|o os IH]; cbn; intros s Hwf Hc; [done|].
  destruct (run_cop c o s) as [s1| |w'] eqn:E; cbn; [|done|].
  - apply IH; [by eapply wf_run_cop|eapply ctx_ext_is_Some; [by eapply ctx_ext_run_cop|done]].
  - intros [= <-]. by eapply run_cop_crash.
Qed.

Section Invariant.
Variable handlers : nat → nat → Task → list cop.
Variable asyncs : nat → nat → list sop.
Variable validators : nat → nat → bool.

(** What holds of the outcome of a step: the invariant, or one of the two ways
    the scheduler can fail. *)
Definition ok_result {A} (get : A → TaskScheduler) (r : result A) : Prop :=
  match r with
  | Done a => wf (get a)
  | Throw OutOfFuel => True
  | Crash w => w = bad_task_logic ∨ w = pop_empty
  end.

Lemma wf_call_predicate s : wf s → wf (call_predicate validators s).2.
Proof. intros Hwf. unfold call_predicate. destruct (_predicate s); [by apply wf_tick|done]. Qed.

Lemma ok_Invoke h c s :
  wf s → is_Some (contexts s !! c) → ok_result id (Invoke handlers h c s).
Proof.
  intros Hwf [x Hc]. destruct (wf_ctx _ Hwf c x Hc) as [t Ht].
  unfold Invoke, get_context, get_task. rewrite Hc. cbn. rewrite Ht. cbn.
  assert (is_Some (contexts (next_tick s) !! c)) as Hc' by (destruct s; eauto).
  destruct (ofold _ _ _) as [s'|[]|w] eqn:E; cbn; [|done|].
  - eapply wf_run_cops; [| |exact E]; [by apply wf_tick|done].
  - left. eapply run_cops_crash; [| |exact E]; [by apply wf_tick|done].
Qed.

Lemma ok_call_async a s :
  wf s → a ∈ _asyncHolder s → ok_result id (call_async handlers asyncs a s).
Proof.
  intros Hwf Ha. destruct a as [a|h c]; cbn [call_async].
  - cbn. by apply wf_run_sops, wf_tick.
  - apply ok_Invoke; [done|]. by eapply wf_asyncs.
Qed.

Lemma ok_Dispatch_asyncs fuel s :
  wf s → ok_result snd (Dispatch_asyncs handlers asyncs validators fuel s).
Proof.
  revert s. induction fuel as [|fuel IH]; intros s Hwf; cbn [Dispatch_asyncs];
    destruct (_asyncHolder s) as [|a rest] eqn:Ha; [done..|].
  pose proof (ok_call_async a s Hwf) as Hok. rewrite Ha in Hok. specialize (Hok ltac:(by left)).
  destruct (call_async handlers asyncs a s) as [s1|[]|w]; cbn in *; [|done|done].
  destruct (_asyncHolder s1) as [|a1 rest1] eqn:Ha1; [by right|].
  assert (wf (set_asyncs rest1 s1)) as Hwf1.
  { apply wf_set_asyncs; [done|]. intros h c Hin. apply (wf_asyncs _ Hok h). rewrite Ha1. by right. }
  pose proof (wf_call_predicate _ Hwf1) as Hwf2.
  destruct (call_predicate validators (set_asyncs rest1 s1)) as [[] s2]; cbn in *; auto.
Qed.

Lemma ok_Dispatch_tasks fuel s :
  wf s → ok_result snd (Dispatch_tasks handlers validators fuel s).
Proof.
  revert s. induction fuel as [|fuel IH]; intros s Hwf; cbn [Dispatch_tasks];
    unfold TaskQueue_IsEmpty, TaskQueue_First, TaskQueue_Pop, get_task;
    destruct (_task_holder s) as [|i q] eqn:Hq; cbn; try done; destruct (_ <? _)%Z; try done.
  pose proof (wf_Pop i s q Hwf Hq) as Hwf1.
  assert (contexts (new_context i (set_queue q s)).2 !! (new_context i (set_queue q s)).1
    = Some (mk_TaskContext i false)) as Hc by (destruct s; cbn; apply lookup_insert_eq).
  destruct (new_context i (set_queue q s)) as [c s1]; cbn in *.
  destruct (wf_ctx _ Hwf1 c _ Hc) as [t Ht]. cbn in Ht. rewrite Ht. cbn.
  pose proof (ok_Invoke (_task t) c (add_executed (i, _end t) s1)) as Hok.
  destruct (Invoke handlers (_task t) c (add_executed (i, _end t) s1)) as [s2|[]|w]; cbn in *;
    [|done|destruct Hok; [by apply wf_executed|destruct s1; eauto| |]; auto].
  pose proof (wf_call_predicate s2) as Hwf3.
  destruct (call_predicate validators s2) as [[] s3]; cbn in *;
    [apply IH|]; apply Hwf3, Hok; try (by apply wf_executed); destruct s1; eauto.
Qed.

Lemma ok_Dispatch fuel s : wf s → ok_result snd (Dispatch handlers asyncs validators fuel s).
Proof.
  intros Hwf. unfold Dispatch. pose proof (wf_call_predicate s Hwf) as Hp.
  destruct (call_predicate validators s) as [[] s1]; cbn in *; [|done].
  pose proof (ok_Dispatch_asyncs fuel s1 Hp) as Ha.
  destruct (Dispatch_asyncs handlers asyncs validators fuel s1) as [[[] s2]|[]|w]; cbn in *;
    [|done..]. by apply ok_Dispatch_tasks.
Qed.
End Invariant.

(** ** Durations

    A program is steady for [δ] when every duration it passes is at least [δ]. *)
Definition sop_min (δ : Z) (o : sop) : Prop :=
  match o with
  | OpSchedule d _ _ | OpDelayAll d | OpDelayGroup _ d | OpRescheduleAll d | OpRescheduleGroup _ d =>
      (δ ≤ d)%Z
  | _ => True
  end.

(** A call that neither repeats a task nor schedules one at the end point of
    the context's task. *)
Fixpoint timeless (o : cop) : Prop :=
  match o with
  | CopRepeat _ | CopRepeatSame | CopSchedule _ _ _ => False
  | CopCaptured _ o => timeless o
  | _ => True
  end.

(** A handler repeats and schedules through its own context only. *)
Fixpoint cop_min (δ : Z) (o : cop) : Prop :=
  match o with
  | CopRepeat d | CopSchedule d _ _ | CopDelayAll d | CopDelayGroup _ d | CopRescheduleGroup _ d =>
      (δ ≤ d)%Z
  | CopScheduler o => sop_min δ o
  | CopCaptured _ o => timeless o ∧ cop_min δ o
  | _ => True
  end.

Definition durations_min (δ : Z) (s : TaskScheduler) : Prop :=
  ∀ id t, heap s !! id = Some t → (δ ≤ _duration t)%Z.

(** What no call of a callable changes, and the durations it may leave. *)
Record frame (δ : Z) (s s' : TaskScheduler) : Prop := mk_frame {
  fr_now : _now s' = _now s;
  fr_executed : executed s' = executed s;
  fr_durations : durations_min δ s → durations_min δ s';
}.

Lemma frame_refl δ s : frame δ s s.
Proof. by split. Qed.
Lemma frame_trans δ s1 s2 s3 : frame δ s1 s2 → frame δ s2 s3 → frame δ s1 s3.
Proof. intros [] []. split; [congruence..|auto]. Qed.
Lemma frame_queue δ q s : frame δ s (set_queue q s).
Proof. by destruct s. Qed.
Lemma frame_asyncs δ a s : frame δ s (set_asyncs a s).
Proof. by destruct s. Qed.
Lemma frame_tick δ s : frame δ s (next_tick s).
Proof. by destruct s. Qed.
Lemma frame_predicate δ p s : frame δ s (set_predicate p s).
Proof. by destruct s. Qed.
Lemma frame_contexts δ c s : frame δ s (set_contexts c s).
Proof. by destruct s. Qed.
Lemma frame_heap δ h s : (durations_min δ s → durations_min δ (set_heap h s)) → frame δ s (set_heap h s).
Proof. destruct s. by split. Qed.
Lemma frame_update δ id t s :
  (durations_min δ s → δ ≤ _duration t)%Z → frame δ s (set_heap (<[id := t]> (heap s)) s).
Proof.
  intros Ht. apply frame_heap. intros Hd id' t' Hl. destruct s; cbn in *.
  apply lookup_insert_Some in Hl as [[_ <-]|[_ Hl]]; [auto|eauto].
Qed.

Lemma frame_ScheduleAt δ e d g h s : (δ ≤ d)%Z → frame δ s (ScheduleAt e d g h s).
Proof.
  intros Hd. unfold ScheduleAt, InsertTask, TaskQueue_Push. destruct s as [al n q a p hp c nt nc tk ex]. cbn.
  split; cbn; [done..|]. intros Hall id t Hl. cbn in Hl.
  apply lookup_insert_Some in Hl as [[_ <-]|[_ Hl]]; [done|eauto].
Qed.

(** A filter of [ModifyIf] that keeps the durations. *)
Definition keeps_duration (f : Task → option Task) : Prop :=
  ∀ t t', f t = Some t' → _duration t' = _duration t.

Lemma ModifyIf_durations f q : keeps_duration f → ∀ h id t',
  (ModifyIf_loop h f q).1.1 !! id = Some t' → ∃ t, h !! id = Some t ∧ _duration t' = _duration t.
Proof.
  intros Hf. induction q as [|x q IH]; intros h id t'; cbn; [eauto|].
  destruct (h !! x ≫= f) as [u|] eqn:Hx.
  - specialize (IH (<[x:=u]> h) id t'). destruct (ModifyIf_loop (<[x:=u]> h) f q) as [[h' c] k].
    cbn in *. intros Hl. destruct (IH Hl) as (t & Ht & Hd).
    apply lookup_insert_Some in Ht as [[<- <-]|[_ Ht]]; [|eauto].
    apply bind_Some in Hx as (v & Hv & Hfv). exists v. split; [done|]. rewrite Hd. by apply Hf.
  - specialize (IH h id t'). destruct (ModifyIf_loop h f q) as [[h' c] k]. auto.
Qed.

Lemma frame_ModifyIf δ f s : keeps_duration f → frame δ s (TaskQueue_ModifyIf f s).
Proof.
  intros Hf. unfold TaskQueue_ModifyIf.
  pose proof (ModifyIf_durations f (_task_holder s) Hf (heap s)) as H.
  destruct (ModifyIf_loop (heap s) f (_task_holder s)) as [[h' c] k]; cbn in *.
  eapply frame_trans; [|apply frame_queue]. apply frame_heap. intros Hd id t Hl.
  destruct (H id t) as (t0 & Ht0 & ->); [by destruct s|eauto].
Qed.

Lemma keeps_duration_all g : (∀ t, _duration (g t) = _duration t) → keeps_duration (λ t, Some (g t)).
Proof. intros Hg t t' [= <-]. auto. Qed.
Lemma keeps_duration_group g gr :
  (∀ t, _duration (g t) = _duration t) → keeps_duration (λ t, if IsInGroup t gr then Some (g t) else None).
Proof. intros Hg t t'. destruct (IsInGroup t gr); [|done]. intros [= <-]. auto. Qed.

Lemma frame_CancelGroupsOf δ gs s : frame δ s (CancelGroupsOf gs s).
Proof.
  unfold CancelGroupsOf. revert s. induction gs as [|g gs IH]; intros s; [apply frame_refl|]. cbn.
  eapply frame_trans; [|apply IH]. apply frame_queue.
Qed.

Lemma frame_CancelAll δ s : frame δ s (CancelAll s).
Proof. by destruct s. Qed.

Lemma frame_run_sop δ o s : sop_min δ o → frame δ s (run_sop o s).
Proof.
  destruct o; cbn; intros Hd; unfold DelayAll, DelayGroup, RescheduleAll, RescheduleGroup.
  - apply frame_asyncs.
  - by apply frame_ScheduleAt.
  - apply frame_CancelAll.
  - apply frame_queue.
  - apply frame_CancelGroupsOf.
  - by apply frame_ModifyIf, keeps_duration_all.
  - by apply frame_ModifyIf, keeps_duration_group.
  - by apply frame_ModifyIf, keeps_duration_all.
  - by apply frame_ModifyIf, keeps_duration_group.
  - apply frame_predicate.
  - apply frame_predicate.
Qed.

Lemma frame_ctx_Dispatch δ f s : frame δ s (f s) → frame δ s (ctx_Dispatch f s).
Proof. unfold ctx_Dispatch. destruct (self_alive s); auto using frame_refl. Qed.

Lemma frame_Repeat δ c d s s' :
  (durations_min δ s → δ ≤ d)%Z → ctx_Repeat c d s = Done s' → frame δ s s'.
Proof.
  intros Hd. unfold ctx_Repeat, get_context, get_task, AssertOnConsumed, assert.
  destruct (contexts s !! c) as [x|]; cbn; [|done]. destruct (_consumed x); cbn; [done|].
  destruct (heap s !! ctx_task x) as [t|]; cbn; [|done]. intros [= <-].
  eapply frame_trans; [by apply (frame_update δ (ctx_task x) (repeated_task d t))|].
  eapply frame_trans; [apply frame_contexts|]. apply frame_ctx_Dispatch, frame_queue.
Qed.

Lemma frame_run_cop δ c o s s' :
  cop_min δ o → run_cop c o s = Done s' → frame δ s s'.
Proof.
  revert c. induction o as [| | | | | | | | | | | | | |c' o IH]; intros c; cbn [run_cop cop_min]; intros Hd.
  - by apply frame_Repeat.
  - unfold ctx_RepeatSame. get_ctx_task. apply frame_Repeat. intros Hall. eauto.
  - unfold ctx_SetGroup. get_ctx_task. intros [= <-]. apply frame_update. intros Hall. by eapply (Hall _ t Ht).
  - unfold ctx_ClearGroup. get_ctx_task. intros [= <-]. apply frame_update. intros Hall. by eapply (Hall _ t Ht).
  - unfold ctx_Schedule. get_ctx_task. intros [= <-]. by apply frame_ctx_Dispatch, frame_ScheduleAt.
  - intros [= <-]. apply frame_ctx_Dispatch, frame_asyncs.
  - intros [= <-]. apply frame_ctx_Dispatch, frame_asyncs.
  - intros [= <-]. apply frame_ctx_Dispatch, frame_CancelAll.
  - intros [= <-]. apply frame_ctx_Dispatch, frame_queue.
  - intros [= <-]. apply frame_ctx_Dispatch, frame_CancelGroupsOf.
  - intros [= <-]. by apply frame_ctx_Dispatch, frame_ModifyIf, keeps_duration_all.
  - intros [= <-]. by apply frame_ctx_Dispatch, frame_ModifyIf, keeps_duration_group.
  - intros [= <-]. by apply frame_ctx_Dispatch, frame_ModifyIf, keeps_duration_group.
  - intros [= <-]. by apply frame_run_sop.
  - destruct (contexts s !! c'); [apply IH, Hd|intros [= <-]; apply frame_refl].
Qed.

(** ** Weights

    A weight of end points that does not grow with time bounds what is still to
    run: a call of a callable adds at most one weight for every task it
    inserts, and delaying or rescheduling never adds any. *)
Definition inserted_sop (o : sop) : nat := match o with OpSchedule _ _ _ => 1 | _ => 0 end.
Fixpoint inserted_cop (o : cop) : nat :=
  match o with
  | CopRepeat _ | CopRepeatSame | CopSchedule _ _ _ => 1
  | CopScheduler o => inserted_sop o
  | CopCaptured _ o => inserted_cop o
  | _ => 0
  end.

Section Weights.
Variable w : Z → nat.
Variables δ T e : Z.
Hypothesis w_anti : ∀ a b, (a ≤ b)%Z → w b ≤ w a.
Hypothesis w_late : w (T + δ) = 0.
Hypothesis δ_pos : (0 ≤ δ)%Z.
Hypothesis e_due : (e ≤ T)%Z.

Definition weight (s : TaskScheduler) : nat :=
  sum_list_with (λ id, w (end_of (heap s) id)) (_task_holder s).

(** The task [τ] of the running context is in the store, at [e] or later. *)
Definition own_ok (τ : nat) (s : TaskScheduler) : Prop :=
  is_Some (heap s !! τ) ∧ (e ≤ end_of (heap s) τ)%Z.

(** The effect of one call: [n] tasks inserted. *)
Definition adds (n : nat) (τ : nat) (s s' : TaskScheduler) : Prop :=
  own_ok τ s' ∧ weight s' ≤ weight s + n * w (e + δ).

Lemma adds_same n τ s s' :
  own_ok τ s → heap s' = heap s → _task_holder s' ⊆+ _task_holder s → adds n τ s s'.
Proof.
  intros Hown Hh Hq. unfold adds, own_ok, weight. rewrite Hh. split; [done|].
  pose proof (sum_list_with_submseteq (λ id, w (end_of (heap s) id)) _ _ Hq). lia.
Qed.

Definition moves_later (f : Task → option Task) : Prop :=
  ∀ t t', f t = Some t' → (_end t ≤ _end t' ∨ T + δ ≤ _end t')%Z.

Lemma adds_ModifyIf f τ s :
  wf s → own_ok τ s → moves_later f → adds 0 τ s (TaskQueue_ModifyIf f s).
Proof.
  intros Hwf [[u Hu] He] Hf. unfold adds, own_ok, weight, TaskQueue_ModifyIf.
  pose proof (ModifyIf_loop_spec f _ (wf_nodup s Hwf) (heap s)) as H.
  destruct (ModifyIf_loop (heap s) f (_task_holder s)) as [[h' cache] kept].
  destruct H as (Hp & _ & Hout & Hin & _).
  assert (∀ q : list nat, heap (set_queue q (set_heap h' s)) = h' ∧
    _task_holder (set_queue q (set_heap h' s)) = q) as Hset by (by destruct s).
  destruct (Hset (foldl (λ q id, multiset_insert h' id q) kept cache)) as [-> ->].
  assert (∀ id, is_Some (heap s !! id) → is_Some (h' !! id) ∧
    (end_of (heap s) id ≤ end_of h' id ∨ T + δ ≤ end_of h' id)%Z) as Hmove.
  { intros id Hid. unfold end_of. destruct (decide (id ∈ cache)) as [Hc|Hc].
    - destruct (Hin id Hc) as (t & t' & -> & Ht & ->). eauto.
    - rewrite Hout by done. split; [done|]. left. lia. }
  split.
  - destruct (Hmove τ ltac:(eauto)) as [? [?|?]]; (split; [done|lia]).
  - rewrite multiset_inserts_perm, Hp, Nat.add_0_r. apply sum_list_with_le.
    intros id Hid. destruct (Hmove id (wf_queue _ Hwf id Hid)) as [_ [?|Hl]]; [by apply w_anti|].
    apply w_anti in Hl. lia.
Qed.

Lemma adds_ScheduleAt end_ d g h τ s :
  wf s → own_ok τ s → (e + δ ≤ end_ + d)%Z → adds 1 τ s (ScheduleAt end_ d g h s).
Proof.
  destruct s as [al n q a p hp c nt nc tk ex]. intros Hwf [[u Hu] He] Hd.
  unfold adds, own_ok, weight, ScheduleAt, InsertTask, TaskQueue_Push. cbn in *.
  set (t := mk_Task _ _ _ _ _).
  assert (∀ id, is_Some (hp !! id) → end_of (<[nt:=t]> hp) id = end_of hp id) as Hsame.
  { intros id [v Hv]. unfold end_of. rewrite lookup_insert_ne; [done|]. intros <-.
    pose proof (wf_tasks _ Hwf nt v Hv) as Hlt. cbn in Hlt. lia. }
  split.
  - split; [rewrite lookup_insert_is_Some'; right; eauto|]. by rewrite Hsame by eauto.
  - rewrite multiset_insert_perm. cbn. rewrite Nat.add_0_r.
    assert (w (end_of (<[nt:=t]> hp) nt) ≤ w (e + δ)) as H1.
    { apply w_anti. unfold end_of. by rewrite lookup_insert_eq. }
    assert (sum_list_with (λ id, w (end_of (<[nt:=t]> hp) id)) q
      ≤ sum_list_with (λ id, w (end_of hp id)) q) as H2.
    { apply sum_list_with_le. intros id Hid. rewrite Hsame; [done|]. by apply (wf_queue _ Hwf). }
    lia.
Qed.

Lemma adds_run_sop o τ s :
  wf s → own_ok τ s → _now s = T → sop_min δ o → adds (inserted_sop o) τ s (run_sop o s).
Proof.
  intros Hwf Hown HT. destruct o; cbn; intros Hd.
  all: try (apply adds_same; destruct s; done).
  - unfold Schedule. apply adds_ScheduleAt; [done|done|]. lia.
  - apply adds_same; [done|by destruct s|]. destruct s. apply submseteq_nil_l.
  - apply adds_same; [done|by destruct s|].
    pose proof (RemoveIf_sublist (heap s) (λ t, IsInGroup t group) (_task_holder s)).
    destruct s. by apply sublist_submseteq.
  - assert (heap (CancelGroupsOf groups s) = heap s ∧
      _task_holder (CancelGroupsOf groups s) ⊆+ _task_holder s) as [??].
    { unfold CancelGroupsOf. clear. revert s. induction groups as [|g gs IH]; intros s; [done|]. cbn.
      destruct (IH (CancelGroup g s)) as [-> Hs]. split; [by destruct s|]. etrans; [exact Hs|].
      pose proof (RemoveIf_sublist (heap s) (λ t, IsInGroup t g) (_task_holder s)).
      destruct s. by apply sublist_submseteq. }
    by apply adds_same.
  - apply adds_ModifyIf; [done..|]. intros t t' [= <-]. cbn. lia.
  - apply adds_ModifyIf; [done..|]. intros t t'. destruct (IsInGroup t group); [|done].
    intros [= <-]. cbn. lia.
  - apply adds_ModifyIf; [done..|]. intros t t' [= <-]. cbn. lia.
  - apply adds_ModifyIf; [done..|]. intros t t'. destruct (IsInGroup t group); [|done].
    intros [= <-]. cbn. lia.
Qed.

Lemma adds_ctx_Dispatch n τ f s :
  own_ok τ s → adds n τ s (f s) → adds n τ s (ctx_Dispatch f s).
Proof.
  intros Hown Hf. unfold ctx_Dispatch. destruct (self_alive s); [done|]. by apply adds_same.
Qed.

Lemma adds_Repeat c x d s s' :
  wf s → contexts s !! c = Some x → own_ok (ctx_task x) s → (δ ≤ d)%Z →
  ctx_Repeat c d s = Done s' → adds 1 (ctx_task x) s s'.
Proof.
  intros Hwf Hc [_ He] Hd. unfold ctx_Repeat, get_context, get_task, AssertOnConsumed, assert.
  rewrite Hc. cbn. destruct (_consumed x) eqn:Hx; cbn; [done|].
  destruct (heap s !! ctx_task x) as [t|] eqn:Ht; cbn; [|done]. intros [= <-].
  pose proof (wf_open _ Hwf c x Hc Hx) as Hnq.
  destruct s as [al n q a p hp cs nt nc tk ex]. cbn in *.
  set (hp' := <[ctx_task x := repeated_task d t]> hp).
  assert (end_of hp' (ctx_task x) = end_of hp (ctx_task x) + d)%Z as Hend.
  { subst hp'. unfold end_of. by rewrite lookup_insert_eq, Ht. }
  assert (sum_list_with (λ id, w (end_of hp' id)) q ≤ sum_list_with (λ id, w (end_of hp id)) q) as Hsum.
  { apply sum_list_with_le. intros id Hid. unfold end_of, hp'. rewrite lookup_insert_ne; [done|].
    by intros <-. }
  assert (is_Some (hp' !! ctx_task x) ∧ (e ≤ end_of hp' (ctx_task x))%Z) as Hown.
  { split; [subst hp'; rewrite lookup_insert_eq; eauto|]. rewrite Hend. lia. }
  unfold ctx_Dispatch. cbn. destruct al; unfold adds, own_ok, weight; cbn; (split; [done|]).
  - rewrite multiset_insert_perm. cbn. rewrite Hend, Nat.add_0_r.
    assert (w (end_of hp (ctx_task x) + d) ≤ w (e + δ)) by (apply w_anti; lia). lia.
  - lia.
Qed.

Lemma adds_set_group g t y τ s :
  own_ok τ s → heap s !! y = Some t → adds 0 τ s (set_heap (<[y := set_task_group g t]> (heap s)) s).
Proof.
  destruct s as [al n q a p hp cs nt nc tk ex]. intros [Hτ He] Ht. cbn in *.
  assert (∀ id, end_of (<[y := set_task_group g t]> hp) id = end_of hp id) as Hsame.
  { intros id. unfold end_of. destruct (decide (y = id)) as [<-|].
    - by rewrite lookup_insert_eq, Ht.
    - by rewrite lookup_insert_ne. }
  unfold adds, own_ok, weight. cbn. rewrite Hsame.
  split; [split; [rewrite lookup_insert_is_Some'; by right|done]|].
  rewrite Nat.add_0_r. apply sum_list_with_le. intros id _. by rewrite Hsame.
Qed.

(** A timeless call, on any context. *)
Lemma adds_timeless c o τ s s' :
  wf s → own_ok τ s → _now s = T → timeless o → cop_min δ o → durations_min δ s →
  run_cop c o s = Done s' → adds (inserted_cop o) τ s s'.
Proof.
  intros Hwf Hown HT Ho Hd Hmin. revert c Ho Hd.
  induction o as [| | | | | | | | | | | | | |c' o IH]; intros c Ho Hd; cbn [run_cop inserted_cop cop_min timeless] in *;
    try done.
  - unfold ctx_SetGroup. get_ctx_task. intros [= <-]. by apply adds_set_group.
  - unfold ctx_ClearGroup. get_ctx_task. intros [= <-]. by apply adds_set_group.
  - intros [= <-]. apply adds_ctx_Dispatch; [done|]. apply adds_same; by destruct s.
  - intros [= <-]. apply adds_ctx_Dispatch; [done|]. apply adds_same; by destruct s.
  - intros [= <-]. by apply adds_ctx_Dispatch, (adds_run_sop OpCancelAll).
  - intros [= <-]. by apply adds_ctx_Dispatch, (adds_run_sop (OpCancelGroup _)).
  - intros [= <-]. by apply adds_ctx_Dispatch, (adds_run_sop (OpCancelGroupsOf _)).
  - intros [= <-]. by apply adds_ctx_Dispatch, (adds_run_sop (OpDelayAll _)).
  - intros [= <-]. by apply adds_ctx_Dispatch, (adds_run_sop (OpDelayGroup _ _)).
  - intros [= <-]. by apply adds_ctx_Dispatch, (adds_run_sop (OpRescheduleGroup _ _)).
  - intros [= <-]. by apply adds_run_sop.
  - destruct (contexts s !! c') eqn:Hc'.
    + intros Hr. apply (IH c'); [done|apply Hd|done].
    + intros [= <-]. apply adds_same; by destruct s.
Qed.

Lemma adds_run_cop c x o s s' :
  wf s → contexts s !! c = Some x → own_ok (ctx_task x) s → _now s = T → cop_min δ o →
  durations_min δ s → run_cop c o s = Done s' → adds (inserted_cop o) (ctx_task x) s s'.
Proof.
  intros Hwf Hc Hown HT Hd Hmin. pose proof Hown as [[t Ht] He].
  assert (_end t = end_of (heap s) (ctx_task x)) as Het by (unfold end_of; by rewrite Ht).
  destruct o; try (by apply adds_timeless); cbn [run_cop inserted_cop cop_min] in *;
    unfold ctx_RepeatSame, ctx_Schedule, get_context, get_task; rewrite ?Hc; cbn; rewrite ?Ht; cbn.
  - by apply adds_Repeat.
  - apply adds_Repeat; [done..|]. by eapply Hmin.
  - intros [= <-]. apply adds_ctx_Dispatch; [done|]. apply adds_ScheduleAt; [done..|]. lia.
  - destruct Hd as [Ho Hd]. destruct (contexts s !! c0) eqn:Hc0.
    + by apply adds_timeless.
    + intros [= <-]. by apply adds_same.
Qed.

Lemma adds_run_cops c x os s s' :
  wf s → contexts s !! c = Some x → own_ok (ctx_task x) s → _now s = T → Forall (cop_min δ) os →
  durations_min δ s → ofold (λ s o, run_cop c o s) os s = Done s' →
  adds (sum_list_with inserted_cop os) (ctx_task x) s s'.
Proof.
  revert s x. induction os as [|o os IH]; cbn; intros s x Hwf Hc Hown HT Hd Hmin.
  - intros [= <-]. by apply adds_same.
  - apply Forall_cons in Hd as [Ho Hos].
    destruct (run_cop c o s) as [s1| |] eqn:E; cbn; [|done..]. intros Hrun.
    pose proof (adds_run_cop c x o s s1 Hwf Hc Hown HT Ho Hmin E) as [Hown1 Hw1].
    destruct (ctx_ext_run_cop _ _ _ _ E c x Hc) as (x1 & Hc1 & Ht1).
    pose proof (frame_run_cop δ c o s s1 Ho E) as [Hn _ Hm].
    destruct (IH s1 x1) as [Hown2 Hw2]; [|done| |congruence|done|auto|done|].
    + eapply wf_run_cop; eauto.
    + by rewrite Ht1.
    + rewrite Ht1 in Hown2. split; [done|]. lia.
Qed.

(** One invocation: the weight of what the handler leaves. *)
Lemma adds_Invoke (handlers : nat → nat → Task → list cop) h c x s s' :
  wf s → contexts s !! c = Some x → own_ok (ctx_task x) s → _now s = T →
  (∀ h k t, Forall (cop_min δ) (handlers h k t)) → durations_min δ s →
  Invoke handlers h c s = Done s' →
  ∃ t, heap s !! ctx_task x = Some t ∧
    weight s' ≤ weight s + sum_list_with inserted_cop (handlers h (tick s) t) * w (e + δ).
Proof.
  intros Hwf Hc Hown HT Hh Hmin. pose proof Hown as [[t Ht] _].
  unfold Invoke, get_context, get_task. rewrite Hc. cbn. rewrite Ht. cbn. intros Hrun.
  exists t. split; [done|].
  destruct (adds_run_cops c x (handlers h (tick s) t) (next_tick s) s') as [_ Hw];
    [by apply wf_tick|by destruct s|by destruct s|by destruct s|done|by destruct s|done|].
  replace (weight (next_tick s)) with (weight s) in Hw by (by destruct s). done.
Qed.
End Weights.

(** ** The order of execution *)
Lemma frame_run_cops δ c os s s' :
  Forall (cop_min δ) os → ofold (λ s o, run_cop c o s) os s = Done s' → frame δ s s'.
Proof.
  revert s. induction os as [|o os IH]; cbn; intros s Hd; [intros [= <-]; apply frame_refl|].
  apply Forall_cons in Hd as [Ho Hos].
  destruct (run_cop c o s) as [s1| |] eqn:E; cbn; [|done..]. intros Hrun.
  eapply frame_trans; [by eapply frame_run_cop|by apply IH].
Qed.

Lemma frame_run_sops δ os s : Forall (sop_min δ) os → frame δ s (foldl (λ s o, run_sop o s) s os).
Proof.
  revert s. induction os as [|o os IH]; cbn; intros s Hd; [apply frame_refl|].
  apply Forall_cons in Hd as [Ho Hos].
  eapply frame_trans; [by apply frame_run_sop|by apply IH].
Qed.

Section Runs.
Variable handlers : nat → nat → Task → list cop.
Variable asyncs : nat → nat → list sop.
Variable validators : nat → nat → bool.
Variable δ : Z.
Hypothesis δ_pos : (0 ≤ δ)%Z.
Hypothesis handlers_min : ∀ h k t, Forall (cop_min δ) (handlers h k t).
Hypothesis asyncs_min : ∀ a k, Forall (sop_min δ) (asyncs a k).

Lemma frame_call_predicate s : frame δ s (call_predicate validators s).2.
Proof. unfold call_predicate. destruct (_predicate s); [apply frame_tick|apply frame_refl]. Qed.

Lemma queue_call_predicate s :
  _task_holder (call_predicate validators s).2 = _task_holder s ∧
  heap (call_predicate validators s).2 = heap s ∧
  _asyncHolder (call_predicate validators s).2 = _asyncHolder s.
Proof. unfold call_predicate. destruct (_predicate s), s; done. Qed.

Lemma frame_Invoke h c s s' : Invoke handlers h c s = Done s' → frame δ s s'.
Proof.
  unfold Invoke. get_ctx_task. intros Hrun.
  eapply frame_trans; [apply frame_tick|]. by eapply frame_run_cops.
Qed.

Lemma frame_call_async a s s' : call_async handlers asyncs a s = Done s' → frame δ s s'.
Proof.
  destruct a as [a|h c]; cbn [call_async]; [|apply frame_Invoke]. intros [= <-].
  eapply frame_trans; [apply frame_tick|]. by apply frame_run_sops.
Qed.

Lemma frame_Dispatch_asyncs fuel s b s' :
  Dispatch_asyncs handlers asyncs validators fuel s = Done (b, s') →
  frame δ s s' ∧ (b = true → _asyncHolder s' = []).
Proof.
  revert s. induction fuel as [|fuel IH]; intros s; cbn [Dispatch_asyncs];
    destruct (_asyncHolder s) as [|a rest] eqn:Ha; try done;
    try (intros [= <- <-]; split; [apply frame_refl|done]).
  destruct (call_async handlers asyncs a s) as [s1| |] eqn:E; cbn; [|done..].
  apply frame_call_async in E.
  destruct (_asyncHolder s1) as [|a1 rest1]; [done|].
  pose proof (frame_call_predicate (set_asyncs rest1 s1)) as Hp.
  assert (frame δ s (call_predicate validators (set_asyncs rest1 s1)).2) as Hf.
  { eapply frame_trans; [exact E|]. eapply frame_trans; [apply frame_asyncs|exact Hp]. }
  destruct (call_predicate validators (set_asyncs rest1 s1)) as [[] s2]; cbn in *.
  - intros [? ?]%IH. split; [by eapply frame_trans|done].
  - intros [= <- <-]. done.
Qed.

(** The first task of the queue in the state its handler sees. *)
Lemma Dispatch_tasks_step fuel s i q t :
  wf s → _task_holder s = i :: q → heap s !! i = Some t →
  (_end t ≤ _now s)%Z →
  let s1 := add_executed (i, _end t) (new_context i (set_queue q s)).2 in
  Dispatch_tasks handlers validators (S fuel) s =
    (s2 ← Invoke handlers (_task t) (next_ctx s) s1;
     let '(ok, s3) := call_predicate validators s2 in
     if (ok : bool) then Dispatch_tasks handlers validators fuel s3 else Done (false, s3)).
Proof.
  intros Hwf Hq Ht He s1. cbn [Dispatch_tasks].
  unfold TaskQueue_IsEmpty, TaskQueue_First, TaskQueue_Pop, get_task. rewrite Hq. cbn.
  assert (end_of (heap s) i = _end t) as -> by (unfold end_of; by rewrite Ht).
  destruct (Z.ltb_spec (_now s) (_end t)); [lia|].
  subst s1. destruct s as [al n q' a p hp c nt nc tk ex]; cbn in *. by rewrite Ht.
Qed.

Lemma step_state s i q t :
  wf s → _task_holder s = i :: q → heap s !! i = Some t →
  let s1 := add_executed (i, _end t) (new_context i (set_queue q s)).2 in
  wf s1 ∧ contexts s1 !! next_ctx s = Some (mk_TaskContext i false) ∧ heap s1 = heap s ∧
  _task_holder s1 = q ∧ _now s1 = _now s ∧ executed s1 = executed s ++ [(i, _end t)] ∧
  tick s1 = tick s ∧ (∀ id, id ∈ q → _end t ≤ end_of (heap s) id)%Z.
Proof.
  intros Hwf Hq Ht s1. split; [by apply wf_executed, wf_Pop|].
  pose proof (wf_sorted _ Hwf) as Hs. rewrite Hq in Hs. apply StronglySorted_inv in Hs as [_ Hs].
  subst s1. destruct s as [al n q' a p hp c nt nc tk ex]; cbn in *. rewrite lookup_insert_eq.
  repeat split; try done. intros id Hid. rewrite Forall_forall in Hs. specialize (Hs id Hid).
  unfold ends_le, end_of at 1 in Hs. by rewrite Ht in Hs.
Qed.

(** After an invocation at [_end t], nothing earlier is in the queue. *)
Lemma Invoke_later s i q t s2 :
  wf s → durations_min δ s → _task_holder s = i :: q → heap s !! i = Some t → (_end t ≤ _now s)%Z →
  Invoke handlers (_task t) (next_ctx s)
    (add_executed (i, _end t) (new_context i (set_queue q s)).2) = Done s2 →
  ∀ id, id ∈ _task_holder s2 → (_end t ≤ end_of (heap s2) id)%Z.
Proof.
  intros Hwf Hmin Hq Ht He Hrun id Hid.
  destruct (step_state s i q t Hwf Hq Ht) as (Hwf1 & Hc1 & Hh1 & Hq1 & Hn1 & _ & _ & Hlater).
  set (w := λ y, if (y <? _end t)%Z then 1 else 0).
  assert (w (_end t + δ)%Z = 0) as Hw1 by (unfold w; destruct (Z.ltb_spec (_end t + δ) (_end t)); lia).
  destruct (adds_Invoke w δ (_now s) (_end t)) with (handlers := handlers) (h := _task t)
    (c := next_ctx s) (x := mk_TaskContext i false) (s := add_executed (i, _end t) (new_context i (set_queue q s)).2)
    (s' := s2) as (t' & _ & Hwt); try done.
  - intros a b Hab. unfold w. destruct (Z.ltb_spec a (_end t)), (Z.ltb_spec b (_end t)); lia.
  - unfold w. destruct (Z.ltb_spec (_now s + δ) (_end t)); lia.
  - split; cbn [ctx_task]; rewrite Hh1; [eauto|]. unfold end_of. by rewrite Ht.
  - intros id' t'. rewrite Hh1. apply Hmin.
  - rewrite Hw1, Nat.mul_0_r, Nat.add_0_r in Hwt.
    assert (weight w (add_executed (i, _end t) (new_context i (set_queue q s)).2) = 0) as H0.
    { unfold weight. rewrite Hh1, Hq1. apply Nat.le_0_r.
      transitivity (sum_list_with (λ _ : nat, 0) q); [|clear; induction q; done].
      apply sum_list_with_le. intros y Hy. unfold w. specialize (Hlater y Hy).
      destruct (Z.ltb_spec (end_of (heap s) y) (_end t)); lia. }
    rewrite H0 in Hwt. unfold weight in Hwt.
    pose proof (sum_list_with_in id (λ id, w (end_of (heap s2) id)) _ Hid) as Hin.
    cbn in Hin. assert (w (end_of (heap s2) id) = 0) as Hz by lia. unfold w in Hz.
    destruct (Z.ltb_spec (end_of (heap s2) id) (_end t)); [done|lia].
Qed.

Lemma ok_Done {A} (get : A → TaskScheduler) (r : result A) a : ok_result get r → r = Done a → wf (get a).
Proof. by intros H ->. Qed.

(** One round of the second loop, from the popped task to the predicate. *)
Lemma Dispatch_tasks_round fuel s i q t b s' :
  wf s → durations_min δ s → _task_holder s = i :: q → heap s !! i = Some t → (_end t ≤ _now s)%Z →
  Dispatch_tasks handlers validators (S fuel) s = Done (b, s') →
  ∃ s3 ok, wf s3 ∧ durations_min δ s3 ∧ _now s3 = _now s ∧
    executed s3 = executed s ++ [(i, _end t)] ∧
    (∀ id, id ∈ _task_holder s3 → _end t ≤ end_of (heap s3) id)%Z ∧
    (if (ok : bool) then Dispatch_tasks handlers validators fuel s3 = Done (b, s')
     else b = false ∧ s' = s3).
Proof.
  intros Hwf Hmin Hq Ht He. rewrite (Dispatch_tasks_step fuel s i q t Hwf Hq Ht He). cbn zeta.
  pose proof (step_state s i q t Hwf Hq Ht) as Hst.
  pose proof (λ s2, Invoke_later s i q t s2 Hwf Hmin Hq Ht He) as Hl.
  set (s1 := add_executed _ _) in *. destruct Hst as (Hwf1 & Hc1 & Hh1 & Hq1 & Hn1 & He1 & _).
  pose proof (ok_Invoke handlers (_task t) (next_ctx s) s1 Hwf1 ltac:(eauto)) as Hok.
  destruct (Invoke handlers (_task t) (next_ctx s) s1) as [s2| |] eqn:E; cbn; [|done..].
  pose proof (frame_Invoke _ _ _ _ E) as [Hn2 He2 Hd2].
  pose proof (wf_call_predicate validators s2 Hok) as Hwf3.
  pose proof (frame_call_predicate s2) as [Hn3 He3 Hd3].
  destruct (queue_call_predicate s2) as (Hq3 & Hh3 & _).
  destruct (call_predicate validators s2) as [ok s3]. cbn in *. intros Hrun.
  exists s3, ok. split; [done|].
  split; [|split; [congruence|split; [congruence|split]]].
  - apply Hd3, Hd2. intros id u. rewrite Hh1. apply Hmin.
  - rewrite Hq3, Hh3. by apply Hl.
  - destruct ok; [done|]. by simplify_eq.
Qed.

Lemma Dispatch_tasks_order fuel s L b s' :
  wf s → durations_min δ s → (∀ id, id ∈ _task_holder s → L ≤ end_of (heap s) id)%Z →
  Dispatch_tasks handlers validators fuel s = Done (b, s') →
  _now s' = _now s ∧
  (b = true → ∀ id, id ∈ _task_holder s' → _now s < end_of (heap s') id)%Z ∧
  ∃ ex, executed s' = executed s ++ ex ∧ StronglySorted Z.le ex.*2 ∧
    Forall (λ x, L ≤ x.2 ≤ _now s)%Z ex.
Proof.
  revert s L. induction fuel as [|fuel IH]; intros s L Hwf Hmin HL Hrun.
  all: destruct (_task_holder s) as [|i q] eqn:Hq.
  1,3: cbn [Dispatch_tasks] in Hrun; unfold TaskQueue_IsEmpty in Hrun; rewrite Hq in Hrun;
    injection Hrun as <- <-; repeat split; [rewrite Hq; set_solver|]; exists [];
    rewrite app_nil_r; repeat constructor.
  all: destruct (wf_queue _ Hwf i ltac:(rewrite Hq; by left)) as [t Ht].
  all: assert (end_of (heap s) i = _end t) as Hei by (unfold end_of; by rewrite Ht).
  all: destruct (Z.ltb_spec (_now s) (_end t)) as [Hlt|Hge].
  1,3: cbn [Dispatch_tasks] in Hrun; unfold TaskQueue_IsEmpty, TaskQueue_First in Hrun;
    rewrite Hq in Hrun; cbn in Hrun; rewrite Hei in Hrun;
    destruct (Z.ltb_spec (_now s) (_end t)); [|lia]; injection Hrun as <- <-;
    (split; [done|]); split; [|exists []; rewrite app_nil_r; repeat constructor];
    intros _ id; rewrite Hq; intros Hid;
    pose proof (wf_sorted _ Hwf) as Hs; rewrite Hq in Hs;
    apply StronglySorted_inv in Hs as [_ Hs]; rewrite Forall_forall in Hs;
    apply elem_of_cons in Hid as [->|Hid]; [lia|]; specialize (Hs id Hid); unfold ends_le in Hs; lia.
  - exfalso. cbn [Dispatch_tasks] in Hrun. unfold TaskQueue_IsEmpty, TaskQueue_First in Hrun.
    rewrite Hq in Hrun. cbn in Hrun. rewrite Hei in Hrun. destruct (Z.ltb_spec (_now s) (_end t)); [lia|done].
  - destruct (Dispatch_tasks_round fuel s i q t b s' Hwf Hmin Hq Ht Hge Hrun)
      as (s3 & ok & Hwf3 & Hmin3 & Hn3 & He3 & Hl3 & Hrest).
    specialize (HL i ltac:(by left)). rewrite Hei in HL. destruct ok.
    + destruct (IH s3 (_end t) Hwf3 Hmin3 Hl3 Hrest) as (Hn & Hdue & ex & Hex & Hsort & Hall).
      rewrite Hn3 in *. split; [done|]. split; [done|]. exists ((i, _end t) :: ex).
      rewrite Hex, He3, <- app_assoc. split; [done|]. split.
      * cbn. constructor; [done|]. apply Forall_fmap. eapply Forall_impl; [exact Hall|]. cbn. lia.
      * constructor; [cbn; lia|]. eapply Forall_impl; [exact Hall|]. cbn. lia.
    + destruct Hrest as [-> ->]. split; [done|]. split; [done|]. exists [(i, _end t)].
      rewrite He3. split; [done|]. split; [by repeat constructor|]. constructor; [cbn; lia|done].
Qed.

Lemma Dispatch_order fuel s b s' :
  wf s → durations_min δ s → Dispatch handlers asyncs validators fuel s = Done (b, s') →
  _now s' = _now s ∧
  (b = true → ∀ id, id ∈ _task_holder s' → _now s < end_of (heap s') id)%Z ∧
  ∃ ex, executed s' = executed s ++ ex ∧ StronglySorted Z.le ex.*2 ∧ Forall (λ x, x.2 ≤ _now s)%Z ex.
Proof.
  intros Hwf Hmin. unfold Dispatch.
  pose proof (wf_call_predicate validators s Hwf) as Hwf1.
  pose proof (frame_call_predicate s) as [Hn1 He1 Hd1].
  destruct (call_predicate validators s) as [[] s1]; cbn in *.
  2:{ intros [= <- <-]. split; [done|]. split; [done|]. exists []. rewrite app_nil_r. by repeat constructor. }
  pose proof (ok_Dispatch_asyncs handlers asyncs validators fuel s1 Hwf1) as Hok.
  destruct (Dispatch_asyncs handlers asyncs validators fuel s1) as [[b2 s2]| |] eqn:E; cbn in *; [|done..].
  apply frame_Dispatch_asyncs in E as [[Hn2 He2 Hd2] _].
  destruct b2.
  2:{ intros [= <- <-]. split; [congruence|]. split; [done|]. exists []. rewrite app_nil_r.
      split; [congruence|]. by repeat constructor. }
  intros Hrun.
  assert (∃ L, ∀ id, id ∈ _task_holder s2 → L ≤ end_of (heap s2) id)%Z as [L HL].
  { clear. induction (_task_holder s2) as [|i q [L HL]]; [exists 0%Z; set_solver|].
    exists (Z.min L (end_of (heap s2) i)). intros id [->|Hid]%elem_of_cons; [lia|].
    specialize (HL id Hid). lia. }
  destruct (Dispatch_tasks_order fuel s2 L b s' Hok (Hd2 (Hd1 Hmin)) HL Hrun)
    as (Hn & Hdue & ex & Hex & Hs & Hall).
  rewrite Hn2, Hn1 in *. split; [done|]. split; [done|]. exists ex. split; [congruence|].
  split; [done|]. eapply Forall_impl; [exact Hall|]. cbn. lia.
Qed.
End Runs.

(** ** Termination *)
Definition pushed_sop (o : sop) : list async_callable :=
  match o with OpAsync a => [APlain a] | _ => [] end.
Fixpoint pushed_cop (c : nat) (o : cop) : list async_callable :=
  match o with
  | CopAsync a => [APlain a]
  | CopAsyncCtx h => [ACtx h c]
  | CopScheduler o => pushed_sop o
  | CopCaptured c o => pushed_cop c o
  | _ => []
  end.

Lemma asyncs_ModifyIf f s : _asyncHolder (TaskQueue_ModifyIf f s) = _asyncHolder s.
Proof. unfold TaskQueue_ModifyIf. destruct (ModifyIf_loop _ _ _) as [[??]?]. by destruct s. Qed.
Lemma asyncs_CancelGroupsOf gs s : _asyncHolder (CancelGroupsOf gs s) = _asyncHolder s.
Proof.
  unfold CancelGroupsOf. revert s. induction gs as [|g gs IH]; intros s; [done|]. cbn. rewrite IH.
  by destruct s.
Qed.

Lemma asyncs_run_sop o s :
  _asyncHolder (run_sop o s) = _asyncHolder s ++ pushed_sop o ∨ _asyncHolder (run_sop o s) = [].
Proof.
  destruct o; cbn; rewrite ?app_nil_r; unfold DelayAll, DelayGroup, RescheduleAll, RescheduleGroup;
    rewrite ?asyncs_ModifyIf, ?asyncs_CancelGroupsOf; try (by left); try (left; by destruct s).
  right. by destruct s.
Qed.

Lemma asyncs_Repeat c d s s' : ctx_Repeat c d s = Done s' → _asyncHolder s' = _asyncHolder s.
Proof.
  unfold ctx_Repeat, get_context, get_task, AssertOnConsumed, assert.
  destruct (contexts s !! c) as [x|]; cbn; [|done]. destruct (_consumed x); cbn; [done|].
  destruct (heap s !! ctx_task x) as [t|]; cbn; [|done]. intros [= <-].
  unfold ctx_Dispatch. destruct s as [[]]; done.
Qed.

Lemma asyncs_run_cop c o s s' :
  run_cop c o s = Done s' →
  _asyncHolder s' = _asyncHolder s ++ pushed_cop c o ∨ _asyncHolder s' = [] ∨
  _asyncHolder s' = _asyncHolder s.
Proof.
  assert (∀ o, _asyncHolder (ctx_Dispatch (run_sop o) s) = _asyncHolder s ++ pushed_sop o ∨
    _asyncHolder (ctx_Dispatch (run_sop o) s) = [] ∨
    _asyncHolder (ctx_Dispatch (run_sop o) s) = _asyncHolder s) as Hd.
  { intros o'. unfold ctx_Dispatch. destruct (self_alive s); [|auto].
    destruct (asyncs_run_sop o' s); auto. }
  revert c. induction o as [| | | | | | | | | | | | | |c' o IH]; intros c; cbn [run_cop pushed_cop].
  - intros ?%asyncs_Repeat. auto.
  - unfold ctx_RepeatSame. get_ctx_task. intros ?%asyncs_Repeat. auto.
  - unfold ctx_SetGroup. get_ctx_task. intros [= <-]. right; right. by destruct s.
  - unfold ctx_ClearGroup. get_ctx_task. intros [= <-]. right; right. by destruct s.
  - unfold ctx_Schedule. get_ctx_task. intros [= <-]. right; right. unfold ctx_Dispatch. by destruct s as [[]].
  - intros [= <-]. exact (Hd (OpAsync a)).
  - intros [= <-]. unfold ctx_Async, ctx_Dispatch. destruct s as [[]]; cbn; auto.
  - intros [= <-]. exact (Hd OpCancelAll).
  - intros [= <-]. exact (Hd (OpCancelGroup group)).
  - intros [= <-]. exact (Hd (OpCancelGroupsOf groups)).
  - intros [= <-]. exact (Hd (OpDelayAll d)).
  - intros [= <-]. exact (Hd (OpDelayGroup group d)).
  - intros [= <-]. exact (Hd (OpRescheduleGroup group d)).
  - intros [= <-]. destruct (asyncs_run_sop o s); auto.
  - destruct (contexts s !! c'); [apply IH|intros [= <-]; auto].
Qed.

Lemma run_cop_no_throw c o s e : run_cop c o s ≠ Throw e.
Proof.
  revert c. induction o as [| | | | | | | | | | | | | |c' o IH]; intros c; cbn [run_cop]; try done;
    [..|destruct (contexts s !! c'); [apply IH|done]]; unfold ctx_RepeatSame, ctx_SetGroup, ctx_ClearGroup,
    ctx_Schedule, ctx_Repeat, get_context, get_task, AssertOnConsumed, assert;
  destruct (contexts s !! c) as [x|]; cbn; try done;
  destruct (heap s !! ctx_task x); cbn; try done; destruct (_consumed x); done.
Qed.

Lemma run_cops_no_throw c os s e : ofold (λ s o, run_cop c o s) os s ≠ Throw e.
Proof.
  revert s. induction os as [|o os IH]; cbn; intros s; [done|].
  destruct (run_cop c o s) eqn:E; cbn; [apply IH| |done]. by apply run_cop_no_throw in E.
Qed.

Section Terminates.
Variable handlers : nat → nat → Task → list cop.
Variable asyncs : nat → nat → list sop.
Variable validators : nat → nat → bool.

Lemma Invoke_no_throw h c s e : Invoke handlers h c s ≠ Throw e.
Proof.
  unfold Invoke, get_context, get_task. destruct (contexts s !! c) as [x|]; cbn; [|done].
  destruct (heap s !! ctx_task x); cbn; [|done]. apply run_cops_no_throw.
Qed.

(** The asynchronous callables do not call each other for ever: a rank falls. *)
Variable rank : async_callable → nat.
Hypothesis asyncs_rank : ∀ a k,
  sum_list_with (λ o, sum_list_with rank (pushed_sop o)) (asyncs a k) < rank (APlain a).
Hypothesis handlers_rank : ∀ h c k t,
  sum_list_with (λ o, sum_list_with rank (pushed_cop c o)) (handlers h k t) < rank (ACtx h c).

(** What a callable leaves of the holder [h0] it started with. *)
Definition grown (h0 : list async_callable) (n : nat) (h : list async_callable) : Prop :=
  ∃ X, (h = h0 ++ X ∨ h = X) ∧ sum_list_with rank X ≤ n.

Lemma grown_push h0 n h P : grown h0 n h → grown h0 (n + sum_list_with rank P) (h ++ P).
Proof.
  intros (X & HX & Hn). exists (X ++ P). rewrite sum_list_with_app. split; [|lia].
  destruct HX as [->| ->]; [left|right]; by rewrite ?app_assoc.
Qed.
Lemma grown_nil h0 n : grown h0 n [].
Proof. exists []. split; [by right|]. cbn. lia. Qed.
Lemma grown_le h0 n m h : n ≤ m → grown h0 n h → grown h0 m h.
Proof. intros ? (X & ? & ?). exists X. split; [done|lia]. Qed.

Lemma grown_sops h0 n os s :
  grown h0 n (_asyncHolder s) →
  grown h0 (n + sum_list_with (λ o, sum_list_with rank (pushed_sop o)) os)
    (_asyncHolder (foldl (λ s o, run_sop o s) s os)).
Proof.
  revert n s. induction os as [|o os IH]; intros n s Hg; cbn; [by rewrite Nat.add_0_r|].
  rewrite Nat.add_assoc. apply IH.
  destruct (asyncs_run_sop o s) as [->| ->]; [by apply grown_push|apply grown_nil].
Qed.

Lemma grown_cops c h0 n os s s' :
  grown h0 n (_asyncHolder s) → ofold (λ s o, run_cop c o s) os s = Done s' →
  grown h0 (n + sum_list_with (λ o, sum_list_with rank (pushed_cop c o)) os) (_asyncHolder s').
Proof.
  revert n s. induction os as [|o os IH]; intros n s Hg; cbn.
  - rewrite Nat.add_0_r. by intros [= <-].
  - destruct (run_cop c o s) as [s1| |] eqn:E; cbn; [|done..]. rewrite Nat.add_assoc. apply IH.
    destruct (asyncs_run_cop _ _ _ _ E) as [->|[->| ->]];
      [by apply grown_push|apply grown_nil|]. eapply grown_le; [|done]. lia.
Qed.

Lemma grown_call_async a rest s s' :
  _asyncHolder s = a :: rest → call_async handlers asyncs a s = Done s' →
  ∀ a' rest', _asyncHolder s' = a' :: rest' →
  sum_list_with rank rest' < sum_list_with rank (a :: rest).
Proof.
  intros Ha Hcall a' rest' Ha'.
  assert (∃ n, n < rank a ∧ grown (a :: rest) n (_asyncHolder s')) as (n & Hn & X & HX & Hsum).
  { assert (grown (a :: rest) 0 (_asyncHolder (next_tick s))) as Hg.
    { exists []. rewrite app_nil_r. split; [left; by destruct s|done]. }
    destruct a as [a|h c]; cbn [call_async] in Hcall.
    - injection Hcall as <-. exists (0 + sum_list_with (λ o, sum_list_with rank (pushed_sop o)) (asyncs a (tick s))).
      split; [apply asyncs_rank|by apply grown_sops].
    - unfold Invoke, get_context, get_task in Hcall.
      destruct (contexts s !! c) as [x|]; cbn in Hcall; [|done].
      destruct (heap s !! ctx_task x) as [t|]; cbn in Hcall; [|done].
      eexists. split; [apply (handlers_rank h c (tick s) t)|].
      by apply (grown_cops c _ 0 _ (next_tick s)). }
  rewrite Ha' in HX. cbn. destruct HX as [HX|HX].
  - injection HX as -> ->. rewrite sum_list_with_app. lia.
  - subst X. cbn in Hsum. lia.
Qed.

Lemma Dispatch_asyncs_terminates fuel s :
  sum_list_with rank (_asyncHolder s) ≤ fuel →
  Dispatch_asyncs handlers asyncs validators fuel s ≠ Throw OutOfFuel.
Proof.
  assert (∀ a, 0 < rank a) as Hpos.
  { intros [a|h c]; [pose proof (asyncs_rank a 0)|pose proof (handlers_rank h c 0 (mk_Task 0 0 None 0 0))]; lia. }
  revert s. induction fuel as [|fuel IH]; intros s Hf; cbn [Dispatch_asyncs];
    destruct (_asyncHolder s) as [|a rest] eqn:Ha; try done.
  { cbn in Hf. pose proof (Hpos a). lia. }
  destruct (call_async handlers asyncs a s) as [s1|[]|] eqn:E; cbn; [| |done].
  - destruct (_asyncHolder s1) as [|a1 rest1] eqn:Ha1; [done|].
    pose proof (grown_call_async a rest s s1 Ha E a1 rest1 Ha1) as Hlt.
    destruct (queue_call_predicate validators (set_asyncs rest1 s1)) as (_ & _ & Hh).
    destruct (call_predicate validators (set_asyncs rest1 s1)) as [[] s2]; [|done].
    apply IH. cbn in Hh. rewrite Hh. destruct s1. cbn in *. lia.
  - destruct a; [done|]. by apply Invoke_no_throw in E.
Qed.
End Terminates.

Section TasksTerminate.
Variable handlers : nat → nat → Task → list cop.
Variable validators : nat → nat → bool.
Variables δ : Z.
Variable B : nat.
Hypothesis δ_pos : (0 < δ)%Z.
Hypothesis handlers_min : ∀ h k t, Forall (cop_min δ) (handlers h k t).
Hypothesis handlers_bound : ∀ h k t, sum_list_with inserted_cop (handlers h k t) ≤ B.

(** How many rounds of length [δ] fit between [y] and [T], and the weight of a
    task that ends at [y]: the tasks its executions can lead to. *)
Definition rounds (T y : Z) : nat := S (Z.to_nat ((T - y) / δ)).
Definition due_weight (T y : Z) : nat := if (T <? y)%Z then 0 else (S B) ^ rounds T y.

Lemma due_weight_anti T a b : (a ≤ b)%Z → due_weight T b ≤ due_weight T a.
Proof.
  intros Hab. unfold due_weight. destruct (Z.ltb_spec T b), (Z.ltb_spec T a); try lia.
  apply Nat.pow_le_mono_r; [lia|]. unfold rounds. apply le_n_S, Z2Nat.inj_le.
  - apply Z.div_pos; lia.
  - apply Z.div_pos; lia.
  - apply Z.div_le_mono; lia.
Qed.

Lemma due_weight_late T : due_weight T (T + δ) = 0.
Proof. unfold due_weight. destruct (Z.ltb_spec T (T + δ)); lia. Qed.

(** [B] tasks one round later weigh less than the task that inserts them. *)
Lemma due_weight_step T e : (e ≤ T)%Z → B * due_weight T (e + δ) < due_weight T e.
Proof.
  intros He. unfold due_weight.
  destruct (Z.ltb_spec T e); [lia|].
  assert (0 < S B ^ rounds T e) by (apply Nat.neq_0_lt_0, Nat.pow_nonzero; lia).
  destruct (Z.ltb_spec T (e + δ)); [by rewrite Nat.mul_0_r|].
  assert (rounds T e = S (rounds T (e + δ))) as ->.
  { unfold rounds. f_equal. replace (T - e)%Z with ((T - (e + δ)) + 1 * δ)%Z by lia.
    rewrite Z.div_add by lia. rewrite Z2Nat.inj_add; [|apply Z.div_pos; lia|lia]. lia. }
  rewrite Nat.pow_succ_r'. assert (0 < S B ^ rounds T (e + δ)) by (apply Nat.neq_0_lt_0, Nat.pow_nonzero; lia).
  nia.
Qed.

Lemma Dispatch_tasks_terminates fuel s :
  wf s → durations_min δ s → weight (due_weight (_now s)) s ≤ fuel →
  Dispatch_tasks handlers validators fuel s ≠ Throw OutOfFuel.
Proof.
  revert s. induction fuel as [|fuel IH]; intros s Hwf Hmin Hw.
  all: destruct (_task_holder s) as [|i q] eqn:Hq.
  1,3: cbn [Dispatch_tasks]; unfold TaskQueue_IsEmpty; by rewrite Hq.
  all: destruct (wf_queue _ Hwf i ltac:(rewrite Hq; by left)) as [t Ht].
  all: assert (end_of (heap s) i = _end t) as Hei by (unfold end_of; by rewrite Ht).
  all: destruct (Z.ltb_spec (_now s) (_end t)) as [Hlt|Hge].
  1,3: cbn [Dispatch_tasks]; unfold TaskQueue_IsEmpty, TaskQueue_First; rewrite Hq; cbn;
    rewrite Hei; by destruct (Z.ltb_spec (_now s) (_end t)); [|lia].
  all: pose proof (due_weight_step (_now s) (_end t) Hge) as Hstep.
  all: unfold weight in Hw; rewrite Hq in Hw; cbn [sum_list_with] in Hw; rewrite Hei in Hw.
  - lia.
  - rewrite (Dispatch_tasks_step handlers validators fuel s i q t Hwf Hq Ht Hge).
    pose proof (step_state s i q t Hwf Hq Ht) as Hst.
    set (s1 := add_executed _ _) in *. destruct Hst as (Hwf1 & Hc1 & Hh1 & Hq1 & Hn1 & _).
    pose proof (ok_Invoke handlers (_task t) (next_ctx s) s1 Hwf1 ltac:(eauto)) as Hok.
    destruct (Invoke handlers (_task t) (next_ctx s) s1) as [s2|[]|] eqn:E; cbn; [| |done].
    2:{ by apply Invoke_no_throw in E. }
    destruct (adds_Invoke (due_weight (_now s)) δ (_now s) (_end t)) with (handlers := handlers)
      (h := _task t) (c := next_ctx s) (x := mk_TaskContext i false) (s := s1) (s' := s2)
      as (t' & _ & Hadd); try done.
    { apply due_weight_anti. } { apply due_weight_late. } { lia. }
    { split; cbn [ctx_task]; rewrite Hh1; [eauto|by rewrite Hei]. }
    { intros id u. rewrite Hh1. apply Hmin. }
    pose proof (frame_Invoke handlers δ handlers_min _ _ _ _ E) as [Hn2 _ Hd2].
    pose proof (wf_call_predicate validators s2 Hok) as Hwf3.
    pose proof (frame_call_predicate validators δ s2) as [Hn3 _ Hd3].
    destruct (queue_call_predicate validators s2) as (Hq3 & Hh3 & _).
    destruct (call_predicate validators s2) as [[] s3]; cbn in *; [|done].
    apply IH; [done| |].
    + apply Hd3, Hd2. intros id u. rewrite Hh1. apply Hmin.
    + rewrite Hn3, Hn2, Hn1. unfold weight in *. rewrite Hq3, Hh3. rewrite Hq1, Hh1 in Hadd.
      pose proof (handlers_bound (_task t) (tick s1) t') as Hb. nia.
Qed.

(** More fuel changes nothing. *)
Lemma Dispatch_asyncs_more asyncs fuel k s :
  Dispatch_asyncs handlers asyncs validators fuel s ≠ Throw OutOfFuel →
  Dispatch_asyncs handlers asyncs validators (fuel + k) s
    = Dispatch_asyncs handlers asyncs validators fuel s.
Proof.
  revert s. induction fuel as [|fuel IH]; intros s; cbn [Dispatch_asyncs Nat.add].
  - destruct (_asyncHolder s) as [|a r] eqn:E; [|done]. intros _.
    destruct k; cbn [Dispatch_asyncs]; by rewrite E.
  - destruct (_asyncHolder s) as [|a r]; [done|].
    destruct (call_async handlers asyncs a s) as [s1| |]; cbn; [|done..].
    destruct (_asyncHolder s1) as [|a1 r1]; [done|].
    destruct (call_predicate validators (set_asyncs r1 s1)) as [[] s2]; [|done]. apply IH.
Qed.

Lemma Dispatch_tasks_more fuel k s :
  Dispatch_tasks handlers validators fuel s ≠ Throw OutOfFuel →
  Dispatch_tasks handlers validators (fuel + k) s = Dispatch_tasks handlers validators fuel s.
Proof.
  revert s. induction fuel as [|fuel IH]; intros s; cbn [Dispatch_tasks Nat.add].
  - destruct k; [done|]. cbn [Dispatch_tasks].
    destruct (TaskQueue_IsEmpty s); [done|].
    destruct (TaskQueue_First s) as [f| |]; cbn; [|done..]. by destruct (_ <? _)%Z.
  - destruct (TaskQueue_IsEmpty s); [done|].
    destruct (TaskQueue_First s) as [f| |]; cbn; [|done..]. destruct (_ <? _)%Z; [done|].
    destruct (TaskQueue_Pop s) as [[id s1]| |]; cbn; [|done..].
    destruct (new_context id s1) as [c s2].
    destruct (get_task id s2) as [t| |]; cbn; [|done..].
    destruct (Invoke _ _ _ _) as [s3| |]; cbn; [|done..].
    destruct (call_predicate validators s3) as [[] s4]; [|done]. apply IH.
Qed.
End TasksTerminate.

(** ** Properties *)
Section Properties.
Variable handlers : nat → nat → Task → list cop.
Variable asyncs : nat → nat → list sop.
Variable validators : nat → nat → bool.

(** The states a program can bring a scheduler to: calls from outside, through
    a context that was kept too, and updates that return. *)
Inductive reachable : TaskScheduler → Prop :=
| reach_new now p : reachable (TaskScheduler_new now p)
| reach_call o s : reachable s → reachable (run_sop o s)
| reach_context c o s s' :
    reachable s → is_Some (contexts s !! c) → run_cop c o s = Done s' → reachable s'
| reach_update fuel now s b s' :
    reachable s → Update handlers asyncs validators fuel now s = Done (b, s') → reachable s'
| reach_update_by fuel difftime s b s' :
    reachable s → Update_by handlers asyncs validators fuel difftime s = Done (b, s') → reachable s'.

Lemma reachable_wf s : reachable s → wf s.
Proof.
  induction 1 as [now p|o s _ IH|c o s s' _ IH Hc Hr|fuel now s b s' _ IH Hu|fuel d s b s' _ IH Hu].
  - apply TaskScheduler_new_wf.
  - by apply wf_run_sop.
  - by eapply wf_run_cop.
  - exact (ok_Done snd _ _ (ok_Dispatch handlers asyncs validators fuel _ (wf_now now s IH)) Hu).
  - exact (ok_Done snd _ _ (ok_Dispatch handlers asyncs validators fuel _ (wf_now _ s IH)) Hu).
Qed.

(** C1 Whatever the tasks, the asynchronous callables and the validator do, in
    every reachable state the queue is ordered by [_end], holds every task once
    and only existing tasks, and a context that may still repeat its task is the
    only one of that task, which is then out of the queue.  An update dereferences
    no null pointer and takes no task from an empty queue: the only failures are
    the assertion on a consumed context and the [pop] of an emptied holder. *)
Theorem scheduler_invariant (s : TaskScheduler) :
  reachable s →
  wf s ∧ ∀ fuel now, ok_result snd (Update handlers asyncs validators fuel now s).
Proof.
  intros Hr%reachable_wf. split; [done|]. intros fuel now. apply ok_Dispatch. by apply wf_now.
Qed.

(** C2 When no duration is negative and every handler repeats and schedules
    through its own context only, an update runs tasks in the order of their end
    points, none that is not due, and when it reaches its callback no due task is
    left, the ones inserted by the handlers included.  (A repetition through a
    captured context breaks the order: [captured_context_breaks_order].) *)
Theorem Update_in_order (fuel : nat) (now : Z) (s s' : TaskScheduler) (b : bool) :
  wf s → durations_min 0 s →
  (∀ h k t, Forall (cop_min 0) (handlers h k t)) → (∀ a k, Forall (sop_min 0) (asyncs a k)) →
  Update handlers asyncs validators fuel now s = Done (b, s') →
  (∃ ex, executed s' = executed s ++ ex ∧ StronglySorted Z.le ex.*2 ∧ Forall (λ x, x.2 ≤ now)%Z ex) ∧
  (b = true → ∀ id, id ∈ _task_holder s' → (now < end_of (heap s') id)%Z).
Proof.
  intros Hwf Hmin Hh Ha Hu.
  destruct (Dispatch_order handlers asyncs validators 0 ltac:(lia) Hh Ha fuel (set_now now s) b s')
    as (_ & Hdue & Hex); [by apply wf_now|by destruct s|done|].
  replace (executed (set_now now s)) with (executed s) in Hex by (by destruct s).
  replace (_now (set_now now s)) with now in * by (by destruct s). done.
Qed.

(** C3 An update ends: when every duration is at least [δ > 0], every handler
    repeats and schedules through its own context only and inserts at most [B]
    tasks, and the asynchronous callables do not call each
    other for ever, there is a number of rounds after which the two loops of
    [Dispatch] are over, with the same result for every larger bound. *)
Theorem Update_terminates (δ : Z) (B : nat) (rank : async_callable → nat) (now : Z) (s : TaskScheduler) :
  wf s → durations_min δ s → (0 < δ)%Z →
  (∀ h k t, Forall (cop_min δ) (handlers h k t)) → (∀ a k, Forall (sop_min δ) (asyncs a k)) →
  (∀ h k t, sum_list_with inserted_cop (handlers h k t) ≤ B) →
  (∀ a k, sum_list_with (λ o, sum_list_with rank (pushed_sop o)) (asyncs a k) < rank (APlain a)) →
  (∀ h c k t, sum_list_with (λ o, sum_list_with rank (pushed_cop c o)) (handlers h k t) < rank (ACtx h c)) →
  ∃ n r, r ≠ Throw OutOfFuel ∧
    ∀ k, Update handlers asyncs validators (n + k) now s = r.
Proof.
  intros Hwf Hmin Hδ Hh Ha HB Hra Hrh. unfold Update, Dispatch.
  apply (wf_now now) in Hwf.
  assert (durations_min δ (set_now now s)) as Hmin' by (by destruct s).
  pose proof (wf_call_predicate validators _ Hwf) as Hwf1.
  pose proof (frame_call_predicate validators δ (set_now now s)) as [_ _ Hd1].
  destruct (call_predicate validators (set_now now s)) as [[] s1]; cbn in *.
  2:{ exists 0, (Done (false, s1)). done. }
  set (n1 := sum_list_with rank (_asyncHolder s1)).
  pose proof (Dispatch_asyncs_terminates handlers asyncs validators rank Hra Hrh n1 s1 ltac:(lia)) as Ht1.
  pose proof (λ k, Dispatch_asyncs_more handlers validators asyncs n1 k s1 Ht1) as Hm1.
  pose proof (ok_Dispatch_asyncs handlers asyncs validators n1 s1 Hwf1) as Hok.
  destruct (Dispatch_asyncs handlers asyncs validators n1 s1) as [[b2 s2]|[]|w] eqn:E; [|done|].
  2:{ exists n1, (Crash w). split; [done|]. intros k. by rewrite Hm1. }
  destruct b2.
  2:{ exists n1, (Done (false, s2)). split; [done|]. intros k. by rewrite Hm1. }
  apply (frame_Dispatch_asyncs handlers asyncs validators δ Hh Ha) in E as [[_ _ Hd2] _].
  set (n2 := weight (due_weight δ B (_now s2)) s2).
  pose proof (Dispatch_tasks_terminates handlers validators δ B Hδ Hh HB n2 s2 Hok (Hd2 (Hd1 Hmin'))
    ltac:(done)) as Ht2.
  exists (n1 + n2), (Dispatch_tasks handlers validators n2 s2). split; [done|]. intros k.
  replace (n1 + n2 + k) with (n1 + (n2 + k)) at 1 by lia. rewrite Hm1. cbn.
  replace (n1 + n2 + k) with (n2 + (n1 + k)) by lia. by apply Dispatch_tasks_more.
Qed.

(** A callable of [Async] that ends with [CancelAll] empties the holder it is
    the front of, and [Dispatch] then pops an empty queue. *)
Theorem async_CancelAll_crashes (fuel a : nat) (now : Z) (s : TaskScheduler) rest os :
  _predicate s = None → _asyncHolder s = APlain a :: rest → asyncs a (tick s) = os ++ [OpCancelAll] →
  Update handlers asyncs validators (S fuel) now s = Crash pop_empty.
Proof.
  intros Hp Hq Ho. unfold Update, Dispatch, call_predicate.
  replace (_predicate (set_now now s)) with (@None nat) by (by destruct s).
  cbn. replace (_asyncHolder (set_now now s)) with (APlain a :: rest) by (by destruct s).
  cbn. replace (tick (set_now now s)) with (tick s) by (by destruct s).
  rewrite Ho, foldl_app. cbn. destruct (foldl _ _ os). done.
Qed.

End Properties.

(** [DelayGroup] and [RescheduleGroup] change the end points of the queued
    tasks of the group and nothing else, and leave the queue ordered with the
    same tasks; [CancelGroup] takes exactly the tasks of the group out. *)
Theorem group_operations_correct (group d : Z) (s : TaskScheduler) :
  wf s →
  (∀ s' move, (s' = DelayGroup group d s ∧ move = delay d) ∨
      (s' = RescheduleGroup group d s ∧ move = with_end (_now s + d)) →
    _task_holder s' ≡ₚ _task_holder s ∧ queue_sorted (heap s') (_task_holder s') ∧
    ∀ id t, heap s !! id = Some t →
      heap s' !! id = Some (if bool_decide (id ∈ _task_holder s) && IsInGroup t group
                            then move t else t)) ∧
  (∀ id, id ∈ _task_holder (CancelGroup group s) ↔
     id ∈ _task_holder s ∧ ∀ t, heap s !! id = Some t → IsInGroup t group = false).
Proof.
  intros Hwf. split.
  - intros s' move Hs'.
    assert (s' = TaskQueue_ModifyIf (λ t, if IsInGroup t group then Some (move t) else None) s) as ->
      by (destruct Hs' as [[-> ->]|[-> ->]]; reflexivity).
    pose proof (wf_ModifyIf (λ t, if IsInGroup t group then Some (move t) else None) s Hwf) as Hwf'.
    split; [|split; [by apply wf_sorted|]]; revert Hwf'; unfold TaskQueue_ModifyIf;
    pose proof (ModifyIf_loop_spec (λ t, if IsInGroup t group then Some (move t) else None)
      _ (wf_nodup s Hwf) (heap s)) as H; destruct (ModifyIf_loop _ _ _) as [[h' cache] kept];
    destruct H as (Hp & _ & Hout & Hin & Hk); intros _.
    + replace (_task_holder (set_queue _ _)) with (foldl (λ q id, multiset_insert h' id q) kept cache)
        by (by destruct s). by rewrite multiset_inserts_perm.
    + intros id t Ht. replace (heap (set_queue _ _)) with h' by (by destruct s).
      destruct (decide (id ∈ cache)) as [Hc|Hc].
      * destruct (Hin id Hc) as (u & u' & Hu & Hm & ->). simplify_eq.
        rewrite bool_decide_eq_true_2 by (rewrite <- Hp; set_solver).
        cbn. destruct (IsInGroup t group); congruence.
      * rewrite Hout by done. rewrite Ht. f_equal.
        destruct (bool_decide_reflect (id ∈ _task_holder s)) as [Hq|]; [|done]. cbn.
        rewrite <- Hp in Hq. apply elem_of_app in Hq as [?|Hq]; [done|].
        specialize (Hk id Hq). rewrite Ht in Hk. cbn in Hk. by destruct (IsInGroup t group).
  - intros id. unfold CancelGroup, TaskQueue_RemoveIf. rewrite <- RemoveIf_elem. by destruct s.
Qed.

(** ** Witnesses: a periodic task (0) that starts a second one (1), and an
    asynchronous callable that schedules. *)
Definition ex_handlers (h k : nat) (t : Task) : list cop :=
  match h with 0 => [CopRepeat 5; CopSchedule 3 (Some 7%Z) 1] | _ => [] end.
Definition ex_asyncs (a k : nat) : list sop :=
  match a with 0 => [OpSchedule 1 (Some 7%Z) 1] | _ => [OpCancelAll] end.
Definition ex_validators (v k : nat) : bool := (k <? v)%nat.
Definition ex_start : TaskScheduler :=
  foldl (λ s o, run_sop o s) (TaskScheduler_new 0 None) [OpSchedule 10 None 0; OpAsync 0].
Definition ex_update (fuel : nat) (now : Z) : TaskScheduler :=
  match Update ex_handlers ex_asyncs ex_validators fuel now ex_start with
  | Done (_, s) => s
  | _ => ex_start
  end.

Example ex_update_runs :
  Update ex_handlers ex_asyncs ex_validators 10 21 ex_start = Done (true, ex_update 10 21) /\
  executed (ex_update 10 21) = [(0, 10%Z); (0, 15%Z); (2, 18%Z); (0, 20%Z)].
Proof. by vm_compute. Qed.

(** Captured contexts.  The handler of task 0, which ends at 10, schedules task 1
    for 20; that handler repeats the first context by 5, and so runs a task of
    end point 15 after one of 20.  And a handler that keeps scheduling through
    the context of a task that ended at 10 is still at it, in an update at 20,
    after a thousand tasks. *)
Definition capture_handlers (h k : nat) (t : Task) : list cop :=
  match h with 0 => if decide (_end t = 10%Z) then [CopSchedule 10 None 1] else []
  | 1 => [CopCaptured 0 (CopRepeat 5)] | 2 => [CopSchedule 2 None 3] | _ => [CopCaptured 0 (CopSchedule 1 None 3)] end.
Definition capture_start (h : nat) : TaskScheduler := run_sop (OpSchedule 10 None h) (TaskScheduler_new 0 None).

Example captured_context_breaks_order :
  ∃ s, Update capture_handlers ex_asyncs ex_validators 10 21 (capture_start 0) = Done (true, s) ∧
    (executed s).*2 = [10; 20; 15]%Z.
Proof. eexists. split; vm_compute; reflexivity. Qed.

Example captured_context_runs_on :
  Update capture_handlers ex_asyncs ex_validators 1000 20 (capture_start 2) = Throw OutOfFuel.
Proof. vm_compute. reflexivity. Qed.

Lemma ex_start_wf : wf ex_start.
Proof. apply wf_run_sops, TaskScheduler_new_wf. Qed.
Lemma ex_start_durations : durations_min 1 ex_start.
Proof.
  apply (frame_run_sops 1 [OpSchedule 10 None 0; OpAsync 0]); [repeat constructor; cbn; lia|].
  by intros ??.
Qed.
Lemma ex_handlers_min h k t : Forall (cop_min 1) (ex_handlers h k t).
Proof. destruct h; repeat constructor; cbn; lia. Qed.
Lemma ex_asyncs_min a k : Forall (sop_min 1) (ex_asyncs a k).
Proof. destruct a; repeat constructor; cbn; lia. Qed.

Lemma sop_min_le o δ δ' : (δ' ≤ δ)%Z → sop_min δ o → sop_min δ' o.
Proof. destruct o; cbn; lia. Qed.
Lemma cop_min_le o δ δ' : (δ' ≤ δ)%Z → cop_min δ o → cop_min δ' o.
Proof. intros Hd. induction o; cbn; try lia; [by apply sop_min_le|naive_solver]. Qed.

Lemma scheduler_invariant_witness :
  wf (ex_update 10 21) /\
  ∀ fuel now, ok_result snd (Update ex_handlers ex_asyncs ex_validators fuel now (ex_update 10 21)).
Proof.
  apply (scheduler_invariant ex_handlers ex_asyncs ex_validators (ex_update 10 21)).
  apply (reach_update _ _ _ 10 21 ex_start true); [|apply ex_update_runs].
  apply (reach_call _ _ _ (OpAsync 0)), (reach_call _ _ _ (OpSchedule 10 None 0)), reach_new.
Defined.

Lemma Update_in_order_witness :
  (∃ ex, executed (ex_update 10 21) = executed ex_start ++ ex ∧ StronglySorted Z.le ex.*2 ∧
     Forall (λ x, x.2 ≤ 21)%Z ex) ∧
  (true = true → ∀ id, id ∈ _task_holder (ex_update 10 21) →
     (21 < end_of (heap (ex_update 10 21)) id)%Z).
Proof.
  apply (Update_in_order ex_handlers ex_asyncs ex_validators 10 21 ex_start (ex_update 10 21) true).
  - exact ex_start_wf.
  - intros id t Ht. pose proof (ex_start_durations id t Ht). lia.
  - intros h k t. eapply Forall_impl; [apply ex_handlers_min|]. intros o. by apply cop_min_le.
  - intros a k. eapply Forall_impl; [apply ex_asyncs_min|]. intros o. by apply sop_min_le.
  - apply ex_update_runs.
Defined.

Lemma Update_terminates_witness :
  ∃ n r, r ≠ Throw OutOfFuel ∧
    ∀ k, Update ex_handlers ex_asyncs ex_validators (n + k) 1000 ex_start = r.
Proof.
  apply (Update_terminates ex_handlers ex_asyncs ex_validators 1 2 (λ _, 1) 1000 ex_start).
  - exact ex_start_wf.
  - exact ex_start_durations.
  - lia.
  - exact ex_handlers_min.
  - exact ex_asyncs_min.
  - intros [|h] k t; cbn; lia.
  - intros [|a] k; cbn; lia.
  - intros [|h] c k t; cbn; lia.
Defined.

Lemma async_CancelAll_crashes_witness :
  Update ex_handlers ex_asyncs ex_validators 1 5 (Async (APlain 1) (TaskScheduler_new 0 None))
  = Crash pop_empty.
Proof.
  apply (async_CancelAll_crashes ex_handlers ex_asyncs ex_validators 0 1 5
    (Async (APlain 1) (TaskScheduler_new 0 None)) [] []); reflexivity.
Defined.

Lemma group_operations_correct_witness :
  wf (ex_update 10 21) ∧
  (∀ id, id ∈ _task_holder (CancelGroup 7 (ex_update 10 21)) ↔
     id ∈ _task_holder (ex_update 10 21) ∧
     ∀ t, heap (ex_update 10 21) !! id = Some t → IsInGroup t 7 = false).
Proof.
  assert (wf (ex_update 10 21)) as Hwf.
  { exact (ok_Done snd _ _ (ok_Dispatch ex_handlers ex_asyncs ex_validators 10 _ (wf_now 21 _ ex_start_wf))
      (proj1 ex_update_runs)). }
  split; [exact Hwf|]. apply (group_operations_correct 7 0 (ex_update 10 21) Hwf).
Defined.
