(* ===== verification/PCQueue.v ===== *)
(** * ProducerConsumerQueue and its threads

    common/Threading/PCQueue.h and server/database/Database/
    DatabaseAsyncQueueWorker.cpp.  Every member of the queue runs under
    [_queueLock], so it is one atomic step; [_condition.wait] is where a thread
    gives the lock away.  The threads of the asynchronous workers are a
    transition system: [fire] gives the state after one step of one thread.  A
    notified thread is [Woken] and has to take the lock again; a thread may wake
    spuriously.  [notify_one] wakes any one waiting thread (the label says which),
    none if nobody waits.  The destructor of a worker is two steps, the store to
    [_cancel] (without the lock) and [NotifyAll]; then it joins. *)
From S2P Require Import Prelude.

Section Queue.
Context {T : Type}.

(** ** The queue *)
Record PCQueue := mk_PCQueue {
  _queue : list T;
  _shutdown : bool;
}.

Definition PCQueue_new : PCQueue := mk_PCQueue [] false.

Definition Push (value : T) (q : PCQueue) : PCQueue :=
  mk_PCQueue (_queue q ++ [value]) (_shutdown q).

Definition Empty (q : PCQueue) : bool := match _queue q with [] => true | _ => false end.

Definition Size (q : PCQueue) : nat := length (_queue q).

(** [Pop(value)]: what it stored in [value], if it returned true. *)
Definition Pop (q : PCQueue) : option T * PCQueue :=
  if Empty q || _shutdown q then (None, q)
  else match _queue q with
       | v :: rest => (Some v, mk_PCQueue rest (_shutdown q))
       | [] => (None, q)
       end.

(** One turn of [WaitAndPop] with the lock held: it waits, or it returns with
    what it stored in [value]. *)
Inductive wait_result :=
| Wait
| Return (value : option T) (q : PCQueue).

Definition WaitAndPop_cancel (customCancel : bool) (q : PCQueue) : wait_result :=
  if Empty q && negb (_shutdown q) && negb customCancel then Wait
  else if Empty q || _shutdown q || customCancel then Return None q
  else match _queue q with
       | v :: rest => Return (Some v) (mk_PCQueue rest (_shutdown q))
       | [] => Return None q
       end.

Definition WaitAndPop (q : PCQueue) : wait_result :=
  if Empty q && negb (_shutdown q) then Wait
  else if Empty q || _shutdown q then Return None q
  else match _queue q with
       | v :: rest => Return (Some v) (mk_PCQueue rest (_shutdown q))
       | [] => Return None q
       end.

Definition Cancel (q : PCQueue) : PCQueue := mk_PCQueue [] true.

(** ** The threads of AsyncDBQueueWorker *)
Inductive phase :=
| Idle                       (* at the head of the loop *)
| Waiting                    (* in [_condition.wait] *)
| Woken                      (* notified, about to take the lock *)
| Returned (op : option T)   (* [WaitAndPop] has returned *)
| Running (op : T)           (* in [operation->ExecuteQuery()] *)
| Finished.                  (* [ExecuteAsyncQueue] has returned *)

Record worker := mk_worker {
  w_phase : phase;
  _cancel : bool;
  w_notified : bool;         (* the destructor has called [NotifyAll] *)
}.

(** The system: the queue, the threads, and what happened so far. *)
Record sys := mk_sys {
  sq : PCQueue;
  workers : list worker;
  pushed : list T;
  popped : list T;
  executed : list T;
  dropped : list T;
}.

Definition sys_new : sys := mk_sys PCQueue_new [] [] [] [] [].

Inductive label :=
| LPush (v : T) (wake : option nat)
| LCreate
| LAcquire (i : nat)
| LSpurious (i : nat)
| LLoop (i : nat)
| LExecute (i : nat)
| LSetCancel (i : nat)
| LNotifyAll (i : nat)
| LShutdown.

Definition set_phase (p : phase) (w : worker) : worker := mk_worker p (_cancel w) (w_notified w).

(** [notify_all] *)
Definition wake (w : worker) : worker :=
  match w_phase w with Waiting => set_phase Woken w | _ => w end.

Definition is_waiting (w : worker) : bool :=
  match w_phase w with Waiting => true | _ => false end.

(** [notify_one]: the thread [who] if it waits; nobody only if nobody waits. *)
Definition notify_one (who : option nat) (ws : list worker) : option (list worker) :=
  match who with
  | Some i =>
      match ws !! i with
      | Some w => if is_waiting w then Some (<[i := wake w]> ws) else None
      | None => None
      end
  | None => if existsb is_waiting ws then None else Some ws
  end.

Definition set_worker (i : nat) (w : worker) (s : sys) : sys :=
  mk_sys (sq s) (<[i := w]> (workers s)) (pushed s) (popped s) (executed s) (dropped s).

(** [ExecuteAsyncQueue]: [WaitAndPop] with the lock held. *)
Definition fire_acquire (i : nat) (w : worker) (s : sys) : sys :=
  match WaitAndPop_cancel (_cancel w) (sq s) with
  | Wait => set_worker i (set_phase Waiting w) s
  | Return v q' =>
      mk_sys q' (<[i := set_phase (Returned v) w]> (workers s)) (pushed s)
        (popped s ++ option_list v) (executed s) (dropped s)
  end.

(** The rest of the loop's body: [if (_cancel) break; if (!operation) continue;]. *)
Definition fire_loop (i : nat) (w : worker) (op : option T) (s : sys) : sys :=
  if _cancel w then
    mk_sys (sq s) (<[i := set_phase Finished w]> (workers s)) (pushed s) (popped s) (executed s)
      (dropped s ++ option_list op)
  else
    match op with
    | None => set_worker i (set_phase Idle w) s
    | Some v => set_worker i (set_phase (Running v) w) s
    end.

Definition fire (l : label) (s : sys) : option sys :=
  match l with
  | LPush v who =>
      ws ← notify_one who (workers s);
      Some (mk_sys (Push v (sq s)) ws (pushed s ++ [v]) (popped s) (executed s) (dropped s))
  | LCreate =>
      Some (mk_sys (sq s) (workers s ++ [mk_worker Idle false false]) (pushed s) (popped s)
        (executed s) (dropped s))
  | LAcquire i =>
      w ← workers s !! i;
      match w_phase w with
      | Idle | Woken => Some (fire_acquire i w s)
      | _ => None
      end
  | LSpurious i =>
      w ← workers s !! i;
      if is_waiting w then Some (set_worker i (wake w) s) else None
  | LLoop i =>
      w ← workers s !! i;
      match w_phase w with
      | Returned op => Some (fire_loop i w op s)
      | _ => None
      end
  | LExecute i =>
      w ← workers s !! i;
      match w_phase w with
      | Running v =>
          Some (mk_sys (sq s) (<[i := set_phase Idle w]> (workers s)) (pushed s) (popped s)
            (executed s ++ [v]) (dropped s))
      | _ => None
      end
  | LSetCancel i =>
      w ← workers s !! i;
      Some (set_worker i (mk_worker (w_phase w) true (w_notified w)) s)
  | LNotifyAll i =>
      w ← workers s !! i;
      if _cancel w then
        let ws := wake <$> <[i := mk_worker (w_phase w) true true]> (workers s) in
        Some (mk_sys (sq s) ws (pushed s) (popped s) (executed s) (dropped s))
      else None
  | LShutdown =>
      Some (mk_sys (Cancel (sq s)) (wake <$> workers s) (pushed s) (popped s) (executed s) (dropped s))
  end.

Definition step (s s' : sys) : Prop := ∃ l, fire l s = Some s'.
Definition reachable (s : sys) : Prop := rtc step sys_new s.

(** The operations the threads hold. *)
Definition inflight (w : worker) : list T :=
  match w_phase w with
  | Returned op => option_list op
  | Running v => [v]
  | _ => []
  end.

(** The threads that will look at the queue again on behalf of a notification. *)
Definition is_ready (w : worker) : bool :=
  match w_phase w with Woken => negb (_cancel w) | _ => false end.
Definition ready_count (ws : list worker) : nat :=
  sum_list_with (λ w, if is_ready w then 1 else 0) ws.

#[local] Arguments ready_count : simpl never.

(** A destructor between its store and its [NotifyAll]. *)
Definition notify_pending (ws : list worker) : Prop :=
  ∃ w, w ∈ ws ∧ _cancel w = true ∧ w_notified w = false.

(** A run given by its labels. *)
Fixpoint run (ls : list label) (s : sys) : option sys :=
  match ls with
  | [] => Some s
  | l :: ls => fire l s ≫= run ls
  end.

(** ** The thread of AsyncDBQueueChecker

    One turn of [ExecuteThread] with the lock held; a task that is popped while
    [_cancel] is set is not executed. *)
Inductive checker_turn :=
| CheckerWaits
| CheckerExecutes (task : T) (q : PCQueue)
| CheckerReturns (left : option T) (q : PCQueue).

Definition ExecuteThread_turn (cancel : bool) (q : PCQueue) : checker_turn :=
  match WaitAndPop q with
  | Wait => CheckerWaits
  | Return None q' => CheckerReturns None q'
  | Return (Some task) q' => if cancel then CheckerReturns (Some task) q' else CheckerExecutes task q'
  end.

(** ** Invariants *)
Record inv (s : sys) : Prop := mk_inv {
  inv_fifo : ∃ rest, pushed s = popped s ++ rest ∧ (_shutdown (sq s) = false → rest = _queue (sq s));
  inv_once : popped s ≡ₚ executed s ++ dropped s ++ concat (inflight <$> workers s);
  inv_notified : ∀ w, w ∈ workers s → w_notified w = true → _cancel w = true ∧ is_waiting w = false;
  inv_wait : ∀ w, w ∈ workers s → is_waiting w = true →
    _shutdown (sq s) = false ∧
    (notify_pending (workers s) ∨ length (_queue (sq s)) ≤ ready_count (workers s));
}.

Lemma inv_new : inv sys_new.
Proof. split; cbn; [by exists []|done|set_solver|set_solver]. Qed.

Lemma notify_pending_phase ws i w p :
  ws !! i = Some w → notify_pending ws → notify_pending (<[i := set_phase p w]> ws).
Proof.
  intros Hi (v & Hv & Hc & Hn). apply list_elem_of_lookup in Hv as [j Hj].
  destruct (decide (i = j)) as [<-|Hne].
  - assert (w = v) as -> by congruence. exists (set_phase p v). split; [|done].
    apply list_elem_of_lookup. exists i. apply list_lookup_insert_eq. by eapply lookup_lt_Some.
  - exists v. split; [|done]. apply list_elem_of_lookup. exists j. by rewrite list_lookup_insert_ne.
Qed.

Lemma elem_of_insert_inv {A} (l : list A) i x y : x ∈ <[i := y]> l → x = y ∨ x ∈ l.
Proof.
  intros [j Hj]%list_elem_of_lookup. apply list_lookup_insert_Some in Hj as [(_ & -> & _)|[_ Hj]]; [by left|].
  right. apply list_elem_of_lookup. eauto.
Qed.

Lemma ready_count_insert ws i w w' :
  ws !! i = Some w →
  ready_count (<[i := w']> ws) + (if is_ready w then 1 else 0)
  = ready_count ws + (if is_ready w' then 1 else 0).
Proof. intros Hi. apply (sum_list_with_insert (λ w, if is_ready w then 1 else 0) ws i w w' Hi). Qed.

Lemma elem_of_wake w (ws : list worker) : w ∈ wake <$> ws → is_waiting w = false.
Proof. intros (v & -> & _)%list_elem_of_fmap. unfold wake, is_waiting. by destruct (w_phase v) eqn:E; cbn; rewrite ?E. Qed.

Lemma inflight_wake (ws : list worker) : inflight <$> (wake <$> ws) = inflight <$> ws.
Proof.
  rewrite <- list_fmap_compose. apply list_fmap_ext. intros i w _. unfold wake, inflight, compose.
  by destruct (w_phase w) eqn:E; cbn; rewrite ?E.
Qed.

Lemma is_waiting_set_phase p w : is_waiting (set_phase p w) = match p with Waiting => true | _ => false end.
Proof. done. Qed.

(** A step that changes the phase of one thread, which then does not wait, and
    takes from the queue what it takes from the notifications. *)
Lemma inv_phase_step s i w p q' po ex dr :
  inv s → workers s !! i = Some w → p ≠ Waiting →
  (∃ rest, pushed s = po ++ rest ∧ (_shutdown q' = false → rest = _queue q')) →
  po ≡ₚ ex ++ dr ++ concat (inflight <$> <[i := set_phase p w]> (workers s)) →
  _shutdown q' = _shutdown (sq s) →
  (_shutdown (sq s) = false → length (_queue q') + (if is_ready w then 1 else 0) ≤ length (_queue (sq s))
    ∨ length (_queue q') ≤ length (_queue (sq s)) ∧ is_ready w = false) →
  inv (mk_sys q' (<[i := set_phase p w]> (workers s)) (pushed s) po ex dr).
Proof.
  intros [Hf Ho Hn Hw] Hi Hp Hf' Ho' Hsh Hlen. split; cbn; [done|done| |].
  - intros v [->|Hv]%elem_of_insert_inv; [|eauto]. cbn. intros Hnt.
    destruct (Hn w) as [Hc _]; [by eapply list_elem_of_lookup_2|done|]. split; [done|].
    rewrite is_waiting_set_phase. by destruct p.
  - intros v [->|Hv]%elem_of_insert_inv Hvw; [rewrite is_waiting_set_phase in Hvw; by destruct p|].
    destruct (Hw v Hv Hvw) as [Hs Hcount]. rewrite Hsh. split; [done|].
    destruct Hcount as [Hpend|Hcount]; [left; by apply notify_pending_phase|]. right.
    pose proof (ready_count_insert (workers s) i w (set_phase p w) Hi).
    specialize (Hlen Hs).
    destruct (is_ready w), (is_ready (set_phase p w)); destruct Hlen as [?|[? Hr]]; try done; lia.
Qed.

Lemma inv_acquire s i w :
  inv s → workers s !! i = Some w → (w_phase w = Idle ∨ w_phase w = Woken) →
  inv (fire_acquire i w s).
Proof.
  intros Hinv Hi Hph. pose proof Hinv as [Hf Ho Hn Hw]. unfold fire_acquire, WaitAndPop_cancel.
  assert (inflight w = []) as Hnil by (unfold inflight; by destruct Hph as [-> | ->]).
  pose proof (λ p, concat_map_insert inflight (workers s) i w (set_phase p w) Hi) as Hins.
  rewrite Hnil in Hins. setoid_rewrite app_nil_r in Hins.
  unfold Empty. destruct (_queue (sq s)) as [|v rest] eqn:Hq; cbn.
  - destruct (_shutdown (sq s)) eqn:Hsh; [|destruct (_cancel w) eqn:Hc]; cbn.
    + rewrite app_nil_r. apply inv_phase_step; [done..|exact (inv_fifo _ Hinv)|by rewrite Hins, app_nil_r|done|].
      by rewrite Hsh.
    + rewrite app_nil_r. apply inv_phase_step; [done..|exact (inv_fifo _ Hinv)|by rewrite Hins, app_nil_r|done|].
      intros _. right. rewrite Hq. split; [done|]. unfold is_ready. rewrite Hc. by destruct (w_phase w).
    + (* it waits: the queue is empty *)
      split; cbn; [exact (inv_fifo _ Hinv)| | |].
      * by rewrite Hins, app_nil_r.
      * intros u [->|Hu]%elem_of_insert_inv; [|eauto]. cbn. intros Hnt.
        destruct (Hn w) as [Hct _]; [by eapply list_elem_of_lookup_2|done|congruence].
      * intros u _ _. split; [done|]. right. rewrite Hq. cbn. lia.
  - destruct (_shutdown (sq s)) eqn:Hsh; [|destruct (_cancel w) eqn:Hc]; cbn.
    + rewrite app_nil_r. apply inv_phase_step; [done..|exact (inv_fifo _ Hinv)|by rewrite Hins, app_nil_r|done|].
      by rewrite Hsh.
    + rewrite app_nil_r. apply inv_phase_step; [done..|exact (inv_fifo _ Hinv)|by rewrite Hins, app_nil_r|done|].
      intros _. right. split; [done|]. unfold is_ready. rewrite Hc. by destruct (w_phase w).
    + apply inv_phase_step; [done..| | |by rewrite Hsh|]; cbn.
      * destruct Hf as (r & Hp & Hr). rewrite Hp, Hr by done. exists rest.
        by rewrite <- app_assoc.
      * rewrite Hins. cbn. by rewrite Ho, <- !app_assoc.
      * intros _. left. rewrite Hq. cbn. destruct (is_ready w); lia.
Qed.

Lemma inv_loop s i w op :
  inv s → workers s !! i = Some w → w_phase w = Returned op → inv (fire_loop i w op s).
Proof.
  intros Hinv Hi Hph. pose proof Hinv as [Hf Ho Hn Hw]. unfold fire_loop, set_worker.
  assert (inflight w = option_list op) as Hfl by (unfold inflight; by rewrite Hph).
  assert (is_ready w = false) as Hr by (unfold is_ready; by rewrite Hph).
  pose proof (λ p, concat_map_insert inflight (workers s) i w (set_phase p w) Hi) as Hins.
  rewrite Hfl in Hins.
  destruct (_cancel w); [|destruct op as [v|]]; (apply inv_phase_step; [done..|done| |done|];
    [|intros _; right; done]); rewrite Ho.
  - specialize (Hins Finished). cbn in Hins. rewrite app_nil_r in Hins. rewrite <- Hins.
    rewrite <- !app_assoc. apply Permutation_app_head, Permutation_app_head, Permutation_app_comm.
  - apply Permutation_app_head, Permutation_app_head. specialize (Hins (Running v)). cbn in Hins.
    by apply Permutation_app_inv_r in Hins.
  - apply Permutation_app_head, Permutation_app_head. specialize (Hins Idle). cbn in Hins.
    by rewrite !app_nil_r in Hins.
Qed.

Lemma inv_execute s i w v :
  inv s → workers s !! i = Some w → w_phase w = Running v →
  inv (mk_sys (sq s) (<[i := set_phase Idle w]> (workers s)) (pushed s) (popped s)
         (executed s ++ [v]) (dropped s)).
Proof.
  intros Hinv Hi Hph. pose proof Hinv as [Hf Ho Hn Hw].
  pose proof (concat_map_insert inflight (workers s) i w (set_phase Idle w) Hi) as Hins.
  assert (inflight w = [v]) as Hfl by (unfold inflight; by rewrite Hph).
  apply inv_phase_step; [done..| |done|].
  - rewrite Hfl in Hins. cbn in Hins. rewrite app_nil_r in Hins. rewrite Ho, <- Hins.
    rewrite <- !app_assoc. apply Permutation_app_head. rewrite Permutation_app_comm.
    rewrite <- app_assoc. cbn. by rewrite <- Permutation_middle, Permutation_app_comm.
  - intros _. right. split; [done|]. unfold is_ready. by rewrite Hph.
Qed.

(** Nobody waits: the last two parts of the invariant are about the threads'
    flags only. *)
Lemma inv_all_woken s q ws :
  inv s → (∃ rest, pushed s = popped s ++ rest ∧ (_shutdown q = false → rest = _queue q)) →
  inflight <$> ws = inflight <$> workers s →
  (∀ w, w ∈ ws → w_notified w = true → _cancel w = true) →
  inv (mk_sys q (wake <$> ws) (pushed s) (popped s) (executed s) (dropped s)).
Proof.
  intros [Hf Ho Hn Hw] Hq Hfl Hc. split; cbn; [done| | |].
  - by rewrite inflight_wake, Hfl.
  - intros w Hin Hnt. split; [|by eapply elem_of_wake].
    apply list_elem_of_fmap in Hin as (u & -> & Hu). unfold wake in *.
    destruct (w_phase u); cbn in *; eauto.
  - intros w Hin Hwt. pose proof (elem_of_wake _ _ Hin). congruence.
Qed.

(** [notify_one] after a [push]. *)
Lemma inv_push s v who ws :
  inv s → notify_one who (workers s) = Some ws →
  inv (mk_sys (Push v (sq s)) ws (pushed s ++ [v]) (popped s) (executed s) (dropped s)).
Proof.
  intros Hinv Hwho. pose proof Hinv as [Hf Ho Hn Hw]. unfold notify_one in Hwho.
  assert (∃ rest, pushed s ++ [v] = popped s ++ rest ∧
    (_shutdown (sq s) = false → rest = _queue (sq s) ++ [v])) as Hf'.
  { destruct Hf as (r & -> & Hr). exists (r ++ [v]). rewrite <- app_assoc. split; [done|].
    intros Hs. by rewrite Hr. }
  destruct who as [i|].
  - destruct (workers s !! i) as [w|] eqn:Hi; [|done].
    destruct (is_waiting w) eqn:Hwt; [|done]. injection Hwho as <-.
    assert (wake w = set_phase Woken w) as ->
      by (unfold is_waiting in Hwt; unfold wake; by destruct (w_phase w)).
    assert (w ∈ workers s) as Hin by by eapply list_elem_of_lookup_2.
    pose proof (concat_map_insert inflight (workers s) i w (set_phase Woken w) Hi) as Hins.
    assert (inflight w = []) as Hfl by (unfold is_waiting in Hwt; unfold inflight; by destruct (w_phase w)).
    assert (is_ready w = false) as Hrw by (unfold is_waiting in Hwt; unfold is_ready; by destruct (w_phase w)).
    rewrite Hfl in Hins. cbn in Hins. rewrite !app_nil_r in Hins.
    split; cbn; [done|by rewrite Hins| |].
    + intros u [->|Hu]%elem_of_insert_inv; [|eauto]. cbn. intros Hnt. by destruct (Hn w Hin Hnt) as [? _].
    + intros u [->|Hu]%elem_of_insert_inv Huw; [done|].
      destruct (Hw u Hu Huw) as [Hs Hc]. split; [done|].
      destruct Hc as [Hc|Hc]; [left; by apply notify_pending_phase|].
      destruct (_cancel w) eqn:Hcw.
      { left. apply notify_pending_phase; [done|]. exists w. repeat split; [done|done|].
        destruct (w_notified w) eqn:Hnt; [|done]. destruct (Hn w Hin Hnt). congruence. }
      right. pose proof (ready_count_insert (workers s) i w (set_phase Woken w) Hi) as Hr.
      rewrite Hrw in Hr. unfold is_ready in Hr at 1. cbn in Hr. rewrite Hcw in Hr. cbn in Hr.
      rewrite length_app. cbn. lia.
  - destruct (existsb is_waiting (workers s)) eqn:E; [done|]. injection Hwho as <-.
    split; cbn; [done|done|done|]. intros w Hin Hwt.
    assert (existsb is_waiting (workers s) = true); [|congruence].
    apply existsb_exists. exists w. by rewrite <- list_elem_of_In.
Qed.

(** A new thread. *)
Lemma inv_create s :
  inv s → inv (mk_sys (sq s) (workers s ++ [mk_worker Idle false false]) (pushed s) (popped s)
    (executed s) (dropped s)).
Proof.
  intros [Hf Ho Hn Hw]. split; cbn; [done| | |].
  - by rewrite fmap_app, concat_app, app_nil_r.
  - intros w [Hin| ->%list_elem_of_singleton]%elem_of_app; [eauto|done].
  - intros w [Hin| ->%list_elem_of_singleton]%elem_of_app Hwt; [|done].
    destruct (Hw w Hin Hwt) as [? [(u & Hu & Hc)|Hc]]; (split; [done|]).
    + left. exists u. split; [|done]. apply elem_of_app. by left.
    + right. unfold ready_count in *. rewrite sum_list_with_app. lia.
Qed.

Lemma is_waiting_phase w : is_waiting w = true → w_phase w = Waiting.
Proof. unfold is_waiting. by destruct (w_phase w). Qed.

(** A spurious wake-up. *)
Lemma inv_spurious s i w :
  inv s → workers s !! i = Some w → is_waiting w = true → inv (set_worker i (wake w) s).
Proof.
  intros Hinv Hi Hwt%is_waiting_phase. unfold set_worker.
  assert (wake w = set_phase Woken w) as -> by (unfold wake; by rewrite Hwt).
  pose proof (concat_map_insert inflight (workers s) i w (set_phase Woken w) Hi) as Hins.
  assert (inflight w = []) as Hfl by (unfold inflight; by rewrite Hwt).
  rewrite Hfl in Hins. cbn in Hins. rewrite !app_nil_r in Hins.
  apply inv_phase_step; [done..|by apply inv_fifo|by rewrite Hins; apply inv_once|done|].
  intros _. right. split; [done|]. unfold is_ready. by rewrite Hwt.
Qed.

(** The store of a destructor, before its [NotifyAll]. *)
Lemma inv_set_cancel s i w :
  inv s → workers s !! i = Some w →
  inv (set_worker i (mk_worker (w_phase w) true (w_notified w)) s).
Proof.
  intros [Hf Ho Hn Hw] Hi. assert (w ∈ workers s) as Hin by by eapply list_elem_of_lookup_2.
  unfold set_worker. set (w' := mk_worker (w_phase w) true (w_notified w)).
  pose proof (concat_map_insert inflight (workers s) i w w' Hi) as Hins.
  replace (inflight w') with (inflight w) in Hins by done.
  apply Permutation_app_inv_r in Hins. split; cbn; [done|by rewrite Hins| |].
  - intros u [->|Hu]%elem_of_insert_inv; [|eauto]. intros Hnt. by destruct (Hn w Hin Hnt).
  - intros u Hu Huw.
    assert (∃ u0, u0 ∈ workers s ∧ is_waiting u0 = true) as (u0 & Hu0 & Hw0).
    { apply elem_of_insert_inv in Hu as [->|Hu]; [by exists w|by exists u]. }
    destruct (Hw u0 Hu0 Hw0) as [Hs Hc]. split; [done|].
    destruct (w_notified w) eqn:Hnt.
    + destruct (Hn w Hin Hnt) as [Hcw Hww].
      replace (<[i := w']> (workers s)) with (workers s); [done|].
      symmetry. apply list_insert_id. rewrite Hi. f_equal. subst w'. destruct w; cbn in *; congruence.
    + left. exists w'. split; [|done].
      apply list_elem_of_lookup. exists i. apply list_lookup_insert_eq. by eapply lookup_lt_Some.
Qed.

(** The [NotifyAll] of a destructor. *)
Lemma inv_notify_all s i w :
  inv s → workers s !! i = Some w → _cancel w = true →
  inv (mk_sys (sq s) (wake <$> <[i := mk_worker (w_phase w) true true]> (workers s)) (pushed s)
    (popped s) (executed s) (dropped s)).
Proof.
  intros Hinv Hi Hcw. apply (inv_all_woken s); [done|by apply inv_fifo| |].
  - apply list_eq. intros j. rewrite !list_lookup_fmap.
    destruct (decide (i = j)) as [<-|]; [|by rewrite list_lookup_insert_ne].
    rewrite list_lookup_insert_eq by by eapply lookup_lt_Some. by rewrite Hi.
  - intros u [->|Hu]%elem_of_insert_inv Hnt; [done|]. by destruct (inv_notified _ Hinv u Hu Hnt).
Qed.

Lemma inv_shutdown s :
  inv s → inv (mk_sys (Cancel (sq s)) (wake <$> workers s) (pushed s) (popped s) (executed s) (dropped s)).
Proof.
  intros Hinv. apply (inv_all_woken s); [done| |done|].
  - destruct (inv_fifo _ Hinv) as (r & Hp & _). by exists r.
  - intros u Hu Hnt. by destruct (inv_notified _ Hinv u Hu Hnt).
Qed.

Lemma inv_step s s' : step s s' → inv s → inv s'.
Proof.
  intros [l Hl] Hinv. destruct l as [v who| |i|i|i|i|i|i|]; cbn in Hl;
    try apply bind_Some in Hl as (w & Hi & Hl).
  - injection Hl as <-. by eapply inv_push.
  - injection Hl as <-. by apply inv_create.
  - destruct (w_phase w) eqn:Hph; try done; injection Hl as <-; apply inv_acquire; auto.
  - destruct (is_waiting w) eqn:Hwt; [|done]. injection Hl as <-. by apply inv_spurious.
  - destruct (w_phase w) eqn:Hph; try done. injection Hl as <-. by apply inv_loop.
  - destruct (w_phase w) eqn:Hph; try done. injection Hl as <-. by apply inv_execute.
  - injection Hl as <-. by apply inv_set_cancel.
  - destruct (_cancel w) eqn:Hcw; [|done]. injection Hl as <-. by apply inv_notify_all.
  - injection Hl as <-. by apply inv_shutdown.
Qed.

Lemma reachable_inv s : reachable s → inv s.
Proof. intros Hr. exact (rtc_preserves step inv inv_step sys_new s Hr inv_new). Qed.

(** ** Properties *)

(** C9 First in, first out, and exactly once: until the queue is cancelled the
    operations pushed are the ones popped followed by the ones in the queue, in
    order; and every popped operation was executed once, is held by one thread,
    or was dropped by a thread that found its [_cancel] set. *)
Theorem async_queue_exactly_once (s : sys) :
  reachable s →
  (∃ rest, pushed s = popped s ++ rest ∧ (_shutdown (sq s) = false → rest = _queue (sq s))) ∧
  popped s ≡ₚ executed s ++ dropped s ++ concat (inflight <$> workers s).
Proof. intros [Hf Ho _ _]%reachable_inv. done. Qed.

(** C5 No wake-up is lost: when a thread waits, the queue is not shut down, and
    unless a destructor is about to call [NotifyAll] there are as many notified
    threads on their way to the queue as it has operations; so operations never
    sit in the queue with every thread asleep.  A thread whose destructor has
    notified never waits again. *)
Theorem no_lost_wakeup (s : sys) (w : worker) :
  reachable s → w ∈ workers s →
  (is_waiting w = true →
     _shutdown (sq s) = false ∧
     (notify_pending (workers s) ∨ length (_queue (sq s)) ≤ ready_count (workers s))) ∧
  (w_notified w = true → _cancel w = true ∧ is_waiting w = false).
Proof. intros [_ _ Hn Hw]%reachable_inv Hin. split; [by apply Hw|by apply Hn]. Qed.

(** How far a thread is from the end of [ExecuteAsyncQueue] once it is cancelled. *)
Definition distance (w : worker) : nat :=
  match w_phase w with
  | Running _ => 3
  | Idle | Waiting | Woken => 2
  | Returned _ => 1
  | Finished => 0
  end.

(** The next step of thread [i] itself. *)
Definition own_label (i : nat) (w : worker) : option label :=
  match w_phase w with
  | Idle | Woken => Some (LAcquire i)
  | Returned _ => Some (LLoop i)
  | Running _ => Some (LExecute i)
  | Waiting | Finished => None
  end.

(** The own step of a cancelled thread that does not wait. *)
Lemma own_step_closer s i w :
  workers s !! i = Some w → _cancel w = true → is_waiting w = false →
  w_phase w = Finished ∨
  ∃ l s' w', own_label i w = Some l ∧ fire l s = Some s' ∧ workers s' !! i = Some w' ∧
    w_notified w' = w_notified w ∧ distance w' < distance w.
Proof.
  intros Hi Hc Hnw. pose proof (lookup_lt_Some _ _ _ Hi) as Hlt. unfold is_waiting in Hnw.
  destruct (w_phase w) eqn:Hph; try done; [right..|by left];
    unfold own_label; rewrite Hph; do 2 eexists; eexists (set_phase _ w); (split; [done|]); cbn;
    rewrite Hi; cbn; rewrite Hph;
    unfold fire_acquire, WaitAndPop_cancel, fire_loop; rewrite ?Hc, ?andb_false_r, ?orb_true_r;
    (split; [done|]); cbn; rewrite list_lookup_insert_eq by done;
    (split; [done|]); (split; [done|]); unfold distance; rewrite Hph; cbn; lia.
Qed.

(** What the other steps leave of a notified thread: its phase and its mark. *)
Definition unmoved (w w' : worker) : Prop := w_notified w' = true ∧ w_phase w' = w_phase w.

Lemma unmoved_insert (ws : list worker) i w j p w' :
  ws !! i = Some w → w_notified w = true → j ≠ i →
  <[j := p]> ws !! i = Some w' → unmoved w w'.
Proof. intros Hi Hnt Hji Hw'. rewrite list_lookup_insert_ne in Hw' by done. by simplify_eq. Qed.

Lemma unmoved_wake (ws : list worker) i w w' :
  ws !! i = Some w → is_waiting w = false → w_notified w = true →
  (wake <$> ws) !! i = Some w' → unmoved w w'.
Proof.
  intros Hi Hnw Hnt. rewrite list_lookup_fmap, Hi. intros [= <-]. unfold wake, is_waiting in *.
  unfold unmoved. destruct (w_phase w) eqn:E; done.
Qed.

(** The step of the thread's own label is the only one that moves it. *)
Lemma other_step_unmoved s i w l s' w' :
  workers s !! i = Some w → w_notified w = true → _cancel w = true → is_waiting w = false →
  fire l s = Some s' → own_label i w ≠ Some l → workers s' !! i = Some w' → unmoved w w'.
Proof.
  intros Hi Hnt Hc Hnw Hl Hne. pose proof (lookup_lt_Some _ _ _ Hi) as Hlt.
  pose proof (unmoved_insert (workers s) i w) as Hother.
  destruct l as [v who| |j|j|j|j|j|j|]; cbn in Hl; try (apply bind_Some in Hl as (u & Hj & Hl));
    try (destruct (decide (j = i)) as [->|Hji]; [assert (u = w) as -> by congruence|]);
    try (exfalso; unfold own_label, is_waiting in *; destruct (w_phase w); done).
  - injection Hl as <-. cbn. unfold notify_one in Hj. destruct who as [j|].
    + destruct (workers s !! j) as [u'|] eqn:Hu; [|done]. destruct (is_waiting u') eqn:Hwt; [|done].
      injection Hj as <-. eapply Hother; [done..|]. intros ->. congruence.
    + destruct (existsb _ _); [done|]. injection Hj as <-. intros Hw'. by simplify_eq.
  - injection Hl as <-. cbn. rewrite lookup_app_l by done. intros Hw'. by simplify_eq.
  - destruct (w_phase u); try done; injection Hl as <-; unfold fire_acquire;
      destruct (WaitAndPop_cancel _ _); cbn; by eapply Hother.
  - destruct (is_waiting u); [|done]. injection Hl as <-. cbn. by eapply Hother.
  - destruct (w_phase u) as [| | |op| |]; try done; injection Hl as <-; unfold fire_loop;
      destruct (_cancel u); [|destruct op]; cbn; by eapply Hother.
  - destruct (w_phase u); try done; injection Hl as <-; cbn; by eapply Hother.
  - injection Hl as <-. cbn. rewrite list_lookup_insert_eq by done. by intros [= <-].
  - injection Hl as <-. cbn. by eapply Hother.
  - rewrite Hc in Hl. injection Hl as <-. cbn. apply unmoved_wake; [|done..].
    rewrite list_lookup_insert_eq by done. f_equal. destruct w; cbn in *; congruence.
  - destruct (_cancel u); [|done]. injection Hl as <-. cbn.
    apply unmoved_wake; [|done..]. by rewrite list_lookup_insert_ne.
  - injection Hl as <-. cbn. by apply unmoved_wake.
Qed.

(** C12 [~AsyncDBQueueWorker] joins: once it has stored [_cancel] and called
    [NotifyAll], its thread can always take a step of its own until it has
    returned, each of its steps brings it nearer to the end, and no step of
    another thread takes it away from there. *)
Theorem destroyed_worker_ends (s : sys) (i : nat) (w : worker) :
  reachable s → workers s !! i = Some w → w_notified w = true →
  (w_phase w = Finished ∨
   ∃ l s' w', own_label i w = Some l ∧ fire l s = Some s' ∧ workers s' !! i = Some w' ∧
     w_notified w' = true ∧ distance w' < distance w) ∧
  (∀ l s' w', fire l s = Some s' → own_label i w ≠ Some l → workers s' !! i = Some w' →
     w_notified w' = true ∧ distance w' = distance w).
Proof.
  intros Hr%reachable_inv Hi Hnt.
  destruct (inv_notified _ Hr w ltac:(by eapply list_elem_of_lookup_2) Hnt) as [Hc Hnw]. split.
  - destruct (own_step_closer s i w Hi Hc Hnw) as [?|(l & s' & w' & ? & ? & ? & ? & ?)]; [by left|right].
    exists l, s', w'. repeat split; [done..|congruence|done].
  - intros l s' w' Hl Hne Hw'.
    destruct (other_step_unmoved s i w l s' w') as [? Hp]; [done..|]. split; [done|].
    unfold distance. by rewrite Hp.
Qed.

(** [~AsyncDBQueueChecker]: after [Cancel] the thread returns at its next turn. *)
Lemma checker_ends cancel q : ExecuteThread_turn cancel (Cancel q) = CheckerReturns None (Cancel q).
Proof. done. Qed.

Lemma reachable_run ls s : run ls sys_new = Some s → reachable s.
Proof.
  assert (∀ s0, run ls s0 = Some s → rtc step s0 s) as H; [|apply H].
  induction ls as [|l ls IH]; cbn; intros s0; [intros [= <-]; apply rtc_refl|].
  intros (s1 & Hl & Hr)%bind_Some. eapply rtc_l; [by exists l|auto].
Qed.
End Queue.

(** ** Witnesses: two threads, three operations; thread 0 is destroyed while it
    is woken for an operation, which thread 1 then takes. *)
Definition ex_labels : list (label (T := nat)) :=
  [LCreate; LCreate; LAcquire 0; LAcquire 1; LPush 7 (Some 0); LSetCancel 0; LAcquire 0;
   LNotifyAll 0; LAcquire 1; LLoop 1; LExecute 1; LPush 8 None; LAcquire 1].
Definition ex_sys : sys (T := nat) := default sys_new (run ex_labels sys_new).

Lemma ex_reachable : reachable ex_sys.
Proof. apply (reachable_run ex_labels). (vm_compute; reflexivity). Qed.

Lemma async_queue_exactly_once_witness :
  (∃ rest, pushed ex_sys = popped ex_sys ++ rest ∧ (_shutdown (sq ex_sys) = false → rest = _queue (sq ex_sys))) ∧
  popped ex_sys ≡ₚ executed ex_sys ++ dropped ex_sys ++ concat (inflight <$> workers ex_sys).
Proof. apply (async_queue_exactly_once ex_sys ex_reachable). Defined.

Definition ex_waiting : sys (T := nat) :=
  default sys_new (run [LCreate; LAcquire 0] sys_new).

Lemma no_lost_wakeup_witness :
  _shutdown (sq ex_waiting) = false ∧
  (notify_pending (workers ex_waiting) ∨ length (_queue (sq ex_waiting)) ≤ ready_count (workers ex_waiting)).
Proof.
  apply (no_lost_wakeup ex_waiting (mk_worker Waiting false false)); [|by left|(vm_compute; reflexivity)].
  apply (reachable_run [LCreate; LAcquire 0]). (vm_compute; reflexivity).
Defined.

Lemma destroyed_worker_ends_witness :
  w_phase (mk_worker (T := nat) (Returned None) true true) = Finished ∨
   ∃ l s' w', own_label 0 (mk_worker (T := nat) (Returned None) true true) = Some l ∧
     fire l ex_sys = Some s' ∧ workers s' !! 0 = Some w' ∧
     w_notified w' = true ∧ distance w' < distance (mk_worker (T := nat) (Returned None) true true).
Proof.
  apply (destroyed_worker_ends ex_sys 0 (mk_worker (Returned None) true true) ex_reachable);
    (vm_compute; reflexivity).
Defined.
