(* ===== verification/Prepared.v ===== *)
(** * Prepared statements

    server/database/Database/PreparedStatement.h and .cpp (the parameters set by
    the program) and MySQLPreparedStatement.cpp (their binding to the client
    library's structures).  A [float] and a [double] are their bit patterns.
    Buffers are lists of bytes, least significant first as on the program's
    platforms.  The text of a floating-point number is left to the formatting
    library: [fmt_float] and [fmt_double] are variables. *)
From S2P Require Import Prelude CppString Convert.

(** ** PreparedStatementData *)
Inductive param :=
| PBool (b : bool)
| PInt (t : int_type) (v : Z)
| PFloat (bits : Z)
| PDouble (bits : Z)
| PString (s : string)
| PBinary (bytes : list Z)
| PNull.

Record PreparedStatementBase := mk_PreparedStatementBase {
  _index : Z;
  _paramsSet : list bool;
  _statementData : list param;
}.

(** The constructor: a default [std::variant] holds [false]. *)
Definition PreparedStatementBase_new (index : Z) (capacity : nat) : PreparedStatementBase :=
  mk_PreparedStatementBase index (replicate capacity false) (replicate capacity (PBool false)).

(** [SetValidData], every overload: [p] is the alternative that is emplaced. *)
Definition SetValidData (index : nat) (p : param) (s : PreparedStatementBase)
    : outcome Empty_set PreparedStatementBase :=
  _ ← assert (index <? length (_statementData s))%nat "index < _statementData.size()";
  Done (mk_PreparedStatementBase (_index s) (<[index := true]> (_paramsSet s))
          (<[index := p]> (_statementData s))).

(** [SetData] of a duration: by default its count as [uint32]. *)
Definition duration_param (count : Z) (convertToUin32 : bool) : param :=
  if convertToUin32 then PInt uint32 (wrap_u 32 count) else PInt int64 count.

(** [SetDataTuple]: the index is a [uint8]. *)
Fixpoint SetDataTuple (index : nat) (args : list param) (s : PreparedStatementBase)
    : outcome Empty_set PreparedStatementBase :=
  match args with
  | [] => Done s
  | p :: args => s ← SetValidData index p s; SetDataTuple ((index + 1) mod 256) args s
  end.

Definition SetArguments (args : list param) (s : PreparedStatementBase) :
    outcome Empty_set PreparedStatementBase := SetDataTuple 0 args s.

Fixpoint first_unset (index : nat) (l : list bool) : option nat :=
  match l with
  | [] => None
  | b :: l => if b then first_unset (S index) l else Some index
  end.

(** The index is returned as a [uint8]. *)
Definition IsAllParamsSet (s : PreparedStatementBase) : bool * Z :=
  match first_unset 0 (_paramsSet s) with
  | Some index => (false, wrap_u 8 (Z.of_nat index))
  | None => (true, 0%Z)
  end.

(** ** MySQLPreparedStatement *)
Inductive enum_field_types :=
| MYSQL_TYPE_DECIMAL | MYSQL_TYPE_TINY | MYSQL_TYPE_SHORT | MYSQL_TYPE_LONG | MYSQL_TYPE_FLOAT
| MYSQL_TYPE_DOUBLE | MYSQL_TYPE_NULL | MYSQL_TYPE_TIMESTAMP | MYSQL_TYPE_LONGLONG | MYSQL_TYPE_INT24
| MYSQL_TYPE_DATE | MYSQL_TYPE_TIME | MYSQL_TYPE_DATETIME | MYSQL_TYPE_YEAR | MYSQL_TYPE_NEWDATE
| MYSQL_TYPE_VARCHAR | MYSQL_TYPE_BIT | MYSQL_TYPE_JSON | MYSQL_TYPE_NEWDECIMAL | MYSQL_TYPE_ENUM
| MYSQL_TYPE_SET | MYSQL_TYPE_TINY_BLOB | MYSQL_TYPE_MEDIUM_BLOB | MYSQL_TYPE_LONG_BLOB | MYSQL_TYPE_BLOB
| MYSQL_TYPE_VAR_STRING | MYSQL_TYPE_STRING | MYSQL_TYPE_GEOMETRY.

Record MYSQL_BIND := mk_MYSQL_BIND {
  buffer_type : enum_field_types;
  buffer : option (list Z);
  buffer_length : Z;
  is_null_value : bool;
  length_ : option Z;
  is_unsigned : bool;
}.

(** [memset(_bind, 0, ...)] *)
Definition zero_bind : MYSQL_BIND := mk_MYSQL_BIND MYSQL_TYPE_DECIMAL None 0 false None false.

Record MySQLPreparedStatement := mk_MySQLPreparedStatement {
  _mysqlStmt : Z;
  _paramCount : nat;
  m_paramsSet : list bool;
  _bind : list MYSQL_BIND;
  _queryString : string;
}.

Definition MySQLPreparedStatement_new (stmt : Z) (paramCount : nat) (query : string)
    : MySQLPreparedStatement :=
  mk_MySQLPreparedStatement stmt paramCount (replicate paramCount false)
    (replicate paramCount zero_bind) query.

Definition MySQLType (t : int_type) : enum_field_types :=
  (if it_width t =? 8 then MYSQL_TYPE_TINY
   else if it_width t =? 16 then MYSQL_TYPE_SHORT
   else if it_width t =? 32 then MYSQL_TYPE_LONG
   else MYSQL_TYPE_LONGLONG)%Z.

(** [memcpy] of an [n]-byte integer. *)
Fixpoint le_bytes (n : nat) (v : Z) : list Z :=
  match n with
  | O => []
  | S n => (v mod 256)%Z :: le_bytes n (v / 256)
  end.

Fixpoint string_bytes (s : string) : list Z :=
  match s with
  | EmptyString => []
  | String c s => Z.of_nat (nat_of_ascii c) :: string_bytes s
  end.

Definition ClearParameters (m : MySQLPreparedStatement) : MySQLPreparedStatement :=
  mk_MySQLPreparedStatement (_mysqlStmt m) (_paramCount m)
    ((λ _, false) <$> m_paramsSet m)
    ((λ b, mk_MYSQL_BIND (buffer_type b) None (buffer_length b) (is_null_value b) None (is_unsigned b))
      <$> _bind m)
    (_queryString m).

Definition AssertValidIndex (index : nat) (m : MySQLPreparedStatement) : outcome Empty_set unit :=
  assert (index <? _paramCount m)%nat "Attempted to bind a parameter beyond the statement's".

Definition set_bind (index : nat) (f : MYSQL_BIND → MYSQL_BIND) (m : MySQLPreparedStatement)
    : MySQLPreparedStatement :=
  mk_MySQLPreparedStatement (_mysqlStmt m) (_paramCount m) (<[index := true]> (m_paramsSet m))
    (alter f index (_bind m)) (_queryString m).

(** The overloads of [SetParameter]. *)
Definition SetParameter_num (index : nat) (ty : enum_field_types) (unsigned : bool) (len : nat) (value : Z)
    (m : MySQLPreparedStatement) : outcome Empty_set MySQLPreparedStatement :=
  _ ← AssertValidIndex index m;
  Done (set_bind index (λ _, mk_MYSQL_BIND ty (Some (le_bytes len value)) 0 false None unsigned) m).

Definition SetParameter_null (index : nat) (m : MySQLPreparedStatement)
    : outcome Empty_set MySQLPreparedStatement :=
  _ ← AssertValidIndex index m;
  Done (set_bind index (λ b, mk_MYSQL_BIND MYSQL_TYPE_NULL None 0 true None (is_unsigned b)) m).

Definition SetParameter_bytes (index : nat) (ty : enum_field_types) (bytes : list Z)
    (m : MySQLPreparedStatement) : outcome Empty_set MySQLPreparedStatement :=
  _ ← AssertValidIndex index m;
  let len := wrap_u 32 (Z.of_nat (length bytes)) in
  Done (set_bind index (λ b, mk_MYSQL_BIND ty (Some (take (Z.to_nat len) bytes)) len false (Some len)
          (is_unsigned b)) m).

Definition int_bytes (t : int_type) : nat := Z.to_nat (it_width t / 8).

Definition SetParameter (index : nat) (p : param) (m : MySQLPreparedStatement)
    : outcome Empty_set MySQLPreparedStatement :=
  match p with
  | PBool b => SetParameter_num index MYSQL_TYPE_TINY true 1 (if b then 1 else 0)%Z m
  | PInt t v => SetParameter_num index (MySQLType t) (negb (it_signed t)) (int_bytes t) v m
  | PFloat bits => SetParameter_num index MYSQL_TYPE_FLOAT false 4 bits m
  | PDouble bits => SetParameter_num index MYSQL_TYPE_DOUBLE false 8 bits m
  | PString s => SetParameter_bytes index MYSQL_TYPE_VAR_STRING (string_bytes s) m
  | PBinary bytes => SetParameter_bytes index MYSQL_TYPE_BLOB bytes m
  | PNull => SetParameter_null index m
  end.

(** The loop of [BindParameters]: [pos] is a [uint8]. *)
Fixpoint BindParameters_loop (pos : nat) (params : list param) (m : MySQLPreparedStatement)
    : outcome Empty_set MySQLPreparedStatement :=
  match params with
  | [] => Done m
  | p :: params => m ← SetParameter pos p m; BindParameters_loop ((pos + 1) mod 256) params m
  end.

Definition BindParameters (stmt : PreparedStatementBase) (m : MySQLPreparedStatement)
    : outcome Empty_set MySQLPreparedStatement :=
  BindParameters_loop 0 (_statementData stmt) m.

(** *** The query with its parameters, for the log *)
Section QueryString.
Variable fmt_float : Z → string.
Variable fmt_double : Z → string.

Definition param_ToString (p : param) : string :=
  match p with
  | PBool b => if b then "true" else "false"
  | PInt _ v => print_Z v
  | PFloat bits => fmt_float bits
  | PDouble bits => fmt_double bits
  | PString s => s
  | PBinary _ => "BINARY"
  | PNull => "NULL"
  end.

(** [queryString.replace(pos, 1, str)]: [npos] is out of range. *)
Definition replace_at (pos : option nat) (str s : string) : outcome string string :=
  match pos with
  | Some p =>
      if (p <=? String.length s)%nat
      then Done (String.substring 0 p s +:+ str +:+ substr_from (S p) s)
      else Throw "std::out_of_range"
  | None => Throw "std::out_of_range"
  end.

Fixpoint getQueryString_loop (params : list param) (queryString : string) (pos : nat)
    : outcome string string :=
  match params with
  | [] => Done queryString
  | data :: params =>
      let found := find_from "?" queryString pos in
      let replaceStr := param_ToString data in
      queryString ← replace_at found replaceStr queryString;
      getQueryString_loop params queryString (default 0 found + String.length replaceStr)
  end.

Definition getQueryString (stmt : PreparedStatementBase) (m : MySQLPreparedStatement)
    : outcome string string :=
  getQueryString_loop (_statementData stmt) (_queryString m) 0.
End QueryString.

(** ** What the server reads from a bind *)
Inductive sql_value := VNull | VInt (v : Z) | VFloat (bits : Z) | VDouble (bits : Z) | VText (bytes : list Z).

Fixpoint le_value (bytes : list Z) : Z :=
  match bytes with [] => 0%Z | b :: bytes => (b + 256 * le_value bytes)%Z end.

Definition read_int (unsigned : bool) (bytes : list Z) : Z :=
  let v := le_value bytes in
  if unsigned then v else wrap_s (8 * Z.of_nat (length bytes)) v.

Definition read_bind (b : MYSQL_BIND) : option sql_value :=
  match buffer_type b, buffer b with
  | MYSQL_TYPE_NULL, _ => Some VNull
  | (MYSQL_TYPE_TINY | MYSQL_TYPE_SHORT | MYSQL_TYPE_LONG | MYSQL_TYPE_LONGLONG), Some bytes =>
      Some (VInt (read_int (is_unsigned b) bytes))
  | MYSQL_TYPE_FLOAT, Some bytes => Some (VFloat (le_value bytes))
  | MYSQL_TYPE_DOUBLE, Some bytes => Some (VDouble (le_value bytes))
  | (MYSQL_TYPE_VAR_STRING | MYSQL_TYPE_BLOB), Some bytes =>
      match length_ b with Some n => Some (VText (take (Z.to_nat n) bytes)) | None => None end
  | _, _ => None
  end.

Definition sql_of (p : param) : sql_value :=
  match p with
  | PBool b => VInt (if b then 1 else 0)
  | PInt _ v => VInt v
  | PFloat bits => VFloat bits
  | PDouble bits => VDouble bits
  | PString s => VText (string_bytes s)
  | PBinary bytes => VText bytes
  | PNull => VNull
  end.

(** A value of its C++ type. *)
Definition param_ok (p : param) : Prop :=
  match p with
  | PBool _ | PNull => True
  | PInt t v => in_range t v = true ∧ it_width t ∈ [8; 16; 32; 64]%Z
  | PFloat bits => (0 ≤ bits < 2 ^ 32)%Z
  | PDouble bits => (0 ≤ bits < 2 ^ 64)%Z
  | PString s => (Z.of_nat (String.length s) < 2 ^ 32)%Z
  | PBinary bytes => (Z.of_nat (length bytes) < 2 ^ 32)%Z
  end.

(** ** Lemmas *)
Lemma le_bytes_length n v : length (le_bytes n v) = n.
Proof. revert v. induction n as [|n IH]; intros v; cbn; [done|]. by rewrite IH. Qed.

Lemma le_value_bytes n v : le_value (le_bytes n v) = (v mod 2 ^ (8 * Z.of_nat n))%Z.
Proof.
  revert v. induction n as [|n IH]; intros v; [by rewrite Z.mod_1_r|].
  cbn [le_bytes le_value]. rewrite IH.
  replace (8 * Z.of_nat (S n))%Z with (8 + 8 * Z.of_nat n)%Z by lia.
  rewrite Z.pow_add_r by lia. change (2 ^ 8)%Z with 256%Z.
  rewrite Z.rem_mul_r; [done|lia|]. apply Z.pow_pos_nonneg; lia.
Qed.

Lemma string_bytes_length s : length (string_bytes s) = String.length s.
Proof. induction s as [|c s IH]; [done|]. cbn. by rewrite IH. Qed.

Lemma wrap_s_mod w z : (0 < w)%Z → wrap_s w (z mod 2 ^ w) = wrap_s w z.
Proof. intros Hw. unfold wrap_s. by rewrite Z.mod_mod by (apply Z.pow_nonzero; lia). Qed.

Lemma read_int_bytes t v :
  in_range t v = true → it_width t ∈ [8; 16; 32; 64]%Z →
  read_int (negb (it_signed t)) (le_bytes (int_bytes t) v) = v.
Proof.
  intros Hr Hw. unfold read_int. rewrite le_value_bytes, le_bytes_length.
  assert (8 * Z.of_nat (int_bytes t) = it_width t)%Z as ->.
  { unfold int_bytes. rewrite !elem_of_cons in Hw. destruct Hw as [->|[->|[->|[->|Hw]]]]; try done.
    by apply elem_of_nil in Hw. }
  assert (0 < it_width t)%Z as Hpos.
  { rewrite !elem_of_cons in Hw. destruct Hw as [->|[->|[->|[->|Hw]]]]; try lia.
    by apply elem_of_nil in Hw. }
  unfold in_range, it_min, it_max in Hr. destruct (it_signed t); cbn [negb].
  - rewrite wrap_s_mod by done. apply wrap_s_small; lia.
  - apply Z.mod_small. lia.
Qed.

(** What one [SetParameter] writes, whatever was bound before. *)
Lemma SetParameter_ok index p m :
  param_ok p → index < _paramCount m →
  ∃ f, SetParameter index p m = Done (set_bind index f m) ∧ ∀ b, read_bind (f b) = Some (sql_of p).
Proof.
  intros Hp Hi. unfold SetParameter, SetParameter_num, SetParameter_bytes, SetParameter_null,
    AssertValidIndex, assert.
  destruct p; cbn in Hp; apply Nat.ltb_lt in Hi as ->; cbn [mbind outcome_bind];
    eexists; (split; [reflexivity|]); intros bd; cbn [read_bind buffer_type buffer is_unsigned length_].
  - by destruct b.
  - destruct Hp as [Hr Hw]. cbn [sql_of]. unfold MySQLType.
    rewrite <- (read_int_bytes t v Hr Hw) at 2. by repeat destruct (_ =? _)%Z.
  - cbn [sql_of]. rewrite le_value_bytes. by rewrite Z.mod_small.
  - cbn [sql_of]. rewrite le_value_bytes. by rewrite Z.mod_small.
  - rewrite string_bytes_length, wrap_u_small by lia. cbn [sql_of].
    rewrite Nat2Z.id, <- string_bytes_length, !firstn_all. done.
  - rewrite wrap_u_small by lia. cbn [sql_of]. by rewrite Nat2Z.id, !firstn_all.
  - done.
Qed.

Lemma BindParameters_loop_ok params pos m :
  Forall param_ok params → pos + length params ≤ _paramCount m → pos + length params < 256 →
  length (_bind m) = _paramCount m →
  ∃ m', BindParameters_loop pos params m = Done m' ∧ _paramCount m' = _paramCount m ∧
    _mysqlStmt m' = _mysqlStmt m ∧ _queryString m' = _queryString m ∧
    length (_bind m') = length (_bind m) ∧
    (∀ i, i < pos ∨ pos + length params ≤ i → _bind m' !! i = _bind m !! i) ∧
    (∀ i p, params !! i = Some p → ∃ b, _bind m' !! (pos + i) = Some b ∧ read_bind b = Some (sql_of p)).
Proof.
  revert pos m. induction params as [|p params IH]; intros pos m Hok Hcnt Hpos Hlen.
  { exists m. repeat split; try done. }
  apply Forall_cons in Hok as [Hp Hok]. cbn [length] in *. cbn [BindParameters_loop].
  destruct (SetParameter_ok pos p m Hp ltac:(lia)) as (f & -> & Hf). cbn [mbind outcome_bind].
  rewrite Nat.mod_small by lia.
  destruct (IH (pos + 1) (set_bind pos f m)) as (m' & Hrun & Hc & Hs & Hq & Hl & Hout & Hin);
    [done|cbn; lia|lia|cbn; by rewrite length_alter|].
  exists m'. rewrite Hrun. split; [done|]. split; [done|]. split; [done|]. split; [done|].
  split; [rewrite Hl; cbn; by rewrite length_alter|]. split.
  - intros i Hi. rewrite Hout by lia. cbn. apply list_lookup_alter_ne. lia.
  - intros [|i] q Hq'; cbn in Hq'.
    + injection Hq' as <-. rewrite Nat.add_0_r, Hout by lia. cbn. rewrite list_lookup_alter_eq.
      destruct (lookup_lt_is_Some_2 (_bind m) pos ltac:(lia)) as [b Hb]. rewrite Hb. cbn. eauto.
    + destruct (Hin i q Hq') as (b & Hb & ?). exists b.
      by replace (pos + S i) with (pos + 1 + i) by lia.
Qed.

(** The interleaving of the pieces of a query with the texts of its parameters. *)
Fixpoint interleave (pieces values : list string) : string :=
  match pieces, values with
  | p :: pieces, v :: values => p +:+ v +:+ interleave pieces values
  | pieces, [] => join "?" pieces
  | [], _ => EmptyString
  end.

Lemma interleave_nil pieces : interleave pieces [] = join "?" pieces.
Proof. by destruct pieces. Qed.

Lemma str_app_cons (a : string) c b : a +:+ String c b = (a +:+ String c "") +:+ b.
Proof. by rewrite str_app_assoc. Qed.

Lemma getQueryString_loop_spec ff fd params done_ rest :
  length params < length (split_on "?" rest) →
  getQueryString_loop ff fd params (done_ +:+ rest) (String.length done_)
  = Done (done_ +:+ interleave (split_on "?" rest) (param_ToString ff fd <$> params)).
Proof.
  revert done_ rest. induction params as [|p params IH]; intros done_ rest Hlen.
  - cbn [getQueryString_loop fmap list_fmap]. by rewrite interleave_nil, join_split_on.
  - cbn [getQueryString_loop]. rewrite find_from_app.
    destruct (find_from "?" rest 0) as [n|] eqn:Hf; cbn [fmap option_fmap option_map].
    2:{ apply find_from_None in Hf. rewrite split_on_no_char in Hlen by done. cbn in Hlen. lia. }
    apply find_from_Some in Hf as (t & s & -> & <- & Hno).
    rewrite split_on_app in * by done. cbn [length] in Hlen.
    set (v := param_ToString ff fd p). unfold replace_at.
    rewrite (proj2 (Nat.leb_le _ _)) by (rewrite !str_length_app; cbn; lia).
    cbn [mbind outcome_bind default id]. unfold id.
    replace (String.length done_ + String.length t) with (String.length (done_ +:+ t))
      by apply str_length_app.
    assert (String.substring 0 (String.length (done_ +:+ t)) (done_ +:+ t +:+ String "?" s) = done_ +:+ t) as ->.
    { rewrite <- str_app_assoc. apply substring_0_app. }
    assert (substr_from (S (String.length (done_ +:+ t))) (done_ +:+ t +:+ String "?" s) = s) as ->.
    { rewrite (str_app_cons t), <- str_app_assoc.
      replace (S (String.length (done_ +:+ t))) with (String.length (done_ +:+ t +:+ String "?" ""))
        by (rewrite !str_length_app; cbn; lia). apply substr_from_app. }
    replace (String.length (done_ +:+ t) + String.length v) with (String.length ((done_ +:+ t) +:+ v))
      by apply str_length_app.
    replace ((done_ +:+ t) +:+ v +:+ s) with (((done_ +:+ t) +:+ v) +:+ s) by apply str_app_assoc.
    rewrite IH by (cbn in Hlen; lia).
    cbn [fmap list_fmap interleave]. by rewrite !str_app_assoc.
Qed.

(** ** Properties *)

(** C28 What is set is what the server reads: a statement with no more
    parameters than the query, each a value of its type, is bound without an
    assertion; the server then reads every parameter back, integers of every
    width and sign, text and binary by their length, and [NULL]; binds beyond
    the parameters are not touched. *)
Theorem BindParameters_correct (stmt : PreparedStatementBase) (m : MySQLPreparedStatement) :
  Forall param_ok (_statementData stmt) → length (_statementData stmt) ≤ _paramCount m →
  length (_statementData stmt) < 256 → length (_bind m) = _paramCount m →
  ∃ m', BindParameters stmt m = Done m' ∧
    (∀ i p, _statementData stmt !! i = Some p →
       ∃ b, _bind m' !! i = Some b ∧ read_bind b = Some (sql_of p)) ∧
    (∀ i, length (_statementData stmt) ≤ i → _bind m' !! i = _bind m !! i).
Proof.
  intros Hok Hc H256 Hl.
  destruct (BindParameters_loop_ok (_statementData stmt) 0 m Hok Hc H256 Hl)
    as (m' & Hrun & _ & _ & _ & _ & Hout & Hin).
  exists m'. split; [done|]. split; [done|]. intros i Hi. apply Hout. by right.
Qed.

Definition ex_stmt : PreparedStatementBase :=
  mk_PreparedStatementBase 3 [true; true; true; true]
    [PInt int16 (-2); PString "a'b"; PNull; PInt uint64 18446744073709551615].

Lemma BindParameters_correct_witness :
  ∃ m', BindParameters ex_stmt (MySQLPreparedStatement_new 1 5 "?") = Done m' ∧
    (∀ i p, _statementData ex_stmt !! i = Some p →
       ∃ b, _bind m' !! i = Some b ∧ read_bind b = Some (sql_of p)) ∧
    (∀ i, 4 ≤ i → _bind m' !! i = _bind (MySQLPreparedStatement_new 1 5 "?") !! i).
Proof.
  apply (BindParameters_correct ex_stmt (MySQLPreparedStatement_new 1 5 "?"));
    [|cbn; lia|cbn; lia|reflexivity].
  repeat (apply Forall_cons_2; [cbn; repeat split; try done; rewrite ?elem_of_cons; tauto|]).
  apply Forall_nil_2.
Defined.

(** The query shown in the log is the query's text with its question marks
    replaced, in order, by the parameters; a question mark inside a parameter is
    not replaced by a later one. *)
Theorem getQueryString_correct (ff fd : Z → string) (stmt : PreparedStatementBase)
    (m : MySQLPreparedStatement) :
  length (_statementData stmt) < length (split_on "?" (_queryString m)) →
  getQueryString ff fd stmt m
  = Done (interleave (split_on "?" (_queryString m)) (param_ToString ff fd <$> _statementData stmt)).
Proof. apply (getQueryString_loop_spec ff fd (_statementData stmt) "" (_queryString m)). Qed.

Lemma getQueryString_correct_witness :
  getQueryString (λ _, EmptyString) (λ _, EmptyString)
    (mk_PreparedStatementBase 0 [] [PString "why?"; PInt uint8 7])
    (MySQLPreparedStatement_new 1 2 "a = ? AND b = ?") = Done "a = why? AND b = 7".
Proof.
  rewrite (getQueryString_correct (λ _, EmptyString) (λ _, EmptyString)
    (mk_PreparedStatementBase 0 [] [PString "why?"; PInt uint8 7])
    (MySQLPreparedStatement_new 1 2 "a = ? AND b = ?")); [reflexivity|cbn; lia].
Defined.
