(* ===== verification/Callbacks.v ===== *)
(** * Asynchronous callbacks

    common/Utilities/AsyncCallbackProcessor.h, common/AsyncCallback/
    AsyncCallbackMgr.cpp, server/database/Database/QueryCallback.cpp, and the
    [InvokeIfReady] of Transaction.cpp and QueryHolder.cpp.

    The class [AsyncCallback] is the interface between the processor and what it
    processes: one call of [InvokeIfReady], which may finish the callback, change
    it, and add new callbacks to the processor, and the law that a callback keeps
    its identity.  The processor's theorem is proved against it, and the four
    callback types of the program are its instances.

    Futures live in the world: a [std::future] is the identifier of its shared
    state, [None] when it is not valid. *)
From S2P Require Import Prelude.

(** ** The world *)
Inductive fstate (V : Type) :=
| FPending
| FReady (v : V)
| FBroken.
Arguments FPending {V}.
Arguments FReady {V} v.
Arguments FBroken {V}.

Record world (V : Type) := mk_world {
  futures : gmap nat (fstate V);
  invoked : list (nat * V);       (* the callbacks run so far, with their results *)
}.
Arguments mk_world {V} futures invoked.
Arguments futures {V} w.
Arguments invoked {V} w.

Definition log_invoked {V} (cb : nat) (v : V) (w : world V) : world V :=
  mk_world (futures w) (invoked w ++ [(cb, v)]).

Definition future := option nat.

(** [valid() && wait_for(0s) == ready] *)
Definition is_ready {V} (f : future) (w : world V) : bool :=
  match f with
  | Some i => match futures w !! i with Some (FReady _) | Some FBroken => true | _ => false end
  | None => false
  end.

(** [get()] *)
Definition future_get {V} (f : future) (w : world V) : outcome string V :=
  match f with
  | Some i =>
      match futures w !! i with
      | Some (FReady v) => Done v
      | Some FBroken => Throw "broken_promise"
      | _ => Crash "get() blocks for ever"
      end
  | None => Throw "no_state"
  end.

(** ** The interface *)
Class AsyncCallback (W T : Type) := {
  InvokeIfReady : T → W → outcome string (bool * T * W * list T);
  callback_id : T → nat;
  InvokeIfReady_id t w b t' w' new :
    InvokeIfReady t w = Done (b, t', w', new) → callback_id t' = callback_id t;
}.

(** ** AsyncCallbackProcessor *)
Section Processor.
Context {W T : Type} `{AsyncCallback W T}.

Definition AddCallback (query : T) (callbacks : list T) : list T := callbacks ++ [query].

(** [std::remove_if] calls the predicate once on each element, in order: what it
    keeps, what was added to [_callbacks] meanwhile, the completed ones. *)
Fixpoint remove_ready (updateCallbacks : list T) (w : W)
    : outcome string (list T * list T * list T * W) :=
  match updateCallbacks with
  | [] => Done ([], [], [], w)
  | t :: rest =>
      '(done_, t', w, new) ← InvokeIfReady t w;
      '(kept, added, completed, w) ← remove_ready rest w;
      Done (if done_ : bool then (kept, new ++ added, t' :: completed, w)
            else (t' :: kept, new ++ added, completed, w))
  end.

(** [ProcessReadyCallbacks]: the new [_callbacks], and beside it what was added
    meanwhile and what was completed. *)
Definition ProcessReadyCallbacks (callbacks : list T) (w : W)
    : outcome string (list T * list T * list T * W) :=
  match callbacks with
  | [] => Done ([], [], [], w)
  | _ =>
      '(kept, added, completed, w) ← remove_ready callbacks w;
      Done (added ++ kept, added, completed, w)
  end.

Lemma remove_ready_spec l w kept added completed w' :
  remove_ready l w = Done (kept, added, completed, w') →
  callback_id <$> l ≡ₚ (callback_id <$> completed) ++ (callback_id <$> kept) ∧
  sublist (callback_id <$> kept) (callback_id <$> l).
Proof.
  revert w kept added completed w'.
  induction l as [|t l IH]; cbn; intros w kept added completed w'; [by intros [= <- <- <- <-]|].
  destruct (InvokeIfReady t w) as [[[[b t'] w1] new]| |] eqn:E; cbn; [|done..].
  apply InvokeIfReady_id in E.
  destruct (remove_ready l w1) as [[[[kept1 added1] completed1] w2]| |] eqn:El; cbn; [|done..].
  destruct (IH _ _ _ _ _ El) as [Hp Hs]. destruct b; intros [= <- <- <- <-]; cbn; rewrite E.
  - split; [by rewrite Hp|by constructor].
  - split; [rewrite Hp; by rewrite Permutation_middle|by constructor].
Qed.

(** The callbacks [remove_ready] is given by itself: the ones added meanwhile
    are asked next time. *)
Lemma remove_ready_added l w kept added completed w' :
  remove_ready l w = Done (kept, added, completed, w') →
  ∃ news, added = concat news ∧ length news = length l.
Proof.
  revert w kept added completed w'.
  induction l as [|t l IH]; cbn; intros w kept added completed w'; [intros [= <- <- <- <-]; by exists []|].
  destruct (InvokeIfReady t w) as [[[[b t'] w1] new]| |]; cbn; [|done..].
  destruct (remove_ready l w1) as [[[[kept1 added1] completed1] w2]| |] eqn:El; cbn; [|done..].
  destruct (IH _ _ _ _ _ El) as (news & -> & Hl).
  destruct b; intros [= <- <- <- <-]; exists (new :: news); cbn; by rewrite Hl.
Qed.

(** *** A run of the processor: additions and processing in any order *)
Inductive proc_op := OpAdd (t : T) | OpProcess.

Record proc_state := mk_proc_state {
  p_callbacks : list T;
  p_world : W;
  p_submitted : list nat;
  p_completed : list nat;
}.

(** What a processing step adds is submitted too. *)
Definition proc_step (o : proc_op) (s : proc_state) : outcome string proc_state :=
  match o with
  | OpAdd t =>
      Done (mk_proc_state (AddCallback t (p_callbacks s)) (p_world s)
              (p_submitted s ++ [callback_id t]) (p_completed s))
  | OpProcess =>
      '(callbacks, added, completed, w) ← ProcessReadyCallbacks (p_callbacks s) (p_world s);
      Done (mk_proc_state callbacks w (p_submitted s ++ (callback_id <$> added))
              (p_completed s ++ (callback_id <$> completed)))
  end.

Definition conserved (s : proc_state) : Prop :=
  p_submitted s ≡ₚ p_completed s ++ (callback_id <$> p_callbacks s).

Lemma proc_step_conserved o s s' : conserved s → proc_step o s = Done s' → conserved s'.
Proof.
  unfold conserved. intros Hs. destruct o as [t|]; cbn.
  - intros [= <-]. cbn. unfold AddCallback. by rewrite fmap_app, Hs, app_assoc.
  - unfold ProcessReadyCallbacks. destruct (p_callbacks s) as [|t l] eqn:Hc.
    { intros [= <-]. cbn. rewrite !app_nil_r. by rewrite Hs, app_nil_r. }
    destruct (remove_ready (t :: l) (p_world s)) as [[[[kept added] completed] w]| |] eqn:E; [|done..].
    cbn [mbind outcome_bind]. intros [= <-]. cbn.
    destruct (remove_ready_spec _ _ _ _ _ _ E) as [Hp _]. rewrite Hs, Hp, fmap_app.
    rewrite <- !app_assoc. apply Permutation_app_head, Permutation_app_head.
    apply Permutation_app_comm.
Qed.
End Processor.

(** ** AsyncCallback of AsyncCallbackMgr *)
Record AsyncCallback_t := mk_AsyncCallback_t { ac_id : nat; ac_future : future }.

Definition AsyncCallback_InvokeIfReady {V} (t : AsyncCallback_t) (w : world V)
    : outcome string (bool * AsyncCallback_t * world V * list AsyncCallback_t) :=
  if is_ready (ac_future t) w then Done (true, t, w, []) else Done (false, t, w, []).

#[export] Program Instance AsyncCallback_async {V} : AsyncCallback (world V) AsyncCallback_t := {|
  InvokeIfReady := AsyncCallback_InvokeIfReady;
  callback_id := ac_id;
|}.
Next Obligation.
  intros V t w b t' w' new. unfold AsyncCallback_InvokeIfReady.
  destruct (is_ready _ _); by intros [= _ <- _ _].
Qed.

(** [AddAsyncCallback]: the future of a new [std::async]. *)
Definition AddAsyncCallback (id fut : nat) (l : list AsyncCallback_t) : list AsyncCallback_t :=
  AddCallback (mk_AsyncCallback_t id (Some fut)) l.

(** ** TransactionCallback *)
Record TransactionCallback := mk_TransactionCallback {
  tc_id : nat; tc_future : future; tc_callback : option nat }.

Definition AfterComplete (callback : nat) (t : TransactionCallback) : TransactionCallback :=
  mk_TransactionCallback (tc_id t) (tc_future t) (Some callback).

(** An empty [std::function] throws when it is called. *)
Definition TransactionCallback_InvokeIfReady (t : TransactionCallback) (w : world bool)
    : outcome string (bool * TransactionCallback * world bool * list TransactionCallback) :=
  if is_ready (tc_future t) w then
    v ← future_get (tc_future t) w;
    match tc_callback t with
    | Some cb => Done (true, mk_TransactionCallback (tc_id t) None (tc_callback t), log_invoked cb v w, [])
    | None => Throw "bad_function_call"
    end
  else Done (false, t, w, []).

#[export] Program Instance AsyncCallback_transaction : AsyncCallback (world bool) TransactionCallback := {|
  InvokeIfReady := TransactionCallback_InvokeIfReady;
  callback_id := tc_id;
|}.
Next Obligation.
  intros t w b t' w' new. unfold TransactionCallback_InvokeIfReady.
  destruct (is_ready _ _); [|by intros [= _ <- _ _]].
  destruct (future_get _ _); cbn; [|done..]. destruct (tc_callback t); [|done]. by intros [= _ <- _ _].
Qed.

(** ** SQLQueryHolderCallback: the callback reads the holder, not the future *)
Record SQLQueryHolderCallback := mk_SQLQueryHolderCallback {
  hc_id : nat; hc_holder : nat; hc_future : future; hc_callback : option nat }.

Definition SQLQueryHolderCallback_InvokeIfReady (t : SQLQueryHolderCallback) (w : world nat)
    : outcome string (bool * SQLQueryHolderCallback * world nat * list SQLQueryHolderCallback) :=
  if is_ready (hc_future t) w then
    match hc_callback t with
    | Some cb => Done (true, t, log_invoked cb (hc_holder t) w, [])
    | None => Throw "bad_function_call"
    end
  else Done (false, t, w, []).

#[export] Program Instance AsyncCallback_holder : AsyncCallback (world nat) SQLQueryHolderCallback := {|
  InvokeIfReady := SQLQueryHolderCallback_InvokeIfReady;
  callback_id := hc_id;
|}.
Next Obligation.
  intros t w b t' w' new. unfold SQLQueryHolderCallback_InvokeIfReady.
  destruct (is_ready _ _); [|by intros [= _ <- _ _]]. destruct (hc_callback t); [|done]. by intros [= _ <- _ _].
Qed.

(** ** QueryCallback *)

(** [QueryCallbackData]: the union's active member is told by [_isPrepared]. *)
Record QueryCallbackData := mk_QueryCallbackData { d_isPrepared : bool; d_callback : nat }.

Record QueryCallback := mk_QueryCallback {
  qc_id : nat;
  _isPrepared : bool;
  qc_future : future;               (* [_string] or [_prepared] *)
  _callbacks : list QueryCallbackData;
}.

Definition QueryCallback_string (id : nat) (result : future) : QueryCallback :=
  mk_QueryCallback id false result [].
Definition QueryCallback_prepared (id : nat) (result : future) : QueryCallback :=
  mk_QueryCallback id true result [].

Definition wrong_kind : string := "Attempted to set callback function of the other kind of query".

Definition is_nil {A} (l : list A) : bool := match l with [] => true | _ => false end.

(** [WithChainingCallback] and [WithCallback], which wraps its argument. *)
Definition WithChainingCallback (callback : nat) (q : QueryCallback) : outcome string QueryCallback :=
  _ ← assert (negb (is_nil (_callbacks q)) || negb (_isPrepared q)) wrong_kind;
  Done (mk_QueryCallback (qc_id q) (_isPrepared q) (qc_future q)
          (_callbacks q ++ [mk_QueryCallbackData false callback])).

Definition WithChainingPreparedCallback (callback : nat) (q : QueryCallback) : outcome string QueryCallback :=
  _ ← assert (negb (is_nil (_callbacks q)) || _isPrepared q) wrong_kind;
  Done (mk_QueryCallback (qc_id q) (_isPrepared q) (qc_future q)
          (_callbacks q ++ [mk_QueryCallbackData true callback])).

Definition set_future (f : future) (q : QueryCallback) : QueryCallback :=
  mk_QueryCallback (qc_id q) (_isPrepared q) f (_callbacks q).
Definition set_callbacks (l : list QueryCallbackData) (q : QueryCallback) : QueryCallback :=
  mk_QueryCallback (qc_id q) (_isPrepared q) (qc_future q) l.

(** [SetNextQuery]: [MoveFrom] moves the future of [next] only. *)
Definition SetNextQuery (next : QueryCallback) (q : QueryCallback) : outcome string QueryCallback :=
  _ ← assert (Bool.eqb (_isPrepared q) (_isPrepared next)) "to->_isPrepared == from._isPrepared";
  Done (set_future (qc_future next) q).

(** What a callback function does with the [QueryCallback&] it is given and with
    the processor. *)
Inductive query_action :=
| ActSetNextQuery (next : QueryCallback)
| ActChain (prepared : bool) (callback : nat)
| ActAddCallback (q : QueryCallback).

Definition run_action (a : query_action) (st : QueryCallback * list QueryCallback)
    : outcome string (QueryCallback * list QueryCallback) :=
  let '(q, new) := st in
  match a with
  | ActSetNextQuery next => q ← SetNextQuery next q; Done (q, new)
  | ActChain prepared cb =>
      q ← (if prepared : bool then WithChainingPreparedCallback cb q else WithChainingCallback cb q);
      Done (q, new)
  | ActAddCallback q' => Done (q, new ++ [q'])
  end.

Section Query.
Context {V : Type}.
Variable functions : nat → V → list query_action.

Definition wrong_member : string := "read of the inactive member of a union".
Definition empty_front : string := "front of an empty queue".

(** [checkStateAndReturnCompletion] *)
Definition checkStateAndReturnCompletion (q : QueryCallback) : outcome string (bool * QueryCallback) :=
  match _callbacks q with
  | [] => Crash "pop of an empty queue"
  | _ :: rest =>
      let q := set_callbacks rest q in
      let hasNext := bool_decide (is_Some (qc_future q)) in
      match rest with
      | [] => _ ← assert (negb hasNext) "!hasNext"; Done (true, q)
      | d :: _ =>
          if negb hasNext then Done (true, q)
          else
            _ ← assert (Bool.eqb (_isPrepared q) (d_isPrepared d))
                  "_isPrepared == _callbacks.front()._isPrepared";
            Done (false, q)
      end
  end.

Definition QueryCallback_InvokeIfReady (q : QueryCallback) (w : world V)
    : outcome string (bool * QueryCallback * world V * list QueryCallback) :=
  match _callbacks q with
  | [] => Crash empty_front
  | callback :: _ =>
      if is_ready (qc_future q) w then
        let f := qc_future q in
        let q := set_future None q in
        if negb (Bool.eqb (_isPrepared q) (d_isPrepared callback)) then Crash wrong_member
        else
          v ← future_get f w;
          let w := log_invoked (d_callback callback) v w in
          '(q, new) ← ofold (λ st a, run_action a st) (functions (d_callback callback) v) (q, []);
          '(completed, q) ← checkStateAndReturnCompletion q;
          Done (completed, q, w, new)
      else Done (false, q, w, [])
  end.

Lemma run_actions_id acts q new q' new' :
  ofold (λ st a, run_action a st) acts (q, new) = Done (q', new') →
  qc_id q' = qc_id q ∧ _isPrepared q' = _isPrepared q ∧
  ∃ more, _callbacks q' = _callbacks q ++ more.
Proof.
  revert q new. induction acts as [|a acts IH]; cbn; intros q new.
  { intros [= <- <-]. repeat split. exists []. by rewrite app_nil_r. }
  destruct a as [next|p cb|q0]; cbn.
  - unfold SetNextQuery, assert. destruct (Bool.eqb _ _); cbn; [|done]. intros Hrun%IH. done.
  - unfold WithChainingPreparedCallback, WithChainingCallback, assert.
    destruct p; destruct (_ || _); cbn; try done; intros (? & ? & more & Hm)%IH; cbn in *;
      (split; [done|]); (split; [done|]); rewrite <- app_assoc in Hm; eauto.
  - intros Hrun%IH. done.
Qed.

Lemma check_id q b q' : checkStateAndReturnCompletion q = Done (b, q') →
  qc_id q' = qc_id q ∧ _isPrepared q' = _isPrepared q ∧ ∃ d, _callbacks q = d :: _callbacks q'.
Proof.
  unfold checkStateAndReturnCompletion, assert. destruct (_callbacks q) as [|d rest] eqn:E; [done|].
  destruct rest as [|d' rest]; cbn; destruct (bool_decide _); cbn; try done;
    try (destruct (Bool.eqb _ _); cbn; [|done]); intros [= <- <-]; cbn; eauto.
Qed.

Lemma QueryCallback_id q w b q' w' new :
  QueryCallback_InvokeIfReady q w = Done (b, q', w', new) → qc_id q' = qc_id q.
Proof.
  unfold QueryCallback_InvokeIfReady. destruct (_callbacks q) as [|d rest] eqn:Hc; [done|].
  destruct (is_ready _ _); [|by intros [= _ <- _ _]].
  destruct (negb _); [done|]. destruct (future_get _ _) as [v| |]; cbn; [|done..].
  destruct (ofold _ _ _) as [[q1 new1]| |] eqn:E; cbn; [|done..].
  destruct (checkStateAndReturnCompletion q1) as [[b2 q2]| |] eqn:E2; cbn; [|done..].
  intros [= _ <- _ _]. apply run_actions_id in E as (Hi & _). apply check_id in E2 as (Hi2 & _).
  by rewrite Hi2, Hi.
Qed.

#[export] Instance AsyncCallback_query : AsyncCallback (world V) QueryCallback := {|
  InvokeIfReady := QueryCallback_InvokeIfReady;
  callback_id := qc_id;
  InvokeIfReady_id := QueryCallback_id;
|}.
End Query.

(** ** The union of QueryCallback is read by its active member *)
Definition query_ok (q : QueryCallback) : Prop :=
  match _callbacks q with [] => True | d :: _ => d_isPrepared d = _isPrepared q end.

Section QuerySafety.
Context {V : Type}.
Variable functions : nat → V → list query_action.

(** The states of a [QueryCallback] between its construction and its end. *)
Inductive reachable_query : QueryCallback → Prop :=
| rq_string id f : reachable_query (QueryCallback_string id f)
| rq_prepared id f : reachable_query (QueryCallback_prepared id f)
| rq_chain cb q q' : reachable_query q → WithChainingCallback cb q = Done q' → reachable_query q'
| rq_chain_prepared cb q q' :
    reachable_query q → WithChainingPreparedCallback cb q = Done q' → reachable_query q'
| rq_next next q q' : reachable_query q → SetNextQuery next q = Done q' → reachable_query q'
| rq_invoke q w q' w' new :
    reachable_query q → QueryCallback_InvokeIfReady functions q w = Done (false, q', w', new) →
    reachable_query q'.

Lemma query_ok_chain prepared cb q q' :
  query_ok q →
  (if prepared : bool then WithChainingPreparedCallback cb q else WithChainingCallback cb q) = Done q' →
  query_ok q'.
Proof.
  unfold query_ok, WithChainingPreparedCallback, WithChainingCallback, assert. intros Hq.
  destruct prepared; destruct (_callbacks q) as [|d l]; destruct (_isPrepared q) eqn:Hp; cbn; try done;
    intros [= <-]; cbn; rewrite ?Hp; done.
Qed.

Lemma check_ok q q' : checkStateAndReturnCompletion q = Done (false, q') → query_ok q'.
Proof.
  unfold checkStateAndReturnCompletion, assert, query_ok.
  destruct (_callbacks q) as [|d [|d' rest]]; cbn; [done| |].
  - by destruct (bool_decide _).
  - destruct (bool_decide _); cbn; [|done]. destruct (Bool.eqb _ _) eqn:E; cbn; [|done].
    intros [= <-]. cbn. by apply eqb_prop in E.
Qed.

Lemma reachable_query_ok q : reachable_query q → query_ok q.
Proof.
  induction 1 as [id f|id f|cb q q' _ IH Hc|cb q q' _ IH Hc|next q q' _ IH Hn|q w q' w' new _ IH Hi].
  - done.
  - done.
  - exact (query_ok_chain false cb q q' IH Hc).
  - exact (query_ok_chain true cb q q' IH Hc).
  - unfold SetNextQuery, assert in Hn. destruct (Bool.eqb _ _); [|done]. by injection Hn as <-.
  - unfold QueryCallback_InvokeIfReady in Hi. destruct (_callbacks q) as [|d l]; [done|].
    destruct (is_ready _ _); [|by injection Hi as <- _ _].
    destruct (negb _); [done|]. destruct (future_get _ _); cbn in Hi; [|done..].
    destruct (ofold _ _ _) as [[q1 new1]| |]; cbn in Hi; [|done..].
    destruct (checkStateAndReturnCompletion q1) as [[b q2]| |] eqn:E; cbn in Hi; [|done..].
    injection Hi as -> <- _ _. by eapply check_ok.
Qed.

(** The texts of the assertions of QueryCallback.cpp. *)
Definition assertion_texts : list string :=
  [wrong_kind; "to->_isPrepared == from._isPrepared"; "!hasNext";
   "_isPrepared == _callbacks.front()._isPrepared"].

Lemma run_actions_fail acts st o :
  ofold (λ st a, run_action a st) acts st = o →
  match o with Done _ => True | Throw _ => False | Crash why => why ∈ assertion_texts end.
Proof.
  intros <-. revert st. induction acts as [|a acts IH]; intros [q new]; [done|].
  destruct a as [next|p cb|q0]; cbn.
  - unfold SetNextQuery, assert. destruct (Bool.eqb _ _); cbn; [apply IH|]. unfold assertion_texts. set_solver.
  - unfold WithChainingPreparedCallback, WithChainingCallback, assert.
    destruct p; destruct (_ || _); cbn; try apply IH; unfold assertion_texts; set_solver.
  - apply IH.
Qed.

Lemma check_fail q :
  _callbacks q ≠ [] →
  match checkStateAndReturnCompletion q with
  | Done (b, q') => b = false → _callbacks q' ≠ []
  | Throw _ => False
  | Crash why => why ∈ assertion_texts
  end.
Proof.
  unfold checkStateAndReturnCompletion, assert, assertion_texts.
  destruct (_callbacks q) as [|d [|d' rest]]; [done| |]; intros _; cbn.
  - destruct (bool_decide _); cbn; [set_solver|done].
  - destruct (bool_decide _); cbn; [|done]. destruct (Bool.eqb _ _); cbn; [done|set_solver].
Qed.

End QuerySafety.

(** C13 The processor loses no callback and runs none twice: after any sequence
    of additions and of [ProcessReadyCallbacks], for any callback type, the
    callbacks submitted (the ones submitted by callbacks included) are the
    completed ones and the ones still held, each exactly once. *)
Theorem processor_conserves {W T : Type} `{AsyncCallback W T} (ops : list proc_op) (w : W) (s : proc_state) :
  ofold (λ s o, proc_step o s) ops (mk_proc_state [] w [] []) = Done s →
  p_submitted s ≡ₚ p_completed s ++ (callback_id <$> p_callbacks s).
Proof.
  assert (∀ s0 : proc_state, conserved s0 → ofold (λ s o, proc_step o s) ops s0 = Done s → conserved s) as Hgen.
  { induction ops as [|o ops IH]; cbn; intros s0 H0; [by intros [= <-]|].
    destruct (proc_step o s0) as [s1| |] eqn:E; cbn; [|done..]. apply IH. by eapply proc_step_conserved. }
  intros Hrun. exact (Hgen (mk_proc_state [] w [] []) (Permutation_refl _) Hrun).
Qed.

(** ** Witnesses: a chain of two queries, the second started by the first
    callback, and two transactions. *)
Definition ex_functions (cb v : nat) : list query_action :=
  match cb with
  | 0 => [ActSetNextQuery (QueryCallback_string 9 (Some 2)); ActAddCallback (QueryCallback_string 5 (Some 3))]
  | _ => []
  end.
Definition ex_query : QueryCallback :=
  mk_QueryCallback 1 false (Some 1) [mk_QueryCallbackData false 0; mk_QueryCallbackData false 7].
Definition ex_world : world nat := mk_world {[ 1 := FReady 42; 2 := FPending ]} [].

Lemma ex_query_reachable : reachable_query ex_functions ex_query.
Proof.
  apply (rq_chain _ 7 (mk_QueryCallback 1 false (Some 1) [mk_QueryCallbackData false 0])); [|done].
  apply (rq_chain _ 0 (QueryCallback_string 1 (Some 1))); [|done]. apply rq_string.
Qed.


Definition ex_transactions : world bool := mk_world {[ 1 := FReady true; 2 := FPending ]} [].
Definition ex_ops : list (proc_op (T := TransactionCallback)) :=
  [OpAdd (AfterComplete 11 (mk_TransactionCallback 1 (Some 1) None));
   OpAdd (AfterComplete 12 (mk_TransactionCallback 2 (Some 2) None)); OpProcess; OpProcess].
Definition ex_proc : proc_state (W := world bool) (T := TransactionCallback) :=
  mk_proc_state [mk_TransactionCallback 2 (Some 2) (Some 12)]
    (mk_world (futures ex_transactions) [(11, true)]) [1; 2] [1].

Lemma processor_conserves_witness :
  p_submitted ex_proc ≡ₚ p_completed ex_proc ++ (callback_id <$> p_callbacks ex_proc).
Proof.
  apply (processor_conserves ex_ops ex_transactions ex_proc). vm_compute. reflexivity.
Defined.
