(* ===== verification/QueryMemory.v ===== *)
(** * The memory of query callbacks: QueryCallback.cpp, AsyncCallbackProcessor.h

    [QueryCallback] and [QueryCallbackData] hold a union whose active member the
    flag [_isPrepared] tells, and which their constructors, assignments and
    destructors construct, move and destroy by hand; the processor keeps them in
    a vector, which moves them when it grows and when [std::remove_if] closes the
    gaps.  Callbacks.v has them as values in a list.  Here every construction,
    destruction and move of a member is a step that ends in [Crash] when the
    member is not in the state the language asks for, and the processor over this
    memory is proved to do what the one of Callbacks.v does.

    - A moved future is invalid, a moved std::list is empty (it was spliced); a
      moved std::function is some function, the argument [moved].
    - [grow] says at which sizes a vector has to move its elements. *)
From S2P Require Import Prelude Callbacks.

(** ** The union *)
Inductive storage (A : Type) := Raw | Member (prepared : bool) (a : A).
Arguments Raw {A}.
Arguments Member {A} prepared a.

Record union (A : Type) := mk_union { store : storage A; u_isPrepared : bool }.
Arguments mk_union {A} store u_isPrepared.
Arguments store {A} u.
Arguments u_isPrepared {A} u.

Section Union.
(** The type of both members, what the default constructor makes, and what is
    left after a move. *)
Context {A : Type} (default_value : A) (moved : A → A).

Definition Construct (prepared : bool) (a : A) (m : storage A) : outcome string (storage A) :=
  match m with Raw => Done (Member prepared a) | Member _ _ => Crash "construction over a live member" end.

Definition Destroy (prepared : bool) (m : storage A) : outcome string (storage A) :=
  match m with
  | Member b _ => if Bool.eqb b prepared then Done Raw else Crash "destruction of the inactive member"
  | Raw => Crash "destruction of nothing"
  end.

Definition read_member (prepared : bool) (m : storage A) : outcome string A :=
  match m with
  | Member b a => if Bool.eqb b prepared then Done a else Crash wrong_member
  | Raw => Crash "read of raw memory"
  end.

Definition assign_member (prepared : bool) (a : A) (m : storage A) : outcome string (storage A) :=
  _ ← read_member prepared m; Done (Member prepared a).

Definition ConstructActiveMember (obj : union A) : outcome string (union A) :=
  m ← Construct (u_isPrepared obj) default_value (store obj); Done (mk_union m (u_isPrepared obj)).

Definition DestroyActiveMember (obj : union A) : outcome string (union A) :=
  m ← Destroy (u_isPrepared obj) (store obj); Done (mk_union m (u_isPrepared obj)).

(** [to] and [from] after it *)
Definition MoveFrom (to from : union A) : outcome string (union A * union A) :=
  _ ← assert (Bool.eqb (u_isPrepared to) (u_isPrepared from)) "to->_isPrepared == from._isPrepared";
  a ← read_member (u_isPrepared to) (store from);
  m ← assign_member (u_isPrepared to) a (store to);
  Done (mk_union m (u_isPrepared to), mk_union (Member (u_isPrepared to) (moved a)) (u_isPrepared from)).

(** The constructors that move: raw memory, then the member, then the value. *)
Definition union_move_construct (right : union A) : outcome string (union A * union A) :=
  obj ← ConstructActiveMember (mk_union Raw (u_isPrepared right)); MoveFrom obj right.

(** [operator=] of another object: the member is exchanged when the kinds
    differ. *)
Definition change_member (this right : union A) : outcome string (union A) :=
  if Bool.eqb (u_isPrepared this) (u_isPrepared right) then Done this
  else
    this ← DestroyActiveMember this;
    ConstructActiveMember (mk_union (store this) (u_isPrepared right)).

Definition union_move_assign (this right : union A) : outcome string (union A * union A) :=
  this ← change_member this right; MoveFrom this right.

(** *** Lemmas *)
Definition holds (u : union A) (b : bool) (a : A) : Prop := u = mk_union (Member b a) b.

Lemma MoveFrom_ok to from b a a' : holds to b a → holds from b a' →
  MoveFrom to from = Done (mk_union (Member b a') b, mk_union (Member b (moved a')) b).
Proof.
  intros -> ->. unfold MoveFrom, assign_member, read_member. cbn. by rewrite !eqb_reflx.
Qed.

Lemma MoveFrom_kinds to from b b' a a' : holds to b a → holds from b' a' → b ≠ b' →
  MoveFrom to from = Crash "to->_isPrepared == from._isPrepared".
Proof. intros -> ->. by destruct b, b'. Qed.

Lemma union_move_construct_ok right b a : holds right b a →
  union_move_construct right = Done (mk_union (Member b a) b, mk_union (Member b (moved a)) b).
Proof. intros ->. unfold union_move_construct, ConstructActiveMember. cbn. by rewrite (MoveFrom_ok _ _ b default_value a). Qed.

Lemma change_member_ok this right b a b' a' : holds this b a → holds right b' a' →
  ∃ a1, change_member this right = Done (mk_union (Member b' a1) b').
Proof.
  intros -> ->. unfold change_member. cbn. destruct (Bool.eqb b b') eqn:E.
  - apply eqb_prop in E as ->. eauto.
  - unfold DestroyActiveMember, Destroy. cbn. rewrite eqb_reflx. cbn. eauto.
Qed.

Lemma union_move_assign_ok this right b a b' a' : holds this b a → holds right b' a' →
  union_move_assign this right = Done (mk_union (Member b' a') b', mk_union (Member b' (moved a')) b').
Proof.
  intros Ht Hr. unfold union_move_assign. destruct (change_member_ok _ _ _ _ _ _ Ht Hr) as (a1 & ->).
  cbn [mbind outcome_bind]. by apply (MoveFrom_ok _ _ b' a1 a').
Qed.

Lemma DestroyActiveMember_ok u b a : holds u b a → DestroyActiveMember u = Done (mk_union Raw b).
Proof. intros ->. unfold DestroyActiveMember, Destroy. cbn. by rewrite eqb_reflx. Qed.
End Union.

(** ** QueryCallback in memory *)
Definition function := option nat.    (* None: an empty std::function *)
Record qobject := mk_qobject { q_id : nat; q_future : union future; q_callbacks : list (union function) }.

Definition moved_future (f : future) : future := None.

(** What a callback does with the object and the processor. *)
Inductive qaction :=
| QSetNextQuery (next : qobject)
| QChain (prepared : bool) (callback : nat)
| QAddCallback (q : qobject).

Section Memory.
Context {V : Type}.
Variable functions : nat → V → list qaction.
Variable moved : function → function.
Variable grow : nat → bool.

Definition with_future (u : union future) (q : qobject) : qobject := mk_qobject (q_id q) u (q_callbacks q).
Definition with_callbacks (l : list (union function)) (q : qobject) : qobject := mk_qobject (q_id q) (q_future q) l.
Definition is_prepared (q : qobject) : bool := u_isPrepared (q_future q).

(** The constructors from a future. *)
Definition new_query (id : nat) (prepared : bool) (result : future) : outcome string qobject :=
  m ← Construct prepared result Raw; Done (mk_qobject id (mk_union m prepared) []).

(** The destructor of the list destroys its elements. *)
Fixpoint destroy_all (l : list (union function)) : outcome string unit :=
  match l with [] => Done () | d :: l => _ ← DestroyActiveMember d; destroy_all l end.

Definition query_move_construct (right : qobject) : outcome string (qobject * qobject) :=
  u ← ConstructActiveMember (None : future) (mk_union Raw (is_prepared right));
  let callbacks := q_callbacks right in
  '(u, v) ← MoveFrom moved_future u (q_future right);
  Done (mk_qobject (q_id right) u callbacks, mk_qobject (q_id right) v []).

(** The list that is assigned to destroys what it held.  The identity, which is
    not in memory, goes with the value. *)
Definition query_move_assign (this right : qobject) : outcome string (qobject * qobject) :=
  u ← change_member (None : future) (q_future this) (q_future right);
  _ ← destroy_all (q_callbacks this);
  let callbacks := q_callbacks right in
  '(u, v) ← MoveFrom moved_future u (q_future right);
  Done (mk_qobject (q_id right) u callbacks, mk_qobject (q_id right) v []).

Definition query_destroy (q : qobject) : outcome string unit :=
  _ ← DestroyActiveMember (q_future q); destroy_all (q_callbacks q).

(** [emplace] of a queue constructs the element in place. *)
Definition chain (prepared : bool) (callback : nat) (q : qobject) : outcome string qobject :=
  _ ← assert (negb (is_nil (q_callbacks q)) || Bool.eqb (is_prepared q) prepared) wrong_kind;
  m ← Construct prepared (Some callback) Raw;
  Done (with_callbacks (q_callbacks q ++ [mk_union m prepared]) q).

Definition set_next (next q : qobject) : outcome string (qobject * qobject) :=
  '(u, v) ← MoveFrom moved_future (q_future q) (q_future next);
  Done (with_future u q, with_future v next).

Fixpoint move_all (l : list qobject) : outcome string (list qobject * list qobject) :=
  match l with
  | [] => Done ([], [])
  | q :: l =>
      '(x, y) ← query_move_construct q; '(xs, ys) ← move_all l; Done (x :: xs, y :: ys)
  end.
Fixpoint destroy_queries (l : list qobject) : outcome string unit :=
  match l with [] => Done () | q :: l => _ ← query_destroy q; destroy_queries l end.

(** A vector that is full moves its elements into new memory and destroys the
    old ones. *)
Definition reserve (vec : list qobject) : outcome string (list qobject) :=
  if grow (length vec) then '(new, old) ← move_all vec; _ ← destroy_queries old; Done new else Done vec.

(** [emplace_back(std::move(query))], and the argument after it *)
Definition emplace_back (query : qobject) (vec : list qobject) : outcome string (list qobject * qobject) :=
  vec ← reserve vec;
  '(x, y) ← query_move_construct query;
  Done (vec ++ [x], y).

(** An action; [next] and the added query are temporaries of the callback. *)
Definition act (a : qaction) (st : qobject * list qobject) : outcome string (qobject * list qobject) :=
  let '(q, vec) := st in
  match a with
  | QSetNextQuery next => '(q, next) ← set_next next q; _ ← query_destroy next; Done (q, vec)
  | QChain prepared cb => q ← chain prepared cb q; Done (q, vec)
  | QAddCallback q' => '(vec, q') ← emplace_back q' vec; _ ← query_destroy q'; Done (q, vec)
  end.

Definition check_state (q : qobject) : outcome string (bool * qobject) :=
  match q_callbacks q with
  | [] => Crash "pop of an empty queue"
  | front :: rest =>
      _ ← DestroyActiveMember front;
      let q := with_callbacks rest q in
      f ← read_member (is_prepared q) (store (q_future q));
      let hasNext := bool_decide (is_Some f) in
      match rest with
      | [] => _ ← assert (negb hasNext) "!hasNext"; Done (true, q)
      | d :: _ =>
          if negb hasNext then Done (true, q)
          else
            _ ← assert (Bool.eqb (is_prepared q) (u_isPrepared d)) "_isPrepared == _callbacks.front()._isPrepared";
            Done (false, q)
      end
  end.

Definition query_InvokeIfReady (q : qobject) (vec : list qobject) (w : world V) :
    outcome string (bool * qobject * list qobject * world V) :=
  match q_callbacks q with
  | [] => Crash empty_front
  | callback :: rest =>
      f ← read_member (is_prepared q) (store (q_future q));
      if is_ready f w then
        let q := with_future (mk_union (Member (is_prepared q) (moved_future f)) (is_prepared q)) q in
        cb ← read_member (is_prepared q) (store callback);
        let q := with_callbacks (mk_union (Member (is_prepared q) (moved cb)) (u_isPrepared callback) :: rest) q in
        v ← future_get f w;
        i ← match cb with Some i => Done i | None => Throw "bad_function_call" end;
        let w := log_invoked i v w in
        '(q, vec) ← ofold (λ st a, act a st) (functions i v) (q, vec);
        '(completed, q) ← check_state q;
        Done (completed, q, vec, w)
      else Done (false, q, vec, w)
  end.

(** [std::remove_if] from position [first], with the end of what is kept at
    [result]; a kept element is moved once a gap is open. *)
Fixpoint remove_if (n first result : nat) (l vec : list qobject) (w : world V) :
    outcome string (nat * list qobject * list qobject * world V) :=
  match n with
  | O => Done (result, l, vec, w)
  | S n =>
      match l !! first with
      | None => Crash "past the end"
      | Some q =>
          '(completed, q, vec, w) ← query_InvokeIfReady q vec w;
          let l := <[first := q]> l in
          if completed : bool then remove_if n (S first) result l vec w
          else if Nat.eqb first result then remove_if n (S first) (S result) l vec w
          else
            match l !! result with
            | None => Crash "past the end"
            | Some to =>
                '(to, q) ← query_move_assign to q;
                remove_if n (S first) (S result) (<[result := to]> (<[first := q]> l)) vec w
            end
      end
  end.

(** [insert] of a range of move iterators at the end *)
Definition insert_moved (l vec : list qobject) : outcome string (list qobject * list qobject) :=
  vec ← reserve vec; '(xs, ys) ← move_all l; Done (vec ++ xs, ys).

Definition ProcessReadyCallbacks_memory (callbacks : list qobject) (w : world V) : outcome string (list qobject * world V) :=
  match callbacks with
  | [] => Done ([], w)
  | _ =>
      '(result, l, vec, w) ← remove_if (length callbacks) 0 0 callbacks [] w;
      _ ← destroy_queries (drop result l);
      '(vec, l) ← insert_moved (take result l) vec;
      _ ← destroy_queries l;
      Done (vec, w)
  end.
End Memory.

(** ** The values in memory *)
Definition member_value (u : union (option nat)) : option nat :=
  match store u with Member _ a => a | Raw => None end.
Definition data_value (d : union function) : QueryCallbackData :=
  mk_QueryCallbackData (u_isPrepared d) (default 0 (member_value d)).
Definition query_value (q : qobject) : QueryCallback :=
  mk_QueryCallback (q_id q) (is_prepared q) (member_value (q_future q)) (data_value <$> q_callbacks q).
Definition action_value (a : qaction) : query_action :=
  match a with
  | QSetNextQuery next => ActSetNextQuery (query_value next)
  | QChain prepared cb => ActChain prepared cb
  | QAddCallback q => ActAddCallback (query_value q)
  end.

(** The active member is there, and functions are not empty. *)
Definition wf_data (d : union function) : Prop := ∃ b i, holds d b (Some i).
Definition wf_query (q : qobject) : Prop :=
  (∃ b f, holds (q_future q) b f) ∧ Forall wf_data (q_callbacks q).
Definition wf_action (a : qaction) : Prop :=
  match a with QSetNextQuery q | QAddCallback q => wf_query q | QChain _ _ => True end.

(** Two computations end in the same way, with related values. *)
Definition same {E A B : Type} (R : A → B → Prop) (o : outcome E A) (o' : outcome E B) : Prop :=
  match o, o' with
  | Done a, Done b => R a b
  | Throw e, Throw e' => e = e'
  | Crash w, Crash w' => w = w'
  | _, _ => False
  end.

Lemma same_bind {E A B A' B' : Type} (R : A → B → Prop) (R' : A' → B' → Prop) (o : outcome E A) (o' : outcome E B) f g :
  same R o o' → (∀ a b, R a b → same R' (f a) (g b)) → same R' (o ≫= f) (o' ≫= g).
Proof. intros Ho Hf. destruct o, o'; cbn in *; auto; done. Qed.

(** The second one does more, which does not fail. *)
Lemma same_post {E A B C : Type} (R : A → B → Prop) (R' : A → C → Prop) (o : outcome E A) (o' : outcome E B) g :
  same R o o' → (∀ a b, R a b → ∃ c, g b = Done c ∧ R' a c) → same R' o (o' ≫= g).
Proof.
  intros Ho Hg. destruct o, o'; cbn in *; try done. destruct (Hg _ _ Ho) as (c & -> & Hc). exact Hc.
Qed.

Lemma same_ofold {E S S' A B : Type} (R : S → S' → Prop) (h : A → B) (P : A → Prop) (f : S → A → outcome E S) (g : S' → B → outcome E S') l s s' :
  (∀ s s' a, R s s' → P a → same R (f s a) (g s' (h a))) → Forall P l → R s s' → same R (ofold f l s) (ofold g (h <$> l) s').
Proof.
  intros Hf Hl. revert s s'. induction Hl as [|a l Ha Hl IH]; intros s s' Hs; cbn [ofold fmap list_fmap]; [done|].
  eapply same_bind; [by apply Hf|]. intros. by apply IH.
Qed.

(** *** The memory operations do what they should *)
Section MemoryLemmas.
Context {V : Type}.
Variable functions : nat → V → list qaction.
Variable moved : function → function.
Variable grow : nat → bool.

Lemma wf_query_inv q : wf_query q → ∃ id b f l, q = mk_qobject id (mk_union (Member b f) b) l ∧ Forall wf_data l.
Proof. destruct q as [id u l]. intros [(b & f & Hu) Hl]. cbn in *. unfold holds in Hu. subst u. eauto 6. Qed.

Lemma query_value_eq id b f l :
  query_value (mk_qobject id (mk_union (Member b f) b) l) = mk_QueryCallback id b f (data_value <$> l).
Proof. done. Qed.

Lemma destroy_all_ok l : Forall wf_data l → destroy_all l = Done ().
Proof.
  induction 1 as [|d l (b & i & Hd) _ IH]; [done|]. cbn [destroy_all].
  by rewrite (DestroyActiveMember_ok d b (Some i) Hd).
Qed.

Lemma query_move_construct_ok q : wf_query q → ∃ y, query_move_construct q = Done (q, y) ∧ wf_query y.
Proof.
  intros (id & b & f & l & -> & Hl)%wf_query_inv. unfold query_move_construct, ConstructActiveMember, is_prepared.
  cbn. rewrite (MoveFrom_ok moved_future _ _ b None f) by done. cbn. eexists. split; [done|].
  split; cbn; [unfold holds; eauto|constructor].
Qed.

Lemma query_move_assign_ok this right : wf_query this → wf_query right →
  ∃ y, query_move_assign this right = Done (right, y) ∧ wf_query y.
Proof.
  intros (id & b & f & l & -> & Hl)%wf_query_inv (id' & b' & f' & l' & -> & Hl')%wf_query_inv.
  unfold query_move_assign. cbn [q_future q_callbacks q_id].
  destruct (change_member_ok (None : future) (mk_union (Member b f) b) (mk_union (Member b' f') b') b f b' f')
    as (a & ->); [done..|].
  cbn [mbind outcome_bind]. rewrite destroy_all_ok by done. cbn [mbind outcome_bind].
  rewrite (MoveFrom_ok moved_future _ _ b' a f') by done. cbn. eexists. split; [done|].
  split; cbn; [unfold holds; eauto|constructor].
Qed.

Lemma query_destroy_ok q : wf_query q → query_destroy q = Done ().
Proof.
  intros [(b & f & Hu) Hl]. unfold query_destroy. rewrite (DestroyActiveMember_ok _ b f Hu). by apply destroy_all_ok.
Qed.

Lemma move_all_ok l : Forall wf_query l → ∃ ys, move_all l = Done (l, ys) ∧ Forall wf_query ys.
Proof.
  induction 1 as [|q l Hq _ (ys & IH & Hys)]; cbn [move_all]; [eauto|].
  destruct (query_move_construct_ok q Hq) as (y & -> & Hy). cbn [mbind outcome_bind]. rewrite IH. cbn. eauto.
Qed.

Lemma destroy_queries_ok l : Forall wf_query l → destroy_queries l = Done ().
Proof. induction 1 as [|q l Hq _ IH]; [done|]. cbn. by rewrite query_destroy_ok. Qed.

Lemma reserve_ok vec : Forall wf_query vec → reserve grow vec = Done vec.
Proof.
  intros Hv. unfold reserve. destruct (grow _); [|done]. destruct (move_all_ok vec Hv) as (ys & -> & Hys).
  cbn. by rewrite destroy_queries_ok.
Qed.

Lemma emplace_back_ok q vec : Forall wf_query vec → wf_query q →
  ∃ y, emplace_back grow q vec = Done (vec ++ [q], y) ∧ wf_query y.
Proof.
  intros Hv Hq. unfold emplace_back. rewrite reserve_ok by done. cbn [mbind outcome_bind].
  destruct (query_move_construct_ok q Hq) as (y & -> & Hy). cbn. eauto.
Qed.

(** While a callback runs, the function of the front element is moved out. *)
Definition running (q : qobject) (a : QueryCallback) : Prop :=
  ∃ id b f front rest b' x i, q = mk_qobject id (mk_union (Member b f) b) (front :: rest) ∧
    holds front b' x ∧ Forall wf_data rest ∧
    a = mk_QueryCallback id b f (mk_QueryCallbackData b' i :: (data_value <$> rest)).

Definition running_with (vec0 : list qobject) (st : qobject * list qobject) (st' : QueryCallback * list QueryCallback) : Prop :=
  running st.1 st'.1 ∧ Forall wf_query st.2 ∧ query_value <$> st.2 = (query_value <$> vec0) ++ st'.2.

Lemma act_same vec0 st st' a : running_with vec0 st st' → wf_action a →
  same (running_with vec0) (act grow a st) (run_action (action_value a) st').
Proof.
  destruct st as [q vec], st' as [c new]. intros [Hr [Hv Hn]] Ha.
  destruct Hr as (id & b & f & front & rest & b' & x & i & Hq & Hfront & Hrest & Hc). cbn [fst snd] in *. subst q c.
  destruct a as [next|prepared cb|added]; cbn [act run_action action_value].
  - apply wf_query_inv in Ha as (id' & b1 & f1 & l & -> & Hl).
    unfold set_next, SetNextQuery. cbn [q_future query_value _isPrepared is_prepared u_isPrepared qc_future member_value store].
    destruct (decide (b = b1)) as [<-|Hne].
    + rewrite (MoveFrom_ok moved_future _ _ b f f1) by done. rewrite eqb_reflx. cbn [assert mbind outcome_bind].
      rewrite query_destroy_ok by (split; [cbn; unfold holds; eauto|done]). cbn. split; [|done].
      unfold running, set_future. cbn. eauto 12.
    + rewrite (MoveFrom_kinds moved_future _ _ b b1 f f1) by done. by rewrite (proj2 (eqb_false_iff _ _)).
  - unfold chain. cbn [q_callbacks is_nil negb orb assert mbind outcome_bind Construct].
    destruct prepared; unfold WithChainingPreparedCallback, WithChainingCallback;
      cbn [_callbacks is_nil negb orb assert mbind outcome_bind]; (split; [|done]); cbn [fst];
      eexists id, b, f, front, (rest ++ [_]), b', x, i; (split; [done|]); (split; [done|]);
      (split; [apply Forall_app; split; [done|constructor; [unfold wf_data, holds; eauto|constructor]]|]);
      by rewrite fmap_app.
  - cbn [wf_action] in Ha. destruct (emplace_back_ok added vec Hv Ha) as (y & -> & Hy). cbn [mbind outcome_bind].
    rewrite query_destroy_ok by done. cbn. split; [unfold running; eauto 12|]. cbn. split.
    + apply Forall_app. auto.
    + by rewrite fmap_app, Hn, <- app_assoc.
Qed.

Definition same_query (r : bool * qobject) (r' : bool * QueryCallback) : Prop :=
  r.1 = r'.1 ∧ wf_query r.2 ∧ query_value r.2 = r'.2.

Lemma check_same q a : running q a → same same_query (check_state q) (checkStateAndReturnCompletion a).
Proof.
  intros (id & b & f & front & rest & b' & x & i & -> & Hf & Hr & ->). unfold check_state, checkStateAndReturnCompletion.
  cbn [q_callbacks _callbacks]. rewrite (DestroyActiveMember_ok _ b' x Hf).
  cbn [mbind outcome_bind with_callbacks q_future is_prepared u_isPrepared store read_member set_callbacks qc_future q_id].
  rewrite eqb_reflx. cbn [mbind outcome_bind].
  assert (∀ c, same same_query (Done (c, mk_qobject id (mk_union (Member b f) b) rest))
    (Done (E := string) (c, mk_QueryCallback id b f (data_value <$> rest)))) as Hd.
  { intros c. split; [done|]. cbn. split; [|done]. split; [cbn; unfold holds; eauto|done]. }
  destruct rest as [|d rest]; cbn [fmap list_fmap].
  - destruct (bool_decide _); [done|]. apply Hd.
  - destruct (bool_decide _); cbn [negb]; [|apply Hd]. cbn [_isPrepared u_isPrepared d_isPrepared data_value].
    destruct (Bool.eqb _ _); [|done]. apply Hd.
Qed.

Definition function_values (i : nat) (v : V) : list query_action := action_value <$> functions i v.
Hypothesis functions_wf : ∀ i v, Forall wf_action (functions i v).

Definition same_invoke (vec0 : list qobject) (r : bool * qobject * list qobject * world V)
    (r' : bool * QueryCallback * world V * list QueryCallback) : Prop :=
  let '(c, q, vec, w) := r in
  let '(c', a, w', new) := r' in
  c = c' ∧ (wf_query q ∧ query_value q = a) ∧ (Forall wf_query vec ∧ query_value <$> vec = (query_value <$> vec0) ++ new) ∧ w = w'.

Lemma invoke_same q vec w : wf_query q → Forall wf_query vec →
  same (same_invoke vec) (query_InvokeIfReady functions moved grow q vec w)
    (QueryCallback_InvokeIfReady function_values (query_value q) w).
Proof.
  intros Hq Hv. pose proof Hq as (id & b & f & l & -> & Hl)%wf_query_inv.
  rewrite query_value_eq. unfold query_InvokeIfReady, QueryCallback_InvokeIfReady. cbn [q_callbacks _callbacks].
  destruct Hl as [|front rest Hfront Hrest]; cbn [fmap list_fmap]; [done|].
  cbn [q_future is_prepared u_isPrepared store read_member qc_future member_value]. rewrite eqb_reflx.
  cbn [mbind outcome_bind]. destruct (is_ready f w).
  2: { unfold same, same_invoke. rewrite app_nil_r. auto. }
  destruct Hfront as (b' & i & Hd). unfold holds in Hd. subst front. cbn [with_future q_future u_isPrepared q_callbacks is_prepared store read_member].
  cbn [set_future _isPrepared data_value u_isPrepared member_value store default d_isPrepared d_callback].
  replace (Bool.eqb b b') with (Bool.eqb b' b) by (by destruct b, b'). destruct (Bool.eqb b' b) eqn:Eb; cbn [negb mbind outcome_bind]; [|done].
  destruct (future_get f w) as [v|e|c]; cbn [mbind outcome_bind]; [|done..].
  eapply same_bind.
  - unfold function_values. apply (same_ofold (running_with vec) action_value wf_action).
    + intros st st' a. apply act_same.
    + apply functions_wf.
    + split; [|by rewrite app_nil_r]. apply eqb_prop in Eb as ->. cbn. unfold running, holds. eauto 12.
  - intros [q1 vec1] [a1 new1] [Hr [Hv1 Hn1]]. eapply same_bind; [by apply check_same|].
    intros [c q2] [c' a2] (Hc & Hq2 & Ha2). cbn in *. by subst.
Qed.

(** What [remove_if] has done with a vector: what it keeps, then the gap. *)
Definition same_removed (kept0 vec0 : list qobject) (r : nat * list qobject * list qobject * world V)
    (r' : list QueryCallback * list QueryCallback * list QueryCallback * world V) : Prop :=
  let '(result, l, vec, w) := r in
  let '(kept, added, _, w') := r' in
  (∃ front gap, l = front ++ gap ∧ length front = result ∧ Forall wf_query (front ++ gap) ∧
     query_value <$> front = (query_value <$> kept0) ++ kept) ∧
  (Forall wf_query vec ∧ query_value <$> vec = (query_value <$> vec0) ++ added) ∧ w = w'.

Lemma insert_after {A : Type} (l1 l2 : list A) x y n : n = length l1 → <[n := y]> (l1 ++ x :: l2) = l1 ++ y :: l2.
Proof. intros ->. by rewrite insert_app_r_alt, Nat.sub_diag by lia. Qed.

#[local] Existing Instance AsyncCallback_query.

Lemma remove_if_same todo front gap vec w :
  Forall wf_query todo → Forall wf_query (front ++ gap) → Forall wf_query vec →
  same (same_removed front vec)
    (remove_if functions moved grow (length todo) (length (front ++ gap)) (length front) ((front ++ gap) ++ todo) vec w)
    (remove_ready (H := AsyncCallback_query function_values) (query_value <$> todo) w).
Proof.
  intros Htodo. revert front gap vec w. induction Htodo as [|q todo Hq Htodo IH]; intros front gap vec w Hfg Hv.
  { cbn. split; [|by rewrite app_nil_r]. exists front, gap. by rewrite !app_nil_r. }
  cbn [remove_if length remove_ready fmap list_fmap]. rewrite list_lookup_middle by done.
  eapply same_bind; [by apply invoke_same|].
  intros [[[c q1] vec1] w1] [[[c' a1] w1'] new] (-> & [Hq1 <-] & [Hv1 Hn1] & ->).
  rewrite insert_after by done.
  destruct c'.
  - specialize (IH front (gap ++ [q1]) vec1 w1'). rewrite !app_assoc, <- (app_assoc _ [q1]), length_app in IH.
    cbn [app length] in IH. rewrite Nat.add_1_r in IH.
    eapply same_post; [apply IH; [by apply Forall_app; auto|done]|].
    intros [[[r l] vec2] w2] [[[kept added] completed] w2'] (Hk & [Hv2 Hn2] & ->). eexists. split; [done|].
    split; [done|]. rewrite Hn2, Hn1, <- app_assoc. done.
  - destruct gap as [|g gap].
    + rewrite app_nil_r, Nat.eqb_refl in *. specialize (IH (front ++ [q1]) [] vec1 w1').
      rewrite app_nil_r, length_app, <- app_assoc, Nat.add_1_r in IH. cbn [app] in IH.
      eapply same_post; [apply IH; [by apply Forall_app; auto|done]|].
      intros [[[r l] vec2] w2] [[[kept added] completed] w2'] (Hk & [Hv2 Hn2] & ->). eexists. split; [done|].
      split; [|by rewrite Hn2, Hn1, <- app_assoc]. destruct Hk as (f2 & g2 & ? & ? & ? & Hf2).
      exists f2, g2. split_and!; [done..|]. by rewrite Hf2, fmap_app, <- app_assoc.
    + rewrite (proj2 (Nat.eqb_neq _ _)) by (rewrite length_app; cbn; lia).
      rewrite <- app_assoc. cbn [app]. rewrite list_lookup_middle by done.
      assert (wf_query g) as Hg by (apply Forall_app in Hfg as [_ Hfg]; by inversion Hfg).
      destruct (query_move_assign_ok g q1 Hg Hq1) as (y & -> & Hy). cbn [mbind outcome_bind].
      specialize (IH (front ++ [q1]) (gap ++ [y]) vec1 w1').
      replace (<[length front := q1]> (<[length (front ++ g :: gap) := y]> (front ++ g :: gap ++ q1 :: todo)))
        with (((front ++ [q1]) ++ gap ++ [y]) ++ todo).
      2: { rewrite (app_comm_cons gap), (app_assoc front), insert_after, <- !app_assoc by done. cbn [app].
           by rewrite insert_after. }
      replace (S (length (front ++ g :: gap))) with (length ((front ++ [q1]) ++ gap ++ [y]))
        by (rewrite !length_app; cbn; lia).
      replace (S (length front)) with (length (front ++ [q1])) by (rewrite length_app; cbn; lia).
      eapply same_post; [apply IH; [|done]|].
      * apply Forall_app in Hfg as [Hf Hfg]. inversion Hfg; subst. rewrite !Forall_app. auto.
      * intros [[[r l] vec2] w2] [[[kept added] completed] w2'] (Hk & [Hv2 Hn2] & ->). eexists. split; [done|].
        split; [|by rewrite Hn2, Hn1, <- app_assoc]. destruct Hk as (f2 & g2 & ? & ? & ? & Hf2).
        exists f2, g2. split_and!; [done..|]. by rewrite Hf2, fmap_app, <- app_assoc.
Qed.
End MemoryLemmas.

(** Objects as the program makes them: a constructor, then callbacks. *)
Lemma new_query_ok id prepared result : ∃ q, new_query id prepared result = Done q ∧ wf_query q ∧
  query_value q = (if prepared then QueryCallback_prepared id result else QueryCallback_string id result).
Proof.
  unfold new_query. cbn. eexists. split; [done|]. split; [split; [cbn; unfold holds; eauto|constructor]|].
  by destruct prepared.
Qed.

Lemma chain_same q prepared cb : wf_query q →
  same (λ q' a, wf_query q' ∧ query_value q' = a) (chain prepared cb q)
    (if prepared then WithChainingPreparedCallback cb (query_value q) else WithChainingCallback cb (query_value q)).
Proof.
  intros (id & b & f & l & -> & Hl)%wf_query_inv. rewrite query_value_eq. unfold chain.
  assert (∀ b' i, wf_query (mk_qobject id (mk_union (Member b f) b) (l ++ [mk_union (Member b' (Some i)) b']))) as Hw.
  { intros b' i. split; [cbn; unfold holds; eauto|]. apply Forall_app. split; [done|]. constructor; [|constructor].
    unfold wf_data, holds. eauto. }
  destruct prepared; unfold WithChainingPreparedCallback, WithChainingCallback;
    cbn [q_callbacks is_prepared q_future u_isPrepared _callbacks _isPrepared]; destruct l as [|d l], b;
    cbn [is_nil fmap list_fmap negb orb Bool.eqb assert mbind outcome_bind]; try done;
    (split; [apply Hw|]); unfold query_value, with_callbacks; cbn; rewrite ?fmap_app; done.
Qed.

(** ** Properties *)

(** C17 The processor over memory does what the processor of Callbacks.v does: on
    live objects, for any policy of growth and whatever a moved std::function
    is, it returns, throws or fails as that does, with objects that are live and
    have the values of its callbacks.  So no member of a union is read, moved
    from, assigned to or destroyed when it is not active, none is constructed
    over another, and the gaps remove_if leaves are destroyed once. *)
Theorem processor_memory_refines {V : Type} (functions : nat → V → list qaction) (moved : function → function)
    (grow : nat → bool) (callbacks : list qobject) (w : world V) :
  (∀ i v, Forall wf_action (functions i v)) → Forall wf_query callbacks →
  same (λ '(l, w') '(l', _, _, w''), (Forall wf_query l ∧ query_value <$> l = l') ∧ w' = w'')
    (ProcessReadyCallbacks_memory functions moved grow callbacks w)
    (ProcessReadyCallbacks (H := AsyncCallback_query (function_values functions)) (query_value <$> callbacks) w) ∧
  ∀ query, wf_query query → ∃ l y, emplace_back grow query callbacks = Done (l, y) ∧ wf_query y ∧ Forall wf_query l ∧
    query_value <$> l = AddCallback (query_value query) (query_value <$> callbacks).
Proof.
  intros Hfun Hcb. split.
  - destruct callbacks as [|q callbacks]; [done|]. unfold ProcessReadyCallbacks_memory, ProcessReadyCallbacks.
    pose proof (remove_if_same functions moved grow Hfun (q :: callbacks) [] [] [] w Hcb) as Hr.
    cbn [app length] in Hr |- *. cbn [fmap list_fmap] in Hr |- *.
    eapply same_bind; [apply Hr; constructor|].
    intros [[[r l] vec] w1] [[[kept added] completed] w2] ((front & gap & -> & <- & Hfg & Hf) & [Hv Ha] & ->).
    cbn in Hf, Ha. apply Forall_app in Hfg as [Hfront Hgap].
    rewrite drop_app_length, take_app_length, destroy_queries_ok by done. cbn [mbind outcome_bind].
    unfold insert_moved. rewrite reserve_ok by done. cbn [mbind outcome_bind].
    destruct (move_all_ok front Hfront) as (ys & -> & Hys). cbn [mbind outcome_bind].
    rewrite destroy_queries_ok by done. cbn. split; [|done]. rewrite Forall_app, fmap_app, Hf, Ha. auto.
  - intros query Hq. destruct (emplace_back_ok grow query callbacks Hcb Hq) as (y & -> & Hy).
    eexists _, y. split; [done|]. split; [done|]. unfold AddCallback. rewrite Forall_app, fmap_app. auto.
Qed.

(** Two queries, of which the first one is answered: its callback chains a
    second query and adds a third one, and the vectors grow every time. *)
Definition ex_object (id : nat) (prepared : bool) (f : future) (cbs : list (bool * nat)) : qobject :=
  mk_qobject id (mk_union (Member prepared f) prepared) ((λ '(b, i), mk_union (Member b (Some i)) b) <$> cbs).
Definition ex_actions (i v : nat) : list qaction :=
  match i with
  | 10 => [QSetNextQuery (ex_object 7 true (Some 2) []); QAddCallback (ex_object 8 false (Some 2) [(false, 12)])]
  | _ => []
  end.
Definition ex_answers : world nat := mk_world {[ 1 := FReady 42; 2 := FPending ]} [].
Definition ex_vector : list qobject :=
  [ex_object 3 false (Some 1) [(false, 11)]; ex_object 5 true (Some 1) [(true, 10); (true, 11)];
   ex_object 6 true (Some 2) [(true, 11)]].

Lemma ex_object_wf id prepared f cbs : wf_query (ex_object id prepared f cbs).
Proof.
  split; [cbn; unfold holds; eauto|]. cbn. apply Forall_fmap, Forall_true. intros [b i]. cbn. unfold wf_data, holds. eauto.
Qed.

Lemma processor_memory_refines_witness :
  Forall wf_query ex_vector ∧
  ∃ l w, ProcessReadyCallbacks_memory ex_actions (λ _, Some 99) (λ _, true) ex_vector ex_answers = Done (l, w) ∧
    (qc_id <$> (query_value <$> l)) = [8; 5; 6] ∧ invoked w = [(11, 42); (10, 42)].
Proof.
  assert (Forall wf_query ex_vector) as Hv by (repeat first [apply ex_object_wf|constructor]).
  split; [exact Hv|].
  assert (∀ i v, Forall wf_action (ex_actions i v)) as Hf.
  { intros i v. unfold ex_actions. do 11 (destruct i as [|i]; [first [by constructor|repeat first [apply ex_object_wf|constructor]]|]).
    constructor. }
  destruct (processor_memory_refines ex_actions (λ _, Some 99) (λ _, true) ex_vector ex_answers Hf Hv) as [Hs _].
  destruct (ProcessReadyCallbacks_memory _ _ _ _ _) as [[l w]|e|c] eqn:E; [|vm_compute in E; discriminate..].
  exists l, w. split; [done|]. vm_compute in E. injection E as <- <-. split; reflexivity.
Defined.
