(* ===== verification/Pipeline.v ===== *)
(** * An asynchronous query, from the call to its callback

    The composition of the queue and its threads (PCQueue.v) with the processor of
    callbacks (Callbacks.v): DatabaseWorkerPool::AsyncQuery makes a task with a
    promise, pushes it, and returns a [QueryCallback] with the future; a worker
    thread pops the task, executes it on its connection and sets the promise; the
    main loop runs the callbacks whose futures are ready.

    - Every step is one of PCQueue's, which are the critical sections of the
      queue's lock, or one call.  AddCallback returns a reference into the vector
      of the processor; the WithCallback or WithPreparedCallback on it is a step
      of its own, and the vector may change in between: then the reference is not
      valid any more.  The calls themselves do not overlap in time: the code has
      no lock that sees to it, while the bot's handlers call AddCallback on other
      threads than the main loop's (Discord.v).
    - A [serialised] run is one in which no pass of the main loop and no other
      addition falls between an AddCallback and its hand-over.  Safety is shown
      for every run, up to its first undefined behaviour; that there is none, and
      that every callback is called, for serialised runs; without that,
      [unserialised_pass_crashes] and [unserialised_addition_dangles].
    - [execute] is what the database answers to a request and the database after
      it; the callbacks do not add callbacks themselves (none of the program's
      does).
    - [ProcessReadyCallbacks] throws when a promise was broken; nothing catches
      that, so there is no step for it. *)
From S2P Require Import Prelude PCQueue Callbacks.

(** A task and the shared state of its promise; [None]: [_hasResult] is false. *)
Record task (R : Type) := mk_task { t_request : R; t_result : option nat }.
Arguments mk_task {R} t_request t_result.
Arguments t_request {R} t.
Arguments t_result {R} t.

Section Pipeline.
Context {R V DB : Type} (execute : R → DB → V * DB).

Record pipeline := mk_pipeline {
  net : PCQueue.sys (T := task R);
  db : DB;
  wld : world V;
  next : nat;                         (* the next shared state *)
  held : list QueryCallback;          (* returned by AsyncQuery *)
  waiting : list QueryCallback;       (* in the processor *)
  handed : gmap nat nat;              (* the callback of each query *)
  log : list (task R * V);            (* what was executed, with the answers *)
  refs : list bool;                   (* returned by AddCallback; are they still valid? *)
}.

Definition pipeline_new (d : DB) : pipeline := mk_pipeline PCQueue.sys_new d (mk_world ∅ []) 0 [] [] ∅ [] [].

Definition with_net (n : PCQueue.sys (T := task R)) (s : pipeline) : pipeline :=
  mk_pipeline n (db s) (wld s) (next s) (held s) (waiting s) (handed s) (log s) (refs s).
Definition with_futures (f : gmap nat (fstate V)) (s : pipeline) : pipeline :=
  mk_pipeline (net s) (db s) (mk_world f (invoked (wld s))) (next s) (held s) (waiting s) (handed s) (log s) (refs s).

(** [AsyncQuery]: the promise, the push (which wakes [who]), the callback object. *)
Definition AsyncQuery (prepared : bool) (request : R) (who : option nat) (s : pipeline) : option pipeline :=
  let f := next s in
  n ← PCQueue.fire (PCQueue.LPush (mk_task request (Some f)) who) (net s);
  let q := if prepared then QueryCallback_prepared f (Some f) else QueryCallback_string f (Some f) in
  Some (mk_pipeline n (db s) (mk_world (<[f := FPending]> (futures (wld s))) (invoked (wld s))) (S f)
    (held s ++ [q]) (waiting s) (handed s) (log s) (refs s)).

(** [Execute]: a task without a result *)
Definition AsyncExecute (request : R) (who : option nat) (s : pipeline) : option pipeline :=
  n ← PCQueue.fire (PCQueue.LPush (mk_task request None) who) (net s); Some (with_net n s).

(** [AddCallback] of the [k]-th object: it moves to the end of the vector, and a
    reference to it is returned; a change of the vector may move its elements. *)
Definition AddQuery (k : nat) (s : pipeline) : option pipeline :=
  q ← held s !! k;
  Some (mk_pipeline (net s) (db s) (wld s) (next s) (delete k (held s)) (AddCallback q (waiting s))
    (handed s) (log s) (((λ _, false) <$> refs s) ++ [true])).

Definition with_callback (callback : nat) (q : QueryCallback) : outcome string QueryCallback :=
  if _isPrepared q then WithChainingPreparedCallback callback q else WithChainingCallback callback q.

(** [WithCallback] or [WithPreparedCallback] through the [j]-th reference, which is
    to the last object; through one that is not valid it is undefined. *)
Definition HandOver (j callback : nat) (s : pipeline) : outcome string pipeline :=
  match refs s !! j, last (waiting s) with
  | Some true, Some q =>
      q' ← with_callback callback q;
      Done (mk_pipeline (net s) (db s) (wld s) (next s) (held s) (removelast (waiting s) ++ [q'])
        (<[qc_id q := callback]> (handed s)) (log s) (delete j (refs s)))
  | Some _, _ => Crash "a reference to an object that was moved"
  | None, _ => Throw "no such reference"
  end.

(** [ExecuteQuery] of a task: the answer goes into the promise. *)
Definition ExecuteQuery (t : task R) (s : pipeline) : pipeline :=
  let '(v, d) := execute (t_request t) (db s) in
  let f := match t_result t with Some f => <[f := FReady v]> (futures (wld s)) | None => futures (wld s) end in
  mk_pipeline (net s) d (mk_world f (invoked (wld s))) (next s) (held s) (waiting s) (handed s) (log s ++ [(t, v)]) (refs s).

(** The deletion of a task breaks its promise. *)
Definition break_promise (t : task R) (f : gmap nat (fstate V)) : gmap nat (fstate V) :=
  match t_result t with Some i => <[i := FBroken]> f | None => f end.

(** What a step of the queue's system does beside it. *)
Definition effect (l : PCQueue.label (T := task R)) (s : pipeline) : pipeline :=
  match l with
  | PCQueue.LExecute i =>
      match PCQueue.workers (net s) !! i with
      | Some w => match PCQueue.w_phase w with PCQueue.Running t => ExecuteQuery t s | _ => s end
      | None => s
      end
  | PCQueue.LShutdown =>
      with_futures (foldr break_promise (futures (wld s)) (PCQueue._queue (PCQueue.sq (net s)))) s
  | _ => s
  end.

Definition is_push (l : PCQueue.label (T := task R)) : bool :=
  match l with PCQueue.LPush _ _ => true | _ => false end.

Definition thread (l : PCQueue.label (T := task R)) (s : pipeline) : option pipeline :=
  if is_push l then None else n ← PCQueue.fire l (net s); Some (with_net n (effect l s)).

Definition no_actions : nat → V → list query_action := λ _ _, [].

(** [ProcessReadyCallbacks] of the main loop, which moves the objects *)
Definition Update (s : pipeline) : outcome string pipeline :=
  '(callbacks, _, _, w) ← ProcessReadyCallbacks (H := AsyncCallback_query no_actions) (waiting s) (wld s);
  Done (mk_pipeline (net s) (db s) w (next s) (held s) callbacks (handed s) (log s) ((λ _, false) <$> refs s)).

Inductive call :=
| CQuery (prepared : bool) (request : R) (who : option nat)
| CExecute (request : R) (who : option nat)
| CAdd (k : nat)
| CHandOver (j callback : nat)
| CThread (l : PCQueue.label (T := task R))
| CUpdate.

Definition returned {A : Type} (o : outcome string A) : option A :=
  match o with Done a => Some a | _ => None end.

Definition perform (c : call) (s : pipeline) : option pipeline :=
  match c with
  | CQuery p r who => AsyncQuery p r who s
  | CExecute r who => AsyncExecute r who s
  | CAdd k => AddQuery k s
  | CHandOver j cb => returned (HandOver j cb s)
  | CThread l => thread l s
  | CUpdate => returned (Update s)
  end.

Definition step (s s' : pipeline) : Prop := ∃ c, perform c s = Some s'.
Definition reachable (d : DB) (s : pipeline) : Prop := rtc step (pipeline_new d) s.

(** The vector changes only while nobody holds a reference into it. *)
Definition exclusive (c : call) (s : pipeline) : bool :=
  match c with CAdd _ | CUpdate => is_nil (refs s) | _ => true end.
Definition serialised_step (s s' : pipeline) : Prop := ∃ c, exclusive c s ∧ perform c s = Some s'.
Definition serialised (d : DB) (s : pipeline) : Prop := rtc serialised_step (pipeline_new d) s.

(** The requests one after the other, as a database without threads has them. *)
Fixpoint serve (rs : list R) (d : DB) : list V * DB :=
  match rs with
  | [] => ([], d)
  | r :: rs => let '(v, d) := execute r d in let '(vs, d) := serve rs d in (v :: vs, d)
  end.

(** The answer the database gave to the query of a future. *)
Definition answer (s : pipeline) (f : nat) (v : V) : Prop := ∃ t, (t, v) ∈ log s ∧ t_result t = Some f.

(** ** Lemmas *)

(** *** What the steps of the queue's system do to its history *)
Implicit Types n : PCQueue.sys (T := task R).

Lemma fire_history l n n' : is_push l = false → PCQueue.fire l n = Some n' →
  PCQueue.pushed n' = PCQueue.pushed n ∧
  ((∃ i w t, l = PCQueue.LExecute i ∧ PCQueue.workers n !! i = Some w ∧ PCQueue.w_phase w = PCQueue.Running t ∧
      PCQueue.executed n' = PCQueue.executed n ++ [t]) ∨
   PCQueue.executed n' = PCQueue.executed n ∧ ∀ i, l ≠ PCQueue.LExecute i).
Proof.
  intros Hl Hf. destruct l as [v who| |i|i|i|i|i|i|]; cbn in Hl, Hf; [done|..];
    try apply bind_Some in Hf as (w & Hi & Hf); repeat case_match; simplify_eq; cbn; eauto.
  - unfold PCQueue.fire_acquire. case_match; auto.
  - unfold PCQueue.fire_acquire. case_match; auto.
  - unfold PCQueue.fire_loop. repeat case_match; auto.
  - split; [done|]. left. eauto 8.
Qed.

Lemma fire_push t who n n' : PCQueue.fire (PCQueue.LPush t who) n = Some n' →
  PCQueue.pushed n' = PCQueue.pushed n ++ [t] ∧ PCQueue.executed n' = PCQueue.executed n.
Proof. cbn. intros (ws & _ & [= <-])%bind_Some. done. Qed.

(** The queue holds pushed tasks that were not popped, also after [Cancel]. *)
Definition queue_fresh n : Prop := ∃ rest, PCQueue.pushed n = PCQueue.popped n ++ rest ∧ sublist (PCQueue._queue (PCQueue.sq n)) rest.

Lemma fire_fresh l n n' : PCQueue.reachable n → PCQueue.fire l n = Some n' → queue_fresh n → queue_fresh n'.
Proof.
  intros Hr%PCQueue.reachable_inv Hf (rest & Hp & Hs). unfold queue_fresh.
  assert (∀ i w, queue_fresh (PCQueue.fire_acquire i w n)) as Hacq.
  { intros i w. unfold queue_fresh, PCQueue.fire_acquire, PCQueue.WaitAndPop_cancel, PCQueue.Empty.
    destruct (PCQueue.inv_fifo _ Hr) as (rest' & Hp' & Hq).
    destruct (PCQueue._queue (PCQueue.sq n)) as [|t ts] eqn:Eq, (PCQueue._shutdown (PCQueue.sq n)) eqn:Esh, (PCQueue._cancel w);
      cbn; rewrite ?app_nil_r, ?Eq; eauto.
    rewrite Hq in Hp' by done. exists ts. by rewrite Hp', <- app_assoc. }
  destruct l as [v who| |i|i|i|i|i|i|]; cbn in Hf; try apply bind_Some in Hf as (w & Hi & Hf);
    repeat case_match; simplify_eq; cbn; try apply Hacq; eauto.
  - exists (rest ++ [v]). rewrite Hp, <- app_assoc. split; [done|]. by apply sublist_app.
  - unfold PCQueue.fire_loop. repeat case_match; cbn; eauto.
  - exists rest. split; [done|]. apply sublist_nil_l.
Qed.
Lemma fire_shutdown l n n' : PCQueue.fire l n = Some n' → PCQueue._shutdown (PCQueue.sq n') = false →
  PCQueue._shutdown (PCQueue.sq n) = false ∧ l ≠ PCQueue.LShutdown.
Proof.
  intros Hf Hs. destruct l as [v who| |i|i|i|i|i|i|]; cbn in Hf; try apply bind_Some in Hf as (w & Hi & Hf);
    repeat case_match; simplify_eq; try done.
  all: unfold PCQueue.fire_acquire, PCQueue.WaitAndPop_cancel, PCQueue.fire_loop in Hs; repeat case_match; simplify_eq; done.
Qed.

(** *** One pass of the processor over objects with one callback each *)
Definition single (f : nat) (b : bool) (cb : nat) : QueryCallback :=
  mk_QueryCallback f b (Some f) [mk_QueryCallbackData b cb].

Lemma invoke_single f b cb (w : world V) :
  QueryCallback_InvokeIfReady no_actions (single f b cb) w =
    match futures w !! f with
    | Some (FReady v) => Done (true, mk_QueryCallback f b None [], log_invoked cb v w, [])
    | Some FBroken => Throw "broken_promise"
    | _ => Done (false, single f b cb, w, [])
    end.
Proof.
  unfold QueryCallback_InvokeIfReady, single, is_ready, future_get. cbn.
  destruct (futures w !! f) as [[|v|]|]; cbn; rewrite ?eqb_reflx; done.
Qed.

(** The callback of [q] was called with the value of its future. *)
Definition called (w : world V) (q : QueryCallback) (r : nat * V) : Prop :=
  ∃ f b, q = single f b r.1 ∧ futures w !! f = Some (FReady r.2).

Lemma called_same_futures w w' q r : futures w = futures w' → called w q r → called w' q r.
Proof. unfold called. by intros ->. Qed.

Lemma remove_ready_single ws (w : world V) kept added completed w' :
  Forall (λ q, ∃ f b cb, q = single f b cb) ws →
  remove_ready (H := AsyncCallback_query no_actions) ws w = Done (kept, added, completed, w') →
  added = [] ∧ futures w' = futures w ∧ ∃ called_ results,
    invoked w' = invoked w ++ results ∧ Forall2 (called w) called_ results ∧ ws ≡ₚ called_ ++ kept.
Proof.
  intros Hws. revert w kept added completed w'.
  induction Hws as [|q ws (f & b & cb & ->) _ IH]; intros w kept added completed w'; cbn [remove_ready].
  { intros [= <- <- <- <-]. split_and!; [done..|]. exists [], []. by rewrite app_nil_r. }
  cbn [InvokeIfReady AsyncCallback_query]. rewrite invoke_single.
  assert (∀ k a c w1, remove_ready (H := AsyncCallback_query no_actions) ws w = Done (k, a, c, w1) →
    a = [] ∧ futures w1 = futures w ∧ ∃ called_ results,
    invoked w1 = invoked w ++ results ∧ Forall2 (called w) called_ results ∧
    single f b cb :: ws ≡ₚ called_ ++ single f b cb :: k) as Hstay.
  { intros k a c w1 Hk. destruct (IH _ _ _ _ _ Hk) as (-> & Hf & cs & rs & Hi & Hc & Hp).
    split_and!; [done..|]. exists cs, rs. split_and!; [done..|]. rewrite Hp. by apply Permutation_middle. }
  destruct (futures w !! f) as [[|v|]|] eqn:Ef; cbn [mbind outcome_bind]; [| |done|].
  1,3: destruct (remove_ready _ w) as [[[[k a] c] w1]| |] eqn:E; [|done..]; cbn [mbind outcome_bind app];
    intros [= <- <- <- <-]; by eapply Hstay.
  destruct (remove_ready _ (log_invoked cb v w)) as [[[[k a] c] w1]| |] eqn:E; [|done..]. cbn [mbind outcome_bind app].
  intros [= <- <- <- <-]. destruct (IH _ _ _ _ _ E) as (-> & Hf & cs & rs & Hi & Hc & Hp).
  split_and!; [done..|]. exists (single f b cb :: cs), ((cb, v) :: rs). split_and!.
  - rewrite Hi. cbn. by rewrite <- app_assoc.
  - constructor; [unfold called; eauto|]. done.
  - by rewrite Hp.
Qed.

Lemma remove_ready_all ws (w : world V) :
  Forall (λ q, ∃ f b cb v, q = single f b cb ∧ futures w !! f = Some (FReady v)) ws →
  ∃ completed w', remove_ready (H := AsyncCallback_query no_actions) ws w = Done ([], [], completed, w').
Proof.
  intros Hws. revert w Hws. induction ws as [|q ws IH]; intros w Hws; cbn [remove_ready]; [eauto|].
  apply Forall_cons in Hws as [(f & b & cb & v & -> & Hf) Hws].
  cbn [InvokeIfReady AsyncCallback_query]. rewrite invoke_single, Hf. cbn [mbind outcome_bind].
  destruct (IH (log_invoked cb v w) Hws) as (c & w' & ->). cbn. eauto.
Qed.

(** *** The invariant *)
Definition has_callback (q : QueryCallback) : bool := negb (is_nil (_callbacks q)).

Definition fut_ids (ts : list (task R)) : list nat := omap t_result ts.

Record inv (d : DB) (s : pipeline) : Prop := {
  i_net : PCQueue.reachable (net s);
  i_fresh : queue_fresh (net s);
  i_log : (log s).*1 = PCQueue.executed (net s) ∧ serve (t_request <$> (log s).*1) d = ((log s).*2, db s);
  i_ids : fut_ids (PCQueue.pushed (net s)) = seq 0 (next s);
  i_ready : ∀ f v, futures (wld s) !! f = Some (FReady v) ↔ answer s f v;
  i_broken : PCQueue._shutdown (PCQueue.sq (net s)) = false → ∀ f, futures (wld s) !! f ≠ Some FBroken;
  i_held : Forall (λ q, ∃ f b, q = mk_QueryCallback f b (Some f) []) (held s);
  i_waiting : Forall (λ q, (∃ f b cb, q = single f b cb ∧ handed s !! f = Some cb) ∨
    ∃ f b, q = mk_QueryCallback f b (Some f) []) (waiting s);
  i_refs : Forall (eq false) (refs s) ∨ ∃ old ws f b,
    refs s = old ++ [true] ∧ Forall (eq false) old ∧ waiting s = ws ++ [mk_QueryCallback f b (Some f) []];
  i_once : ∃ ids, Forall2 (λ f r, handed s !! f = Some r.1 ∧ answer s f r.2) ids (invoked (wld s)) ∧
    ids ++ (qc_id <$> waiting s) ++ (qc_id <$> held s) ≡ₚ seq 0 (next s) ∧
    ∀ f, is_Some (handed s !! f) ↔ f ∈ ids ++ (qc_id <$> List.filter has_callback (waiting s)) }.

(** The futures of the tasks that are executed and of those in the queue. *)
Lemma ids_apart d s : inv d s →
  NoDup (fut_ids (PCQueue.executed (net s)) ++ fut_ids (PCQueue._queue (PCQueue.sq (net s)))) ∧
  ∀ f, f ∈ fut_ids (PCQueue.executed (net s)) → f < next s.
Proof.
  intros [Hn (rest & Hp & Hs) _ Hids _ _ _ _ _ _]. apply PCQueue.reachable_inv in Hn.
  pose proof (PCQueue.inv_once _ Hn) as Ho.
  assert (fut_ids (PCQueue.popped (net s)) ++ fut_ids rest = seq 0 (next s)) as Hseq
    by (rewrite <- Hids, Hp; unfold fut_ids; by rewrite omap_app).
  assert (NoDup (fut_ids (PCQueue.popped (net s)) ++ fut_ids rest)) as Hnd by (rewrite Hseq; apply NoDup_seq).
  assert (fut_ids (PCQueue.popped (net s)) ≡ₚ fut_ids (PCQueue.executed (net s)) ++
    fut_ids (PCQueue.dropped (net s) ++ concat (PCQueue.inflight <$> PCQueue.workers (net s)))) as Hpop
    by (unfold fut_ids; by rewrite Ho, omap_app).
  split.
  - rewrite Hpop in Hnd. apply NoDup_app in Hnd as (Hnd1 & Hd & Hnd2). apply NoDup_app in Hnd1 as (He & _ & _).
    assert (sublist (fut_ids (PCQueue._queue (PCQueue.sq (net s)))) (fut_ids rest)) as Hsub.
    { clear -Hs. induction Hs as [|x l1 l2 _ IH|x l1 l2 _ IH]; unfold fut_ids in *; cbn; [done| |];
        destruct (t_result x); try done; by constructor. }
    apply NoDup_app. split_and!; [done| |by eapply sublist_NoDup].
    intros f Hf Hq. apply (Hd f); [set_solver|]. by eapply elem_of_submseteq, sublist_submseteq.
  - intros f Hf. assert (f ∈ seq 0 (next s)) as Hin by (rewrite <- Hseq, Hpop; set_solver).
    apply elem_of_seq in Hin. lia.
Qed.

Lemma answer_executed d s f v : inv d s → answer s f v → f ∈ fut_ids (PCQueue.executed (net s)).
Proof.
  intros Hi (t & Ht & Hf). destruct (i_log _ _ Hi) as [<- _]. unfold fut_ids. apply list_elem_of_omap.
  exists t. split; [|done]. apply list_elem_of_fmap. by exists (t, v).
Qed.
Lemma answer_lt d s f v : inv d s → answer s f v → f < next s.
Proof. intros Hi Ha. apply (ids_apart d s Hi). by eapply answer_executed. Qed.

Lemma serve_snoc rs r d : serve (rs ++ [r]) d =
  let '(vs, d1) := serve rs d in let '(v, d2) := execute r d1 in (vs ++ [v], d2).
Proof.
  revert d. induction rs as [|r0 rs IH]; intros d; cbn; [by destruct (execute r d)|].
  destruct (execute r0 d) as [v0 d0]. rewrite IH. destruct (serve rs d0) as [vs d1]. by destruct (execute r d1).
Qed.

Lemma pipeline_inv_new d : inv d (pipeline_new d).
Proof.
  split; cbn; try done.
  - apply rtc_refl.
  - exists []. done.
  - intros f v. rewrite lookup_empty. split; [done|]. intros (t & Ht & _). by apply not_elem_of_nil in Ht.
  - by left.
  - exists []. split_and!; [done..|]. intros f. rewrite lookup_empty. split; [by intros [? ?]|by intros ?%not_elem_of_nil].
Qed.

Lemma reachable_step n n' l : PCQueue.reachable n → PCQueue.fire l n = Some n' → PCQueue.reachable n'.
Proof. intros Hr Hl. eapply rtc_r; [exact Hr|]. by exists l. Qed.

Lemma Forall2_impl_left {A B : Type} (P Q : A → B → Prop) l k :
  Forall2 P l k → (∀ x y, x ∈ l → P x y → Q x y) → Forall2 Q l k.
Proof. induction 1; intros HPQ; constructor; [apply HPQ; [by left|done]|]. apply IHForall2. set_solver. Qed.

(** A promise that is made is pending, and there was no answer. *)
Lemma inv_AsyncQuery d prepared r who s s' : inv d s → AsyncQuery prepared r who s = Some s' → inv d s'.
Proof.
  intros Hi (n & Hn & [= <-])%bind_Some. pose proof Hi as [Hr Hf [Hl1 Hl2] Hids Hrd Hb Hh Hw Hrf (ids & Hc & Hp & Hd)].
  destruct (fire_push _ _ _ _ Hn) as [Hpu Hex].
  split; cbn [net db wld next held waiting handed log futures invoked].
  - by eapply reachable_step.
  - exact (fire_fresh _ _ _ Hr Hn Hf).
  - by rewrite Hex.
  - rewrite Hpu, seq_S. unfold fut_ids. rewrite omap_app. unfold fut_ids in Hids. by rewrite Hids.
  - intros f v. destruct (decide (f = next s)) as [->|Hne].
    + rewrite lookup_insert_eq. split; [done|]. intros Ha%(answer_lt d _ _ _ Hi). lia.
    + rewrite lookup_insert_ne by done. apply Hrd.
  - intros Hsh f. destruct (fire_shutdown _ _ _ Hn Hsh) as [Hs _].
    destruct (decide (f = next s)) as [->|Hne]; [by rewrite lookup_insert_eq|].
    rewrite lookup_insert_ne by done. by apply Hb.
  - apply Forall_app. split; [done|]. constructor; [|constructor]. destruct prepared; cbn; unfold QueryCallback_string, QueryCallback_prepared; eauto.
  - done.
  - done.
  - exists ids. split_and!; [done| |done]. rewrite seq_S, fmap_app, !app_assoc, <- (app_assoc ids), Hp. by destruct prepared.
Qed.

Lemma inv_AsyncExecute d r who s s' : inv d s → AsyncExecute r who s = Some s' → inv d s'.
Proof.
  intros Hi (n & Hn & [= <-])%bind_Some. pose proof Hi as [Hr Hf Hl Hids Hrd Hb Hh Hw Hrf Ho].
  destruct (fire_push _ _ _ _ Hn) as [Hpu Hex].
  split; cbn [with_net net db wld next held waiting handed log]; [..|exact Hh|exact Hw|exact Hrf|exact Ho].
  - by eapply reachable_step.
  - exact (fire_fresh _ _ _ Hr Hn Hf).
  - by rewrite Hex.
  - rewrite Hpu. unfold fut_ids in *. by rewrite omap_app, Hids, app_nil_r.
  - done.
  - intros Hsh. destruct (fire_shutdown _ _ _ Hn Hsh) as [Hs _]. auto.
Qed.

Lemma filter_callback qs : Forall has_callback qs → List.filter has_callback qs = qs.
Proof. induction 1 as [|q qs Hq _ IH]; cbn; [done|]. by rewrite (Is_true_true_1 _ Hq), IH. Qed.

Lemma inv_AddQuery d k s s' : inv d s → AddQuery k s = Some s' → inv d s'.
Proof.
  intros Hi (q & Hk & [= <-])%bind_Some. pose proof Hi as [Hr Hf Hl Hids Hrd Hb Hh Hw Hrf (ids & Hc & Hp & Hd)].
  destruct (Forall_lookup_1 _ _ _ _ Hh Hk) as (f & b & ->).
  pose proof (delete_Permutation _ _ _ Hk) as Hdel. clear Hk. set (rest := delete k (held s)) in *. clearbody rest.
  split; cbn [net db wld next held waiting handed log refs]; unfold AddCallback; try done.
  - rewrite Hdel in Hh. by apply Forall_cons in Hh as [_ Hh].
  - apply Forall_app. split; [done|]. constructor; [right; eauto|constructor].
  - right. eexists _, _, f, b. split_and!; [done| |done]. apply Forall_fmap, Forall_forall. done.
  - exists ids. split_and!; [done| |].
    + rewrite <- Hp, Hdel, fmap_app. cbn. rewrite <- !app_assoc. done.
    + intros f0. rewrite List.filter_app. cbn. by rewrite app_nil_r.
Qed.

Lemma last_snoc_inv {A : Type} (l : list A) x y : last (l ++ [x]) = Some y → x = y.
Proof. rewrite last_snoc. by intros [= ->]. Qed.

(** A valid reference is the only one, to an object without a callback. *)
Lemma valid_ref d j s : inv d s → refs s !! j = Some true →
  ∃ ws f b, waiting s = ws ++ [mk_QueryCallback f b (Some f) []] ∧ Forall (eq false) (delete j (refs s)).
Proof.
  intros Hi Hj. destruct (i_refs _ _ Hi) as [Hfalse|(old & ws & f & b & Hrefs & Hold & Hws)].
  - by apply (Forall_lookup_1 _ _ _ _ Hfalse) in Hj.
  - exists ws, f, b. split; [done|]. rewrite Hrefs in Hj |- *. destruct (decide (j < length old)) as [Hlt|Hge].
    + rewrite lookup_app_l in Hj by done. by apply (Forall_lookup_1 _ _ _ _ Hold) in Hj.
    + rewrite lookup_app_r in Hj by lia. apply list_lookup_singleton_Some in Hj as [Hj _].
      assert (j = length old) as -> by lia. by rewrite delete_middle, app_nil_r.
Qed.

Lemma inv_HandOver d j cb s s' : inv d s → HandOver j cb s = Done s' → inv d s'.
Proof.
  intros Hi Hs. pose proof Hi as [Hr Hf Hl Hids Hrd Hb Hh Hw _ (ids & Hc & Hp & Hd)]. unfold HandOver in Hs.
  destruct (refs s !! j) as [[]|] eqn:Hj; [|done..].
  destruct (valid_ref d j s Hi Hj) as (ws & f & b & Hws & Hfalse). rewrite Hws in Hs. rewrite last_snoc in Hs.
  rewrite removelast_last in Hs. rewrite Hws in Hw, Hp, Hd. apply Forall_app in Hw as [Hw _].
  assert (∀ q, q ∈ ws → qc_id q ≠ f) as Hother.
  { intros q Hq Heq. pose proof (NoDup_seq 0 (next s)) as Hnd. rewrite <- Hp in Hnd.
    apply NoDup_app in Hnd as (_ & _ & Hnd). apply NoDup_app in Hnd as (Hnd & _). rewrite fmap_app in Hnd.
    apply NoDup_app in Hnd as (_ & Hnd & _). apply (Hnd f); [|by left]. apply list_elem_of_fmap. eauto. }
  assert (f ∉ ids) as Hnew.
  { intros Hin. pose proof (NoDup_seq 0 (next s)) as Hnd. rewrite <- Hp in Hnd.
    apply NoDup_app in Hnd as (_ & Hnd & _). apply (Hnd f Hin). rewrite fmap_app. set_solver. }
  assert (Done (mk_pipeline (net s) (db s) (wld s) (next s) (held s) (ws ++ [single f b cb])
    (<[f := cb]> (handed s)) (log s) (delete j (refs s))) = Done s') as [= <-] by (rewrite <- Hs; by destruct b).
  clear Hs. split; cbn [net db wld next held waiting handed log refs]; try done.
  - apply Forall_app. split.
    + apply Forall_forall. intros q Hq. destruct (proj1 (Forall_forall _ _) Hw q Hq) as [(f0 & b0 & cb0 & -> & Hf0)|Hempty];
        [|by right]. left. exists f0, b0, cb0. split; [done|]. rewrite lookup_insert_ne; [done|].
      intros <-. by apply (Hother _ Hq).
    + constructor; [|constructor]. left. exists f, b, cb. by rewrite lookup_insert_eq.
  - by left.
  - exists ids. split_and!.
    + apply (Forall2_impl_left _ _ _ _ Hc). intros f0 r0 Hf0 [Hh0 Ha]. split; [|done].
      rewrite lookup_insert_ne; [done|]. by intros <-.
    + rewrite <- Hp, !fmap_app. done.
    + intros f0. specialize (Hd f0). rewrite List.filter_app, fmap_app in Hd |- *. cbn in Hd |- *. rewrite app_nil_r in Hd.
      rewrite elem_of_app in Hd. rewrite !elem_of_app, list_elem_of_singleton. destruct (decide (f0 = f)) as [->|Hne].
      * rewrite lookup_insert_eq. naive_solver.
      * rewrite lookup_insert_ne by done. naive_solver.
Qed.

(** A task is executed: its answer is the database's, and its promise is set. *)
Lemma inv_Execute d i s w t n : inv d s → PCQueue.workers (net s) !! i = Some w → PCQueue.w_phase w = PCQueue.Running t →
  PCQueue.fire (PCQueue.LExecute i) (net s) = Some n → inv d (with_net n (ExecuteQuery t s)).
Proof.
  intros Hi Hw Ht Hn. pose proof Hi as [Hr Hf [Hl1 Hl2] Hids Hrd Hb Hh Hwt Hrf (ids & Hc & Hp & Hd)].
  destruct (fire_history (PCQueue.LExecute i) _ _ eq_refl Hn) as [Hpu [(j & w' & t' & [= <-] & Hw' & Ht' & Hex)|[_ Hno]]]; [|by destruct (Hno i)].
  assert (t' = t) as -> by congruence. pose proof (reachable_step _ _ _ Hr Hn) as Hr'.
  unfold ExecuteQuery. destruct (execute (t_request t) (db s)) as [v d1] eqn:Eex.
  assert (∀ f v', answer (with_net n (mk_pipeline (net s) d1
      (mk_world (match t_result t with Some f => <[f:=FReady v]> (futures (wld s)) | None => futures (wld s) end) (invoked (wld s)))
      (next s) (held s) (waiting s) (handed s) (log s ++ [(t, v)]) (refs s))) f v' ↔
    answer s f v' ∨ t_result t = Some f ∧ v' = v) as Hans.
  { intros f v'. unfold answer. cbn. setoid_rewrite elem_of_app. setoid_rewrite list_elem_of_singleton. naive_solver. }
  assert (∀ f, t_result t = Some f → f ∉ fut_ids (PCQueue.executed (net s))) as Hnew.
  { intros f Hres Hin. pose proof (PCQueue.reachable_inv _ Hr') as Hn'.
    assert (NoDup (fut_ids (PCQueue.executed n))) as Hnd.
    { destruct (PCQueue.inv_fifo _ Hn') as (rest & Hpp & _). rewrite Hpu in Hpp.
      pose proof (NoDup_seq 0 (next s)) as Hnd. rewrite <- Hids, Hpp in Hnd. unfold fut_ids in Hnd.
      rewrite omap_app in Hnd. apply NoDup_app in Hnd as (Hnd & _). rewrite (PCQueue.inv_once _ Hn'), omap_app in Hnd.
      by apply NoDup_app in Hnd as (Hnd & _). }
    rewrite Hex in Hnd. unfold fut_ids in Hnd, Hin. rewrite omap_app in Hnd. apply NoDup_app in Hnd as (_ & Hnd & _).
    apply (Hnd f Hin). cbn. rewrite Hres. by left. }
  split; cbn [with_net net db wld next held waiting handed log futures invoked].
  - done.
  - exact (fire_fresh _ _ _ Hr Hn Hf).
  - rewrite !fmap_app, Hex, Hl1. split; [done|]. rewrite <- Hl1. cbn [fmap list_fmap]. rewrite serve_snoc, Hl2. cbn. by rewrite Eex.
  - by rewrite Hpu.
  - intros f v'. rewrite Hans, <- Hrd. destruct (t_result t) as [f0|] eqn:Hres; [|naive_solver].
    destruct (decide (f = f0)) as [->|Hne]; [rewrite lookup_insert_eq|rewrite lookup_insert_ne by done; naive_solver].
    split; [naive_solver|]. intros [Ha|[_ ->]]; [|done].
    apply Hrd, (answer_executed d _ _ _ Hi) in Ha. by destruct (Hnew f0 eq_refl).
  - intros Hsh f. destruct (fire_shutdown _ _ _ Hn Hsh) as [Hs _]. destruct (t_result t) as [f0|]; [|by apply Hb].
    destruct (decide (f = f0)) as [->|Hne]; [by rewrite lookup_insert_eq|]. rewrite lookup_insert_ne by done. by apply Hb.
  - done.
  - done.
  - done.
  - exists ids. split_and!; [|done..]. apply (Forall2_impl _ _ _ _ Hc). intros f r [Hf0 Ha]. split; [done|].
    apply Hans. by left.
Qed.

Lemma break_promise_lookup q (m : gmap nat (fstate V)) f :
  foldr break_promise m q !! f = if decide (f ∈ fut_ids q) then Some FBroken else m !! f.
Proof.
  unfold fut_ids. induction q as [|t q IH]; cbn; [done|]. unfold break_promise at 1.
  destruct (t_result t) as [g|]; [|done]. destruct (decide (f = g)) as [->|Hne].
  - rewrite lookup_insert_eq, decide_True by (by left). done.
  - rewrite lookup_insert_ne, IH by done. repeat case_decide; set_solver.
Qed.

(** The steps that set no promise. *)
Lemma inv_other d l s n : inv d s → is_push l = false → (∀ i, l ≠ PCQueue.LExecute i) →
  PCQueue.fire l (net s) = Some n → inv d (with_net n (effect l s)).
Proof.
  intros Hi Hl Hno Hn. pose proof Hi as [Hr Hf Hlog Hids Hrd Hb Hh Hw Hrf Ho].
  destruct (fire_history _ _ _ Hl Hn) as [Hpu [(j & w' & t' & -> & _)|[Hex _]]]; [by destruct (Hno j)|].
  assert (l = PCQueue.LShutdown ∨ l ≠ PCQueue.LShutdown) as [->|Hns] by (destruct l; eauto).
  - cbn [effect with_futures]. split; cbn [with_net with_futures net db wld next held waiting handed log futures invoked].
    + by eapply reachable_step.
    + exact (fire_fresh _ _ _ Hr Hn Hf).
    + by rewrite Hex.
    + by rewrite Hpu.
    + intros f v. rewrite break_promise_lookup. case_decide as Hin; [|apply Hrd]. split; [done|].
      intros Ha%(answer_executed d _ _ _ Hi). destruct (ids_apart d s Hi) as [Hnd _].
      apply NoDup_app in Hnd as (_ & Hnd & _). by destruct (Hnd f Ha).
    + intros Hsh. destruct (fire_shutdown _ _ _ Hn Hsh) as [_ Hs]. done.
    + done.
    + done.
    + exact Hrf.
    + exact Ho.
  - assert (effect l s = s) as -> by (destruct l as [| | | | |i| | |]; try done; by destruct (Hno i)).
    split; cbn [with_net net db wld next held waiting handed log]; [..|exact Hh|exact Hw|exact Hrf|exact Ho].
    + by eapply reachable_step.
    + exact (fire_fresh _ _ _ Hr Hn Hf).
    + by rewrite Hex.
    + by rewrite Hpu.
    + exact Hrd.
    + intros Hsh. destruct (fire_shutdown _ _ _ Hn Hsh) as [Hs _]. auto.
Qed.

Lemma inv_thread d l s s' : inv d s → thread l s = Some s' → inv d s'.
Proof.
  intros Hi Ht. unfold thread in Ht. destruct (is_push l) eqn:Hl; [done|]. apply bind_Some in Ht as (n & Hn & [= <-]).
  assert ((∃ i, l = PCQueue.LExecute i) ∨ ∀ i, l ≠ PCQueue.LExecute i) as [[i ->]|Hno] by (destruct l; eauto).
  - cbn [effect]. pose proof Hn as Hn'. cbn in Hn. apply bind_Some in Hn as (w & Hw & Hn). rewrite Hw.
    destruct (PCQueue.w_phase w) eqn:Hph; try done. by eapply inv_Execute.
  - by apply inv_other.
Qed.

Lemma called_single d s qs rs : inv d s → Forall has_callback (waiting s) → (∀ q, q ∈ qs → q ∈ waiting s) → Forall2 (called (wld s)) qs rs →
  Forall2 (λ f r, handed s !! f = Some r.1 ∧ answer s f r.2) (qc_id <$> qs) rs.
Proof.
  intros Hi Hcb Hin Hc. induction Hc as [|q r qs rs (f & b & -> & Hf) _ IH]; cbn; constructor.
  - split; [|by apply (i_ready _ _ Hi)].
    destruct (proj1 (Forall_forall _ _) (i_waiting _ _ Hi) (single f b r.1)) as [(f' & b' & cb & Heq & Hh)|(f' & b' & Heq)];
      [set_solver| |done].
    unfold single in Heq. by simplify_eq.
  - apply IH. set_solver.
Qed.

(** A pass that returns met no object without a callback. *)
Lemma remove_ready_callbacks ws (w : world V) r :
  remove_ready (H := AsyncCallback_query no_actions) ws w = Done r → Forall has_callback ws.
Proof.
  revert w r. induction ws as [|q ws IH]; intros w r; cbn [remove_ready]; [constructor|].
  cbn [InvokeIfReady AsyncCallback_query]. intros Hr. constructor.
  - unfold has_callback, QueryCallback_InvokeIfReady in *. by destruct (_callbacks q).
  - destruct (QueryCallback_InvokeIfReady _ _ _) as [[[[c q'] w1] new]| |]; [|done..]. cbn [mbind outcome_bind] in Hr.
    destruct (remove_ready _ _) as [[[[k a] c1] w2]| |] eqn:E; [|done..]. by eapply IH.
Qed.

Lemma waiting_single d s : inv d s → Forall has_callback (waiting s) →
  Forall (λ q, ∃ f b cb, q = single f b cb ∧ handed s !! f = Some cb) (waiting s).
Proof.
  intros Hi Hcb. apply Forall_forall. intros q Hq.
  destruct (proj1 (Forall_forall _ _) (i_waiting _ _ Hi) q Hq) as [Hs|(f & b & ->)]; [done|].
  by destruct (proj1 (Forall_forall _ _) Hcb _ Hq).
Qed.

Lemma inv_Update d s s' : inv d s → Update s = Done s' → inv d s'.
Proof.
  intros Hi Hu. pose proof Hi as [Hr Hf Hl Hids Hrd Hb Hh Hw Hrf (ids & Hc & Hp & Hd)].
  assert (Forall (eq false) ((λ _, false) <$> refs s)) as Hno by (by apply Forall_fmap, Forall_forall).
  unfold Update, ProcessReadyCallbacks in Hu. destruct (waiting s) as [|q ws] eqn:Ews.
  { injection Hu as <-. split; cbn [net db wld next held waiting handed log refs]; try done; [by left|by exists ids]. }
  rewrite <- Ews in *.
  destruct (remove_ready (waiting s) (wld s)) as [[[[kept added] completed] w]| |] eqn:E; [|done..].
  cbn [mbind outcome_bind] in Hu. injection Hu as <-. pose proof (remove_ready_callbacks _ _ _ E) as Hcb.
  pose proof (waiting_single d s Hi Hcb) as Hsingle. rewrite filter_callback in Hd by done.
  destruct (remove_ready_single _ _ _ _ _ _ ltac:(eapply Forall_impl; [exact Hsingle|naive_solver]) E)
    as (-> & Hfut & cs & rs & Hinv & Hcs & Hperm).
  assert (∀ q, q ∈ cs → q ∈ waiting s) as Hin by (intros q0 Hq; rewrite Hperm; set_solver).
  pose proof (called_single d s cs rs Hi Hcb Hin Hcs) as Hcalled.
  split; cbn [net db wld next held waiting handed log refs app]; try done.
  - by rewrite Hfut.
  - by rewrite Hfut.
  - rewrite Hperm in Hw. by apply Forall_app in Hw as [_ Hw].
  - by left.
  - exists (ids ++ (qc_id <$> cs)). rewrite Hinv. split_and!.
    + by apply Forall2_app.
    + rewrite <- Hp, Hperm, fmap_app, <- !app_assoc. done.
    + intros f. rewrite filter_callback by (rewrite Hperm in Hcb; by apply Forall_app in Hcb as [_ Hcb]).
      rewrite Hd, Hperm, fmap_app. set_solver.
Qed.

Lemma returned_Some {A : Type} (o : outcome string A) a : returned o = Some a → o = Done a.
Proof. destruct o; cbn; congruence. Qed.

Lemma inv_perform d c s s' : inv d s → perform c s = Some s' → inv d s'.
Proof.
  intros Hi Hc. destruct c; cbn in Hc; [by eapply inv_AsyncQuery|by eapply inv_AsyncExecute|by eapply inv_AddQuery| | |].
  - eapply inv_HandOver; [exact Hi|by apply returned_Some].
  - by eapply inv_thread.
  - eapply inv_Update; [exact Hi|by apply returned_Some].
Qed.

Lemma pipeline_reachable_inv d s : reachable d s → inv d s.
Proof.
  intros Hr. refine (rtc_preserves step (inv d) _ _ _ Hr (pipeline_inv_new d)). intros s1 s2 [c Hc] Hi.
  by eapply inv_perform.
Qed.

(** *** Serialised runs *)
Lemma serialised_reachable d s : serialised d s → reachable d s.
Proof. apply rtc_subrel. intros s1 s2 (c & _ & Hc). by exists c. Qed.

(** While a reference is held, it is valid, and only its object has no callback. *)
Definition tidy (s : pipeline) : Prop :=
  refs s = [] ∧ Forall has_callback (waiting s) ∨
  refs s = [true] ∧ ∃ ws q, waiting s = ws ++ [q] ∧ Forall has_callback ws.

Lemma Update_callbacks d s s' : inv d s → Update s = Done s' → Forall has_callback (waiting s').
Proof.
  intros Hi Hu. unfold Update, ProcessReadyCallbacks in Hu. destruct (waiting s) as [|q ws] eqn:Ews; [by injection Hu as <-|].
  rewrite <- Ews in *. destruct (remove_ready (waiting s) (wld s)) as [[[[kept added] completed] w]| |] eqn:E; [|done..].
  injection Hu as <-. pose proof (remove_ready_callbacks _ _ _ E) as Hcb.
  destruct (remove_ready_single _ _ _ _ _ _ ltac:(eapply Forall_impl; [by apply (waiting_single d s)|naive_solver]) E)
    as (-> & _ & cs & rs & _ & _ & Hperm).
  cbn. rewrite Hperm in Hcb. by apply Forall_app in Hcb as [_ Hcb].
Qed.

Lemma thread_waiting l s s' : thread l s = Some s' → waiting s' = waiting s ∧ refs s' = refs s.
Proof.
  unfold thread. destruct (is_push l); [done|]. intros (n & _ & [= <-])%bind_Some.
  destruct l; cbn; try done. repeat case_match; try done. unfold ExecuteQuery. by destruct (execute _ _).
Qed.

Lemma tidy_step d s s' : inv d s → tidy s → serialised_step s s' → tidy s'.
Proof.
  intros Hi Ht (c & Hex & Hc). destruct c as [p r who|r who|k|j cb|l|]; cbn in Hex, Hc.
  - by apply bind_Some in Hc as (n & _ & [= <-]).
  - by apply bind_Some in Hc as (n & _ & [= <-]).
  - apply bind_Some in Hc as (q & _ & [= <-]). destruct Ht as [[Hr Hcb]|[Hr _]]; [|by rewrite Hr in Hex].
    right. cbn. rewrite Hr. split; [done|]. by exists (waiting s), q.
  - apply returned_Some in Hc. unfold HandOver in Hc. destruct (refs s !! j) as [[]|] eqn:Hj; [|done..].
    destruct (valid_ref d j s Hi Hj) as (ws & f & b & Hws & _). rewrite Hws, last_snoc, removelast_last in Hc.
    destruct Ht as [[Hr _]|[Hr (ws' & q' & Hws' & Hcb)]]; rewrite Hr in Hj; [done|].
    apply list_lookup_singleton_Some in Hj as [-> _]. rewrite Hws in Hws'. apply app_inj_tail in Hws' as [<- _].
    left. destruct (with_callback _ _) as [q''| |] eqn:Hq; [|done..]. injection Hc as <-. cbn. rewrite Hr. split; [done|].
    apply Forall_app. split; [done|]. constructor; [|constructor]. unfold with_callback in Hq. cbn in Hq.
    destruct b; by injection Hq as <-.
  - destruct (thread_waiting _ _ _ Hc) as [Hw Hr]. unfold tidy. by rewrite Hw, Hr.
  - apply returned_Some in Hc. left. split; [|by eapply Update_callbacks].
    unfold Update in Hc. destruct (ProcessReadyCallbacks _ _) as [[[[cs ?] ?] w]| |]; [|done..]. injection Hc as <-.
    cbn. by destruct (refs s).
Qed.

Lemma serialised_tidy d s : serialised d s → inv d s ∧ tidy s.
Proof.
  intros Hr. refine (rtc_preserves serialised_step (λ s, inv d s ∧ tidy s) _ _ _ Hr _).
  - intros s1 s2 Hs [Hi Ht]. split; [|by eapply tidy_step]. destruct Hs as (c & _ & Hc). by eapply inv_perform.
  - split; [apply pipeline_inv_new|]. by left.
Qed.

Lemma remove_ready_open ws (w : world V) :
  Forall (λ q, ∃ f b cb, q = single f b cb) ws → (∀ f, futures w !! f ≠ Some FBroken) →
  ∃ r, remove_ready (H := AsyncCallback_query no_actions) ws w = Done r.
Proof.
  intros Hws. revert w. induction Hws as [|q ws (f & b & cb & ->) _ IH]; intros w Hw; cbn [remove_ready]; [eauto|].
  cbn [InvokeIfReady AsyncCallback_query]. rewrite invoke_single.
  destruct (futures w !! f) as [[|v|]|] eqn:Ef; [| |by destruct (Hw f)|]; cbn [mbind outcome_bind].
  - destruct (IH w Hw) as [[[[? ?] ?] ?] ->]. eauto.
  - destruct (IH (log_invoked cb v w)) as [[[[? ?] ?] ?] ->]; [done|]. eauto.
  - destruct (IH w Hw) as [[[[? ?] ?] ?] ->]. eauto.
Qed.

(** In a serialised run a hand-over succeeds, and so does a pass over an open pool. *)
Lemma hand_over_succeeds d s j cb : serialised d s → j < length (refs s) → ∃ s', HandOver j cb s = Done s'.
Proof.
  intros [Hi [[Hr _]|[Hr _]]]%serialised_tidy Hj; rewrite Hr in Hj; cbn in Hj; [lia|].
  assert (refs s !! j = Some true) as Hjt by (rewrite Hr; destruct j; [done|lia]).
  destruct (valid_ref d j s Hi Hjt) as (ws & f & b & Hws & _). unfold HandOver. rewrite Hjt, Hws, last_snoc.
  destruct b; cbn; eauto.
Qed.

Lemma pass_succeeds d s : serialised d s → refs s = [] → PCQueue._shutdown (PCQueue.sq (net s)) = false →
  ∃ s', Update s = Done s'.
Proof.
  intros [Hi [[_ Hcb]|[Hr' _]]]%serialised_tidy Hr Hsh; [|by rewrite Hr in Hr'].
  unfold Update, ProcessReadyCallbacks. destruct (waiting s) as [|q ws] eqn:Ews; [cbn; eauto|]. rewrite <- Ews in *.
  destruct (remove_ready_open (waiting s) (wld s)) as [[[[? ?] ?] ?] ->]; [| |cbn; eauto].
  - eapply Forall_impl; [by apply (waiting_single d s)|naive_solver].
  - by apply (i_broken _ _ Hi).
Qed.

(** *** The threads come to an end of their work *)
Definition own_step (s s' : pipeline) : Prop :=
  ∃ i l, (l = PCQueue.LAcquire i ∨ l = PCQueue.LLoop i ∨ l = PCQueue.LExecute i) ∧ thread l s = Some s'.
Definition asleep (s : pipeline) : Prop := ∀ s', ¬ own_step s s'.

(** A worker that goes on, or one whose destruction is over. *)
Definition settled (w : PCQueue.worker (T := task R)) : Prop :=
  PCQueue._cancel w = false ∧ PCQueue.w_phase w ≠ PCQueue.Finished ∨
  PCQueue._cancel w = true ∧ PCQueue.w_notified w = true ∧ PCQueue.w_phase w = PCQueue.Finished.

(** The pool is open, no task was lost in the destruction of a worker, and a
    worker goes on. *)
Definition serving n : Prop :=
  PCQueue._shutdown (PCQueue.sq n) = false ∧ PCQueue.dropped n = [] ∧ Forall settled (PCQueue.workers n) ∧
  ∃ w, w ∈ PCQueue.workers n ∧ PCQueue._cancel w = false.

Definition phase_work (w : PCQueue.worker (T := task R)) : nat :=
  match PCQueue.w_phase w with
  | PCQueue.Returned _ => 3 | PCQueue.Running _ => 2 | PCQueue.Idle | PCQueue.Woken => 1
  | PCQueue.Waiting | PCQueue.Finished => 0
  end.
Definition work n : nat := 4 * length (PCQueue._queue (PCQueue.sq n)) + sum_list_with phase_work (PCQueue.workers n).

Lemma serving_insert n q i w p po ex dr :
  serving n → PCQueue.workers n !! i = Some w → PCQueue.w_phase w ≠ PCQueue.Finished → p ≠ PCQueue.Finished →
  PCQueue._shutdown q = false → dr = [] →
  serving (PCQueue.mk_sys q (<[i := PCQueue.set_phase p w]> (PCQueue.workers n)) (PCQueue.pushed n) po ex dr) ∧
  (4 * length (PCQueue._queue q) + phase_work (PCQueue.set_phase p w) <
     4 * length (PCQueue._queue (PCQueue.sq n)) + phase_work w →
   work (PCQueue.mk_sys q (<[i := PCQueue.set_phase p w]> (PCQueue.workers n)) (PCQueue.pushed n) po ex dr) < work n).
Proof.
  intros (_ & _ & Hset & v & Hv & Hvc) Hi Hw Hp Hq ->.
  assert (PCQueue._cancel w = false) as Hc.
  { destruct (Forall_lookup_1 _ _ _ _ Hset Hi) as [[? _]|(_ & _ & ?)]; [done|by destruct Hw]. }
  split.
  - split_and!; cbn; [done..| |].
    + apply Forall_insert; [done|]. by left.
    + exists (PCQueue.set_phase p w). split; [|done]. apply list_elem_of_lookup. exists i.
      apply list_lookup_insert_eq. by eapply lookup_lt_Some.
  - intros Hlt. unfold work. cbn.
    pose proof (sum_list_with_insert phase_work (PCQueue.workers n) i w (PCQueue.set_phase p w) Hi). lia.
Qed.

Lemma own_step_serving i l n n' : (l = PCQueue.LAcquire i ∨ l = PCQueue.LLoop i ∨ l = PCQueue.LExecute i) →
  PCQueue.fire l n = Some n' → serving n → serving n' ∧ work n' < work n.
Proof.
  intros Hl Hf Hs. pose proof Hs as (Hsh & Hdr & Hset & _).
  destruct Hl as [->|[->| ->]]; cbn in Hf; apply bind_Some in Hf as (w & Hi & Hf);
    pose proof (Forall_lookup_1 _ _ _ _ Hset Hi) as Hw.
  - assert (PCQueue.w_phase w = PCQueue.Idle ∨ PCQueue.w_phase w = PCQueue.Woken) as Hph
      by (destruct (PCQueue.w_phase w); try done; auto).
    assert (PCQueue.fire_acquire i w n = n') as <- by (destruct Hph as [E|E]; rewrite E in Hf; by injection Hf).
    assert (PCQueue._cancel w = false) as Hc by (destruct Hw as [[? _]|(_ & _ & ?)]; [done|]; destruct Hph; congruence).
    assert (PCQueue.w_phase w ≠ PCQueue.Finished) as Hnf by (destruct Hph as [-> | ->]; done).
    assert (phase_work w = 1) as H1 by (unfold phase_work; destruct Hph as [-> | ->]; done).
    unfold PCQueue.fire_acquire, PCQueue.WaitAndPop_cancel, PCQueue.Empty. rewrite Hc, Hsh.
    destruct (PCQueue._queue (PCQueue.sq n)) as [|t ts] eqn:Eq; cbn.
    + destruct (serving_insert n (PCQueue.sq n) i w PCQueue.Waiting (PCQueue.popped n) (PCQueue.executed n) (PCQueue.dropped n))
        as [? Hwk]; [done..|]. split; [done|]. apply Hwk. rewrite H1. cbn. lia.
    + destruct (serving_insert n (PCQueue.mk_PCQueue ts false) i w (PCQueue.Returned (Some t)) (PCQueue.popped n ++ [t])
        (PCQueue.executed n) (PCQueue.dropped n)) as [? Hwk]; [done..|]. split; [done|]. apply Hwk. rewrite H1, Eq. cbn. lia.
  - destruct (PCQueue.w_phase w) as [| | |op| |] eqn:Hph; try done. injection Hf as <-.
    assert (PCQueue._cancel w = false) as Hc by (destruct Hw as [[? _]|(_ & _ & ?)]; [done|congruence]).
    unfold PCQueue.fire_loop. rewrite Hc. destruct op as [t|]; unfold PCQueue.set_worker.
    + destruct (serving_insert n (PCQueue.sq n) i w (PCQueue.Running t) (PCQueue.popped n) (PCQueue.executed n) (PCQueue.dropped n))
        as [? Hwk]; [done|done|by rewrite Hph|done|done|done|]. split; [done|]. apply Hwk. unfold phase_work. rewrite Hph. cbn. lia.
    + destruct (serving_insert n (PCQueue.sq n) i w PCQueue.Idle (PCQueue.popped n) (PCQueue.executed n) (PCQueue.dropped n))
        as [? Hwk]; [done|done|by rewrite Hph|done|done|done|]. split; [done|]. apply Hwk. unfold phase_work. rewrite Hph. cbn. lia.
  - destruct (PCQueue.w_phase w) as [| | | |t|] eqn:Hph; try done. injection Hf as <-.
    destruct (serving_insert n (PCQueue.sq n) i w PCQueue.Idle (PCQueue.popped n) (PCQueue.executed n ++ [t]) (PCQueue.dropped n))
      as [? Hwk]; [done|done|by rewrite Hph|done|done|done|]. split; [done|]. apply Hwk. unfold phase_work. rewrite Hph. cbn. lia.
Qed.

(** A step of a thread of the composition is the queue's. *)
Lemma own_step_fire s s' : own_step s s' → ∃ i l, (l = PCQueue.LAcquire i ∨ l = PCQueue.LLoop i ∨ l = PCQueue.LExecute i) ∧
  PCQueue.fire l (net s) = Some (net s') ∧ handed s' = handed s ∧ waiting s' = waiting s.
Proof.
  intros (i & l & Hl & Ht). exists i, l. split; [done|]. unfold thread in Ht. destruct (is_push l); [done|].
  apply bind_Some in Ht as (n & Hn & [= <-]). split; [done|].
  assert (handed (effect l s) = handed s ∧ waiting (effect l s) = waiting s) as [Hh Hw]; [|done].
  destruct Hl as [->|[->| ->]]; cbn; try done. repeat case_match; try done.
  unfold ExecuteQuery. by destruct (execute _ _).
Qed.

(** When every thread sleeps, everything that was pushed was executed. *)
Lemma asleep_executed d s : inv d s → serving (net s) → asleep s →
  PCQueue.pushed (net s) ≡ₚ PCQueue.executed (net s).
Proof.
  intros Hi (Hsh & Hdr & Hset & v & Hv & Hvc) Hst. pose proof (PCQueue.reachable_inv _ (i_net _ _ Hi)) as Hn.
  assert (∀ i w l, PCQueue.workers (net s) !! i = Some w → PCQueue.own_label i w = Some l → False) as Hno.
  { intros i w l Hw Hl. assert (l = PCQueue.LAcquire i ∨ l = PCQueue.LLoop i ∨ l = PCQueue.LExecute i) as Hk
      by (unfold PCQueue.own_label in Hl; destruct (PCQueue.w_phase w); simplify_eq; auto).
    assert (∃ n, PCQueue.fire l (net s) = Some n) as [n Hf]
      by (unfold PCQueue.own_label in Hl; destruct (PCQueue.w_phase w) eqn:E; simplify_eq; cbn; rewrite Hw; cbn; rewrite E; eauto).
    apply (Hst (with_net n (effect l s))). exists i, l. split; [done|]. unfold thread.
    replace (is_push l) with false by (by destruct Hk as [->|[->| ->]]). by rewrite Hf. }
  assert (∀ w, w ∈ PCQueue.workers (net s) → PCQueue.w_phase w = PCQueue.Waiting ∨ PCQueue.w_phase w = PCQueue.Finished) as Hph.
  { intros w (i & Hw)%list_elem_of_lookup. pose proof (λ l, Hno i w l Hw) as Hw'. unfold PCQueue.own_label in Hw'.
    destruct (PCQueue.w_phase w); eauto; by destruct (Hw' _ eq_refl). }
  assert (PCQueue.is_waiting v = true) as Hvw.
  { unfold PCQueue.is_waiting. destruct (Hph v Hv) as [-> |Hf]; [done|].
    destruct (proj1 (Forall_forall _ _) Hset v Hv) as [[_ ?]|(? & _)]; congruence. }
  destruct (PCQueue.inv_wait _ Hn v Hv Hvw) as [_ [(u & Hu & Huc & Hun)|Hlen]].
  { destruct (proj1 (Forall_forall _ _) Hset u Hu) as [[? _]|(_ & ? & _)]; congruence. }
  assert (PCQueue.ready_count (PCQueue.workers (net s)) = 0) as Hrc.
  { clear -Hph. unfold PCQueue.ready_count. induction (PCQueue.workers (net s)) as [|w ws IH]; [done|]. cbn.
    rewrite IH by (intros; apply Hph; by right). unfold PCQueue.is_ready. destruct (Hph w ltac:(by left)) as [-> | ->]; done. }
  assert (concat (PCQueue.inflight <$> PCQueue.workers (net s)) = []) as Hfl.
  { clear -Hph. induction (PCQueue.workers (net s)) as [|w ws IH]; [done|]. cbn.
    rewrite IH by (intros; apply Hph; by right). unfold PCQueue.inflight. destruct (Hph w ltac:(by left)) as [-> | ->]; done. }
  destruct (PCQueue.inv_fifo _ Hn) as (rest & Hp & Hq). rewrite (Hq Hsh) in Hp.
  pose proof (PCQueue.inv_once _ Hn) as Ho. rewrite Hdr, Hfl, !app_nil_r in Ho.
  destruct (PCQueue._queue (PCQueue.sq (net s))) as [|t ts]; [|cbn in Hlen; lia]. by rewrite Hp, app_nil_r.
Qed.

(** Then the next pass of the main loop calls every callback that is left. *)
Lemma Update_all d s : inv d s → Forall has_callback (waiting s) → PCQueue.pushed (net s) ≡ₚ PCQueue.executed (net s) →
  ∃ s', Update s = Done s' ∧ waiting s' = [] ∧ handed s' = handed s.
Proof.
  intros Hi Hcb Hall. unfold Update, ProcessReadyCallbacks. destruct (waiting s) as [|q ws] eqn:Ews; [cbn; eauto|].
  rewrite <- Ews in *. destruct (remove_ready_all (waiting s) (wld s)) as (c & w & ->).
  - apply Forall_forall. intros q0 Hq0. destruct (proj1 (Forall_forall _ _) (waiting_single d s Hi Hcb) q0 Hq0) as (f & b & cb & -> & Hh).
    assert (f ∈ seq 0 (next s)) as Hlt.
    { destruct (i_once _ _ Hi) as (ids & _ & <- & _). apply elem_of_app. right. apply elem_of_app. left.
      apply list_elem_of_fmap. by exists (single f b cb). }
    rewrite <- (i_ids _ _ Hi) in Hlt. unfold fut_ids in Hlt. rewrite Hall in Hlt.
    apply list_elem_of_omap in Hlt as (t & Ht & Hf). destruct (i_log _ _ Hi) as [Hl _]. rewrite <- Hl in Ht.
    apply list_elem_of_fmap in Ht as ([t' v] & -> & Ht). exists f, b, cb, v. split; [done|]. apply (i_ready _ _ Hi).
    exists t'. done.
  - cbn. eauto.
Qed.

Lemma own_steps_keep d s s' : inv d s → serving (net s) → rtc own_step s s' →
  inv d s' ∧ serving (net s') ∧ handed s' = handed s ∧ waiting s' = waiting s.
Proof.
  intros Hi Hs Hr. induction Hr as [|s1 s2 s3 Ht _ IH]; [done|].
  destruct (own_step_fire _ _ Ht) as (i & l & Hl & Hf & Hh & Hw). destruct (own_step_serving i l _ _ Hl Hf Hs) as [Hs2 _].
  destruct Ht as (? & ? & ? & Ht). destruct (IH (inv_thread d _ _ _ Hi Ht) Hs2) as (? & ? & ? & ?). split_and!; [done..|congruence|congruence].
Qed.

Lemma own_steps_bounded k s s' : serving (net s) → nsteps own_step k s s' → k + work (net s') ≤ work (net s).
Proof.
  intros Hs Hn. induction Hn as [|k s1 s2 s3 Ht _ IH]; [lia|].
  destruct (own_step_fire _ _ Ht) as (i & l & Hl & Hf & _). destruct (own_step_serving i l _ _ Hl Hf Hs) as [Hs2 Hw].
  specialize (IH Hs2). lia.
Qed.
(** ** Properties *)

(** C8 Queries and callbacks match.  In every interleaving of the calls of callers,
    threads and the main loop, up to the first undefined one: the answers are those
    a database without threads gives to the requests in the order of their
    execution; the callbacks that were called are those of different queries, each
    with the answer to its own query; and a query whose callback was handed over
    and not called is still in the processor.  Nothing is called twice, lost, or
    called with another's answer.  When no pass and no other addition falls between
    an AddCallback and the hand-over through the reference it returned, every
    hand-over is defined, and so is every pass over an open pool (it meets no
    object without a callback). *)
Theorem callbacks_get_their_answers (d : DB) (s : pipeline) :
  (reachable d s →
   (log s).*1 = PCQueue.executed (net s) ∧ serve (t_request <$> PCQueue.executed (net s)) d = ((log s).*2, db s) ∧
   ∃ ids, NoDup ids ∧ Forall2 (λ f r, handed s !! f = Some r.1 ∧ answer s f r.2) ids (invoked (wld s)) ∧
     ∀ f, is_Some (handed s !! f) → f ∉ ids → f ∈ qc_id <$> waiting s) ∧
  (serialised d s →
   reachable d s ∧
   (∀ j cb, j < length (refs s) → ∃ s', HandOver j cb s = Done s') ∧
   (refs s = [] → PCQueue._shutdown (PCQueue.sq (net s)) = false → ∃ s', Update s = Done s')).
Proof.
  split.
  - intros Hi%pipeline_reachable_inv. destruct (i_log _ _ Hi) as [Hl Hs]. rewrite <- Hl. split_and!; [done..|].
    destruct (i_once _ _ Hi) as (ids & Hc & Hp & Hd). exists ids. split_and!; [|done|].
    + pose proof (NoDup_seq 0 (next s)) as Hnd. rewrite <- Hp in Hnd. by apply NoDup_app in Hnd as (Hnd & _).
    + intros f Hf Hn. apply Hd, elem_of_app in Hf as [Hf|Hf]; [done|].
      apply list_elem_of_fmap in Hf as (q & -> & Hq). apply list_elem_of_In, filter_In in Hq as [Hq _].
      apply list_elem_of_fmap. exists q. split; [done|]. by apply list_elem_of_In.
  - intros Hs. split_and!; [by apply serialised_reachable|intros j cb; by apply (hand_over_succeeds d)|].
    by apply (pass_succeeds d).
Qed.

(** C11 Every callback gets called.  In a serialised run, where no pass and no
    other addition falls between an AddCallback and its hand-over, and while the
    pool serves (it is open, one of its workers goes on, and no task was dropped by
    a worker that was destroyed), the threads of the workers reach a state where all
    of them sleep, within [work] steps of their own and whatever their order; the
    next pass of the main loop, when no hand-over is left to do, then throws
    nothing, empties the processor, and every callback that was handed over has
    been called, with the answer to its query. *)
Theorem every_query_is_answered (d : DB) (s : pipeline) :
  serialised d s → refs s = [] → serving (net s) →
  (∀ k s', nsteps own_step k s s' → k ≤ work (net s)) ∧
  ∀ s', rtc own_step s s' → asleep s' →
    ∃ s'', Update s' = Done s'' ∧ waiting s'' = [] ∧
      ∀ f cb, handed s !! f = Some cb → ∃ v, answer s'' f v ∧ (cb, v) ∈ invoked (wld s'').
Proof.
  intros [Hi [[_ Hcb]|[Hr' _]]]%serialised_tidy Hr Hs; [|by rewrite Hr in Hr']. split.
  - intros k s' Hk. pose proof (own_steps_bounded k s s' Hs Hk). lia.
  - intros s' Hsteps Hst. destruct (own_steps_keep d s s' Hi Hs Hsteps) as (Hi' & Hs' & Hh & Hw').
    rewrite <- Hw' in Hcb.
    destruct (Update_all d s' Hi' Hcb (asleep_executed d s' Hi' Hs' Hst)) as (s'' & Hu & Hw & Hh').
    exists s''. split_and!; [done..|]. intros f cb Hf. rewrite <- Hh, <- Hh' in Hf.
    pose proof (inv_Update d _ _ Hi' Hu) as Hi''. destruct (i_once _ _ Hi'') as (ids & Hc & _ & Hd).
    assert (f ∈ ids) as Hin.
    { assert (is_Some (handed s'' !! f)) as Hsome by eauto. apply Hd in Hsome. rewrite Hw in Hsome. set_solver. }
    apply list_elem_of_lookup in Hin as [j Hj]. destruct (Forall2_lookup_l _ _ _ _ _ Hc Hj) as ([cb' v] & Hrj & Hcb' & Ha).
    assert (cb' = cb) as -> by (cbn in Hcb'; congruence). exists v. split; [done|]. by eapply list_elem_of_lookup_2.
Qed.

(** *** Runs *)
Fixpoint perform_all (cs : list call) (s : pipeline) : option pipeline :=
  match cs with [] => Some s | c :: cs => s ← perform c s; perform_all cs s end.
Fixpoint all_exclusive (cs : list call) (s : pipeline) : bool :=
  match cs with
  | [] => true
  | c :: cs => exclusive c s && match perform c s with Some s => all_exclusive cs s | None => false end
  end.

Lemma perform_all_steps cs s s' : perform_all cs s = Some s' → rtc step s s'.
Proof.
  revert s. induction cs as [|c cs IH]; cbn; intros s; [by intros [= <-]|]. intros (s1 & Hc & Hr)%bind_Some.
  eapply rtc_l; [by exists c|by apply IH].
Qed.
Lemma perform_all_serialised cs s s' : all_exclusive cs s → perform_all cs s = Some s' → rtc serialised_step s s'.
Proof.
  revert s. induction cs as [|c cs IH]; cbn; intros s; [by intros _ [= <-]|].
  intros [Hex Hall]%andb_prop_elim (s1 & Hc & Hr)%bind_Some. rewrite Hc in Hall.
  eapply rtc_l; [by exists c|by apply IH].
Qed.
End Pipeline.

(** A database that counts: the answer is the request and the number of those
    before it.  Two workers, three requests, of which the second one is executed
    first by the thread that was not woken for it. *)
Definition ex_execute (r d : nat) : nat * nat := (r + 100 * d, S d).
Definition ex_calls : list (call (R := nat)) :=
  [CThread PCQueue.LCreate; CThread PCQueue.LCreate; CThread (PCQueue.LAcquire 0);
   CQuery true 7 (Some 0); CQuery false 8 None; CThread (PCQueue.LAcquire 1); CThread (PCQueue.LAcquire 0);
   CAdd 1; CExecute 9 None; CHandOver 0 51; CThread (PCQueue.LLoop 0); CThread (PCQueue.LExecute 0); CUpdate;
   CAdd 0; CHandOver 0 50; CThread (PCQueue.LLoop 1)].
Definition ex_state : pipeline (R := nat) (V := nat) (DB := nat) :=
  default (pipeline_new 0) (perform_all ex_execute ex_calls (pipeline_new 0)).

Lemma ex_state_serialised : serialised ex_execute 0 ex_state.
Proof. apply (perform_all_serialised ex_execute ex_calls); vm_compute; done. Qed.

(** A pass of the main loop between the two calls of a handler: the object has no
    callback yet, and [InvokeIfReady] reads the front of an empty queue. *)
Definition before_hand_over : pipeline (R := nat) (V := nat) (DB := nat) :=
  default (pipeline_new 0) (perform_all ex_execute [CQuery true 7 None; CAdd 0] (pipeline_new 0)).
Example unserialised_pass_crashes : Update before_hand_over = Crash empty_front.
Proof. reflexivity. Qed.

(** Two handlers add at the same time: the first one's reference is to an object
    that the vector may have moved. *)
Definition two_additions : pipeline (R := nat) (V := nat) (DB := nat) :=
  default (pipeline_new 0) (perform_all ex_execute [CQuery true 7 None; CQuery true 8 None; CAdd 0; CAdd 0] (pipeline_new 0)).
Example unserialised_addition_dangles :
  refs two_additions = [false; true] ∧ HandOver 0 50 two_additions = Crash "a reference to an object that was moved".
Proof. split; reflexivity. Qed.

Lemma callbacks_get_their_answers_witness :
  invoked (wld ex_state) = [(51, 8)] ∧
  (∃ ids, NoDup ids ∧ Forall2 (λ f r, handed ex_state !! f = Some r.1 ∧ answer ex_state f r.2) ids (invoked (wld ex_state))) ∧
  ∃ s', Update ex_state = Done s'.
Proof.
  split; [reflexivity|].
  destruct (callbacks_get_their_answers ex_execute 0 ex_state) as [Hany Hserial].
  destruct (Hserial ex_state_serialised) as (Hreach & _ & Hpass).
  destruct (Hany Hreach) as (_ & _ & ids & Hn & Hf & _).
  split; [by exists ids|]. apply Hpass; reflexivity.
Defined.

Lemma every_query_is_answered_witness :
  serving (net ex_state) ∧
  ∀ s', rtc (own_step ex_execute) ex_state s' → asleep ex_execute s' →
    ∃ s'', Update s' = Done s'' ∧ waiting s'' = [] ∧ ∃ v, answer s'' 0 v ∧ (50, v) ∈ invoked (wld s'').
Proof.
  assert (serving (net ex_state)) as Hs.
  { split; [reflexivity|]. split; [reflexivity|]. split.
    - vm_compute. repeat constructor; discriminate.
    - eexists. split; [vm_compute; by left|reflexivity]. }
  split; [exact Hs|]. intros s' Hr Hst.
  destruct (proj2 (every_query_is_answered ex_execute 0 ex_state ex_state_serialised eq_refl Hs) s' Hr Hst)
    as (s'' & Hu & Hw & Hall).
  exists s''. split; [exact Hu|]. split; [exact Hw|]. apply (Hall 0 50). reflexivity.
Defined.
