(* ===== verification/Connection.v ===== *)
(** * MySQLConnection: one connection to the database

    server/database/Database/MySQLConnection.cpp and .h, with the data of
    Transaction.h.  The client library is not part of the program: it is the
    record [mysql_client] of the functions the code calls, over a state of its
    own.  A method is a function in the monad [M] of states and outcomes;
    [ABORT] and undefined behaviour are [Crash].  The methods that call
    themselves again after a reconnection take fuel.  The state keeps the list
    of the requests made of the library ([events]); the code does not read it. *)
From S2P Require Import Prelude CppString Convert Prepared.

(** ** Error codes of the client library and the server *)
Definition CR_UNKNOWN_ERROR : Z := 2000.
Definition CR_CONN_HOST_ERROR : Z := 2003.
Definition CR_SERVER_GONE_ERROR : Z := 2006.
Definition CR_SERVER_LOST : Z := 2013.
Definition CR_SERVER_LOST_EXTENDED : Z := 2055.
Definition ER_BAD_FIELD_ERROR : Z := 1054.
Definition ER_WRONG_VALUE_COUNT : Z := 1058.
Definition ER_DUP_ENTRY : Z := 1062.
Definition ER_PARSE_ERROR : Z := 1064.
Definition ER_NO_SUCH_TABLE : Z := 1146.
Definition ER_LOCK_DEADLOCK : Z := 1213.

(** ** Transaction.h: the elements of a transaction *)
Inductive SQLElementDataType := SQL_ELEMENT_RAW | SQL_ELEMENT_PREPARED.

(** [std::variant<PreparedStatement, std::string>]; a statement may be null. *)
Inductive sql_element :=
| ElPrepared (stmt : option PreparedStatementBase)
| ElRaw (sql : string).

Record SQLElementData := mk_SQLElementData { element : sql_element; type_ : SQLElementDataType }.

Record Transaction := mk_Transaction { _queries : list SQLElementData; _cleanedUp : bool }.

Definition Transaction_new : Transaction := mk_Transaction [] false.

Definition Append_raw (sql : string) (t : Transaction) : Transaction :=
  mk_Transaction (_queries t ++ [mk_SQLElementData (ElRaw sql) SQL_ELEMENT_RAW]) (_cleanedUp t).
Definition Append_prepared (stmt : option PreparedStatementBase) (t : Transaction) : Transaction :=
  mk_Transaction (_queries t ++ [mk_SQLElementData (ElPrepared stmt) SQL_ELEMENT_PREPARED]) (_cleanedUp t).
Definition GetSize (t : Transaction) : nat := length (_queries t).

(** [Cleanup]: each element is checked, then all are dropped. *)
Definition cleanup_element (d : SQLElementData) : outcome Empty_set unit :=
  match type_ d, element d with
  | SQL_ELEMENT_PREPARED, ElPrepared (Some _) => Done ()
  | SQL_ELEMENT_PREPARED, ElPrepared None => Crash "stmt"
  | SQL_ELEMENT_PREPARED, ElRaw _ => Crash "PreparedStatementBase not found in SQLElementData"
  | SQL_ELEMENT_RAW, ElRaw _ => Done ()
  | SQL_ELEMENT_RAW, ElPrepared _ => Crash "std::string not found in SQLElementData"
  end.

Definition Cleanup (t : Transaction) : outcome Empty_set Transaction :=
  if _cleanedUp t then Done t
  else
    _ ← ofold (λ _ d, cleanup_element d) (_queries t) ();
    Done (mk_Transaction [] true).

(** ** MySQLConnectionInfo *)
Record MySQLConnectionInfo := mk_MySQLConnectionInfo {
  User : string; Password : string; Database : string; Host : string; PortOrSocket : string; SSL : string }.

Definition empty_info : MySQLConnectionInfo :=
  mk_MySQLConnectionInfo EmptyString EmptyString EmptyString EmptyString EmptyString EmptyString.

Definition MySQLConnectionInfo_new (infoString : string) : MySQLConnectionInfo :=
  match Tokenize infoString ";" true with
  | [h; p; u; pw; d] => mk_MySQLConnectionInfo u pw d h p EmptyString
  | [h; p; u; pw; d; s] => mk_MySQLConnectionInfo u pw d h p s
  | _ => empty_info
  end.

(** ** The client library *)
Record connect_args := mk_connect_args {
  ca_host : string; ca_user : string; ca_password : string; ca_database : string;
  ca_port : Z; ca_socket : option string;
  ca_protocol_socket : bool;        (* MYSQL_OPT_PROTOCOL is set to the socket *)
  ca_ssl_disabled : bool;           (* MYSQL_OPT_SSL_MODE is set to SSL_MODE_DISABLED *)
}.

Record mysql_client (S : Type) := mk_mysql_client {
  mysql_init : S → bool * S;
  mysql_real_connect : connect_args → S → bool * S;
  mysql_close : S → S;
  mysql_autocommit : S → S;
  mysql_set_character_set : S → S;
  mysql_errno : S → Z;
  mysql_query : string → S → bool * S;                       (* true: it failed *)
  mysql_stmt_init : S → option Z * S;
  mysql_stmt_prepare : Z → string → S → bool * S;             (* true: it failed *)
  mysql_stmt_param_count : Z → S → nat;
  mysql_stmt_bind_param : Z → list MYSQL_BIND → S → bool * S;  (* true: it failed *)
  mysql_stmt_execute : Z → S → bool * S;                      (* true: it failed *)
  mysql_store_result : S → option nat * S;
  mysql_affected_rows : S → Z;
  mysql_field_count : S → Z;
  mysql_stmt_num_rows : Z → S → Z;
  mysql_stmt_field_count : Z → S → Z;
  mysql_stmt_result_metadata : Z → S → option nat * S;
  mysql_fetch_row : nat → S → bool * S;
  system_clock : S → Z * S;
  steady_clock : S → Z * S;                                  (* in milliseconds *)
}.
Arguments mysql_init {S} _ _.
Arguments mysql_real_connect {S} _ _ _.
Arguments mysql_close {S} _ _.
Arguments mysql_autocommit {S} _ _.
Arguments mysql_set_character_set {S} _ _.
Arguments mysql_errno {S} _ _.
Arguments mysql_query {S} _ _ _.
Arguments mysql_stmt_init {S} _ _.
Arguments mysql_stmt_prepare {S} _ _ _ _.
Arguments mysql_stmt_param_count {S} _ _ _.
Arguments mysql_stmt_bind_param {S} _ _ _ _.
Arguments mysql_stmt_execute {S} _ _ _.
Arguments mysql_store_result {S} _ _.
Arguments mysql_affected_rows {S} _ _.
Arguments mysql_field_count {S} _ _.
Arguments mysql_stmt_num_rows {S} _ _ _.
Arguments mysql_stmt_field_count {S} _ _ _.
Arguments mysql_stmt_result_metadata {S} _ _ _.
Arguments mysql_fetch_row {S} _ _ _.
Arguments system_clock {S} _ _.
Arguments steady_clock {S} _ _.

(** ** The connection *)
Inductive event :=
| EvOpen (args : connect_args) (ok : bool)
| EvClose
| EvQuery (sql : string) (ok : bool)
| EvStatement (index : Z) (binds : list MYSQL_BIND) (ok : bool).

(** [ConnectionFlags] *)
Definition flag_Async : Z := 1.
Definition flag_Sync : Z := 2.
Definition flag_Both : Z := Z.lor flag_Async flag_Sync.

Record MySQLConnection := mk_MySQLConnection {
  _mysqlHandle : bool;              (* not null *)
  _connectionInfo : MySQLConnectionInfo;
  _connectionFlags : Z;
  _stmtList : list (option MySQLPreparedStatement);
  _isDynamic : bool;
  _prepareError : bool;
  _lastUseTime : Z;
}.

Inductive db_error := OutOfFuel.

Section Connection.
Context {S : Type} (client : mysql_client S).

Record cstate := mk_cstate { conn : MySQLConnection; srv : S; events : list event }.

(** *** The monad *)
Definition M (A : Type) : Type := cstate → outcome db_error (A * cstate).
#[export] Instance M_ret : MRet M := λ A a st, Done (a, st).
#[export] Instance M_bind : MBind M := λ A B f m st,
  match m st with
  | Done (a, st) => f a st
  | Throw e => Throw e
  | Crash w => Crash w
  end.
Definition crash {A} (why : string) : M A := λ _, Crash why.
Definition out_of_fuel {A} : M A := λ _, Throw OutOfFuel.
Definition get_conn : M MySQLConnection := λ st, Done (conn st, st).
Definition set_conn (c : MySQLConnection) : M unit := λ st, Done ((), mk_cstate c (srv st) (events st)).
Definition emit (e : event) : M unit := λ st, Done ((), mk_cstate (conn st) (srv st) (events st ++ [e])).
Definition call {A} (f : S → A * S) : M A := λ st,
  let '(a, s) := f (srv st) in Done (a, mk_cstate (conn st) s (events st)).
Definition ask {A} (f : S → A) : M A := λ st, Done (f (srv st), st).
Definition lift {A} (o : outcome Empty_set A) : M A := λ st,
  match o with Done a => Done (a, st) | Throw e => match e with end | Crash w => Crash w end.

(** Field updates. *)
Definition set_handle (b : bool) : M unit :=
  c ← get_conn; set_conn (mk_MySQLConnection b (_connectionInfo c) (_connectionFlags c) (_stmtList c)
    (_isDynamic c) (_prepareError c) (_lastUseTime c)).
Definition set_info (i : MySQLConnectionInfo) : M unit :=
  c ← get_conn; set_conn (mk_MySQLConnection (_mysqlHandle c) i (_connectionFlags c) (_stmtList c)
    (_isDynamic c) (_prepareError c) (_lastUseTime c)).
Definition set_stmt (index : nat) (m : option MySQLPreparedStatement) : M unit :=
  c ← get_conn; set_conn (mk_MySQLConnection (_mysqlHandle c) (_connectionInfo c) (_connectionFlags c)
    (<[index := m]> (_stmtList c)) (_isDynamic c) (_prepareError c) (_lastUseTime c)).
Definition set_prepareError : M unit :=
  c ← get_conn; set_conn (mk_MySQLConnection (_mysqlHandle c) (_connectionInfo c) (_connectionFlags c)
    (_stmtList c) (_isDynamic c) true (_lastUseTime c)).

Definition UpdateLastUseTime : M unit :=
  now ← call (system_clock client);
  c ← get_conn; set_conn (mk_MySQLConnection (_mysqlHandle c) (_connectionInfo c) (_connectionFlags c)
    (_stmtList c) (_isDynamic c) (_prepareError c) now).

(** What [Open] computes from the host: [Host], [port], [unix_socket] and
    whether the protocol is set to the socket. *)
Record endpoint_t := mk_endpoint {
  ep_host : string; ep_port : Z; ep_socket : option string; ep_protocol_socket : bool }.

(** The host, port and socket; the socket branch assigns [Host] in the
    connection information. *)
Definition Open_endpoint (info : MySQLConnectionInfo) : M endpoint_t :=
  if String.eqb (Host info) "." then
    let info' := mk_MySQLConnectionInfo (User info) (Password info) (Database info) "localhost"
                   (PortOrSocket info) (SSL info) in
    _ ← set_info info';
    mret (mk_endpoint "localhost" 0 (Some (PortOrSocket info)) true)
  else
    match StringTo uint32 (PortOrSocket info) with
    | Some port => mret (mk_endpoint (Host info) port None false)
    | None => crash "dereference of an empty optional"
    end.

(** [Open]; the port is read with [operator*] of an optional, and [Host] is
    assigned in the connection information. *)
Definition Open : M Z :=
  init ← call (mysql_init client);
  if negb (init : bool) then mret CR_UNKNOWN_ERROR
  else
    c ← get_conn;
    let info := _connectionInfo c in
    endpoint ← Open_endpoint info;
    let ssl := negb (is_empty (SSL info)) && String.eqb (SSL info) "ssl" in
    let args := mk_connect_args (ep_host endpoint) (User info) (Password info) (Database info)
                  (ep_port endpoint) (ep_socket endpoint) (ep_protocol_socket endpoint) ssl in
    ok ← call (mysql_real_connect client args);
    _ ← emit (EvOpen args ok);
    _ ← set_handle ok;
    if ok : bool then
      _ ← call (λ s, ((), mysql_autocommit client s));
      _ ← call (λ s, ((), mysql_set_character_set client s));
      mret 0%Z
    else
      errorCode ← ask (mysql_errno client);
      _ ← call (λ s, ((), mysql_close client s));
      mret errorCode.

Definition Close : M unit :=
  c ← get_conn;
  if _mysqlHandle c then
    _ ← call (λ s, ((), mysql_close client s));
    _ ← emit EvClose;
    set_handle false
  else mret ().

Definition PrepareStatements : M bool := c ← get_conn; mret (negb (_prepareError c)).

Definition is_lost (errNo : Z) : bool :=
  ((errNo =? CR_SERVER_GONE_ERROR) || (errNo =? CR_SERVER_LOST) || (errNo =? CR_SERVER_LOST_EXTENDED))%Z.

(** [HandleMySQLError]; the code starts with 5 attempts. *)
Fixpoint HandleMySQLError (errNo : Z) (attempts : nat) : M bool :=
  if is_lost errNo || (errNo =? CR_CONN_HOST_ERROR)%Z then
    c ← get_conn;
    _ ← (if is_lost errNo && _mysqlHandle c then
           _ ← call (λ s, ((), mysql_close client s));
           _ ← emit EvClose;
           set_handle false
         else mret ());
    lErrno ← Open;
    if (lErrno =? 0)%Z then
      prepared ← PrepareStatements;
      if negb prepared then crash "Could not re-prepare statements!" else mret true
    else
      match attempts with
      | O | 1 => crash "Failed to reconnect to the MySQL server"
      | Datatypes.S attempts => HandleMySQLError lErrno attempts
      end
  else if (errNo =? ER_LOCK_DEADLOCK)%Z || (errNo =? ER_WRONG_VALUE_COUNT)%Z
          || (errNo =? ER_DUP_ENTRY)%Z then mret false
  else if (errNo =? ER_BAD_FIELD_ERROR)%Z || (errNo =? ER_NO_SUCH_TABLE)%Z
  then crash "Your database structure is not up to date."
  else if (errNo =? ER_PARSE_ERROR)%Z then crash "Error while parsing SQL. Core fix required."
  else mret false.

(** [Execute(sql)] *)
Fixpoint Execute (fuel : nat) (sql : string) : M bool :=
  match fuel with
  | O => out_of_fuel
  | Datatypes.S fuel =>
      c ← get_conn;
      if negb (_mysqlHandle c) || is_empty sql then mret false
      else
        failed ← call (mysql_query client sql);
        _ ← emit (EvQuery sql (negb failed));
        if failed : bool then
          err ← ask (mysql_errno client);
          again ← HandleMySQLError err 5;
          if again : bool then Execute fuel sql else mret false
        else _ ← UpdateLastUseTime; mret true
  end.

Definition GetPreparedStatement (index : Z) : M (option MySQLPreparedStatement) :=
  c ← get_conn;
  if ((0 <=? index) && (index <? Z.of_nat (length (_stmtList c))))%Z
  then mret (default None (_stmtList c !! Z.to_nat index))
  else crash "Tried to access invalid prepared statement index".

(** What [Execute(stmt)] and [Query(stmt)] share: bind and execute.  [None]: the
    caller has to try again. *)
Definition bind_and_execute (stmt : PreparedStatementBase) : M (option (bool * MySQLPreparedStatement)) :=
  let index := _index stmt in
  found ← GetPreparedStatement index;
  match found with
  | None => crash "mStmt"
  | Some mStmt =>
      mStmt ← lift (BindParameters stmt mStmt);
      _ ← set_stmt (Z.to_nat index) (Some mStmt);
      bind_failed ← call (mysql_stmt_bind_param client (_mysqlStmt mStmt) (_bind mStmt));
      failed ← (if bind_failed : bool then mret true
                else call (mysql_stmt_execute client (_mysqlStmt mStmt)));
      _ ← emit (EvStatement index (_bind mStmt) (negb failed));
      if failed : bool then
        err ← ask (mysql_errno client);
        again ← HandleMySQLError err 5;
        if again : bool then mret None
        else
          _ ← set_stmt (Z.to_nat index) (Some (ClearParameters mStmt));
          mret (Some (false, mStmt))
      else
        _ ← set_stmt (Z.to_nat index) (Some (ClearParameters mStmt));
        mret (Some (true, mStmt))
  end.

(** [Execute(stmt)] *)
Fixpoint Execute_stmt (fuel : nat) (stmt : option PreparedStatementBase) : M bool :=
  match fuel with
  | O => out_of_fuel
  | Datatypes.S fuel =>
      c ← get_conn;
      match _mysqlHandle c, stmt with
      | true, Some s =>
          r ← bind_and_execute s;
          match r with
          | None => Execute_stmt fuel stmt
          | Some (false, _) => mret false
          | Some (true, _) => _ ← UpdateLastUseTime; mret true
          end
      | _, _ => mret false
      end
  end.

(** The private [Query(sql, ...)]: the result, its row count and field count. *)
Fixpoint Query_raw (fuel : nat) (sql : string) : M (option (nat * Z * Z)) :=
  match fuel with
  | O => out_of_fuel
  | Datatypes.S fuel =>
      c ← get_conn;
      if negb (_mysqlHandle c) || is_empty sql then mret None
      else
        failed ← call (mysql_query client sql);
        _ ← emit (EvQuery sql (negb failed));
        if failed : bool then
          err ← ask (mysql_errno client);
          again ← HandleMySQLError err 5;
          if again : bool then Query_raw fuel sql else mret None
        else
          result ← call (mysql_store_result client);
          rowCount ← ask (mysql_affected_rows client);
          fieldCount ← ask (mysql_field_count client);
          match result with
          | None => mret None
          | Some r => if (rowCount =? 0)%Z then mret None else mret (Some (r, rowCount, fieldCount))
          end
  end.

Definition Query (fuel : nat) (sql : string) : M (option (nat * Z * Z)) :=
  if is_empty sql then mret None
  else
    r ← Query_raw fuel sql;
    match r with
    | None => mret None
    | Some r => _ ← UpdateLastUseTime; mret (Some r)
    end.

(** [Query(stmt)] and its private overload. *)
Fixpoint Query_stmt_raw (fuel : nat) (stmt : PreparedStatementBase) : M (option (option nat * Z * Z)) :=
  match fuel with
  | O => out_of_fuel
  | Datatypes.S fuel =>
      c ← get_conn;
      if negb (_mysqlHandle c) then mret None
      else
        r ← bind_and_execute stmt;
        match r with
        | None => Query_stmt_raw fuel stmt
        | Some (false, _) => mret None
        | Some (true, mStmt) =>
            result ← call (mysql_stmt_result_metadata client (_mysqlStmt mStmt));
            rowCount ← ask (mysql_stmt_num_rows client (_mysqlStmt mStmt));
            fieldCount ← ask (mysql_stmt_field_count client (_mysqlStmt mStmt));
            mret (Some (result, rowCount, fieldCount))
        end
  end.

Definition Query_stmt (fuel : nat) (stmt : PreparedStatementBase) : M (option (option nat * Z * Z)) :=
  r ← Query_stmt_raw fuel stmt;
  match r with
  | None => mret None
  | Some r => _ ← UpdateLastUseTime; mret (Some r)
  end.

(** [PrepareStatement]: only on a connection with one of the flags. *)
Definition PrepareStatement (index : nat) (sql : string) (flags : Z) : M unit :=
  c ← get_conn;
  if (Z.land (_connectionFlags c) flags =? 0)%Z then set_stmt index None
  else
    stmt ← call (mysql_stmt_init client);
    match stmt with
    | None => set_prepareError
    | Some stmt =>
        failed ← call (mysql_stmt_prepare client stmt sql);
        if failed : bool then set_prepareError
        else
          n ← ask (mysql_stmt_param_count client stmt);
          set_stmt index (Some (MySQLPreparedStatement_new stmt n sql))
    end.

Definition BeginTransaction (fuel : nat) : M unit := _ ← Execute fuel "START TRANSACTION"; mret ().
Definition RollbackTransaction (fuel : nat) : M unit := _ ← Execute fuel "ROLLBACK"; mret ().
Definition CommitTransaction (fuel : nat) : M unit := _ ← Execute fuel "COMMIT"; mret ().
Definition GetLastError : M Z := ask (mysql_errno client).

Definition execute_element (fuel : nat) (d : SQLElementData) : M bool :=
  match type_ d, element d with
  | SQL_ELEMENT_PREPARED, ElPrepared (Some stmt) => Execute_stmt fuel (Some stmt)
  | SQL_ELEMENT_PREPARED, ElPrepared None => crash "stmt"
  | SQL_ELEMENT_PREPARED, ElRaw _ => crash "> PreparedStatementBase not found in SQLElementData."
  | SQL_ELEMENT_RAW, ElRaw sql =>
      if is_empty sql then crash "!sql.empty()" else Execute fuel sql
  | SQL_ELEMENT_RAW, ElPrepared _ => crash "> std::string not found in SQLElementData."
  end.

(** The loop of [ExecuteTransaction]: [Some errorCode] when it was aborted. *)
Fixpoint ExecuteTransaction_loop (fuel : nat) (queries : list SQLElementData) : M (option Z) :=
  match queries with
  | [] => mret None
  | data :: queries =>
      ok ← execute_element fuel data;
      if ok : bool then ExecuteTransaction_loop fuel queries
      else
        errorCode ← GetLastError;
        _ ← RollbackTransaction fuel;
        mret (Some errorCode)
  end.

Definition ExecuteTransaction (fuel : nat) (transaction : Transaction) : M Z :=
  match _queries transaction with
  | [] => mret (-1)%Z
  | queries =>
      _ ← BeginTransaction fuel;
      r ← ExecuteTransaction_loop fuel queries;
      match r with
      | Some errorCode => mret errorCode
      | None => _ ← CommitTransaction fuel; mret 0%Z
      end
  end.

(** [CanRemoveConnection]: a dynamic connection idle for a second, in milliseconds. *)
Definition DYNAMIC_CONNECTION_TIMEOUT : Z := 1000.
Definition CanRemoveConnection : M bool :=
  c ← get_conn;
  if negb (_isDynamic c) then mret false
  else
    now ← call (system_clock client);
    mret (DYNAMIC_CONNECTION_TIMEOUT <=? (now - _lastUseTime c))%Z.

(** ** Reasoning about traces *)
Lemma M_bind_Done {A B} (m : M A) (f : A → M B) st b st' :
  (m ≫= f) st = Done (b, st') ↔ ∃ a st1, m st = Done (a, st1) ∧ f a st1 = Done (b, st').
Proof.
  unfold mbind, M_bind. destruct (m st) as [[a st1]| |]; [|split; [done|naive_solver]..].
  split; [eauto|]. intros (a' & st1' & [= <- <-] & ?). done.
Qed.

(** The events [st'] has more than [st]. *)
Definition adds_events (st st' : cstate) (evs : list event) : Prop := events st' = events st ++ evs.

Lemma adds_nil st st' : events st' = events st → adds_events st st' [].
Proof. unfold adds_events. by rewrite app_nil_r. Qed.
Lemma adds_trans st1 st2 st3 e1 e2 :
  adds_events st1 st2 e1 → adds_events st2 st3 e2 → adds_events st1 st3 (e1 ++ e2).
Proof. unfold adds_events. intros -> ->. by rewrite app_assoc. Qed.

Definition is_reconnect (e : event) : bool :=
  match e with EvOpen _ _ | EvClose => true | _ => false end.
Definition no_reconnect (evs : list event) : Prop := Forall (λ e, is_reconnect e = false) evs.

Lemma no_reconnect_app e1 e2 : no_reconnect (e1 ++ e2) ↔ no_reconnect e1 ∧ no_reconnect e2.
Proof. apply Forall_app. Qed.

(** What a step without a reconnection keeps of the connection. *)
Definition same_link (st st' : cstate) : Prop :=
  _mysqlHandle (conn st') = _mysqlHandle (conn st) ∧ _connectionInfo (conn st') = _connectionInfo (conn st).

Lemma same_link_refl st : same_link st st.
Proof. done. Qed.
Lemma same_link_trans st1 st2 st3 : same_link st1 st2 → same_link st2 st3 → same_link st1 st3.
Proof. intros [??] [??]. split; congruence. Qed.

Ltac inv_prim :=
  match goal with
  | H : get_conn _ = Done _ |- _ => injection H as <- <-
  | H : set_conn _ _ = Done _ |- _ => injection H as <- <-
  | H : emit _ _ = Done _ |- _ => injection H as <- <-
  | H : mret _ _ = Done _ |- _ => injection H as <- <-
  | H : ask _ _ = Done _ |- _ => injection H as <- <-
  | H : GetLastError _ = Done _ |- _ => unfold GetLastError in H; injection H as <- <-
  | H : crash _ _ = Done _ |- _ => discriminate H
  | H : out_of_fuel _ = Done _ |- _ => discriminate H
  | H : call ?f ?st = Done _ |- _ =>
      unfold call in H; destruct (f (srv st)) as [? ?] eqn:?; injection H as <- <-
  end.
Ltac inv_M :=
  repeat first
    [ inv_prim
    | match goal with
      | H : (_ ≫= _) _ = Done (_, _) |- _ => apply M_bind_Done in H as (? & ? & ? & ?)
      end ].
(** One step of a sequence. *)
Ltac M_step H := apply M_bind_Done in H as (? & ? & ?Hstep & H); try inv_prim.

Lemma set_handle_spec b st u st' :
  set_handle b st = Done (u, st') → events st' = events st ∧
    _connectionInfo (conn st') = _connectionInfo (conn st) ∧ _mysqlHandle (conn st') = b.
Proof. unfold set_handle. intros H. inv_M. done. Qed.

Lemma UpdateLastUseTime_spec st u st' :
  UpdateLastUseTime st = Done (u, st') → events st' = events st ∧ same_link st st'.
Proof. unfold UpdateLastUseTime. intros H. inv_M. done. Qed.

Lemma set_stmt_spec i m st u st' :
  set_stmt i m st = Done (u, st') → events st' = events st ∧ same_link st st'.
Proof. unfold set_stmt. intros H. inv_M. done. Qed.

Lemma lift_spec {A} (o : outcome Empty_set A) st a st' : lift o st = Done (a, st') → st' = st ∧ o = Done a.
Proof. unfold lift. destruct o as [a'|[]|]; [|done]. by intros [= <- <-]. Qed.

Lemma Open_endpoint_events info st ep st' :
  Open_endpoint info st = Done (ep, st') → events st' = events st.
Proof.
  unfold Open_endpoint, set_info. destruct (String.eqb _ _); intros H; [by inv_M|].
  destruct (StringTo _ _); [by inv_M|done].
Qed.

(** [Open] reports itself unless the library could not be initialised. *)
Lemma Open_events st r st' :
  Open st = Done (r, st') →
  (adds_events st st' [] ∧ conn st' = conn st ∧ r ≠ 0%Z) ∨
  (∃ args ok, adds_events st st' [EvOpen args ok] ∧ _mysqlHandle (conn st') = ok ∧ (ok = true → r = 0%Z)).
Proof.
  unfold Open. intros H. apply M_bind_Done in H as (init & st1 & Hi & H).
  unfold call in Hi. destruct (mysql_init client (srv st)) as [ini s1]. injection Hi as <- <-.
  destruct ini; cbn [negb] in H; [right|left; inv_M; split; [by apply adds_nil|done]].
  apply M_bind_Done in H as (c & st2 & Hc & H). injection Hc as <- <-.
  apply M_bind_Done in H as (ep & st3 & He%Open_endpoint_events & H). cbn in He. inv_M.
  match goal with H : set_handle ?ok _ = Done _ |- _ => apply set_handle_spec in H as (Hev & _ & Hh) end.
  cbn in Hev, Hh. rewrite He in Hev.
  unfold adds_events.
  match goal with H : (if ?b then _ else _) _ = Done _ |- _ => destruct b; inv_M; cbn in * end.
  all: do 2 eexists; split; [exact Hev|split; [done|done]].
Qed.

(** Without a reconnection an error is not handled. *)
(** An error that asks for no reconnection leaves the connection alone. *)
Lemma HandleMySQLError_plain errNo n st b st' :
  is_lost errNo || (errNo =? CR_CONN_HOST_ERROR)%Z = false →
  HandleMySQLError errNo n st = Done (b, st') →
  ∃ evs, adds_events st st' evs ∧ (no_reconnect evs → evs = [] ∧ b = false ∧ same_link st st').
Proof.
  intros Hno Hm. destruct n; cbn [HandleMySQLError] in Hm; rewrite Hno in Hm;
    repeat destruct (_ || _); try destruct (_ =? _)%Z; inv_M; exists [];
    (split; [by apply adds_nil|done]).
Qed.

(** Any other closes what there is, opens again, and starts over with the error
    of [Open], if there is one. *)
Lemma HandleMySQLError_reopens errNo n st b st' :
  is_lost errNo || (errNo =? CR_CONN_HOST_ERROR)%Z = true →
  HandleMySQLError errNo n st = Done (b, st') →
  ∃ stc ev0 r st2, adds_events st stc ev0 ∧ Open stc = Done (r, st2) ∧
    (no_reconnect ev0 → ev0 = [] ∧ stc = st) ∧
    ((r = 0%Z ∧ b = true ∧ st' = st2) ∨
     (∃ m, m < n ∧ HandleMySQLError r m st2 = Done (b, st'))).
Proof.
  intros Hrec H. destruct n as [|n]; cbn [HandleMySQLError] in H; rewrite Hrec in H;
  apply M_bind_Done in H as (c & st1 & Hc & H); injection Hc as <- <-;
  apply M_bind_Done in H as (u & stc & Hcl & H);
  apply M_bind_Done in H as (r & st2 & HO & H);
  assert (∃ ev0, adds_events st stc ev0 ∧ (no_reconnect ev0 → ev0 = [] ∧ stc = st)) as (ev0 & Hev0 & Hno0).
  1,3: destruct (is_lost errNo && _mysqlHandle (conn st)) in Hcl;
    [inv_M; match goal with H : set_handle _ _ = Done _ |- _ => apply set_handle_spec in H as (He & _) end;
     exists [EvClose]; split; [exact He|intros Hf; by inversion_clear Hf]
    |inv_M; exists []; split; [by apply adds_nil|done]].
  all: exists stc, ev0, r, st2; split; [done|split; [done|split; [done|]]].
  all: destruct (Z.eqb_spec r 0) as [->|Hr]; [left; apply M_bind_Done in H as (p & st3 & Hp & H);
    unfold PrepareStatements in Hp; inv_M; destruct (negb _) in *; [done|]; by inv_M|].
  - done.
  - right. destruct n as [|n]; [done|]. exists (Datatypes.S n). split; [lia|done].
Qed.

Lemma HandleMySQLError_events errNo n st b st' :
  HandleMySQLError errNo n st = Done (b, st') →
  ∃ evs, adds_events st st' evs ∧ (no_reconnect evs → evs = [] ∧ b = false ∧ same_link st st').
Proof.
  revert errNo st. induction n as [n IH] using lt_wf_ind; intros errNo st H.
  destruct (is_lost errNo || (errNo =? CR_CONN_HOST_ERROR)%Z) eqn:Hrec;
    [|by eapply HandleMySQLError_plain].
  apply HandleMySQLError_reopens in H as (stc & ev0 & r & st2 & Hev0 & HO & Hno0 & Hend); [|done].
  apply Open_events in HO as [(He & Hcn & Hr)|(args & ok & He & Hh & Hok)].
  - destruct Hend as [(-> & _)|(m & Hm & Hend)]; [done|].
    destruct (IH m Hm r st2 Hend) as (evs & Hevs & Hno). exists (ev0 ++ evs). split.
    + eapply adds_trans; [done|]. unfold adds_events in *. rewrite Hevs, He. by rewrite app_nil_r.
    + intros [Hn0 Hn1]%no_reconnect_app. destruct (Hno0 Hn0) as [-> ->].
      destruct (Hno Hn1) as (-> & -> & Hsl). split; [done|]. split; [done|].
      eapply same_link_trans; [|done]. by split; rewrite Hcn.
  - destruct Hend as [(-> & -> & ->)|(m & Hm & Hend)].
    + exists (ev0 ++ [EvOpen args ok]). split; [by eapply adds_trans|].
      intros [_ Hn]%no_reconnect_app. by inversion_clear Hn.
    + destruct (IH m Hm r st2 Hend) as (evs & Hevs & Hno).
      exists (ev0 ++ [EvOpen args ok] ++ evs). split.
      * eapply adds_trans; [done|]. by eapply adds_trans.
      * intros (_ & Hn)%no_reconnect_app. apply no_reconnect_app in Hn as [Hn _]. by inversion_clear Hn.
Qed.

#[local] Arguments HandleMySQLError : simpl never.
#[local] Arguments Open : simpl never.

(** One request: the event, and the link is kept. *)
Lemma Execute_events fuel sql st b st' :
  Execute fuel sql st = Done (b, st') →
  ∃ evs, adds_events st st' evs ∧
    (_mysqlHandle (conn st) = true → sql ≠ EmptyString → no_reconnect evs →
     evs = [EvQuery sql b] ∧ same_link st st').
Proof.
  revert st. induction fuel as [|fuel IH]; intros st H; [done|]. cbn [Execute] in H.
  apply M_bind_Done in H as (c & st1 & Hc & H). injection Hc as <- <-.
  destruct (negb (_mysqlHandle (conn st)) || is_empty sql) eqn:Hg.
  { inv_M. exists []. split; [by apply adds_nil|]. intros Hh Hs. rewrite Hh in Hg. by destruct sql. }
  M_step H. M_step H.
  match type of H with (if ?f then _ else _) _ = _ => destruct f end.
  - M_step H. apply M_bind_Done in H as (again & st2 & Hh & H).
    apply HandleMySQLError_events in Hh as (ev1 & Hev1 & Hno1). unfold adds_events in Hev1. cbn in Hev1.
    destruct again.
    + apply IH in H as (ev2 & Hev2 & Hno2). unfold adds_events in Hev2.
      exists (EvQuery sql false :: ev1 ++ ev2). split.
      * unfold adds_events. rewrite Hev2, Hev1, <- !app_assoc. done.
      * intros _ _ Hn. inversion_clear Hn as [|? ? _ Hn']. apply no_reconnect_app in Hn' as [Hn' _].
        by destruct (Hno1 Hn') as (_ & ? & _).
    + inv_M. exists (EvQuery sql false :: ev1). split; [unfold adds_events; by rewrite Hev1, <- app_assoc|].
      intros _ _ Hn. inversion_clear Hn as [|? ? _ Hn']. by destruct (Hno1 Hn') as (-> & _ & Hsl).
  - apply M_bind_Done in H as (u & st2 & [He Hsl]%UpdateLastUseTime_spec & H). inv_M.
    exists [EvQuery sql true]. split; [exact He|]. intros _ _ _. split; [done|exact Hsl].
Qed.

Lemma same_link_eq st st' c s e :
  same_link (mk_cstate c s e) st' → c = conn st → same_link st st'.
Proof. intros [??] ->. done. Qed.

(** One round of a prepared statement. *)
Lemma bind_and_execute_events stmt st r st' :
  bind_and_execute stmt st = Done (r, st') →
  ∃ binds ok evs, adds_events st st' (EvStatement (_index stmt) binds ok :: evs) ∧
    (no_reconnect evs → evs = [] ∧ same_link st st' ∧ ∃ m, r = Some (ok, m)) ∧
    (r = None → ¬ no_reconnect evs).
Proof.
  unfold bind_and_execute. intros H.
  apply M_bind_Done in H as (found & st1 & Hf & H). unfold GetPreparedStatement in Hf.
  apply M_bind_Done in Hf as (c & st1' & Hc & Hf). injection Hc as <- <-.
  destruct (_ && _); [|done]. injection Hf as <- <-.
  destruct (default None _) as [mStmt|]; [|done].
  apply M_bind_Done in H as (m1 & st1 & [-> Hb]%lift_spec & H).
  apply M_bind_Done in H as (u & st2 & [He2 Hl2]%set_stmt_spec & H).
  M_step H.
  match type of H with ((if ?f then _ else _) ≫= _) _ = _ => set (bf := f) in H end.
  apply M_bind_Done in H as (failed & st3 & Hfail & H).
  assert (events st3 = events st ∧ conn st3 = conn st2) as [He3 Hc3].
  { destruct bf; inv_M; cbn; done. }
  apply M_bind_Done in H as (u2 & st4 & Hem & H). injection Hem as <- <-.
  destruct failed.
  - M_step H. apply M_bind_Done in H as (again & st5 & Hh & H).
    apply HandleMySQLError_events in Hh as (ev1 & Hev1 & Hno1). unfold adds_events in Hev1. cbn in Hev1.
    destruct again.
    + inv_M. exists (_bind m1), false, ev1. unfold adds_events.
      split; [by rewrite Hev1, He3, <- app_assoc|].
      split; [intros Hn; by destruct (Hno1 Hn) as (_ & ? & _)|].
      intros _ Hn. by destruct (Hno1 Hn) as (_ & ? & _).
    + apply M_bind_Done in H as (u6 & st6 & [He6 Hl6]%set_stmt_spec & H). inv_M.
      exists (_bind m1), false, ev1. unfold adds_events.
      split; [by rewrite He6, Hev1, He3, <- app_assoc|]. split; [|done].
      intros Hn. destruct (Hno1 Hn) as (-> & _ & Hl). split; [done|]. split; [|eauto].
      eapply same_link_trans; [exact Hl2|]. eapply same_link_trans; [|exact Hl6].
      destruct Hl as [??]. cbn in *. split; congruence.
  - apply M_bind_Done in H as (u6 & st6 & [He6 Hl6]%set_stmt_spec & H). inv_M.
    exists (_bind m1), true, []. unfold adds_events.
    split; [rewrite He6; cbn; by rewrite He3|]. split; [|done].
    intros _. split; [done|]. split; [|eauto].
    eapply same_link_trans; [exact Hl2|]. eapply same_link_trans; [|exact Hl6].
    cbn. split; cbn; congruence.
Qed.

Lemma Execute_stmt_events fuel stmt st b st' :
  Execute_stmt fuel (Some stmt) st = Done (b, st') →
  ∃ evs, adds_events st st' evs ∧
    (_mysqlHandle (conn st) = true → no_reconnect evs →
     (∃ binds, evs = [EvStatement (_index stmt) binds b]) ∧ same_link st st').
Proof.
  revert st. induction fuel as [|fuel IH]; intros st H; [done|]. cbn [Execute_stmt] in H.
  apply M_bind_Done in H as (c & st1 & Hc & H). injection Hc as <- <-.
  destruct (_mysqlHandle (conn st)); [|inv_M; exists []; split; [by apply adds_nil|done]].
  apply M_bind_Done in H as (r & st1 & (binds & ok & ev1 & Hev1 & Hno1 & Hagain)%bind_and_execute_events & H).
  destruct r as [[[] m]|].
  - apply M_bind_Done in H as (u & st2 & [He Hsl]%UpdateLastUseTime_spec & H). inv_M.
    exists (EvStatement (_index stmt) binds ok :: ev1). unfold adds_events. rewrite He.
    split; [exact Hev1|]. intros _ Hn. inversion_clear Hn as [|? ? _ Hn'].
    destruct (Hno1 Hn') as (-> & Hl & m' & [= -> _]). split; [eauto|]. by eapply same_link_trans.
  - inv_M. exists (EvStatement (_index stmt) binds ok :: ev1). split; [exact Hev1|].
    intros _ Hn. inversion_clear Hn as [|? ? _ Hn'].
    destruct (Hno1 Hn') as (-> & Hl & m' & [= -> _]). eauto.
  - apply IH in H as (ev2 & Hev2 & _).
    exists ((EvStatement (_index stmt) binds ok :: ev1) ++ ev2). split; [by eapply adds_trans|].
    intros _ [Hn _]%no_reconnect_app. inversion_clear Hn as [|? ? _ Hn']. by destruct (Hagain eq_refl).
Qed.

(** The request an element of a transaction stands for. *)
Definition request_of (d : SQLElementData) (ok : bool) (e : event) : Prop :=
  match element d with
  | ElRaw sql => e = EvQuery sql ok
  | ElPrepared (Some stmt) => ∃ binds, e = EvStatement (_index stmt) binds ok
  | ElPrepared None => False
  end.

Lemma execute_element_events fuel d st b st' :
  execute_element fuel d st = Done (b, st') →
  ∃ evs, adds_events st st' evs ∧
    (_mysqlHandle (conn st) = true → no_reconnect evs →
     (∃ e, evs = [e] ∧ request_of d b e) ∧ same_link st st').
Proof.
  unfold execute_element, request_of. destruct (type_ d), (element d) as [[stmt|]|sql]; try done.
  - destruct (is_empty sql) eqn:Hs; [done|]. intros (evs & He & Hno)%Execute_events.
    exists evs. split; [done|]. intros Hh Hn. destruct (Hno Hh) as [-> ?]; [by intros ->|done|]. eauto.
  - intros (evs & He & Hno)%Execute_stmt_events. exists evs. split; [done|].
    intros Hh Hn. destruct (Hno Hh Hn) as [(binds & ->) ?]. eauto 6.
Qed.

Lemma ExecuteTransaction_loop_events fuel queries st r st' :
  ExecuteTransaction_loop fuel queries st = Done (r, st') →
  ∃ evs, adds_events st st' evs ∧
    (_mysqlHandle (conn st) = true → no_reconnect evs →
     same_link st st' ∧
     ((r = None ∧ Forall2 (λ d, request_of d true) queries evs) ∨
      (∃ code before d after body e b, r = Some code ∧ queries = before ++ d :: after ∧
         Forall2 (λ d, request_of d true) before body ∧ request_of d false e ∧
         evs = body ++ [e; EvQuery "ROLLBACK" b]))).
Proof.
  revert st. induction queries as [|d queries IH]; intros st H; cbn [ExecuteTransaction_loop] in H.
  { inv_M. exists []. split; [by apply adds_nil|]. intros _ _. split; [done|]. by left. }
  apply M_bind_Done in H as (ok & st1 & (ev1 & He1 & Hno1)%execute_element_events & H). destruct ok.
  - apply IH in H as (ev2 & He2 & Hno2). exists (ev1 ++ ev2). split; [by eapply adds_trans|].
    intros Hh [Hn1 Hn2]%no_reconnect_app. destruct (Hno1 Hh Hn1) as [(e & -> & He) Hl1].
    destruct (Hno2 (eq_trans (proj1 Hl1) Hh) Hn2)
      as [Hl2 [[-> Hall]|(code & before & d' & after & body & e' & b & -> & -> & Hall & He' & ->)]];
      (split; [by eapply same_link_trans|]).
    + left. split; [done|]. by constructor.
    + right. exists code, (d :: before), d', after, (e :: body), e', b. split; [done|]. split; [done|].
      split; [by constructor|done].
  - M_step H. apply M_bind_Done in H as (u & st2 & Hrb & H). inv_M. unfold RollbackTransaction in Hrb.
    apply M_bind_Done in Hrb as (b & st3 & (ev2 & He2 & Hno2)%Execute_events & Hrb). inv_M.
    exists (ev1 ++ ev2). split; [by eapply adds_trans|].
    intros Hh [Hn1 Hn2]%no_reconnect_app. destruct (Hno1 Hh Hn1) as [(e & -> & He) Hl1].
    destruct (Hno2 (eq_trans (proj1 Hl1) Hh) ltac:(done) Hn2) as [-> Hl2].
    split; [by eapply same_link_trans|]. right. eexists _, [], d, queries, [], e, b.
    split; [done|]. split; [done|]. split; [constructor|]. done.
Qed.

(** ** Properties *)

(** C18 The requests of a transaction on a connection that is not lost: START
    TRANSACTION, then the elements in order, then COMMIT and the result 0 when
    every element succeeded; or, after the first element that failed, ROLLBACK
    and nothing more, the later elements never being sent.  Each element is sent
    once.  (START TRANSACTION, COMMIT and ROLLBACK may themselves fail
    unnoticed: [b0] and [b1].) *)
Theorem ExecuteTransaction_trace (fuel : nat) (t : Transaction) (st st' : cstate) (r : Z) (evs : list event) :
  _mysqlHandle (conn st) = true → _queries t ≠ [] →
  ExecuteTransaction fuel t st = Done (r, st') → events st' = events st ++ evs → no_reconnect evs →
  ∃ b0 b1,
    (r = 0%Z ∧ ∃ body, Forall2 (λ d, request_of d true) (_queries t) body ∧
       evs = EvQuery "START TRANSACTION" b0 :: body ++ [EvQuery "COMMIT" b1]) ∨
    (∃ before d after body e, _queries t = before ++ d :: after ∧
       Forall2 (λ d, request_of d true) before body ∧ request_of d false e ∧
       evs = EvQuery "START TRANSACTION" b0 :: body ++ [e; EvQuery "ROLLBACK" b1]).
Proof.
  intros Hh Hne Hrun Hevs Hno. unfold ExecuteTransaction in Hrun.
  destruct (_queries t) as [|d0 ds] eqn:Hq; [done|]. rewrite <- Hq in *.
  apply M_bind_Done in Hrun as (u & st1 & Hb & Hrun). unfold BeginTransaction in Hb.
  apply M_bind_Done in Hb as (b0 & st1' & (ev1 & He1 & Hno1)%Execute_events & Hb). inv_M.
  match goal with H : ExecuteTransaction_loop _ _ _ = Done _ |- _ =>
    apply ExecuteTransaction_loop_events in H as (ev2 & He2 & Hno2) end.
  match goal with H : (match ?r with Some _ => _ | None => _ end) _ = Done _ |- _ => rename H into Hend; set (r' := r) in * end.
  destruct r' as [code|] eqn:Hr'; inv_M.
  - assert (evs = ev1 ++ ev2) as ->.
    { pose proof (adds_trans _ _ _ _ _ He1 He2) as Ht. unfold adds_events in Ht. rewrite Hevs in Ht.
      by apply app_inv_head in Ht. }
    apply no_reconnect_app in Hno as [Hn1 Hn2].
    destruct (Hno1 Hh ltac:(done) Hn1) as [-> Hl1].
    destruct (Hno2 (eq_trans (proj1 Hl1) Hh) Hn2)
      as [_ [[? _]|(c & before & d & after & body & e & b & ? & -> & Hall & He & ->)]]; [done|].
    exists b0, b. right. exists before, d, after, body, e. done.
  - unfold CommitTransaction in *. inv_M.
    match goal with H : Execute _ "COMMIT" _ = Done (?b, _) |- _ =>
      rename b into b1; apply Execute_events in H as (ev3 & He3 & Hno3) end.
    assert (evs = ev1 ++ ev2 ++ ev3) as ->.
    { pose proof (adds_trans _ _ _ _ _ He1 (adds_trans _ _ _ _ _ He2 He3)) as Ht.
      unfold adds_events in Ht. rewrite Hevs in Ht. by apply app_inv_head in Ht. }
    apply no_reconnect_app in Hno as [Hn1 [Hn2 Hn3]%no_reconnect_app].
    destruct (Hno1 Hh ltac:(done) Hn1) as [-> Hl1].
    destruct (Hno2 (eq_trans (proj1 Hl1) Hh) Hn2)
      as [Hl2 [[_ Hall]|(c & before & d & after & body & e & b & ? & _)]]; [|done].
    destruct (Hno3 (eq_trans (proj1 Hl2) (eq_trans (proj1 Hl1) Hh)) ltac:(done) Hn3) as [-> _].
    exists b0, b1. left. split; [done|]. exists ev2. done.
Qed.

(** A connection over a Unix socket can be opened once: [Open] overwrites
    the host "." of the connection information by "localhost", so the next
    [Open] of a connection that shares the information (a reconnection, or the
    next connection of the pool) reads the path of the socket as a port and
    dereferences an empty optional. *)
Theorem Open_socket_twice (st st' : cstate) (r : Z) :
  Host (_connectionInfo (conn st)) = "." →
  StringTo uint32 (PortOrSocket (_connectionInfo (conn st))) = None →
  Open st = Done (r, st') → (mysql_init client (srv st)).1 = true → (mysql_init client (srv st')).1 = true →
  Host (_connectionInfo (conn st')) = "localhost" ∧
  Open st' = Crash "dereference of an empty optional".
Proof.
  intros Hh Hp HO Hi Hi'. unfold Open in HO.
  apply M_bind_Done in HO as (i & st1 & Hst1 & HO). unfold call in Hst1.
  destruct (mysql_init client (srv st)) as [i0 s0]. cbn in Hi. subst i0. injection Hst1 as <- <-.
  cbn [negb] in HO. apply M_bind_Done in HO as (c & st2 & Hc & HO). injection Hc as <- <-.
  apply M_bind_Done in HO as (ep & st3 & Hep & HO). unfold Open_endpoint, set_info in Hep. cbn in Hep.
  rewrite Hh in Hep. cbn in Hep. injection Hep as <- <-.
  M_step HO. M_step HO.
  apply M_bind_Done in HO as (u & st4 & (_ & Hinf & _)%set_handle_spec & HO). cbn in Hinf.
  assert (_connectionInfo (conn st') = _connectionInfo (conn st4)) as Heq.
  { match type of HO with (if ?f then _ else _) _ = _ => destruct f end; by inv_M. }
  rewrite Hinf in Heq. split; [by rewrite Heq|].
  unfold Open, call, mbind, M_bind. destruct (mysql_init client (srv st')) as [i0 s1]. cbn in Hi'. subst i0.
  cbn -[StringTo]. unfold Open_endpoint. rewrite Heq. cbn -[StringTo]. by rewrite Hp.
Qed.
End Connection.

(** The tactics of the section, for the files that use connections. *)
Ltac inv_prim :=
  match goal with
  | H : get_conn _ = Done _ |- _ => injection H as <- <-
  | H : set_conn _ _ = Done _ |- _ => injection H as <- <-
  | H : emit _ _ = Done _ |- _ => injection H as <- <-
  | H : mret _ _ = Done _ |- _ => injection H as <- <-
  | H : ask _ _ = Done _ |- _ => injection H as <- <-
  | H : GetLastError _ = Done _ |- _ => unfold GetLastError in H; injection H as <- <-
  | H : crash _ _ = Done _ |- _ => discriminate H
  | H : out_of_fuel _ = Done _ |- _ => discriminate H
  | H : call ?f ?st = Done _ |- _ =>
      unfold call in H; destruct (f (srv st)) as [? ?] eqn:?; injection H as <- <-
  end.
Ltac inv_M :=
  repeat first
    [ inv_prim
    | match goal with
      | H : (_ ≫= _) _ = Done (_, _) |- _ => apply M_bind_Done in H as (? & ? & ? & ?)
      end ].
(** One step of a sequence. *)
Ltac M_step H := apply M_bind_Done in H as (? & ? & ?Hstep & H); try inv_prim.

(** ** A scripted library for the witnesses: the error code of every query in
    turn (0: success); connecting always succeeds. *)
Record script := mk_script { sc_codes : list Z; sc_errno : Z; sc_time : Z }.

Definition script_query (s : script) : bool * script :=
  match sc_codes s with
  | [] => (false, mk_script [] 0 (sc_time s))
  | e :: codes => (negb (e =? 0)%Z, mk_script codes e (sc_time s))
  end.
Definition script_clock (s : script) : Z * script :=
  (sc_time s, mk_script (sc_codes s) (sc_errno s) (sc_time s + 1)).

Definition script_client : mysql_client script := {|
  mysql_init := λ s, (true, s);
  mysql_real_connect := λ _ s, (true, s);
  mysql_close := λ s, s;
  mysql_autocommit := λ s, s;
  mysql_set_character_set := λ s, s;
  mysql_errno := sc_errno;
  mysql_query := λ _ s, script_query s;
  mysql_stmt_init := λ s, (Some 1%Z, s);
  mysql_stmt_prepare := λ _ _ s, (false, s);
  mysql_stmt_param_count := λ _ _, 0;
  mysql_stmt_bind_param := λ _ _ s, (false, s);
  mysql_stmt_execute := λ _ s, script_query s;
  mysql_store_result := λ s, (Some 0, s);
  mysql_affected_rows := λ _, 1%Z;
  mysql_field_count := λ _, 1%Z;
  mysql_stmt_num_rows := λ _ _, 1%Z;
  mysql_stmt_field_count := λ _ _, 1%Z;
  mysql_stmt_result_metadata := λ _ s, (Some 0, s);
  mysql_fetch_row := λ _ s, (true, s);
  system_clock := script_clock;
  steady_clock := script_clock;
|}.

Definition ex_conn (info : string) : MySQLConnection :=
  mk_MySQLConnection true (MySQLConnectionInfo_new info) flag_Async [] false false 0.
Definition ex_state (info : string) (codes : list Z) : cstate (S := script) :=
  mk_cstate (ex_conn info) (mk_script codes 0 0) [].
Definition ex_transaction : Transaction :=
  Append_raw "INSERT 2" (Append_raw "INSERT 1" Transaction_new).
Definition end_state (m : outcome db_error (Z * cstate (S := script))) : cstate (S := script) :=
  match m with Done (_, st) => st | _ => ex_state EmptyString [] end.

(** The second statement meets a deadlock. *)
Lemma ExecuteTransaction_trace_witness :
  ∃ b0 b1,
    (ER_LOCK_DEADLOCK = 0%Z ∧ ∃ body, Forall2 (λ d, request_of d true) (_queries ex_transaction) body ∧
       [EvQuery "START TRANSACTION" true; EvQuery "INSERT 1" true; EvQuery "INSERT 2" false; EvQuery "ROLLBACK" true]
       = EvQuery "START TRANSACTION" b0 :: body ++ [EvQuery "COMMIT" b1]) ∨
    (∃ before d after body e, _queries ex_transaction = before ++ d :: after ∧
       Forall2 (λ d, request_of d true) before body ∧ request_of d false e ∧
       [EvQuery "START TRANSACTION" true; EvQuery "INSERT 1" true; EvQuery "INSERT 2" false; EvQuery "ROLLBACK" true]
       = EvQuery "START TRANSACTION" b0 :: body ++ [e; EvQuery "ROLLBACK" b1]).
Proof.
  apply (ExecuteTransaction_trace script_client 9 ex_transaction (ex_state "h;1;u;p;d" [0; 0; 1213]%Z)
    (end_state (ExecuteTransaction script_client 9 ex_transaction (ex_state "h;1;u;p;d" [0; 0; 1213]%Z)))).
  - vm_compute. reflexivity.
  - discriminate.
  - vm_compute. reflexivity.
  - vm_compute. reflexivity.
  - repeat constructor.
Defined.

Lemma Open_socket_twice_witness :
  Open script_client (end_state (Open script_client (ex_state ".;/run/mysqld.sock;u;p;d" [])))
  = Crash "dereference of an empty optional".
Proof.
  apply (Open_socket_twice script_client (ex_state ".;/run/mysqld.sock;u;p;d" [])
    (end_state (Open script_client (ex_state ".;/run/mysqld.sock;u;p;d" []))) 0);
    (vm_compute; reflexivity).
Defined.

(** A connection lost in the middle of a transaction splits it: the
    statement that met the error is sent again after the reconnection, on a new
    session without a transaction, the rest and a COMMIT follow, and the result
    is 0, although what was sent before the loss is rolled back by the server. *)
Theorem transaction_split_by_reconnect :
  ∃ st', ExecuteTransaction script_client 9 ex_transaction (ex_state "h;1;u;p;d" [0; 0; CR_SERVER_LOST]%Z)
           = Done (0%Z, st') ∧
    ∃ args, events st' =
      [EvQuery "START TRANSACTION" true; EvQuery "INSERT 1" true; EvQuery "INSERT 2" false;
       EvClose; EvOpen args true; EvQuery "INSERT 2" true; EvQuery "COMMIT" true].
Proof.
  exists (end_state (ExecuteTransaction script_client 9 ex_transaction
    (ex_state "h;1;u;p;d" [0; 0; CR_SERVER_LOST]%Z))).
  split; [vm_compute; reflexivity|]. eexists. vm_compute. reflexivity.
Qed.
