(* ===== verification/Transaction.v ===== *)
(** * Operations of the asynchronous connections

    server/database/Database/Transaction.cpp (TransactionTask and
    TransactionWithResultTask) and DatabaseAsyncOperation.cpp (statements).  A
    task runs on its connection, in the monad of the file Connection; the calls
    of [set_value] on its promise are returned as a list.  The retries of a
    deadlocked transaction are a loop on the steady clock. *)
From S2P Require Import Prelude Timer Prepared Connection.

(** [DEADLOCK_MAX_RETRY_TIME_MS]: one minute. *)
Definition DEADLOCK_MAX_RETRY_TIME_MS : Z := 60000.

Section Tasks.
Context {S : Type} (client : mysql_client S).

(** ** The retry loop *)
Definition TryExecute (fuel : nat) (trans : Transaction) : M (S := S) Z :=
  ExecuteTransaction client fuel trans.

Definition GetTimeMS : M (S := S) Z := call (steady_clock client).

(** The [for] loop: what [TryExecute] returned each time. *)
Fixpoint retry_loop (rounds fuel : nat) (trans : Transaction) (loopDuration startMSTime : Z) : M (S := S) (list Z) :=
  if (DEADLOCK_MAX_RETRY_TIME_MS <? loopDuration)%Z then mret []
  else
    match rounds with
    | O => out_of_fuel
    | Datatypes.S rounds =>
        code ← TryExecute fuel trans;
        if (code =? 0)%Z then mret [code]
        else
          now ← GetTimeMS;
          codes ← retry_loop rounds fuel trans (GetMSTimeDiff startMSTime now) startMSTime;
          mret (code :: codes)
    end.

Definition CleanupOnFailure (trans : Transaction) : M (S := S) Transaction := lift (Cleanup trans).

(** What the two [ExecuteQuery] share: the codes of all attempts. *)
Definition try_all (rounds fuel : nat) (trans : Transaction) : M (S := S) (list Z) :=
  errorCode ← TryExecute fuel trans;
  if (errorCode =? ER_LOCK_DEADLOCK)%Z then
    startMSTime ← GetTimeMS;
    codes ← retry_loop rounds fuel trans 0 startMSTime;
    mret (errorCode :: codes)
  else mret [errorCode].

Definition succeeded (codes : list Z) : bool := bool_decide (last codes = Some 0%Z).

(** [TransactionTask::ExecuteQuery] *)
Definition TransactionTask_ExecuteQuery (rounds fuel : nat) (trans : Transaction) : M (S := S) Transaction :=
  codes ← try_all rounds fuel trans;
  if succeeded codes then mret trans else CleanupOnFailure trans.

(** [TransactionWithResultTask::ExecuteQuery]: the attempts, the transaction
    and the values given to the promise. *)
Definition TransactionWithResultTask_ExecuteQuery (rounds fuel : nat) (trans : Transaction)
    : M (S := S) (list Z * Transaction * list bool) :=
  codes ← try_all rounds fuel trans;
  if succeeded codes then mret (codes, trans, [true])
  else
    trans ← CleanupOnFailure trans;
    mret (codes, trans, [false]).

(** ** DatabaseAsyncOperation.cpp: the result given to the promise, if any *)
Definition BasicStatementTask_ExecuteQuery (fuel : nat) (sql : string) (hasResult : bool)
    : M (S := S) (list (option (nat * Z * Z))) :=
  if hasResult then
    result ← Query client fuel sql;
    match result with
    | None => mret [None]
    | Some (r, rowCount, fieldCount) =>
        if (rowCount =? 0)%Z then mret [None]
        else
          next ← call (mysql_fetch_row client r);
          if negb (next : bool) then mret [None] else mret [Some (r, rowCount, fieldCount)]
    end
  else _ ← Execute client fuel sql; mret [].

Definition PreparedStatementTask_ExecuteQuery (fuel : nat) (stmt : PreparedStatementBase) (hasResult : bool)
    : M (S := S) (list (option (option nat * Z * Z))) :=
  if hasResult then
    result ← Query_stmt client fuel stmt;
    match result with
    | None => mret [None]
    | Some (r, rowCount, fieldCount) =>
        if (rowCount =? 0)%Z then mret [None] else mret [Some (r, rowCount, fieldCount)]
    end
  else _ ← Execute_stmt client fuel (Some stmt); mret [].

(** ** Lemmas *)
Lemma retry_loop_codes rounds fuel trans d start st codes st' :
  retry_loop rounds fuel trans d start st = Done (codes, st') →
  ∀ i c, codes !! i = Some c → c = 0%Z → Datatypes.S i = length codes.
Proof.
  revert d st codes. induction rounds as [|rounds IH]; intros d st codes; cbn [retry_loop];
    destruct (_ <? _)%Z; try done; try (by intros [= <- <-] i c Hi).
  intros H. apply M_bind_Done in H as (code & st1 & _ & H).
  destruct (Z.eqb_spec code 0) as [->|Hc].
  - injection H as <- <-. intros [|i] c Hi _; by inversion Hi.
  - apply M_bind_Done in H as (now & st2 & _ & H). apply M_bind_Done in H as (codes' & st3 & Hl & H).
    injection H as <- <-. intros [|i] c Hi H0; cbn in Hi; [congruence|].
    cbn. f_equal. by eapply IH.
Qed.

Lemma try_all_codes rounds fuel trans st codes st' :
  try_all rounds fuel trans st = Done (codes, st') →
  (∃ c, codes = [c] ∧ c ≠ ER_LOCK_DEADLOCK) ∨
  (∃ cs, codes = ER_LOCK_DEADLOCK :: cs ∧ ∀ i c, cs !! i = Some c → c = 0%Z → Datatypes.S i = length cs).
Proof.
  unfold try_all. intros H. apply M_bind_Done in H as (code & st1 & _ & H).
  destruct (Z.eqb_spec code ER_LOCK_DEADLOCK) as [->|Hc].
  - apply M_bind_Done in H as (start & st2 & _ & H). apply M_bind_Done in H as (cs & st3 & Hl & H).
    injection H as <- <-. right. exists cs. split; [done|]. by eapply retry_loop_codes.
  - injection H as <- <-. left. eauto.
Qed.

(** *** Termination: time passes *)

(** [k] rounds of the loop, in each of which the attempt fails and the clock is read. *)
Inductive failing (fuel : nat) (trans : Transaction) : nat → cstate (S := S) → cstate (S := S) → Prop :=
| failing_none st : failing fuel trans 0 st st
| failing_round k code now st st1 st2 st' :
    TryExecute fuel trans st = Done (code, st1) → code ≠ 0%Z → GetTimeMS st1 = Done (now, st2) →
    failing fuel trans k st2 st' → failing fuel trans (Datatypes.S k) st st'.

Lemma failing_split fuel trans a b st st' : failing fuel trans (a + b) st st' →
  ∃ mid, failing fuel trans a st mid ∧ failing fuel trans b mid st'.
Proof.
  revert st. induction a as [|a IH]; intros st Hf; [exists st; split; [constructor|done]|]. cbn in Hf.
  inversion Hf as [|? ? ? ? ? ? ? Ht Hc Hg Hr]; subst. destruct (IH _ Hr) as (mid & Ha & Hb).
  exists mid. split; [by econstructor|done].
Qed.

(** The clock reads [time], which does not go back; a millisecond is over after
    [n] rounds at the latest. *)
Record passes (time : S → Z) (n fuel : nat) (trans : Transaction) : Prop := {
  p_reading : ∀ s, (steady_clock client s).1 = time s ∧ (time s ≤ time (steady_clock client s).2)%Z;
  p_attempt : ∀ st c st', TryExecute fuel trans st = Done (c, st') → (time (srv st) ≤ time (srv st'))%Z;
  p_tick : ∀ st st', failing fuel trans n st st' → (time (srv st) < time (srv st'))%Z }.

(** The rounds that are enough when [n] of them take a millisecond. *)
Definition rounds_of_a_minute (n : nat) : nat := Z.to_nat 60001 * n.

Section Time.
Context (time : S → Z) (n fuel : nat) (trans : Transaction) (Htime : passes time n fuel trans).

Lemma GetTimeMS_time st now st' : GetTimeMS st = Done (now, st') →
  now = time (srv st) ∧ (time (srv st) ≤ time (srv st'))%Z.
Proof.
  unfold GetTimeMS, call. destruct (p_reading _ _ _ _ Htime (srv st)) as [H1 H2].
  destruct (steady_clock client (srv st)) as [t s2]. intros H. injection H as <- <-. by split.
Qed.

Lemma failing_time j st st' : failing fuel trans (j * n) st st' → (time (srv st) + Z.of_nat j ≤ time (srv st'))%Z.
Proof.
  revert st. induction j as [|j IH]; intros st Hf; cbn in Hf; [inversion Hf; subst; lia|].
  apply failing_split in Hf as (mid & Hn & Hj). apply IH in Hj. apply (p_tick _ _ _ _ Htime) in Hn. lia.
Qed.

Lemma retry_loop_round r d start st :
  retry_loop (Datatypes.S r) fuel trans d start st = Throw OutOfFuel →
  TryExecute fuel trans st = Throw OutOfFuel ∨
  ∃ code st1 st2, TryExecute fuel trans st = Done (code, st1) ∧ code ≠ 0%Z ∧
    GetTimeMS st1 = Done (time (srv st1), st2) ∧
    retry_loop r fuel trans (GetMSTimeDiff start (time (srv st1))) start st2 = Throw OutOfFuel.
Proof.
  cbn [retry_loop]. destruct (_ <? d)%Z; [done|]. unfold mbind, M_bind.
  destruct (TryExecute fuel trans st) as [[c st1]|[]|]; [|by left|done].
  destruct (Z.eqb_spec c 0) as [|Hc]; [done|]. destruct (GetTimeMS st1) as [[now st2]|[]|] eqn:Eg; [| |done].
  - destruct (GetTimeMS_time _ _ _ Eg) as [-> _]. intros H. right. exists c, st1, st2. repeat split; try done.
    by destruct (retry_loop r _ _ _ _ st2) as [[? ?]|[]|].
  - unfold GetTimeMS, call in Eg. by destruct (steady_clock client (srv st1)).
Qed.

(** What a loop did that used up its rounds: an attempt did not return, or all of
    them failed, and the last reading was within the minute. *)
Lemma retry_loop_rounds r d start st :
  retry_loop (Datatypes.S r) fuel trans d start st = Throw OutOfFuel →
  (∃ k mid, k ≤ r ∧ failing fuel trans k st mid ∧ TryExecute fuel trans mid = Throw OutOfFuel) ∨
  (∃ mid code st1, failing fuel trans r st mid ∧ TryExecute fuel trans mid = Done (code, st1) ∧
     (GetMSTimeDiff start (time (srv st1)) ≤ DEADLOCK_MAX_RETRY_TIME_MS)%Z).
Proof.
  revert d st. induction r as [|r IH]; intros d st [E|(c & st1 & st2 & E & Hc & Eg & H)]%retry_loop_round;
    [left; exists 0, st; eauto using failing| |left; exists 0, st; split; [lia|]; eauto using failing|].
  - right. exists st, c, st1. split; [constructor|]. split; [done|]. cbn in H.
    by destruct (Z.ltb_spec DEADLOCK_MAX_RETRY_TIME_MS (GetMSTimeDiff start (time (srv st1)))).
  - destruct (IH _ _ H) as [(k & mid & Hk & Hf & Ht)|(mid & c' & st4 & Hf & Ht & Hd)].
    + left. exists (Datatypes.S k), mid. split; [lia|]. split; [by econstructor|done].
    + right. exists mid, c', st4. split; [by econstructor|done].
Qed.

Lemma retry_loop_ends start st d : (start ≤ time (srv st))%Z →
  retry_loop (Datatypes.S (rounds_of_a_minute n)) fuel trans d start st = Throw OutOfFuel →
  ∃ k mid, k ≤ rounds_of_a_minute n ∧ failing fuel trans k st mid ∧ TryExecute fuel trans mid = Throw OutOfFuel.
Proof.
  intros Hs [H|(mid & code & st1 & Hf & Ht & Hd)]%retry_loop_rounds; [done|]. exfalso.
  unfold rounds_of_a_minute in Hf. apply failing_time in Hf. apply (p_attempt _ _ _ _ Htime) in Ht.
  unfold GetMSTimeDiff, DEADLOCK_MAX_RETRY_TIME_MS in Hd. destruct (Z.ltb_spec (time (srv st1)) start); lia.
Qed.
End Time.
End Tasks.

(** ** Properties *)

(** C22 A transaction with a result answers exactly once, and truly: the promise
    is set to true if and only if the last attempt returned 0; there is a second
    attempt only after a deadlock, and none after a success; a failed transaction
    is cleaned up, a successful one is left alone. *)
Theorem transaction_answers_once {S : Type} (client : mysql_client S) (rounds fuel : nat) (trans trans' : Transaction)
    (st st' : cstate) (codes : list Z) (answers : list bool) :
  TransactionWithResultTask_ExecuteQuery client rounds fuel trans st = Done ((codes, trans', answers), st') →
  (∃ c, codes = [c] ∧ c ≠ ER_LOCK_DEADLOCK ∨
        ∃ cs, codes = ER_LOCK_DEADLOCK :: cs ∧ ∀ i c, cs !! i = Some c → c = 0%Z → Datatypes.S i = length cs) ∧
  answers = [bool_decide (last codes = Some 0%Z)] ∧
  (last codes = Some 0%Z → trans' = trans) ∧
  (last codes ≠ Some 0%Z → Cleanup trans = Done trans').
Proof.
  unfold TransactionWithResultTask_ExecuteQuery. intros H.
  apply M_bind_Done in H as (cs & st1 & Hc & H). apply try_all_codes in Hc.
  assert (codes = cs ∧ answers = [succeeded cs] ∧ (succeeded cs = true → trans' = trans) ∧
    (succeeded cs = false → Cleanup trans = Done trans')) as (-> & -> & Ht & Hf).
  { destruct (succeeded cs).
    - by injection H as <- <- <- _.
    - apply M_bind_Done in H as (t1 & st2 & [-> Hl]%lift_spec & H). by injection H as <- <- <- _. }
  unfold succeeded in *. split; [|split; [done|split]].
  - destruct Hc as [(c & Hc & Hn)|(l & Hc & Hl)]; [by exists c; left|by exists 0%Z; right; exists l].
  - intros Hl. apply Ht. by apply bool_decide_eq_true_2.
  - intros Hl. apply Hf. by apply bool_decide_eq_false_2.
Qed.

(** C34 The retries of a deadlocked transaction end.  On a clock that does not go
    back, and of which every [n] rounds of the loop take a millisecond or more, the
    whole operation makes at most [60001 n + 2] attempts: it gives up or succeeds,
    or one of its attempts does not return (a statement on a connection that is
    lost again and again is tried for ever). *)
Theorem deadlock_retries_end {S : Type} (client : mysql_client S) (time : S → Z) (n fuel : nat) (trans : Transaction)
    (st : cstate) :
  passes client time n fuel trans →
  try_all client (Datatypes.S (rounds_of_a_minute n)) fuel trans st ≠ Throw OutOfFuel ∨
  TryExecute client fuel trans st = Throw OutOfFuel ∨
  ∃ code st1 start st2 k mid, TryExecute client fuel trans st = Done (code, st1) ∧ code = ER_LOCK_DEADLOCK ∧
    GetTimeMS client st1 = Done (start, st2) ∧ k ≤ rounds_of_a_minute n ∧
    failing client fuel trans k st2 mid ∧ TryExecute client fuel trans mid = Throw OutOfFuel.
Proof.
  intros Htime. unfold try_all, mbind, M_bind.
  destruct (TryExecute client fuel trans st) as [[c st1]|[]|] eqn:E; [|by right; left|by left].
  destruct (Z.eqb_spec c ER_LOCK_DEADLOCK) as [->|]; [|by left].
  destruct (GetTimeMS client st1) as [[start st2]|[]|] eqn:Eg; [| |by left].
  - destruct (GetTimeMS_time client time n fuel trans Htime _ _ _ Eg) as [-> Hle].
    destruct (retry_loop client _ fuel trans 0 _ st2) as [[cs st3]|[]|] eqn:El; [by left| |by left]. right; right.
    destruct (retry_loop_ends client time n fuel trans Htime _ _ _ Hle El) as (k & mid & Hk & Hf & Ht).
    by exists ER_LOCK_DEADLOCK, st1, (time (srv st1)), st2, k, mid.
  - unfold GetTimeMS, call in Eg. by destruct (steady_clock client (srv st1)).
Qed.

(** ** Witnesses *)
Definition ex_task : outcome db_error (list Z * Transaction * list bool * cstate (S := script)) :=
  TransactionWithResultTask_ExecuteQuery script_client 9 9 ex_transaction
    (ex_state "h;1;u;p;d" [0; 1213; 0; 0; 0; 0; 0]%Z).

Lemma transaction_answers_once_witness :
  [true] = [bool_decide (last [1213; 0]%Z = Some 0%Z)].
Proof.
  apply (transaction_answers_once script_client 9 9 ex_transaction ex_transaction
    (ex_state "h;1;u;p;d" [0; 1213; 0; 0; 0; 0; 0]%Z)
    (match ex_task with Done (_, st) => st | _ => ex_state EmptyString [] end) [1213; 0]%Z [true]).
  vm_compute. reflexivity.
Defined.

(** A server that answers every query with a deadlock; two readings of the clock
    in a row may be equal. *)
Definition deadlock_client : mysql_client Z := {|
  mysql_init := λ s, (true, s);
  mysql_real_connect := λ _ s, (true, s);
  mysql_close := λ s, s;
  mysql_autocommit := λ s, s;
  mysql_set_character_set := λ s, s;
  mysql_errno := λ _, ER_LOCK_DEADLOCK;
  mysql_query := λ _ s, (true, s);
  mysql_stmt_init := λ s, (None, s);
  mysql_stmt_prepare := λ _ _ s, (true, s);
  mysql_stmt_param_count := λ _ _, 0;
  mysql_stmt_bind_param := λ _ _ s, (true, s);
  mysql_stmt_execute := λ _ s, (true, s);
  mysql_store_result := λ s, (None, s);
  mysql_affected_rows := λ _, 0%Z;
  mysql_field_count := λ _, 0%Z;
  mysql_stmt_num_rows := λ _ _, 0%Z;
  mysql_stmt_field_count := λ _ _, 0%Z;
  mysql_stmt_result_metadata := λ _ s, (None, s);
  mysql_fetch_row := λ _ s, (false, s);
  system_clock := λ s, (s, (s + 1)%Z);
  steady_clock := λ s, ((s / 2)%Z, (s + 1)%Z);
|}.

Definition deadlocked : Transaction := Append_raw "Q" Transaction_new.

Lemma deadlock_attempt st : ∃ c st', TryExecute deadlock_client 1 deadlocked st = Done (c, st') ∧ srv st' = srv st.
Proof. destruct st as [[[] ? ? ? ? ? ?] s e]; eexists _, _; split; reflexivity. Qed.

Lemma deadlock_passes : passes deadlock_client (λ s, s / 2)%Z 2 1 deadlocked.
Proof.
  assert (∀ st c st', TryExecute deadlock_client 1 deadlocked st = Done (c, st') → srv st' = srv st) as Hsrv.
  { intros st c st' H. destruct (deadlock_attempt st) as (c0 & st0 & H0 & <-). congruence. }
  split.
  - intros s. cbn. split; [done|]. apply Z.div_le_mono; lia.
  - intros st c st' H%Hsrv. by rewrite H.
  - intros st st' Hf. inversion Hf as [|k c now st0 st1 st2 st3 H1 _ Hg1 Hf2]; subst.
    inversion Hf2 as [|k c2 now2 st4 st5 st6 st7 H2 _ Hg2 Hf3]; subst. inversion Hf3; subst.
    apply Hsrv in H1, H2. injection Hg1 as _ <-. injection Hg2 as _ <-. cbn in *. rewrite H2, H1.
    replace (srv st + 1 + 1)%Z with (srv st + 1 * 2)%Z by lia. rewrite Z.div_add by done. lia.
Qed.

Lemma deadlock_retries_end_witness :
  TryExecute deadlock_client 1 deadlocked (mk_cstate (ex_conn "h;1;u;p;d") 0%Z [])
    = Done (ER_LOCK_DEADLOCK, mk_cstate (ex_conn "h;1;u;p;d") 0%Z
        [EvQuery "START TRANSACTION" false; EvQuery "Q" false; EvQuery "ROLLBACK" false]) ∧
  try_all deadlock_client (Datatypes.S (rounds_of_a_minute 2)) 1 deadlocked
    (mk_cstate (ex_conn "h;1;u;p;d") 0%Z []) ≠ Throw OutOfFuel.
Proof.
  split; [vm_compute; reflexivity|].
  assert (∀ st, TryExecute deadlock_client 1 deadlocked st ≠ Throw OutOfFuel) as Hret
    by (intros st H; destruct (deadlock_attempt st) as (c & st' & H' & _); congruence).
  destruct (deadlock_retries_end deadlock_client (λ s, s / 2)%Z 2 1 deadlocked
    (mk_cstate (ex_conn "h;1;u;p;d") 0%Z []) deadlock_passes)
    as [H|[H|(c & st1 & start & st2 & k & mid & _ & _ & _ & _ & _ & H)]];
    [exact H|destruct (Hret _ H)|destruct (Hret _ H)].
Defined.
