(* ===== verification/Config.v ===== *)
(** * Configuration: common/Configuration/Config.cpp and BuiltInConfig.cpp

    The file-level variables [_filename], [_configOptions] and
    [_usingDistConfig] are the record [ConfigState], with the lines the
    functions print.  Functions run in a monad of state and exceptions whose
    state survives a throw, so that "nothing is added by a file with an error"
    is a theorem and not a choice of representation.

    - Files are an argument [fs]: the name of a file gives its content and, if
      the device fails, the line at which reading fails.
    - [std::unordered_map] is a [gmap]; the order in which a loop visits its
      entries is an argument [order] of which only "a permutation of the
      entries" is assumed.
    - [CONFIG_ABORT_INCORRECT_OPTIONS] is the flag [abort_incorrect].
    - The mutex is not modelled: each function is one atomic step. *)
From S2P Require Import Prelude CppString Convert.

(** What [fmt::print] writes. *)
Inductive config_line :=
| IncorrectOption (optionName fileName : string)
| DuplicateKey (confOption file : string)
| FailureToReadLine (lineNumber : Z) (file : string)
| ExceptionText (what : string).

Record ConfigState := mk_ConfigState {
  _filename : string;
  _configOptions : gmap string string;
  _usingDistConfig : bool;
  printed : list config_line }.

Definition initial_state : ConfigState := mk_ConfigState "" ∅ false [].

Definition set_options (m : gmap string string) (s : ConfigState) : ConfigState :=
  mk_ConfigState (_filename s) m (_usingDistConfig s) (printed s).

(** ** The monad *)
Abbreviation CM := (SM string ConfigState).
Definition modify_options (f : gmap string string → gmap string string) : CM unit :=
  modify_state (λ s, set_options (f (_configOptions s)) s).
Definition fmt_print (l : config_line) : CM unit := modify_state (λ s,
  mk_ConfigState (_filename s) (_configOptions s) (_usingDistConfig s) (printed s ++ [l])).

(** ** Files *)
Definition newline : ascii := ascii_of_nat 10.
Definition quote : ascii := ascii_of_nat 34.

Record file := mk_file { content : string; fails_at : option nat }.

(** What successive calls of [std::getline] give: the last line is the one the
    end of the file cuts off (it is empty when the file ends in a newline);
    [None] is a read that sets [badbit]. *)
Definition getlines (f : file) : list (option string) :=
  let lines := split_on newline (content f) in
  match fails_at f with
  | None => Some <$> lines
  | Some n => (Some <$> take n lines) ++ [None]
  end.

(** ** One line of a file *)
Inductive line_kind :=
| Ignored
| Malformed
| Entry (entry value : string).

Definition parse_line (line : string) : line_kind :=
  let line := Trim line in
  match line with
  | EmptyString => Ignored
  | String c _ =>
      if Ascii.eqb c "#" || Ascii.eqb c "[" then Ignored
      else
        let line := match find_from "#" line 0 with
                    | Some found => String.substring 0 found line
                    | None => line
                    end in
        match find_from "=" line 0 with
        | None => Malformed
        | Some equal_pos =>
            if (equal_pos =? String.length line)%nat then Malformed
            else
              let entry := Trim (String.substring 0 equal_pos line) in
              let value := Trim (substr_from (S equal_pos) line) in
              Entry entry (erase_char quote value)
        end
  end.

(** [emplace]: a key that is there already keeps its value. *)
Definition emplace {A : Type} (k : string) (v : A) (m : gmap string A) : gmap string A :=
  match m !! k with Some _ => m | None => <[k := v]> m end.

Definition IsLoggingSystemOptions (optionName : string) : bool :=
  contains_sub "LogChannel." optionName || contains_sub "Logger." optionName.

Section Loading.
Context (abort_incorrect : bool) (order : gmap string string → list (string * string))
  (fs : string → option file).

Definition AddKey (optionName optionKey fileName : string) (isOptional : bool) : CM unit :=
  s ← get_state;
  let itr := _configOptions s !! optionName in
  if isOptional && negb (bool_decide (is_Some itr)) && negb (IsLoggingSystemOptions optionName)
  then
    _ ← fmt_print (IncorrectOption optionName fileName);
    if abort_incorrect then abort "> Core can't start if found incorrect options" else mret ()
  else
    _ ← (if bool_decide (is_Some itr) then modify_options (delete optionName) else mret ());
    modify_options (emplace optionName optionKey).

(** The [while] loop of [ParseFile]. *)
Fixpoint ParseFile_loop (lines : list (option string)) (fileName : string)
    (lineNumber count : Z) (fileConfigs : gmap string string) : CM (Z * gmap string string) :=
  match lines with
  | [] => mret (count, fileConfigs)
  | getline :: lines =>
      let lineNumber := wrap_u 32 (lineNumber + 1) in
      match getline with
      | None => throw "> Config::LoadFile: Failure to read line number"
      | Some line =>
          match parse_line line with
          | Ignored => ParseFile_loop lines fileName lineNumber count fileConfigs
          | Malformed =>
              _ ← fmt_print (FailureToReadLine lineNumber fileName);
              ParseFile_loop lines fileName lineNumber count fileConfigs
          | Entry entry value =>
              if bool_decide (is_Some (fileConfigs !! entry)) then
                _ ← fmt_print (DuplicateKey entry fileName);
                ParseFile_loop lines fileName lineNumber count fileConfigs
              else
                ParseFile_loop lines fileName lineNumber (wrap_u 32 (count + 1))
                  (emplace entry value fileConfigs)
          end
      end
  end.

Definition ParseFile (fileName : string) (isOptional : bool) : CM bool :=
  match fs fileName with
  | None => if isOptional then mret false else throw "Config::LoadFile: Failed open file"
  | Some in_ =>
      '(count, fileConfigs) ← ParseFile_loop (getlines in_) fileName 0 0 ∅;
      if (count =? 0)%Z then
        if isOptional then mret false else throw "Config::LoadFile: Empty file"
      else
        _ ← for_each (λ '(entry, key), AddKey entry key fileName isOptional) (order fileConfigs);
        mret true
  end.

Definition LoadFile (fileName : string) (isOptional : bool) : CM bool :=
  try_catch (ParseFile fileName isOptional)
    (λ e, _ ← fmt_print (ExceptionText e); mret false).

Definition LoadInitial (fileName : string) : CM bool :=
  _ ← modify_options (λ _, ∅);
  LoadFile fileName false.

Definition LoadAdditionalFile (fileName : string) : CM bool := LoadFile fileName true.

Definition Configure (initFileName : string) : CM unit := λ s,
  (Done (), mk_ConfigState initFileName (_configOptions s) (_usingDistConfig s) (printed s)).

Definition set_usingDistConfig : CM unit := λ s,
  (Done (), mk_ConfigState (_filename s) (_configOptions s) true (printed s)).

Definition LoadAppConfigs : CM bool :=
  s ← get_state;
  loaded ← LoadInitial (_filename s +:+ ".dist");
  if negb loaded then mret false
  else
    loaded ← LoadAdditionalFile (_filename s);
    _ ← (if negb loaded then set_usingDistConfig else mret ());
    mret true.

Definition GetFilename (s : ConfigState) : string :=
  if _usingDistConfig s then _filename s +:+ ".dist" else _filename s.

Definition GetKeysByString (name : string) (s : ConfigState) : list string :=
  (order (_configOptions s)).*1 ≫= λ optionName,
    if String.eqb (String.substring 0 (String.length name) optionName) name
    then [optionName] else [].
End Loading.

(** ** Reading options *)
Inductive config_log := MissingProperty (name : string) | BadValue (name : string).

(** [GetValueDefault<T>]: the value and what is logged. *)
Definition GetValueDefault (t : int_type) (name : string) (def : Z) (showLogs : bool)
    (s : ConfigState) : Z * list config_log :=
  match _configOptions s !! name with
  | None => (def, if showLogs then [MissingProperty name] else [])
  | Some itr =>
      match StringTo t itr with
      | None => (def, if showLogs then [BadValue name] else [])
      | Some value => (value, [])
      end
  end.

Definition GetValueDefault_string (name def : string) (showLogs : bool) (s : ConfigState)
    : string * list config_log :=
  match _configOptions s !! name with
  | None => (def, if showLogs then [MissingProperty name] else [])
  | Some itr => (itr, [])
  end.

Definition GetOption (t : int_type) (name : string) (def : Z) (showLogs : bool)
    (s : ConfigState) : Z * list config_log := GetValueDefault t name def showLogs s.

Definition GetOption_string (name def : string) (showLogs : bool) (s : ConfigState)
    : string * list config_log := GetValueDefault_string name def showLogs s.

Definition GetOption_bool (name : string) (def : bool) (showLogs : bool) (s : ConfigState)
    : bool * list config_log :=
  let '(val, logs) := GetValueDefault_string name (if def then "1" else "0") showLogs s in
  match FromString_bool val false with
  | None => (def, logs ++ if showLogs then [BadValue name] else [])
  | Some boolVal => (boolVal, logs)
  end.

(** BuiltInConfig.cpp; [getter] is the function of the generated
    GitRevision. *)
Definition GetStringWithDefaultValueFromFunction (key : string) (getter : string)
    (s : ConfigState) : string :=
  let value := fst (GetOption_string key "" true s) in
  if is_empty value then getter else value.

Example parse_line_ex :
  parse_line "# comment" = Ignored ∧ parse_line "[worldserver]" = Ignored ∧
  parse_line ("  Name = " +:+ String quote ("a b" +:+ String quote " # c")) = Entry "Name" "a b" ∧ parse_line "Name" = Malformed.
Proof. repeat split. Qed.

(** ** Reference: what a file says *)

(** The entries of a file, in order. *)
Definition file_entries (f : file) : list (string * string) :=
  split_on newline (content f) ≫= λ line,
    match parse_line line with Entry k v => [(k, v)] | _ => [] end.

(** The first entry of a name counts. *)
Definition file_map (f : file) : gmap string string := list_to_map (file_entries f).

(** What a file contributes; [None] when it is missing, fails or is empty. *)
Definition loadable (f : option file) : option (gmap string string) :=
  match f with
  | Some f =>
      match fails_at f with
      | None => if bool_decide (file_map f = ∅) then None else Some (file_map f)
      | Some _ => None
      end
  | None => None
  end.

(** The options of [m] that a file may set over the options [opts]. *)
Definition acceptable (isOptional : bool) (opts : gmap string string) (k : string) : bool :=
  negb isOptional || bool_decide (is_Some (opts !! k)) || IsLoggingSystemOptions k.

Definition accepted (isOptional : bool) (opts m : gmap string string) : gmap string string :=
  filter (λ kv, acceptable isOptional opts kv.1 = true) m.

(** ** Lemmas *)
(** Unfold the monad's operations. *)
Ltac cm_unfold := unfold modify_options, fmt_print in *; sm_unfold.

Lemma emplace_union {A : Type} (k : string) (v : A) (m rest : gmap string A) :
  emplace k v m ∪ rest = m ∪ <[k := v]> rest.
Proof.
  apply map_eq. intros i. unfold emplace. destruct (m !! k) as [w|] eqn:Hk;
    rewrite !lookup_union; (destruct (decide (i = k)) as [->|];
      [rewrite ?lookup_insert_eq, ?Hk|rewrite ?lookup_insert_ne by done]); try done.
  - by destruct (rest !! k).
  - by destruct (rest !! k).
Qed.

(** Filling a table entry by entry: the first entry of a key counts. *)
Lemma foldl_emplace {A B : Type} (key : B → string) (val : B → A) (l : list B) (m : gmap string A) :
  foldl (λ m b, emplace (key b) (val b) m) m l = m ∪ list_to_map ((λ b, (key b, val b)) <$> l).
Proof.
  revert m. induction l as [|b l IH]; intros m; cbn [foldl fmap list_fmap].
  - change (m = m ∪ ∅). by rewrite (right_id_L ∅ (∪)).
  - rewrite IH. apply emplace_union.
Qed.

(** The part of the state that loading a file keeps, the console apart. *)
Definition same_but_printed (s s' : ConfigState) : Prop :=
  _filename s' = _filename s ∧ _configOptions s' = _configOptions s ∧
  _usingDistConfig s' = _usingDistConfig s.

Lemma map_size_emplace (k v : string) (m : gmap string string) :
  m !! k = None → Z.of_nat (size (emplace k v m)) = (Z.of_nat (size m) + 1)%Z.
Proof. intros H. unfold emplace. rewrite H, map_size_insert_None by done. lia. Qed.

Lemma ParseFile_loop_lines lines fn ln fc s :
  ∃ s', ParseFile_loop (Some <$> lines) fn ln (wrap_u 32 (Z.of_nat (size fc))) fc s =
    (Done (wrap_u 32 (Z.of_nat (size (fc ∪ list_to_map (lines ≫= λ line,
        match parse_line line with Entry k v => [(k, v)] | _ => [] end)))),
      fc ∪ list_to_map (lines ≫= λ line,
        match parse_line line with Entry k v => [(k, v)] | _ => [] end)), s')
  ∧ same_but_printed s s'.
Proof.
  revert ln fc s. induction lines as [|line lines IH]; intros ln fc s.
  { exists s. cbn. rewrite (right_id_L ∅ (∪)). done. }
  rewrite fmap_cons, bind_cons. cbn [ParseFile_loop].
  destruct (parse_line line) as [| |k v].
  - apply IH.
  - cbn [mbind SM_bind fmt_print].
    edestruct (IH (wrap_u 32 (ln + 1)) fc) as (s' & Heq & Hs). eexists. split; [exact Heq|].
    destruct Hs as (? & ? & ?). done.
  - assert (list_to_map ([(k, v)] ++ (lines ≫= λ line,
        match parse_line line with Entry k v => [(k, v)] | _ => [] end)) =
        <[k := v]> (list_to_map (lines ≫= λ line,
        match parse_line line with Entry k v => [(k, v)] | _ => [] end) : gmap string string)) as -> by done.
    case_bool_decide as Hin.
    + cbn [mbind SM_bind fmt_print].
      edestruct (IH (wrap_u 32 (ln + 1)) fc) as (s' & Heq & Hs).
      rewrite <- emplace_union. unfold emplace. destruct Hin as [w ->].
      eexists. split; [exact Heq|]. destruct Hs as (? & ? & ?). done.
    + rewrite <- emplace_union, <- eq_None_not_Some in *.
      replace (wrap_u 32 (wrap_u 32 (Z.of_nat (size fc)) + 1))
        with (wrap_u 32 (Z.of_nat (size (emplace k v fc)))); [apply IH|].
      rewrite map_size_emplace by done. unfold wrap_u. by rewrite Zplus_mod_idemp_l.
Qed.

(** What [AddKey] does to the options when it does not abort. *)
Definition add_key (isOptional : bool) (opts : gmap string string) (kv : string * string)
    : gmap string string :=
  if acceptable isOptional opts kv.1 then <[kv.1 := kv.2]> opts else opts.

Lemma AddKey_eq abort_incorrect k v fn isOptional s :
  abort_incorrect = false ∨ acceptable isOptional (_configOptions s) k = true →
  ∃ s', AddKey abort_incorrect k v fn isOptional s = (Done (), s') ∧
    _filename s' = _filename s ∧ _usingDistConfig s' = _usingDistConfig s ∧
    _configOptions s' = add_key isOptional (_configOptions s) (k, v).
Proof.
  intros Hok. unfold AddKey, add_key, acceptable in *. cm_unfold. cbn [fst snd].
  destruct (_configOptions s !! k) eqn:Hin; destruct isOptional, (IsLoggingSystemOptions k);
    cbn in *; try (destruct Hok as [->|?]; [|done]);
    eexists; (split; [done|]); cbn; unfold emplace; by rewrite ?lookup_delete_eq, ?insert_delete_eq, ?Hin.
Qed.

Lemma acceptable_add_key isOptional opts kv k :
  acceptable isOptional (add_key isOptional opts kv) k = acceptable isOptional opts k.
Proof.
  unfold add_key. destruct (acceptable isOptional opts kv.1) eqn:Ha; [|done].
  unfold acceptable in *. destruct (decide (k = kv.1)) as [->|].
  - rewrite Ha, lookup_insert_eq. by destruct isOptional.
  - by rewrite lookup_insert_ne by done.
Qed.

Lemma foldl_add_key isOptional (l : list (string * string)) opts :
  NoDup l.*1 →
  foldl (add_key isOptional) opts l = accepted isOptional opts (list_to_map l) ∪ opts.
Proof.
  revert opts. induction l as [|[k v] l IH]; intros opts Hnd.
  { unfold accepted. cbn. by rewrite map_filter_empty, (left_id_L ∅ (∪)). }
  apply NoDup_cons in Hnd as [Hk Hnd].
  change (list_to_map ((k, v) :: l)) with (<[k := v]> (list_to_map l : gmap string string)).
  cbn [foldl]. rewrite IH by done.
  apply map_eq. intros i. rewrite !lookup_union. unfold accepted.
  rewrite !map_lookup_filter. destruct (decide (i = k)) as [->|Hne].
  - rewrite not_elem_of_list_to_map_1 by done. rewrite lookup_insert_eq. cbn.
    unfold add_key. cbn [fst snd].
    destruct (acceptable isOptional opts k) eqn:Ha; simplify_option_eq; [|done].
    rewrite lookup_insert_eq. by destruct (opts !! k).
  - rewrite (lookup_insert_ne (list_to_map l)) by done.
    replace (add_key isOptional opts (k, v) !! i) with (opts !! i)
      by (unfold add_key; case_match; cbn; rewrite ?lookup_insert_ne by done; done).
    destruct ((list_to_map l : gmap string string) !! i); [|done]. cbn.
    by rewrite acceptable_add_key.
Qed.

Lemma for_each_AddKey abort_incorrect fn isOptional l s :
  (abort_incorrect = false ∨
    Forall (λ kv, acceptable isOptional (_configOptions s) kv.1 = true) l) →
  ∃ s', for_each (λ '(entry, key), AddKey abort_incorrect entry key fn isOptional) l s
      = (Done (), s') ∧ _filename s' = _filename s ∧ _usingDistConfig s' = _usingDistConfig s ∧
    _configOptions s' = foldl (add_key isOptional) (_configOptions s) l.
Proof.
  revert s. induction l as [|[k v] l IH]; intros s Hok; [by exists s|]. cbn [for_each foldl].
  destruct (AddKey_eq abort_incorrect k v fn isOptional s) as (s1 & Heq & Hf & Hu & Ho).
  { destruct Hok as [?|H]; [by left|]. apply Forall_cons in H as [? _]. by right. }
  destruct (IH s1) as (s2 & Heq2 & Hf2 & Hu2 & Ho2).
  { destruct Hok as [?|H]; [by left|right]. apply Forall_cons in H as [_ H].
    eapply Forall_impl; [exact H|]. intros kv. cbn. by rewrite Ho, acceptable_add_key. }
  exists s2. rewrite (SM_bind_Done _ _ _ _ _ Heq), Heq2. repeat split; congruence.
Qed.

Lemma ParseFile_loop_throws lines fn ln count fc s :
  ∃ e s', ParseFile_loop ((Some <$> lines) ++ [None]) fn ln count fc s = (Throw e, s') ∧
    same_but_printed s s'.
Proof.
  revert ln count fc s. induction lines as [|line lines IH]; intros ln count fc s.
  { eexists _, s. done. }
  cbn [fmap list_fmap app ParseFile_loop].
  destruct (parse_line line) as [| |k v]; [apply IH| |case_bool_decide; [|apply IH]];
    cm_unfold; edestruct IH as (e & s' & -> & ? & ? & ?); by exists e, s'.
Qed.

Section Correct.
Context (abort_incorrect : bool) (order : gmap string string → list (string * string))
  (Horder : ∀ m, order m ≡ₚ map_to_list m) (fs : string → option file).

(** No file has 2^32 different options: [count] is a [uint32]. *)
Definition few_options (fn : string) : Prop :=
  ∀ f, fs fn = Some f → (Z.of_nat (size (file_map f)) < 2 ^ 32)%Z.

(** With the aborting build, the options of the file have to be known. *)
Definition no_abort (fn : string) (isOptional : bool) (opts : gmap string string) : Prop :=
  abort_incorrect = false ∨
  ∀ m, loadable (fs fn) = Some m → map_Forall (λ k _, acceptable isOptional opts k = true) m.

Lemma LoadFile_eq fn isOptional s :
  few_options fn → no_abort fn isOptional (_configOptions s) →
  ∃ s', LoadFile abort_incorrect order fs fn isOptional s =
      (Done (bool_decide (is_Some (loadable (fs fn)))), s') ∧
    _filename s' = _filename s ∧ _usingDistConfig s' = _usingDistConfig s ∧
    _configOptions s' = from_option (accepted isOptional (_configOptions s)) ∅ (loadable (fs fn))
      ∪ _configOptions s.
Proof.
  intros Hfew Hab. unfold LoadFile, try_catch, ParseFile, few_options, no_abort, loadable in *.
  destruct (fs fn) as [f|].
  2:{ cbn. rewrite (left_id_L ∅ (∪)). destruct isOptional; eexists; (split; [done|]); done. }
  specialize (Hfew f eq_refl). unfold getlines. destruct (fails_at f) as [n|].
  { destruct (ParseFile_loop_throws (take n (split_on newline (content f))) fn 0 0 ∅ s)
      as (e & s1 & Heq & ? & Ho & ?). cm_unfold. rewrite Heq.
    eexists. split; [done|]. cbn. by rewrite (left_id_L ∅ (∪)). }
  destruct (ParseFile_loop_lines (split_on newline (content f)) fn 0 ∅ s)
    as (s1 & Heq & Hf & Ho & Hu).
  fold (file_entries f) in Heq. fold (file_map f) in Heq. rewrite (left_id_L ∅ (∪)) in Heq.
  rewrite (wrap_u_small 32 (Z.of_nat (size (file_map f)))) in Heq by lia.
  change (wrap_u 32 (Z.of_nat (size (∅ : gmap string string)))) with 0%Z in Heq.
  rewrite (SM_bind_Done _ _ _ _ _ Heq). clear Heq.
  case_bool_decide as Hem.
  { rewrite Hem. cbn. rewrite (left_id_L ∅ (∪)). destruct isOptional; eexists; done. }
  destruct (Z.eqb_spec (Z.of_nat (size (file_map f))) 0) as [H0|_].
  { exfalso. apply Hem, map_size_empty_inv. lia. }
  destruct (for_each_AddKey abort_incorrect fn isOptional (order (file_map f)) s1)
    as (s2 & Heq & ? & ? & Ho2).
  { destruct Hab as [?|Hab]; [by left|right]. rewrite Horder, Ho. apply Forall_forall.
    intros [k v] Hin%elem_of_map_to_list. by apply (Hab _ eq_refl k v). }
  rewrite (SM_bind_Done _ _ _ _ _ Heq). exists s2. split; [done|].
  split; [congruence|]. split; [congruence|]. cbn.
  rewrite Ho2, Ho, foldl_add_key by (rewrite Horder; apply NoDup_fst_map_to_list).
  f_equal. f_equal. rewrite (list_to_map_proper _ (map_to_list (file_map f))), list_to_map_to_list; [done| |done].
  rewrite Horder. apply NoDup_fst_map_to_list.
Qed.
End Correct.

(** ** Writing a file *)

(** The line [name = "value"]. *)
Definition render_option (kv : string * string) : string :=
  kv.1 +:+ String " " (String "=" (String " " (String quote (kv.2 +:+ String quote "")))).

Definition starts_section (k : string) : bool :=
  match k with String c _ => Ascii.eqb c "[" | EmptyString => false end.

(** Names and values a line can hold. *)
Definition writable (kv : string * string) : bool :=
  trimmed kv.1 && negb (starts_section kv.1) && no_char "=" kv.1 && no_char "#" kv.1 &&
  no_char newline kv.1 && no_char "#" kv.2 && no_char newline kv.2 && no_char quote kv.2.

Definition render_file (opts : list (string * string)) : string :=
  join newline (render_option <$> opts).

Lemma no_char_app c a b : no_char c (a +:+ b) = no_char c a && no_char c b.
Proof. induction a as [|x a IH]; [done|]. cbn. by rewrite IH, andb_assoc. Qed.

Lemma erase_char_no c s : no_char c s = true → erase_char c s = s.
Proof.
  induction s as [|a s IH]; [done|]. cbn. destruct (Ascii.eqb a c); [done|]. cbn. intros H. by rewrite IH.
Qed.

Lemma erase_char_app c a b : erase_char c (a +:+ b) = erase_char c a +:+ erase_char c b.
Proof. induction a as [|x a IH]; [done|]. cbn. destruct (Ascii.eqb x c); [done|]. cbn. by rewrite IH. Qed.

Lemma trimmed_ends c m d :
  isspace c = false → isspace d = false → trimmed (String c (m +:+ String d "")) = true.
Proof.
  intros Hc Hd. unfold trimmed. rewrite andb_true_r. apply String.eqb_eq.
  destruct (Trim_split (String c (m +:+ String d ""))) as (pre & post & Heq & Hpre & Hpost & Ht).
  set (T := Trim _) in *. clearbody T.
  destruct pre as [|x pre].
  2:{ injection Heq as -> _. cbn in Hpre. by rewrite Hc in Hpre. }
  cbn in Heq. symmetry in Heq |- *. rewrite <- (str_app_nil_r (String c _)) in Heq.
  change (String c (m +:+ String d "")) with (String c m +:+ String d "") in *.
  pose proof (all_char_suffix_le isspace T post (String c m) d "" Hpost Hd) as Hs.
  symmetry. apply Hs; [|done].
  apply (f_equal String.length) in Heq. rewrite str_length_app, str_app_nil_r in Heq. lia.
Qed.

Lemma parse_render_option kv : writable kv = true → parse_line (render_option kv) = Entry kv.1 kv.2.
Proof.
  destruct kv as [k v]. unfold writable. cbn [fst snd]. rewrite !andb_true_iff.
  intros (((((((Htk & Hsec) & Heq) & Hhk) & Hnk) & Hhv) & Hnv) & Hqv).
  pose (tail := String " " (String quote (v +:+ String quote ""))).
  assert (render_option (k, v) = (k +:+ " ") +:+ String "=" tail) as Hline
    by (rewrite str_app_assoc; done).
  destruct (Trim_split k) as (? & ? & _ & _ & _ & Hk).
  apply andb_true_iff in Htk as Htk'. destruct Htk' as [Ht Hne]. apply String.eqb_eq in Ht.
  rewrite Ht in Hk. destruct Hk as [->|[(c & r & Hk & Hc) _]]; [done|].
  unfold parse_line.
  assert (trimmed (render_option (k, v)) = true) as [HT%String.eqb_eq _]%andb_true_iff.
  { unfold render_option. rewrite Hk. cbn [fst snd].
    replace (String c r +:+ _) with
      (String c ((r +:+ " = " +:+ String quote v) +:+ String quote "")); [by apply trimmed_ends|].
    cbn. rewrite str_app_assoc. done. }
  rewrite HT. rewrite Hline at 1. rewrite Hk at 1. cbn [String.append].
  assert (Ascii.eqb c "#" || Ascii.eqb c "[" = false) as ->.
  { rewrite Hk in Hhk, Hsec. cbn in Hhk, Hsec. by destruct (Ascii.eqb c "#"), (Ascii.eqb c "["). }
  rewrite (no_char_find "#" (render_option (k, v))).
  2:{ rewrite Hline. rewrite !no_char_app, Hhk. unfold tail. cbn. by rewrite no_char_app, Hhv. }
  rewrite Hline. rewrite find_from_intro by (by rewrite no_char_app, Heq).
  destruct (Nat.eqb_spec (String.length (k +:+ " ")) (String.length ((k +:+ " ") +:+ String "=" tail)))
    as [He|_].
  { rewrite (str_length_app (k +:+ " ")) in He. cbn in He. lia. }
  rewrite substring_0_app. pose proof (Trim_app "" k " " eq_refl eq_refl Htk) as Hx.
  change ("" +:+ k +:+ " ") with (k +:+ " ") in Hx. rewrite Hx.
  replace (S (String.length (k +:+ " "))) with (String.length ((k +:+ " ") +:+ "="))
    by (rewrite (str_length_app _ "="); cbn; lia).
  replace ((k +:+ " ") +:+ String "=" tail) with (((k +:+ " ") +:+ "=") +:+ tail)
    by (by rewrite str_app_assoc).
  rewrite substr_from_app.
  pose proof (Trim_app " " (String quote (v +:+ String quote "")) "" eq_refl eq_refl
    (trimmed_ends quote v quote eq_refl eq_refl)) as Hy.
  rewrite str_app_nil_r in Hy. change (Trim tail = String quote (v +:+ String quote "")) in Hy.
  rewrite Hy. cbn. rewrite erase_char_app, erase_char_no by done. cbn. by rewrite str_app_nil_r.
Qed.

Lemma file_entries_render opts :
  opts ≠ [] → Forall (λ kv, writable kv = true) opts →
  file_entries (mk_file (render_file opts) None) = opts.
Proof.
  intros Hne Hw. unfold file_entries, render_file. cbn [content].
  rewrite split_on_join.
  - induction Hw as [|[k v] opts Hkv Hw IH]; [done|]. cbn [fmap list_fmap mbind list_bind].
    rewrite parse_render_option by done. cbn. f_equal. destruct opts; [done|]. by apply IH.
  - by destruct opts.
  - apply Forall_fmap. eapply Forall_impl; [exact Hw|]. intros [k v] Hkv. unfold writable in Hkv.
    cbn [fst snd] in Hkv. rewrite !andb_true_iff in Hkv. destruct Hkv as (((((((_ & _) & _) & _) & Hn) & _) & Hv) & _).
    cbn. rewrite no_char_app, Hn. cbn. by rewrite no_char_app, Hv.
Qed.

(** The loop of [ParseFile] does not touch the options, whatever it meets. *)
Lemma ParseFile_loop_options lines fn ln count fc s :
  let '(r, s') := ParseFile_loop lines fn ln count fc s in
  same_but_printed s s' ∧ (∀ w, r ≠ Crash w).
Proof.
  revert ln count fc s. induction lines as [|[line|] lines IH]; intros ln count fc s; [done| |done].
  cbn [ParseFile_loop]. destruct (parse_line line) as [| |k v];
    [apply IH| |case_bool_decide; [|apply IH]]; cm_unfold;
    match goal with |- context [ParseFile_loop _ _ ?l ?c ?f ?s0] => specialize (IH l c f s0) end;
    destruct (ParseFile_loop _ _ _ _ _ _) as [r s']; destruct IH as [(? & ? & ?) ?]; done.
Qed.

Lemma for_each_no_throw abort_incorrect fn isOptional l s :
  ∀ e, fst (for_each (λ '(entry, key), AddKey abort_incorrect entry key fn isOptional) l s) ≠ Throw e.
Proof.
  intros e. revert s. induction l as [|[k v] l IH]; intros s; [done|]. cbn [for_each].
  assert (∀ e, fst (AddKey abort_incorrect k v fn isOptional s) ≠ Throw e) as Hadd.
  { intros e'. unfold AddKey. cm_unfold. destruct (_ && _ && _), abort_incorrect; try done;
      by case_bool_decide. }
  unfold mbind, SM_bind. destruct (AddKey _ _ _ _ _ s) as [[[]|e'|w] s']; [apply IH| |done].
  by destruct (Hadd e').
Qed.

(** ** Properties *)

(** C25 [LoadAppConfigs] layers the two files: the options are those of the
    .dist file with the values of the user's file over them, for the options
    the .dist file knows and the logging options, the first entry of a name in
    each file counting; a user's file that is missing, broken or empty leaves
    the .dist file in force.  Without a usable .dist file nothing is loaded.
    The order in which the hash tables are visited does not matter. *)
Theorem LoadAppConfigs_layers (order : gmap string string → list (string * string))
    (fs : string → option file) (s : ConfigState) :
  (∀ m, order m ≡ₚ map_to_list m) →
  few_options fs (_filename s +:+ ".dist") → few_options fs (_filename s) →
  ∃ s', let user := loadable (fs (_filename s)) in
    match loadable (fs (_filename s +:+ ".dist")) with
    | None => LoadAppConfigs false order fs s = (Done false, s') ∧ _configOptions s' = ∅
    | Some dist =>
        LoadAppConfigs false order fs s = (Done true, s') ∧
        _configOptions s' = accepted true dist (default ∅ user) ∪ dist ∧
        _usingDistConfig s' = (bool_decide (user = None) || _usingDistConfig s)
    end.
Proof.
  intros Hord Hfd Hfu. unfold LoadAppConfigs, LoadInitial.
  pose (s0 := set_options ∅ s).
  destruct (LoadFile_eq false order Hord fs (_filename s +:+ ".dist") false s0)
    as (s1 & H1 & Hf1 & Hu1 & Ho1); [done|by left|].
  destruct (LoadFile_eq false order Hord fs (_filename s) true s1)
    as (s2 & H2 & Hf2 & Hu2 & Ho2); [done|by left|].
  unfold LoadAdditionalFile. cm_unfold. fold s0. rewrite H1.
  destruct (loadable (fs (_filename s +:+ ".dist"))) as [dist|].
  2:{ exists s1. split; [done|]. rewrite Ho1. cbn. by rewrite (left_id_L ∅ (∪)). }
  assert (_configOptions s1 = dist) as Hdist.
  { rewrite Ho1. cbn. rewrite (right_id_L ∅ (∪)). unfold accepted. apply map_filter_id. done. }
  rewrite Hdist in Ho2. cbn [bool_decide]. rewrite bool_decide_true by eauto. cbn [negb]. rewrite H2.
  destruct (loadable (fs (_filename s))) as [user|]; cbn; eexists; (split; [done|]); cbn.
  - split; [done|]. by rewrite Hu2, Hu1.
  - split; [|done]. rewrite Ho2. unfold accepted. cbn. by rewrite map_filter_empty.
Qed.

#[local] Definition demo_fs (fn : string) : option file :=
  if String.eqb fn "bot.conf.dist" then
    Some (mk_file (render_file [("Port", "3306"); ("Log", "a b"); ("Port", "1")]) None)
  else if String.eqb fn "bot.conf" then
    Some (mk_file (render_file [("Typo", "x"); ("Port", "3307"); ("Logger.root", "4,Console")]) None)
  else None.

Lemma LoadAppConfigs_layers_witness :
  ∃ s', LoadAppConfigs false map_to_list demo_fs (mk_ConfigState "bot.conf" ∅ false [])
      = (Done true, s') ∧
    _configOptions s' =
      list_to_map [("Port", "3307"); ("Log", "a b"); ("Logger.root", "4,Console")] ∧
    _usingDistConfig s' = false.
Proof.
  destruct (LoadAppConfigs_layers map_to_list demo_fs (mk_ConfigState "bot.conf" ∅ false [])
    ltac:(reflexivity)) as (s' & H).
  - intros f [= <-]. vm_compute. reflexivity.
  - intros f [= <-]. vm_compute. reflexivity.
  - exists s'. assert (loadable (demo_fs "bot.conf.dist") =
      Some (list_to_map [("Port", "3306"); ("Log", "a b")])) as Hd by (vm_compute; reflexivity).
    cbn [_filename] in H. change ("bot.conf" +:+ ".dist") with "bot.conf.dist" in H.
    rewrite Hd in H. destruct H as (H1 & H2 & H3). split; [exact H1|]. split; [|exact H3].
    rewrite H2. vm_compute. reflexivity.
Defined.

(** Round trip through a configuration file: for names and values a line
    can hold, loading the file that lists them gives each name its value, as a
    string and, for a value that prints an integer, as that integer at every
    width it fits. *)
Theorem config_roundtrip (order : gmap string string → list (string * string))
    (fs : string → option file) (abort_incorrect : bool) (fn : string)
    (opts : list (string * string)) (s : ConfigState) :
  (∀ m, order m ≡ₚ map_to_list m) →
  opts ≠ [] → Forall (λ kv, writable kv = true) opts → NoDup opts.*1 →
  (Z.of_nat (length opts) < 2 ^ 32)%Z → fs fn = Some (mk_file (render_file opts) None) →
  ∃ s', LoadInitial abort_incorrect order fs fn s = (Done true, s') ∧
    ∀ k v, (k, v) ∈ opts →
      (∀ def logs, GetOption_string k def logs s' = (v, [])) ∧
      (∀ t z def logs, (0 < it_width t ≤ 64)%Z → in_range t z = true → v = print_Z z →
         GetOption t k def logs s' = (z, [])).
Proof.
  intros Hord Hne Hw Hnd Hlen Hfs.
  assert (file_map (mk_file (render_file opts) None) = list_to_map opts) as Hm
    by (unfold file_map; by rewrite file_entries_render).
  assert (list_to_map opts ≠ (∅ : gmap string string)) as Hem.
  { destruct opts as [|[k v] opts]; [done|]. apply insert_non_empty. }
  assert (loadable (fs fn) = Some (list_to_map opts)) as Hl.
  { rewrite Hfs. unfold loadable. cbn [fails_at]. rewrite Hm. by rewrite bool_decide_false. }
  pose (s0 := set_options ∅ s).
  destruct (LoadFile_eq abort_incorrect order Hord fs fn false s0) as (s1 & H1 & _ & _ & Ho1).
  { intros f Hf. rewrite Hfs in Hf. injection Hf as <-. rewrite Hm.
    rewrite map_size_list_to_map by done. lia. }
  { right. by intros m _ i x _. }
  exists s1. split.
  { unfold LoadInitial. cm_unfold. fold s0. rewrite H1, Hl. by rewrite bool_decide_true by eauto. }
  intros k v Hkv. assert (_configOptions s1 !! k = Some v) as Hk.
  { rewrite Ho1, Hl. cbn. rewrite (right_id_L ∅ (∪)). unfold accepted.
    rewrite map_filter_id by done. by apply elem_of_list_to_map_1. }
  split.
  - intros def logs. unfold GetOption_string, GetValueDefault_string. by rewrite Hk.
  - intros t z def logs Ht Hz ->. unfold GetOption, GetValueDefault. by rewrite Hk, StringTo_print.
Qed.

Lemma config_roundtrip_witness :
  ∃ s', LoadInitial false map_to_list
      (λ _, Some (mk_file (render_file [("A.B", " x = y "); ("N", "-12")]) None)) "f" initial_state
      = (Done true, s') ∧
    GetOption_string "A.B" "" true s' = (" x = y ", []) ∧
    GetOption int8 "N" 0 true s' = ((-12)%Z, []).
Proof.
  destruct (config_roundtrip map_to_list
    (λ _, Some (mk_file (render_file [("A.B", " x = y "); ("N", "-12")]) None)) false "f"
    [("A.B", " x = y "); ("N", "-12")] initial_state) as (s' & H & Hk).
  - reflexivity.
  - discriminate.
  - repeat constructor.
  - vm_compute. repeat constructor; set_solver.
  - reflexivity.
  - reflexivity.
  - exists s'. split; [exact H|]. split.
    + apply (Hk "A.B" " x = y "). left.
    + apply (Hk "N" "-12"); [right; left|cbn; lia|reflexivity|reflexivity].
Defined.

(** A configuration file is taken whole or not at all: loading never lets an
    exception out, and when it reports failure (a file that is missing, breaks
    off or says nothing) no option has changed. *)
Theorem LoadFile_all_or_nothing (order : gmap string string → list (string * string))
    (fs : string → option file) (abort_incorrect isOptional : bool) (fn : string)
    (s : ConfigState) :
  let '(r, s') := LoadFile abort_incorrect order fs fn isOptional s in
  (∀ e, r ≠ Throw e) ∧ (r = Done false → _configOptions s' = _configOptions s).
Proof.
  unfold LoadFile, try_catch, ParseFile. destruct (fs fn) as [f|]; [|by destruct isOptional].
  pose proof (ParseFile_loop_options (getlines f) fn 0 0 ∅ s) as Hl.
  unfold mbind, SM_bind. destruct (ParseFile_loop _ _ _ _ _ s) as [[[count fc]|e|w] s1].
  - destruct Hl as [(? & Ho & ?) _]. destruct (count =? 0)%Z; [by destruct isOptional|].
    pose proof (for_each_no_throw abort_incorrect fn isOptional (order fc) s1) as Hn.
    destruct (for_each _ _ s1) as [[[]|e|w] s2]; [done| |done]. by destruct (Hn e).
  - destruct Hl as [(? & Ho & ?) _]. done.
  - destruct Hl as [_ Hl]. by destruct (Hl w).
Qed.
