(* ===== verification/LogChannels.v ===== *)
(** * Log channels: common/Logging LogChannel.cpp, ConsoleChannel.cpp, FileChannel.cpp

    - [LogLevel], [LogMessage] and the pattern language ([ParsePattern],
      [Format]) of LogCommon.h, LogMessage.h and LogChannel.cpp;
    - the console of the Unix build: colours and what is written to [std::cout];
    - the log files: options, opening, writing, and the purge of old files.

    Exceptions are the text given to [Exception].  The calendar functions of the
    {fmt} library, [mktime], [std::regex_match] and the sorting of range-v3 are
    arguments; buffering of streams is not modelled (a write reaches its file). *)
From S2P Require Import Prelude CppString Convert.

(** ** LogCommon.h *)
Module LogLevel.
Inductive t := Disabled | Fatal | Critical | Error | Warning | Info | Debug | Trace | Max.

(** The value of the enumerator. *)
Definition to_Z (l : t) : Z :=
  match l with
  | Disabled => 0 | Fatal => 1 | Critical => 2 | Error => 3
  | Warning => 4 | Info => 5 | Debug => 6 | Trace => 7 | Max => 8
  end.

(** [static_cast<LogLevel>(v)] of a value below [MAX_LOG_LEVEL]. *)
Definition of_Z (v : Z) : t :=
  match v with
  | 1%Z => Fatal | 2%Z => Critical | 3%Z => Error | 4%Z => Warning
  | 5%Z => Info | 6%Z => Debug | 7%Z => Trace | _ => Disabled
  end.

#[global] Instance t_eq_dec : EqDecision t.
Proof. solve_decision. Defined.

Definition ltb (a b : t) : bool := (to_Z a <? to_Z b)%Z.
End LogLevel.
Abbreviation LogLevel := LogLevel.t (only parsing).

Definition MAX_LOG_LEVEL : Z := 8.
Definition MAX_CHANNEL_OPTIONS : nat := 7.
Definition LOGGER_OPTIONS : nat := 2.

Definition GetLogLevelName (level : LogLevel) : string :=
  match level with
  | LogLevel.Disabled => "Disabled" | LogLevel.Fatal => "Fatal"
  | LogLevel.Critical => "Critical" | LogLevel.Error => "Error"
  | LogLevel.Warning => "Warning" | LogLevel.Info => "Info"
  | LogLevel.Debug => "Debug" | LogLevel.Trace => "Trace"
  | LogLevel.Max => "Max"
  end.

(** ** LogMessage.h *)
Record LogMessage := mk_LogMessage {
  msg_source : string;
  msg_text : string;
  msg_level : LogLevel;
  msg_time : Z;  (* seconds since the epoch *)
  msg_file : string;
  msg_line : Z;
  msg_option : string }.

(** ** LogChannel.cpp *)
Record PatternAction := mk_PatternAction {
  pa_key : ascii;
  pa_length : Z;
  pa_property : string;
  pa_prepend : string }.

(** [key] is 0 for the text after the last directive. *)
Definition no_key : ascii := zero.

Record LogChannel := mk_LogChannel {
  lc_name : string;
  lc_level : LogLevel;
  lc_pattern : string;
  lc_patternActions : list PatternAction }.

Abbreviation ChannelM := (SM string LogChannel) (only parsing).

Definition set_actions (acts : list PatternAction) (c : LogChannel) : LogChannel :=
  mk_LogChannel (lc_name c) (lc_level c) (lc_pattern c) acts.

(** [_patternActions.emplace_back(act)] *)
Definition push_action (act : PatternAction) : ChannelM unit :=
  modify_state (λ c, set_actions (lc_patternActions c ++ [act]) c).

(** [while (it != end && *it != ']') s += *it++;] with the step back of the end
    and the increment that follows: the text read, what is left after the
    bracket. *)
Fixpoint read_until_bracket (it : string) : string * string :=
  match it with
  | EmptyString => (EmptyString, EmptyString)
  | String c it =>
      if Ascii.eqb c "]" then (EmptyString, it)
      else let '(s, rest) := read_until_bracket it in (String c s, rest)
  end.

(** The loop: [it] is what is left of the pattern, [prepend] is
    [endAct.prepend].  Each round shortens [it], so a fuel above its length is
    enough ([ParsePattern_loop_fuel]). *)
Fixpoint ParsePattern_loop (fuel : nat) (it prepend : string) : ChannelM unit :=
  match fuel with
  | O => abort "out of fuel"
  | S fuel =>
      match it with
      | EmptyString =>
          if is_empty prepend then mret ()
          else push_action (mk_PatternAction no_key 0 "" prepend)
      | String c it =>
          if negb (Ascii.eqb c "%") then
            ParsePattern_loop fuel it (prepend +:+ String c "")
          else
            match it with
            | EmptyString => ParsePattern_loop fuel it prepend
            | String key rest =>
                if Ascii.eqb key "[" then
                  let '(prop, rest) := read_until_bracket rest in
                  _ ← push_action (mk_PatternAction "x" 0 prop prepend);
                  ParsePattern_loop fuel rest ""
                else
                  match rest with
                  | String "[" rest =>
                      let '(number, rest) := read_until_bracket rest in
                      match StringTo uint64 number with
                      | None => throw "ParsePattern: Error at conver lenght from {}"
                      | Some lenght =>
                          _ ← push_action (mk_PatternAction key lenght "" prepend);
                          ParsePattern_loop fuel rest ""
                      end
                  | _ =>
                      _ ← push_action (mk_PatternAction key 0 "" prepend);
                      ParsePattern_loop fuel rest ""
                  end
            end
      end
  end.

Definition ParsePattern : ChannelM unit :=
  c ← get_state;
  if is_empty (lc_pattern c) then throw "Pattern is empty"
  else
    _ ← modify_state (set_actions []);
    _ ← ParsePattern_loop (S (String.length (lc_pattern c))) (lc_pattern c) "";
    c ← get_state;
    match lc_patternActions c with
    | [] => throw "ParsePattern: Error at parse pattern '{}'"
    | _ => mret ()
    end.

(** [SetPattern] *)
Definition SetPattern (pattern : string) : ChannelM unit :=
  if is_empty pattern then throw "Pattern is empty"
  else
    _ ← modify_state (λ c, mk_LogChannel (lc_name c) (lc_level c) pattern (lc_patternActions c));
    ParsePattern.

(** The constructor: nothing is left of a channel whose pattern is wrong. *)
Definition new_LogChannel (name : string) (level : LogLevel) (pattern : string)
    : outcome string LogChannel :=
  match ParsePattern (mk_LogChannel name level pattern []) with
  | (Done _, c) => Done c
  | (Throw e, _) => Throw e
  | (Crash w, _) => Crash w
  end.

Definition SetLevel (level : LogLevel) (c : LogChannel) : LogChannel :=
  mk_LogChannel (lc_name c) level (lc_pattern c) (lc_patternActions c).

Fixpoint spaces (n : nat) : string :=
  match n with O => EmptyString | S n => String " " (spaces n) end.

(** [%v[length]]: the source, padded or cropped. *)
Definition format_source (length_ : Z) (source : string) : string :=
  let n := Z.of_nat (String.length source) in
  if (n <? length_)%Z then source +:+ spaces (Z.to_nat (length_ - n))
  else if negb (length_ =? 0)%Z && (length_ <? n)%Z then
    String.substring (Z.to_nat (n - length_)) (Z.to_nat length_) source
  else source.

Section Format.
(** [fmt::format(spec, timePoint)] of the {fmt} library. *)
Context (fmt_time : string → Z → string).

(** One round of the loop of [Format]. *)
Definition format_action (msg : LogMessage) (pa : PatternAction) : string :=
  let time := λ spec, fmt_time spec (msg_time msg) in
  pa_prepend pa +:+
  match pa_key pa with
  | "s"%char => msg_source msg
  | "t"%char => msg_text msg
  | "l"%char => print_Z (LogLevel.to_Z (msg_level msg))
  | "p"%char => GetLogLevelName (msg_level msg)
  | "q"%char => String.substring 0 1 (GetLogLevelName (msg_level msg))
  | "U"%char => msg_file msg
  | "O"%char => path_filename (msg_file msg)
  | "u"%char => print_Z (msg_line msg)
  | "w"%char => time "{:%a}" | "W"%char => time "{:%A}"
  | "b"%char => time "{:%b}" | "B"%char => time "{:%B}"
  | "d"%char => time "{:%d}" | "m"%char => time "{:%m}"
  | "n"%char => time "{:%Om}" | "y"%char => time "{:%y}"
  | "Y"%char => time "{:%Y}" | "h"%char => time "{:%OH}"
  | "H"%char => time "{:%OI}" | "A"%char => time "{:%p}"
  | "M"%char => time "{:%OM}" | "S"%char => time "{:%OS}"
  | "E"%char => print_Z (msg_time msg)
  | "v"%char => format_source (pa_length pa) (msg_source msg)
  | _ => EmptyString
  end.

Definition Format (c : LogChannel) (msg : LogMessage) (text : string) : string :=
  match lc_patternActions c with
  | [] => text
  | actions => foldl (λ text pa, text +:+ format_action msg pa) EmptyString actions
  end.
End Format.

Definition actions_of (pattern : string) : option (list PatternAction) :=
  match new_LogChannel "" LogLevel.Info pattern with
  | Done c => Some (lc_patternActions c)
  | _ => None
  end.

Example ParsePattern_ex :
  actions_of "[%H:%M] %v[10]%t" =
    Some [mk_PatternAction "H" 0 "" "["; mk_PatternAction "M" 0 "" ":";
          mk_PatternAction "v" 10 "" "] "; mk_PatternAction "t" 0 "" ""] ∧
  actions_of "%v[x]" = None ∧ actions_of "%" = None ∧
  actions_of "%[abc" = Some [mk_PatternAction "x" 0 "abc" ""] ∧
  actions_of "a%%b" = Some [mk_PatternAction "%" 0 "" "a"; mk_PatternAction no_key 0 "" "b"].
Proof. vm_compute. repeat split. Qed.

(** ** ConsoleChannel.cpp (Unix) *)
Record ConsoleChannel := mk_ConsoleChannel {
  cc_base : LogChannel;
  cc_enableColors : bool;
  cc_colors : list Z }.

Definition CC_DEFAULT : Z := 0x27.
Definition CC_LIGHTRED : Z := 0x11f.
Definition CC_YELLOW : Z := 0x121.
Definition CC_GRAY : Z := 0x25.

Definition InitDefaultColors : list Z :=
  [CC_DEFAULT; CC_LIGHTRED; CC_LIGHTRED; CC_LIGHTRED; CC_YELLOW; CC_DEFAULT; CC_GRAY; CC_GRAY].

Definition color_table : list (string * Z) :=
  [("default", CC_DEFAULT); ("black", 0x1e%Z); ("red", 0x1f%Z); ("green", 0x20%Z);
   ("brown", 0x21%Z); ("blue", 0x22%Z); ("magenta", 0x23%Z); ("cyan", 0x24%Z);
   ("gray", CC_GRAY); ("darkGray", 0x11e%Z); ("lightRed", CC_LIGHTRED);
   ("lightGreen", 0x120%Z); ("yellow", CC_YELLOW); ("lightBlue", 0x122%Z);
   ("lightMagenta", 0x123%Z); ("lightCyan", 0x124%Z); ("white", 0x125%Z)].

(** The chain of comparisons. *)
Definition ParseColor (color : string) : outcome string Z :=
  match List.find (λ kv, StringEqualI color kv.1) color_table with
  | Some (_, c) => Done c
  | None => Throw "Invalid color value"
  end.

(** [for (auto const& color : colorTokens) _colors[++count] = ParseColor(color);] *)
Fixpoint SetColors_loop (tokens : list string) (count : nat) (colors : list Z)
    : outcome string (list Z) :=
  match tokens with
  | [] => Done colors
  | color :: tokens =>
      c ← ParseColor color;
      SetColors_loop tokens (S count) (<[S count := c]> colors)
  end.

Definition SetColors (text : string) (colors : list Z) : outcome string (list Z) :=
  let colorTokens := Tokenize text " " true in
  if negb (Z.of_nat (length colorTokens) =? MAX_LOG_LEVEL - 1)%Z
  then Throw "WindowsConsoleChannel::SetColors: Invalid colors size. Size {}. Colors '{}'"
  else SetColors_loop colorTokens 0 colors.

(** The constructor CreateChannel calls. *)
Definition new_ConsoleChannel (name : string) (level : LogLevel) (pattern : string)
    (options : list string) : outcome string ConsoleChannel :=
  base ← new_LogChannel name level pattern;
  if (4 <? length options)%nat then Throw "Incorrect options count ({})"
  else
    colors ← match options !! 3 with
             | Some o => SetColors o InitDefaultColors
             | None => Done InitDefaultColors
             end;
    Done (mk_ConsoleChannel base true colors).

(** The constructor UsingDefaultLogs calls. *)
Definition new_ConsoleChannel_colors (name : string) (level : LogLevel) (pattern colors : string)
    : outcome string ConsoleChannel :=
  base ← new_LogChannel name level pattern;
  cs ← (if is_empty colors then Done InitDefaultColors else SetColors colors InitDefaultColors);
  Done (mk_ConsoleChannel base true cs).

Definition CSI : string := String (ascii_of_nat 27) "[".
Definition endl : string := String (ascii_of_nat 10) "".

(** What a write appends to [std::cout]. *)
Definition Console_Write (fmt_time : string → Z → string) (c : ConsoleChannel) (msg : LogMessage)
    : string :=
  if LogLevel.ltb (lc_level (cc_base c)) (msg_level msg) then EmptyString
  else
    let text := Format fmt_time (cc_base c) msg (msg_text msg) in
    let color := default 0%Z (cc_colors c !! Z.to_nat (LogLevel.to_Z (msg_level msg))) in
    (if cc_enableColors c then
       (if negb (Z.land color 0x100 =? 0)%Z then CSI +:+ "1m" else EmptyString) +:+
       CSI +:+ print_Z (Z.land color 0xff) +:+ "m"
     else EmptyString) +:+ text +:+
    (if cc_enableColors c then CSI +:+ "0m" else EmptyString) +:+ endl.

(** ** FileChannel.cpp *)

(** A [std::ofstream]: its path, [is_open()], [good()]. *)
Record ofstream := mk_ofstream { st_path : string; st_open : bool; st_good : bool }.

Record FileChannel := mk_FileChannel {
  fc_base : LogChannel;
  fc_logsDir : string;
  fc_fileName : string;
  fc_logFile : option ofstream;
  fc_isDynamicFileName : bool;
  fc_isFlush : bool;
  fc_isOpenModeAppend : bool;
  fc_isAddTimestamp : bool;
  fc_maxCount : Z;
  fc_purgeAge : Z }.

(** What a call finds outside the program: which paths can be opened, whether
    the device takes what is written, the time stamp of the moment. *)
Record file_env := mk_file_env {
  can_open : string → bool;
  device_ok : bool;
  timeStamp : string }.

(** The files of the machine: path and content. *)
Abbreviation FileM := (SM string (FileChannel * gmap string string)) (only parsing).

Definition set_stream (s : option ofstream) (c : FileChannel) : FileChannel :=
  mk_FileChannel (fc_base c) (fc_logsDir c) (fc_fileName c) s (fc_isDynamicFileName c)
    (fc_isFlush c) (fc_isOpenModeAppend c) (fc_isAddTimestamp c) (fc_maxCount c) (fc_purgeAge c).

Definition set_fileName (n : string) (c : FileChannel) : FileChannel :=
  mk_FileChannel (fc_base c) (fc_logsDir c) n (fc_logFile c) (fc_isDynamicFileName c)
    (fc_isFlush c) (fc_isOpenModeAppend c) (fc_isAddTimestamp c) (fc_maxCount c) (fc_purgeAge c).

(** [s.find_last_of('.')] then [insert], or [+=] when there is no point. *)
Definition insert_before_extension (s ins : string) : string :=
  match find_last "." s with
  | Some dot_pos => String.substring 0 dot_pos s +:+ ins +:+ substr_from dot_pos s
  | None => s +:+ ins
  end.

Section FileChannel.
Context (fmt_time : string → Z → string) (fmt_format : string → string → string).

Definition OpenFile (env : file_env) : FileM bool :=
  '(c, fs) ← get_state;
  match fc_logFile c with
  | Some s => mret (st_open s)
  | None =>
      let name := if fc_isAddTimestamp c
                  then insert_before_extension (fc_fileName c) ("_" +:+ timeStamp env)
                  else fc_fileName c in
      let path := fc_logsDir c +:+ name in
      let old := if fc_isOpenModeAppend c then default EmptyString (fs !! path) else EmptyString in
      _ ← modify_state (λ st : FileChannel * gmap string string,
        (set_stream (Some (mk_ofstream path (can_open env path) (can_open env path)))
           (set_fileName name c),
         if can_open env path then <[path := old]> fs else fs));
      mret (can_open env path)
  end.

Definition CloseFile : FileM unit :=
  modify_state (λ '(c, fs), (set_stream None c, fs)).

(** [*_logFile << text], and what [good()] says afterwards. *)
Definition stream_write (env : file_env) (text : string) : FileM bool :=
  '(c, fs) ← get_state;
  match fc_logFile c with
  | Some (mk_ofstream path true true) =>
      _ ← modify_state (λ st : FileChannel * gmap string string,
        if device_ok env
        then (c, <[path := default EmptyString (fs !! path) +:+ text]> fs)
        else (set_stream (Some (mk_ofstream path true false)) c, fs));
      mret (device_ok env)
  | _ => mret false
  end.

Definition File_Write (env : file_env) (msg : LogMessage) : FileM unit :=
  '(c, _) ← get_state;
  if fc_isDynamicFileName c && is_empty (msg_option msg)
  then throw "Empty option for dynamic file '{}'"
  else
    let text := Format fmt_time (fc_base c) msg (msg_text msg) in
    if fc_isDynamicFileName c then
      _ ← modify_state (λ '(c, fs),
        (set_fileName (fmt_format (fc_fileName c) (msg_option msg)) c, fs));
      opened ← OpenFile env;
      if negb opened then throw "Cannot open file '{}'"
      else
        _ ← stream_write env (text +:+ endl);
        CloseFile
    else
      opened ← OpenFile env;
      if negb opened then throw "Cannot open file '{}'"
      else
        good ← stream_write env (text +:+ endl);
        if negb good then throw "Incorrect write to file '{}'" else mret ().
End FileChannel.

(** *** The purge of old files *)

(** What [struct tm] holds: year, month, day, hour, minute, second. *)
Record tm := mk_tm {
  tm_year : Z; tm_mon : Z; tm_mday : Z; tm_hour : Z; tm_min : Z; tm_sec : Z }.

Fixpoint skip_nondigits (s : string) : string :=
  match s with
  | EmptyString => EmptyString
  | String c s' => if isdigit c then s else skip_nondigits s'
  end.

(** [PARSE_NUMBER_N(var, n)] *)
Fixpoint parse_number_n (n : nat) (var : Z) (it : string) : Z * string :=
  match n with
  | O => (var, it)
  | S n =>
      match it with
      | String c it' =>
          if isdigit c then parse_number_n n (var * 10 + (Z.of_nat (nat_of_ascii c) - 48)) it'
          else (var, it)
      | EmptyString => (var, it)
      end
  end.

Definition parse_field (n : nat) (var : Z) (it : string) : Z * string :=
  parse_number_n n var (skip_nondigits it).

(** The loop of [GetFileCreationDate]: the format is consumed in every round. *)
Fixpoint GetFileCreationDate_loop (itf it : string) (t : tm) : tm :=
  match itf, it with
  | EmptyString, _ | _, EmptyString => t
  | String "%" itf, _ =>
      match itf with
      | EmptyString => t
      | String f itf =>
          let '(t, it) :=
            match f with
            | "Y"%char => let '(v, it) := parse_field 4 (tm_year t) it in
                (mk_tm v (tm_mon t) (tm_mday t) (tm_hour t) (tm_min t) (tm_sec t), it)
            | "m"%char => let '(v, it) := parse_field 2 (tm_mon t) it in
                (mk_tm (tm_year t) v (tm_mday t) (tm_hour t) (tm_min t) (tm_sec t), it)
            | "d"%char => let '(v, it) := parse_field 2 (tm_mday t) it in
                (mk_tm (tm_year t) (tm_mon t) v (tm_hour t) (tm_min t) (tm_sec t), it)
            | "H"%char => let '(v, it) := parse_field 2 (tm_hour t) it in
                (mk_tm (tm_year t) (tm_mon t) (tm_mday t) v (tm_min t) (tm_sec t), it)
            | "M"%char => let '(v, it) := parse_field 2 (tm_min t) it in
                (mk_tm (tm_year t) (tm_mon t) (tm_mday t) (tm_hour t) v (tm_sec t), it)
            | "S"%char => let '(v, it) := parse_field 2 (tm_sec t) it in
                (mk_tm (tm_year t) (tm_mon t) (tm_mday t) (tm_hour t) (tm_min t) v, it)
            | _ => (t, it)
            end in
          GetFileCreationDate_loop itf it t
      end
  | String _ itf, _ => GetFileCreationDate_loop itf it t
  end.

Definition LOG_TIMESTAMP_FMT : string := "%Y_%m_%d_%H_%M_%S".

(** The fields given to [mktime], before the shift of the year and the month. *)
Definition GetFileCreationDate_fields (fmt str : string) : tm :=
  let t := GetFileCreationDate_loop fmt str (mk_tm 0 0 0 0 0 0) in
  mk_tm (tm_year t) (if (tm_mon t =? 0)%Z then 1 else tm_mon t)
    (if (tm_mday t =? 0)%Z then 1 else tm_mday t) (tm_hour t) (tm_min t) (tm_sec t).

(** [mktime] of fields counted from 1900 and from 0. *)
Definition GetFileCreationDate (mktime : tm → Z) (fmt str : string) : Z :=
  if is_empty fmt || is_empty str then 0%Z
  else
    let t := GetFileCreationDate_fields fmt str in
    mktime (mk_tm (tm_year t - 1900) (tm_mon t - 1) (tm_mday t) (tm_hour t) (tm_min t) (tm_sec t)).

(** The last loop of [ClearOldFiles]: the files it removes and the files it
    leaves, of a list sorted by date. *)
Fixpoint Clear_loop (maxCount deleteBeforeTime : Z) (filesCount : Z)
    (logFiles : list (string * Z)) : list (string * Z) * list (string * Z) :=
  match logFiles with
  | [] => ([], [])
  | (filePath, createDate) :: rest =>
      if (maxCount <? filesCount)%Z then
        let '(gone, kept) := Clear_loop maxCount deleteBeforeTime (filesCount - 1) rest in
        ((filePath, createDate) :: gone, kept)
      else
        let '(gone, kept) := Clear_loop maxCount deleteBeforeTime filesCount rest in
        if (createDate <? deleteBeforeTime)%Z
        then ((filePath, createDate) :: gone, kept)
        else (gone, (filePath, createDate) :: kept)
  end.

Section Purge.
Context (mktime : tm → Z) (regex_match : string → string → bool)
  (ranges_sort : list (string * Z) → list (string * Z)).

Definition timestampRe : string := "_[0-9-]+[0-9_]+".

(** [entries] are the names in the directory of the logs, [now] is
    [GetEpochTime()]; the result is what is removed and what is left of the
    files that match. *)
Definition ClearOldFiles (c : FileChannel) (now : Z) (entries : list string)
    : list (string * Z) * list (string * Z) :=
  if is_empty (fc_logsDir c) then ([], [])
  else
    let deleteBeforeTime := (now - fc_purgeAge c * 86400)%Z in
    let fileNameFmt := insert_before_extension (fc_fileName c) timestampRe in
    let regex := "^" +:+ fileNameFmt +:+ "$" in
    let logFiles := (λ n, (n, GetFileCreationDate mktime LOG_TIMESTAMP_FMT n)) <$>
                      List.filter (λ n, regex_match regex n) entries in
    let logFiles := ranges_sort logFiles in
    Clear_loop (fc_maxCount c) deleteBeforeTime (Z.of_nat (length logFiles)) logFiles.
End Purge.

(** *** The constructor *)
Definition option_bool (options : list string) (i : nat) (def : bool) (what : string)
    : outcome string bool :=
  match options !! i with
  | None => Done def
  | Some o => match FromString_bool o false with Some b => Done b | None => Throw what end
  end.

Definition option_uint32 (options : list string) (i : nat) (def : Z) (what : string)
    : outcome string Z :=
  match options !! i with
  | None => Done def
  | Some o => match StringTo uint32 o with Some b => Done b | None => Throw what end
  end.

(** The options of the constructor; [ClearOldFiles] is called on the result when
    there are seven options or more. *)
Definition new_FileChannel (logsDir name : string) (level : LogLevel) (pattern : string)
    (options : list string) : outcome string FileChannel :=
  base ← new_LogChannel name level pattern;
  match options !! 3 with
  | None => Throw "Incorrect options count ({})"
  | Some fileName =>
      append ← option_bool options 4 true "Incorrect option for open mode '{}'";
      flush ← option_bool options 5 true "Incorrect option for flush '{}'";
      ts ← option_bool options 6 false "Incorrect option for add timestamp '{}'";
      maxCount ← option_uint32 options 7 20 "Incorrect option for max count files '{}'";
      _ ← (if (maxCount =? 0)%Z
           then Throw "Incorrect option for max count files '{}'. Min 1" else Done ());
      purgeAge ← option_uint32 options 8 10 "Incorrect option for purge age '{}'";
      Done (mk_FileChannel base logsDir fileName None (contains_sub "{}" fileName)
              flush append ts maxCount purgeAge)
  end.

Example creation_date_ex :
  GetFileCreationDate_fields LOG_TIMESTAMP_FMT "Server_2023_04_05_16_17_08.log"
    = mk_tm 2023 4 5 16 17 8 ∧
  GetFileCreationDate_fields LOG_TIMESTAMP_FMT "World2_2023_04_05_16_17_08.log"
    = mk_tm 2 20 23 4 5 16.
Proof. vm_compute. done. Qed.

(** ** Lemmas: the pattern language *)

(** A pattern as the directives it holds and the text that ends it. *)
Definition starts_bracket (s : string) : bool :=
  match s with String c _ => Ascii.eqb c "[" | EmptyString => false end.

Definition render_action (pa : PatternAction) (rest : string) : string :=
  pa_prepend pa +:+ String "%"
    (if Ascii.eqb (pa_key pa) "x" then String "[" (pa_property pa +:+ String "]" rest)
     else String (pa_key pa)
       (if (pa_length pa =? 0)%Z && negb (starts_bracket rest) then rest
        else String "[" (print_Z (pa_length pa) +:+ String "]" rest))).

Definition render_pattern (acts : list PatternAction) (tail : string) : string :=
  foldr render_action tail acts.

(** The directives a pattern can express: text without a percent sign; a
    property [%[...]] without a closing bracket; or a letter, with a width that
    fits [size_t]. *)
Definition wf_action (pa : PatternAction) : bool :=
  no_char "%" (pa_prepend pa) &&
  if Ascii.eqb (pa_key pa) "x" then no_char "]" (pa_property pa) && (pa_length pa =? 0)%Z
  else negb (Ascii.eqb (pa_key pa) "[") && String.eqb (pa_property pa) "" &&
       in_range uint64 (pa_length pa).

Definition tail_action (tail : string) : list PatternAction :=
  if is_empty tail then [] else [mk_PatternAction no_key 0 "" tail].

Lemma read_until_bracket_app s rest :
  no_char "]" s = true → read_until_bracket (s +:+ String "]" rest) = (s, rest).
Proof.
  induction s as [|c s IH]; [done|]. cbn. destruct (Ascii.eqb c "]"); cbn; [done|].
  intros H. by rewrite IH.
Qed.

Lemma ParsePattern_loop_text t rest fuel p :
  no_char "%" t = true → String.length t < fuel →
  ParsePattern_loop fuel (t +:+ rest) p = ParsePattern_loop (fuel - String.length t) rest (p +:+ t).
Proof.
  revert fuel p. induction t as [|c t IH]; intros fuel p; cbn [no_char String.length].
  { intros _ _. by rewrite Nat.sub_0_r, str_app_nil_r. }
  intros [Hc Ht]%andb_true_iff Hf. destruct fuel as [|fuel]; [lia|].
  cbn [ParsePattern_loop String.append]. rewrite Hc, IH by (try done; lia).
  by rewrite str_app_assoc.
Qed.

Lemma ParsePattern_loop_action pa rest fuel :
  wf_action pa = true → String.length (render_action pa rest) < fuel →
  ∃ fuel', String.length rest < fuel' ∧
    ParsePattern_loop fuel (render_action pa rest) "" =
      (_ ← push_action pa; ParsePattern_loop fuel' rest "").
Proof.
  destruct pa as [key len prop prep]. unfold wf_action, render_action.
  cbn [pa_key pa_length pa_property pa_prepend].
  intros [Hprep Hkey]%andb_true_iff Hf. rewrite str_length_app in Hf. cbn [String.length] in Hf.
  rewrite ParsePattern_loop_text by (try done; lia).
  set (n := fuel - String.length prep). assert (fuel - String.length prep = n) as Hn by done.
  destruct n as [|n]; [lia|]. cbn [ParsePattern_loop String.append]. cbn [Ascii.eqb Bool.eqb negb].
  destruct (Ascii.eqb key "x") eqn:Hx.
  - apply andb_true_iff in Hkey as [Hp ->%Z.eqb_eq]. apply Ascii.eqb_eq in Hx as ->.
    cbn [Ascii.eqb Bool.eqb]. rewrite read_until_bracket_app by done.
    exists n. split; [|done]. cbn in Hf. rewrite str_length_app in Hf. cbn in Hf. lia.
  - apply andb_true_iff in Hkey as [[Hb ->%String.eqb_eq]%andb_true_iff Hr].
    destruct (Ascii.eqb key "["); [done|].
    destruct ((len =? 0)%Z && negb (starts_bracket rest)) eqn:Hl.
    + apply andb_true_iff in Hl as [->%Z.eqb_eq Hs]. exists n. split; [cbn in Hf; lia|].
      destruct rest as [|c rest]; [done|]. cbn in Hs.
      destruct c as [[] [] [] [] [] [] [] []]; done.
    + assert (no_char "]" (print_Z len) = true) as Hnb by (by apply no_char_print_Z).
      rewrite read_until_bracket_app by done. rewrite StringTo_print by done.
      exists n. split; [|done]. cbn in Hf. rewrite str_length_app in Hf. cbn in Hf. lia.
Qed.

Lemma ParsePattern_loop_render acts tail fuel c :
  Forall (λ pa, wf_action pa = true) acts → no_char "%" tail = true →
  String.length (render_pattern acts tail) < fuel →
  ParsePattern_loop fuel (render_pattern acts tail) "" c =
    (Done (), set_actions (lc_patternActions c ++ acts ++ tail_action tail) c).
Proof.
  intros Hacts Ht. revert fuel c. induction Hacts as [|pa acts Hpa Hacts IH]; intros fuel c Hf.
  - cbn [render_pattern foldr] in *.
    pose proof (ParsePattern_loop_text tail "" fuel "" Ht Hf) as H.
    rewrite str_app_nil_r in H. rewrite H. clear H. cbn [String.append].
    destruct (fuel - String.length tail) as [|n] eqn:Hn; [lia|]. cbn [ParsePattern_loop].
    unfold tail_action. destruct (is_empty tail); [|done].
    rewrite app_nil_r. by destruct c.
  - cbn [render_pattern foldr] in *.
    destruct (ParsePattern_loop_action pa (render_pattern acts tail) fuel) as (fuel' & Hf' & Heq);
      [done..|]. unfold render_pattern in Heq. rewrite Heq. unfold push_action. sm_unfold.
    etransitivity; [by apply IH|]. cbn. by rewrite <- app_assoc.
Qed.

(** ** Lemmas: the purge *)
Lemma Clear_loop_under maxCount before n l :
  (n ≤ maxCount)%Z →
  Clear_loop maxCount before n l =
    (List.filter (λ f, (f.2 <? before)%Z) l, List.filter (λ f, negb (f.2 <? before)%Z) l).
Proof.
  intros Hn. induction l as [|[f d] l IH]; [done|]. cbn [Clear_loop List.filter snd].
  destruct (Z.ltb_spec maxCount n); [lia|]. rewrite IH. by destruct (d <? before)%Z.
Qed.

Lemma Clear_loop_eq maxCount before l :
  (0 ≤ maxCount)%Z →
  let old := length l - Z.to_nat maxCount in
  Clear_loop maxCount before (Z.of_nat (length l)) l =
    (take old l ++ List.filter (λ f, (f.2 <? before)%Z) (drop old l),
     List.filter (λ f, negb (f.2 <? before)%Z) (drop old l)).
Proof.
  intros Hm. cbv zeta. induction l as [|[f d] l IH]; [done|].
  destruct (Z.ltb_spec maxCount (Z.of_nat (length ((f, d) :: l)))) as [Hlt|Hle].
  - cbn [Clear_loop]. cbn [length] in *. destruct (Z.ltb_spec maxCount (Z.of_nat (S (length l)))); [|lia].
    replace (Z.of_nat (S (length l)) - 1)%Z with (Z.of_nat (length l)) by lia. rewrite IH.
    replace (S (length l) - Z.to_nat maxCount) with (S (length l - Z.to_nat maxCount)) by lia. done.
  - rewrite Clear_loop_under by done. cbn [length] in *.
    replace (S (length l) - Z.to_nat maxCount) with 0 by lia. done.
Qed.

Lemma filter_length_le {A : Type} (f : A → bool) l : length (List.filter f l) ≤ length l.
Proof. induction l as [|a l IH]; cbn; [lia|]. destruct (f a); cbn; lia. Qed.

(** ** Lemmas: log files *)

(** What one message adds to a file. *)
Definition log_line (fmt_time : string → Z → string) (c : LogChannel) (msg : LogMessage) : string :=
  Format fmt_time c msg (msg_text msg) +:+ endl.

Definition log_lines (fmt_time : string → Z → string) (c : LogChannel) (msgs : list LogMessage)
    : string := foldr (λ m s, log_line fmt_time c m +:+ s) EmptyString msgs.

(** Write the messages one after the other, each in its own circumstances. *)
Definition write_all (fmt_time : string → Z → string) (fmt_format : string → string → string)
    (msgs : list (file_env * LogMessage)) : FileM unit :=
  for_each (λ '(env, msg), File_Write fmt_time fmt_format env msg) msgs.

(** Nothing goes wrong outside the program. *)
Definition env_ok (path : string) (env : file_env) : Prop :=
  can_open env path = true ∧ device_ok env = true.

Lemma File_Write_open fmt_time fmt_format env msg c fs path :
  fc_isDynamicFileName c = false → fc_logFile c = Some (mk_ofstream path true true) →
  device_ok env = true →
  File_Write fmt_time fmt_format env msg (c, fs) =
    (Done (), (c, <[path := default "" (fs !! path) +:+ log_line fmt_time (fc_base c) msg]> fs)).
Proof.
  intros Hd Hs He. unfold File_Write, OpenFile, stream_write, log_line. sm_unfold.
  rewrite Hd. cbn [andb]. rewrite Hs. cbn [st_open negb]. rewrite Hs, He. done.
Qed.

Lemma write_all_open fmt_time fmt_format msgs c fs path :
  fc_isDynamicFileName c = false → fc_logFile c = Some (mk_ofstream path true true) →
  is_Some (fs !! path) → Forall (env_ok path) msgs.*1 →
  write_all fmt_time fmt_format msgs (c, fs) =
    (Done (), (c, <[path := default "" (fs !! path) +:+ log_lines fmt_time (fc_base c) msgs.*2]> fs)).
Proof.
  intros Hd Hs Hin Hok. unfold write_all. revert fs Hin. induction msgs as [|[env msg] msgs IH]; intros fs Hin.
  { cbn. rewrite str_app_nil_r. destruct Hin as [x Hx]. rewrite Hx. cbn.
    rewrite insert_id by done. done. }
  apply Forall_cons in Hok as [[_ He] Hok]. cbn [for_each].
  erewrite SM_bind_Done by (by apply File_Write_open).
  rewrite IH by (try done; rewrite lookup_insert_eq; eauto).
  rewrite lookup_insert_eq, insert_insert_eq. cbn. by rewrite str_app_assoc.
Qed.

(** The first write opens the file. *)
Lemma File_Write_first fmt_time fmt_format env msg c fs :
  fc_isDynamicFileName c = false → fc_logFile c = None →
  let name := if fc_isAddTimestamp c
              then insert_before_extension (fc_fileName c) ("_" +:+ timeStamp env)
              else fc_fileName c in
  let path := fc_logsDir c +:+ name in
  env_ok path env →
  File_Write fmt_time fmt_format env msg (c, fs) =
    (Done (), (set_stream (Some (mk_ofstream path true true)) (set_fileName name c),
      <[path := (if fc_isOpenModeAppend c then default "" (fs !! path) else "") +:+
                log_line fmt_time (fc_base c) msg]> fs)).
Proof.
  intros Hd Hs name path [Ho He]. unfold File_Write, OpenFile, stream_write, log_line. sm_unfold.
  rewrite Hd. cbn [andb]. rewrite Hs. fold name. fold path. rewrite Ho. cbn [negb].
  destruct c. cbn [set_stream set_fileName fc_logFile]. rewrite He, lookup_insert_eq, insert_insert_eq. done.
Qed.

(** A write to a dynamic file opens and closes it. *)
Lemma File_Write_dynamic fmt_time fmt_format env msg c fs :
  fc_isDynamicFileName c = true → fc_logFile c = None → fc_isAddTimestamp c = false →
  fc_isOpenModeAppend c = true → msg_option msg ≠ "" →
  let name := fmt_format (fc_fileName c) (msg_option msg) in
  let path := fc_logsDir c +:+ name in
  env_ok path env →
  File_Write fmt_time fmt_format env msg (c, fs) =
    (Done (), (set_fileName name c,
      <[path := default "" (fs !! path) +:+ log_line fmt_time (fc_base c) msg]> fs)).
Proof.
  intros Hd Hs Ht Ha Hopt name path [Ho He]. subst name path.
  unfold File_Write, OpenFile, stream_write, CloseFile, log_line. sm_unfold. rewrite Hd.
  assert (is_empty (msg_option msg) = false) as -> by (by destruct (msg_option msg)). cbn [andb].
  destruct c as [base dir fn file dyn fl app ts mx pa]. cbn in *. subst.
  cbn. rewrite Ho. cbn. rewrite He, lookup_insert_eq, insert_insert_eq. done.
Qed.

Lemma File_Write_same_name fmt_time fmt_format msgs c fs path :
  fc_isDynamicFileName c = true → fc_logFile c = None → fc_isAddTimestamp c = false →
  fc_isOpenModeAppend c = true → path = fc_logsDir c +:+ fc_fileName c →
  (∀ a, fmt_format (fc_fileName c) a = fc_fileName c) → is_Some (fs !! path) →
  Forall (env_ok path) msgs.*1 → Forall (λ m, msg_option m ≠ "") msgs.*2 →
  write_all fmt_time fmt_format msgs (c, fs) =
    (Done (), (c, <[path := default "" (fs !! path) +:+ log_lines fmt_time (fc_base c) msgs.*2]> fs)).
Proof.
  intros Hd Hs Ht Ha Hpath Hfix Hin Hok Hopt. unfold write_all. revert fs Hin.
  induction msgs as [|[env msg] msgs IH]; intros fs Hin.
  { cbn. rewrite str_app_nil_r. destruct Hin as [x Hx]. rewrite Hx. cbn. by rewrite insert_id. }
  apply Forall_cons in Hok as [He Hok], Hopt as [Hm Hopt]. cbn [for_each].
  erewrite SM_bind_Done by (apply File_Write_dynamic; try done; by rewrite Hfix, <- Hpath).
  rewrite Hfix, <- Hpath. replace (set_fileName (fc_fileName c) c) with c by (by destruct c).
  rewrite IH by (try done; rewrite lookup_insert_eq; eauto).
  rewrite lookup_insert_eq, insert_insert_eq. cbn. by rewrite str_app_assoc.
Qed.

(** ** Properties *)

(** Round trip of the pattern language: the pattern that shows a list of
    directives (each with the text before it) is parsed into that list, widths
    and properties included; the text after the last directive becomes a
    directive of its own. *)
Theorem pattern_roundtrip (acts : list PatternAction) (tail : string) (c : LogChannel) :
  Forall (λ pa, wf_action pa = true) acts → no_char "%" tail = true →
  acts ++ tail_action tail ≠ [] → lc_pattern c = render_pattern acts tail →
  ParsePattern c = (Done (), set_actions (acts ++ tail_action tail) c).
Proof.
  intros Hacts Ht Hne Hc. unfold ParsePattern. sm_unfold.
  assert (is_empty (lc_pattern c) = false) as ->.
  { rewrite Hc. destruct acts as [|[k n q p] acts]; [by destruct tail|].
    cbn [render_pattern foldr render_action pa_prepend]. by destruct p. }
  rewrite Hc. rewrite ParsePattern_loop_render by (try done; lia). cbn [lc_patternActions set_actions app].
  destruct (acts ++ tail_action tail) eqn:He; [done|]. by rewrite <- He.
Qed.

Lemma pattern_roundtrip_witness :
  ParsePattern (mk_LogChannel "Server" LogLevel.Info "[%H] %v[12]%[host]: %t." []) =
    (Done (), mk_LogChannel "Server" LogLevel.Info "[%H] %v[12]%[host]: %t."
      [mk_PatternAction "H" 0 "" "["; mk_PatternAction "v" 12 "" "] ";
       mk_PatternAction "x" 0 "host" ""; mk_PatternAction "t" 0 "" ": ";
       mk_PatternAction no_key 0 "" "."]).
Proof.
  apply (pattern_roundtrip [mk_PatternAction "H" 0 "" "["; mk_PatternAction "v" 12 "" "] ";
     mk_PatternAction "x" 0 "host" ""; mk_PatternAction "t" 0 "" ": "] "."
     (mk_LogChannel "Server" LogLevel.Info "[%H] %v[12]%[host]: %t." [])).
  - repeat constructor.
  - reflexivity.
  - discriminate.
  - vm_compute. reflexivity.
Defined.

(** The purge of old log files leaves at most [maxCount] of the files that
    match, none of them older than the purge age; what it removes is no newer
    than anything it leaves, and a file within the purge age is removed only
    when [maxCount] files that are no older come after it. *)
Theorem ClearOldFiles_correct (mktime : tm → Z) (regex_match : string → string → bool)
    (ranges_sort : list (string * Z) → list (string * Z)) (c : FileChannel) (now : Z)
    (entries : list string) :
  (∀ l, ranges_sort l ≡ₚ l) →
  (∀ l, StronglySorted (λ f g, (f.2 ≤ g.2)%Z) (ranges_sort l)) →
  fc_logsDir c ≠ "" → (0 ≤ fc_maxCount c)%Z →
  let '(gone, kept) := ClearOldFiles mktime regex_match ranges_sort c now entries in
  let matching := (λ n, (n, GetFileCreationDate mktime LOG_TIMESTAMP_FMT n)) <$> List.filter
    (λ n, regex_match ("^" +:+ insert_before_extension (fc_fileName c) timestampRe +:+ "$") n) entries in
  let before := (now - fc_purgeAge c * 86400)%Z in
  gone ++ kept ≡ₚ matching ∧
  (Z.of_nat (length kept) ≤ fc_maxCount c)%Z ∧
  Forall (λ f, (before ≤ f.2)%Z) kept ∧
  (∀ f g, f ∈ gone → g ∈ kept → (f.2 ≤ g.2)%Z) ∧
  (∀ f, f ∈ gone → (before ≤ f.2)%Z →
     ∃ newer, length newer = Z.to_nat (fc_maxCount c) ∧ newer ⊆+ matching ∧
       Forall (λ g, (f.2 ≤ g.2)%Z) newer).
Proof.
  intros Hperm Hsort Hdir Hmax. unfold ClearOldFiles.
  assert (is_empty (fc_logsDir c) = false) as -> by (by destruct (fc_logsDir c)).
  set (m := fmap _ _). set (before := (now - fc_purgeAge c * 86400)%Z).
  rewrite Clear_loop_eq by done. set (l := ranges_sort m). set (k := length l - Z.to_nat (fc_maxCount c)).
  pose proof (Hsort m) as Hs. fold l in Hs. rewrite <- (take_drop k l) in Hs.
  apply StronglySorted_app in Hs as (Hord & _ & _).
  assert (∀ h : list (string * Z), List.filter (λ f, (f.2 <? before)%Z) h ++
    List.filter (λ f, negb (f.2 <? before)%Z) h ≡ₚ h) as Hsplit.
  { induction h as [|a h IH]; [done|]. cbn. destruct (a.2 <? before)%Z; cbn; [by rewrite IH|].
    by rewrite <- Permutation_middle, IH. }
  split; [|split; [|split; [|split]]].
  - rewrite <- app_assoc, Hsplit, take_drop. apply Hperm.
  - pose proof (filter_length_le (λ f, negb (f.2 <? before)%Z) (drop k l)) as Hl.
    rewrite length_drop in Hl. unfold k in *. lia.
  - apply Forall_forall. intros f [_ Hf]%list_elem_of_In%filter_In.
    destruct (Z.ltb_spec f.2 before); [done|lia].
  - intros f g [Hf|Hf]%elem_of_app [Hg Hg']%list_elem_of_In%filter_In;
      apply list_elem_of_In in Hg; [by apply Hord|].
    apply list_elem_of_In, filter_In in Hf as [_ Hf]. cbn in *.
    destruct (Z.ltb_spec f.2 before), (Z.ltb_spec g.2 before); try done. lia.
  - intros f [Hf|Hf]%elem_of_app Hb.
    + exists (drop k l). repeat split.
      * rewrite length_drop. destruct (decide (k = 0)) as [E|]; [|unfold k in *; lia].
        rewrite E, take_0 in Hf. by apply not_elem_of_nil in Hf.
      * rewrite <- (Hperm m). fold l. rewrite <- (take_drop k l) at 2. apply submseteq_inserts_l. done.
      * apply Forall_forall. intros g Hg. by apply Hord.
    + apply list_elem_of_In, filter_In in Hf as [_ Hf]. cbn in Hf. apply Z.ltb_lt in Hf. lia.
Qed.

#[local] Definition older (f g : string * Z) : Prop := (f.2 ≤ g.2)%Z.
#[local] Instance older_dec : RelDecision older.
Proof. intros f g. unfold older. apply _. Defined.
#[local] Definition demo_sort : list (string * Z) → list (string * Z) := merge_sort older.

#[local] Definition demo_file : FileChannel :=
  mk_FileChannel (mk_LogChannel "Server" LogLevel.Debug "%t" [mk_PatternAction "t" 0 "" ""])
    "logs/" "Server.log" None false true true true 2 10.

Lemma ClearOldFiles_correct_witness :
  let '(gone, kept) := ClearOldFiles (λ t, tm_mday t * 86400)%Z (λ _ n, negb (String.eqb n "x"))
    demo_sort demo_file (20 * 86400)
    ["S_2023_01_15"; "S_2023_01_01"; "x"; "S_2023_01_19"; "S_2023_01_12"] in
  kept = [("S_2023_01_15", (15 * 86400)%Z); ("S_2023_01_19", (19 * 86400)%Z)] ∧
  (Z.of_nat (length kept) ≤ 2)%Z ∧ (∀ f g, f ∈ gone → g ∈ kept → (f.2 ≤ g.2)%Z).
Proof.
  pose proof (ClearOldFiles_correct (λ t, tm_mday t * 86400)%Z (λ _ n, negb (String.eqb n "x"))
    demo_sort demo_file (20 * 86400)
    ["S_2023_01_15"; "S_2023_01_01"; "x"; "S_2023_01_19"; "S_2023_01_12"]
    ltac:(intros l; apply merge_sort_Permutation)
    ltac:(intros l; apply StronglySorted_merge_sort; [unfold older; intros ? ? ?; lia|unfold older; intros ? ?; lia])
    ltac:(discriminate) ltac:(cbn; lia)) as H.
  destruct (ClearOldFiles _ _ _ _ _ _) as [gone kept] eqn:E.
  destruct H as (_ & H1 & _ & H2 & _). split; [|by split].
  vm_compute in E. injection E as <- <-. reflexivity.
Defined.

(** What is logged to a file is what the file holds: with no trouble from the
    machine, a file channel that writes messages one after the other opens its
    file once (under its time stamp when asked to), and then the file holds its
    old content in append mode, none otherwise, and after it the formatted
    messages in order, one per line; no other file is touched. *)
Theorem log_file_content (fmt_time : string → Z → string)
    (fmt_format : string → string → string) (c : FileChannel) (fs : gmap string string)
    (env : file_env) (msg : LogMessage) (msgs : list (file_env * LogMessage)) :
  fc_isDynamicFileName c = false → fc_logFile c = None →
  let name := if fc_isAddTimestamp c
              then insert_before_extension (fc_fileName c) ("_" +:+ timeStamp env)
              else fc_fileName c in
  let path := fc_logsDir c +:+ name in
  Forall (env_ok path) (env :: msgs.*1) →
  write_all fmt_time fmt_format ((env, msg) :: msgs) (c, fs) =
    (Done (), (set_stream (Some (mk_ofstream path true true)) (set_fileName name c),
      <[path := (if fc_isOpenModeAppend c then default "" (fs !! path) else "") +:+
                log_lines fmt_time (fc_base c) (msg :: msgs.*2)]> fs)).
Proof.
  intros Hd Hs name path [He Hok]%Forall_cons. unfold write_all. cbn [for_each].
  erewrite SM_bind_Done by (by apply File_Write_first). fold name. fold path.
  pose proof (write_all_open fmt_time fmt_format msgs) as H. unfold write_all in H.
  erewrite H; clear H; [|done|done|rewrite lookup_insert_eq; by eexists|done].
  rewrite lookup_insert_eq, insert_insert_eq. unfold id. cbn [from_option]. by rewrite str_app_assoc.
Qed.

#[local] Definition demo_env : file_env := mk_file_env (λ _, true) true "2023_01_02".
#[local] Definition demo_msg (text option_ : string) : LogMessage :=
  mk_LogMessage "server" text LogLevel.Info 0 "" 0 option_.

Lemma log_file_content_witness :
  write_all (λ _ _, "") (λ s _, s) [(demo_env, demo_msg "a" ""); (demo_env, demo_msg "b" "")]
    (demo_file, ∅) =
  (Done (), (set_stream (Some (mk_ofstream "logs/Server_2023_01_02.log" true true))
      (set_fileName "Server_2023_01_02.log" demo_file),
    {["logs/Server_2023_01_02.log" := "a" +:+ endl +:+ "b" +:+ endl]})).
Proof.
  etransitivity.
  - apply (log_file_content (λ _ _, "") (λ s _, s) demo_file ∅ demo_env (demo_msg "a" "")
      [(demo_env, demo_msg "b" "")]); [reflexivity|reflexivity|repeat constructor].
  - reflexivity.
Defined.

(** A dynamic log file is dynamic once: the first message's option is put
    into the channel's file name for good, so every later message goes to the
    first message's file, whatever its own option. *)
Theorem dynamic_file_fixed_by_first_option (fmt_time : string → Z → string)
    (fmt_format : string → string → string) (c : FileChannel) (fs : gmap string string)
    (env : file_env) (msg : LogMessage) (msgs : list (file_env * LogMessage)) :
  (∀ s a, no_char "{" s = true → no_char "}" s = true → fmt_format s a = s) →
  fc_isDynamicFileName c = true → fc_logFile c = None → fc_isAddTimestamp c = false →
  fc_isOpenModeAppend c = true →
  let name := fmt_format (fc_fileName c) (msg_option msg) in
  let path := fc_logsDir c +:+ name in
  no_char "{" name = true → no_char "}" name = true →
  Forall (env_ok path) (env :: msgs.*1) → Forall (λ m, msg_option m ≠ "") (msg :: msgs.*2) →
  write_all fmt_time fmt_format ((env, msg) :: msgs) (c, fs) =
    (Done (), (set_fileName name c,
      <[path := default "" (fs !! path) +:+ log_lines fmt_time (fc_base c) (msg :: msgs.*2)]> fs)).
Proof.
  intros Hlaw Hd Hs Ht Ha name path Hn1 Hn2 [He Hok]%Forall_cons [Hm Hopt]%Forall_cons.
  unfold write_all. cbn [for_each].
  erewrite SM_bind_Done by (by apply File_Write_dynamic). fold name. fold path.
  pose proof (File_Write_same_name fmt_time fmt_format msgs) as H. unfold write_all in H.
  rewrite (H _ _ path); clear H; try done; [|cbn; auto|rewrite lookup_insert_eq; by eexists].
  rewrite lookup_insert_eq, insert_insert_eq. unfold id. cbn [from_option]. by rewrite str_app_assoc.
Qed.

(** Replace the first pair of braces. *)
#[local] Fixpoint demo_format (s a : string) : string :=
  match s with
  | String "{" (String "}" rest) => a +:+ rest
  | String c rest => String c (demo_format rest a)
  | EmptyString => EmptyString
  end.

#[local] Lemma demo_format_law s a :
  no_char "{" s = true → no_char "}" s = true → demo_format s a = s.
Proof.
  induction s as [|c s IH]; [done|]. cbn [no_char]. intros [Hc H1]%andb_true_iff [_ H2]%andb_true_iff.
  destruct c as [[] [] [] [] [] [] [] []]; try done; cbn [demo_format]; by rewrite IH.
Qed.

Lemma dynamic_file_fixed_by_first_option_witness :
  let c := mk_FileChannel (fc_base demo_file) "logs/" "gm_{}.log" None true true true false 20 10 in
  write_all (λ _ _, "") demo_format [(demo_env, demo_msg "a" "1"); (demo_env, demo_msg "b" "2")]
    (c, ∅) =
  (Done (), (set_fileName "gm_1.log" c, {["logs/gm_1.log" := "a" +:+ endl +:+ "b" +:+ endl]})).
Proof.
  intros c. etransitivity.
  - apply (dynamic_file_fixed_by_first_option (λ _ _, "") demo_format c ∅ demo_env (demo_msg "a" "1")
      [(demo_env, demo_msg "b" "2")]); try reflexivity.
    + exact demo_format_law.
    + repeat constructor.
    + repeat constructor; discriminate.
  - vm_compute. reflexivity.
Defined.
