(* ===== verification/Log.v ===== *)
(** * The log registry: common/Logging Log.cpp, Logger.cpp, and FileUtil.cpp

    A [Log] owns loggers by name and channels by name.  A channel is shared: its
    [shared_ptr] is a number, and [heap] gives the object of each number, so a
    change of a channel's level is seen through every logger that holds it.
    The world the channels write to ([std::cout], the log files) and the lines
    [fmt::print] reports are part of the state. *)
From S2P Require Import Prelude CppString Convert Config LogChannels.

(** ** FileUtil.cpp *)
Fixpoint replace_char (a b : ascii) (s : string) : string :=
  match s with
  | EmptyString => EmptyString
  | String c s => String (if Ascii.eqb c a then b else c) (replace_char a b s)
  end.

Definition ends_with_slash (path : string) : bool :=
  match at_ path (String.length path - 1) with Some c => Ascii.eqb c "/" | None => false end.

(** [cwd] is [fs::absolute(fs::current_path()).generic_string()]. *)
Definition CorrectDirPath (cwd path : string) : string :=
  let path := if is_empty path then cwd else replace_char "\" "/" path in
  if ends_with_slash path then path else path +:+ "/".

(** ** Logger.h, Log.h *)
Record Logger := mk_Logger { lg_name : string; lg_level : LogLevel; lg_channels : list nat }.

Inductive Channel := ConsoleObj (c : ConsoleChannel) | FileObj (c : FileChannel).

Definition channel_base (c : Channel) : LogChannel :=
  match c with ConsoleObj c => cc_base c | FileObj c => fc_base c end.

Definition set_base (b : LogChannel) (c : Channel) : Channel :=
  match c with
  | ConsoleObj c => ConsoleObj (mk_ConsoleChannel b (cc_enableColors c) (cc_colors c))
  | FileObj c => FileObj (mk_FileChannel b (fc_logsDir c) (fc_fileName c) (fc_logFile c)
      (fc_isDynamicFileName c) (fc_isFlush c) (fc_isOpenModeAppend c) (fc_isAddTimestamp c)
      (fc_maxCount c) (fc_purgeAge c))
  end.

(** The registered [CreateChannel<ChannelImpl>]. *)
Inductive create_fn := CreateConsole | CreateFile.

Record Log := mk_Log {
  _loggers : gmap string Logger;
  _channels : gmap string nat;
  _channelsCreateFunction : gmap Z create_fn;
  highestLogLevel : LogLevel;
  _logsDir : string;
  _isUseDefaultLogs : bool;
  heap : gmap nat Channel;
  next_ptr : nat;
  log_files : gmap string string;
  std_cout : string;
  log_printed : list string }.

Abbreviation LogM := (SM string Log).

Definition with_loggers (x : gmap string Logger) (l : Log) : Log :=
  mk_Log x (_channels l) (_channelsCreateFunction l) (highestLogLevel l) (_logsDir l)
    (_isUseDefaultLogs l) (heap l) (next_ptr l) (log_files l) (std_cout l) (log_printed l).
Definition with_channels (x : gmap string nat) (l : Log) : Log :=
  mk_Log (_loggers l) x (_channelsCreateFunction l) (highestLogLevel l) (_logsDir l)
    (_isUseDefaultLogs l) (heap l) (next_ptr l) (log_files l) (std_cout l) (log_printed l).
Definition with_highest (x : LogLevel) (l : Log) : Log :=
  mk_Log (_loggers l) (_channels l) (_channelsCreateFunction l) x (_logsDir l)
    (_isUseDefaultLogs l) (heap l) (next_ptr l) (log_files l) (std_cout l) (log_printed l).
Definition with_logsDir (x : string) (l : Log) : Log :=
  mk_Log (_loggers l) (_channels l) (_channelsCreateFunction l) (highestLogLevel l) x
    (_isUseDefaultLogs l) (heap l) (next_ptr l) (log_files l) (std_cout l) (log_printed l).
Definition with_default (x : bool) (l : Log) : Log :=
  mk_Log (_loggers l) (_channels l) (_channelsCreateFunction l) (highestLogLevel l) (_logsDir l)
    x (heap l) (next_ptr l) (log_files l) (std_cout l) (log_printed l).
Definition with_heap (x : gmap nat Channel) (l : Log) : Log :=
  mk_Log (_loggers l) (_channels l) (_channelsCreateFunction l) (highestLogLevel l) (_logsDir l)
    (_isUseDefaultLogs l) x (next_ptr l) (log_files l) (std_cout l) (log_printed l).
Definition with_files (x : gmap string string) (l : Log) : Log :=
  mk_Log (_loggers l) (_channels l) (_channelsCreateFunction l) (highestLogLevel l) (_logsDir l)
    (_isUseDefaultLogs l) (heap l) (next_ptr l) x (std_cout l) (log_printed l).

Definition fmt_print_log (s : string) : LogM unit := modify_state (λ l,
  mk_Log (_loggers l) (_channels l) (_channelsCreateFunction l) (highestLogLevel l) (_logsDir l)
    (_isUseDefaultLogs l) (heap l) (next_ptr l) (log_files l) (std_cout l) (log_printed l ++ [s])).
Definition cout (s : string) : LogM unit := modify_state (λ l,
  mk_Log (_loggers l) (_channels l) (_channelsCreateFunction l) (highestLogLevel l) (_logsDir l)
    (_isUseDefaultLogs l) (heap l) (next_ptr l) (log_files l) (std_cout l +:+ s) (log_printed l)).
(** [make_shared] *)
Definition allocate (c : Channel) : LogM nat := λ l,
  (Done (next_ptr l),
   mk_Log (_loggers l) (_channels l) (_channelsCreateFunction l) (highestLogLevel l) (_logsDir l)
    (_isUseDefaultLogs l) (<[next_ptr l := c]> (heap l)) (S (next_ptr l)) (log_files l)
    (std_cout l) (log_printed l)).
(** An exception or a crash of a function without state. *)
Definition lift {A : Type} (o : outcome string A) : LogM A := λ l, (o, l).

Definition LOGGER_ROOT : string := "root".
Definition LOGGER_GM : string := "commands.gm".
Definition PREFIX_LOGGER : string := "Logger.".
Definition PREFIX_CHANNEL : string := "LogChannel.".
Definition PREFIX_LOGGER_LENGTH : nat := 7.
Definition PREFIX_CHANNEL_LENGTH : nat := 11.

(** [RegisterChannel<ConsoleChannel>(); RegisterChannel<FileChannel>();] *)
Definition new_Log : Log :=
  mk_Log ∅ ∅ {[1%Z := CreateConsole; 2%Z := CreateFile]} LogLevel.Disabled "" false ∅ 0 ∅ "" [].

Definition Clear : LogM unit :=
  _ ← modify_state (with_loggers ∅);
  modify_state (with_channels ∅).

Definition HasLogger (type : string) (l : Log) : option Logger := _loggers l !! type.
Definition HasChannel (name : string) (l : Log) : option nat := _channels l !! name.

(** A round either ends, shortens [type] or moves to "root", which ends. *)
Fixpoint GetLoggerByType_rec (fuel : nat) (type : string) (l : Log) : outcome string (option Logger) :=
  match fuel with
  | O => Crash "out of fuel"
  | S fuel =>
      match HasLogger type l with
      | Some logger => Done (Some logger)
      | None =>
          if String.eqb type LOGGER_ROOT then Done None
          else
            let parentLogger :=
              match find_last "." type with
              | Some found => String.substring 0 found type
              | None => LOGGER_ROOT
              end in
            GetLoggerByType_rec fuel parentLogger l
      end
  end.

Definition GetLoggerByType (type : string) (l : Log) : outcome string (option Logger) :=
  GetLoggerByType_rec (S (S (String.length type))) type l.

Definition ShouldLog (filter_ : string) (level : LogLevel) (l : Log) : outcome string bool :=
  if LogLevel.ltb (highestLogLevel l) level then Done false
  else
    logger ← GetLoggerByType filter_ l;
    match logger with
    | None => Done false
    | Some logger =>
        Done (negb (bool_decide (lg_level logger = LogLevel.Disabled)) &&
              negb (LogLevel.ltb (lg_level logger) level))
    end.

Definition SetLoggerLevel (name : string) (level : LogLevel) : LogM unit :=
  if negb (LogLevel.ltb level LogLevel.Max) then mret ()
  else
    l ← get_state;
    _ ← (if LogLevel.ltb (highestLogLevel l) level then modify_state (with_highest level) else mret ());
    match HasLogger name l with
    | Some lg => modify_state (λ l, with_loggers
        (<[name := mk_Logger (lg_name lg) level (lg_channels lg)]> (_loggers l)) l)
    | None => mret ()
    end.

Definition SetChannelLevel (name : string) (level : LogLevel) : LogM unit :=
  if negb (LogLevel.ltb level LogLevel.Max) then mret ()
  else
    l ← get_state;
    match HasChannel name l with
    | Some p => modify_state (λ l,
        with_heap (alter (λ c, set_base (SetLevel level (channel_base c)) c) p (heap l)) l)
    | None => mret ()
    end.

(** ** Creating channels and loggers from the configuration *)
Section Log.
Context (fmt_time : string → Z → string) (fmt_format : string → string → string).

(** What the purge of a file channel needs: the clock, the names in the
    directory, and the library functions it calls. *)
Record purge_env := mk_purge_env {
  pe_now : Z;
  pe_entries : list string;
  pe_mktime : tm → Z;
  pe_regex_match : string → string → bool;
  pe_sort : list (string * Z) → list (string * Z) }.

Definition create (f : create_fn) (penv : purge_env) (name : string) (level : LogLevel)
    (pattern : string) (options : list string) : LogM nat :=
  match f with
  | CreateConsole =>
      c ← lift (new_ConsoleChannel name level pattern options);
      allocate (ConsoleObj c)
  | CreateFile =>
      l ← get_state;
      c ← lift (new_FileChannel (_logsDir l) name level pattern options);
      _ ← (if (7 <=? length options)%nat then
             let '(gone, _) := ClearOldFiles (pe_mktime penv) (pe_regex_match penv) (pe_sort penv)
                                 c (pe_now penv) (pe_entries penv) in
             modify_state (λ l, with_files
               (foldr (λ f m, delete (_logsDir l +:+ f) m) (log_files l) gone.*1) l)
           else mret ());
      allocate (FileObj c)
  end.

Definition CreateChannelsFromConfig (penv : purge_env) (cfg : ConfigState)
    (logChannelName : string) : LogM unit :=
  if is_empty logChannelName then mret ()
  else
    l ← get_state;
    match HasChannel logChannelName l with
    | Some _ => fmt_print_log "Log::CreateChannelsFromConfig: {} is exist"
    | None =>
        let options := fst (GetOption_string logChannelName "" true cfg) in
        let channelName := substr_from PREFIX_CHANNEL_LENGTH logChannelName in
        let tokens := Tokenize options "," true in
        if (length tokens <? 3)%nat || (MAX_CHANNEL_OPTIONS <? length tokens)%nat
        then fmt_print_log "Log::CreateChannelsFromConfig: Wrong config option for {}"
        else
          match StringTo int8 (nth 0 tokens "") with
          | None => fmt_print_log "Log::CreateChannelsFromConfig: Wrong channel type for {}"
          | Some channelType =>
              match _channelsCreateFunction l !! channelType with
              | None => fmt_print_log "Log::CreateChannelsFromConfig: Undefined type '{}' for {}"
              | Some createFunction =>
                  match StringTo uint8 (nth 1 tokens "") with
                  | Some loggerLevel =>
                      if (MAX_LOG_LEVEL <=? loggerLevel)%Z
                      then fmt_print_log "Log::CreateChannelsFromConfig: Wrong Log Level for {}"
                      else
                        let level := LogLevel.of_Z loggerLevel in
                        let pattern := nth 2 tokens "" in
                        if is_empty pattern
                        then fmt_print_log "Log::CreateChannelsFromConfig: Empty pattern for {}"
                        else
                          try_catch
                            (p ← create createFunction penv logChannelName level pattern tokens;
                             modify_state (λ l, with_channels (emplace channelName p (_channels l)) l))
                            (λ _, fmt_print_log "Log::CreateChannelsFromConfig: Error at create channel {}")
                  | None => fmt_print_log "Log::CreateChannelsFromConfig: Wrong Log Level for {}"
                  end
              end
          end
    end.

(** [logger->AddChannel(channel)] of the channels named. *)
Fixpoint AddChannels (names : list string) (logger : Logger) : LogM Logger :=
  match names with
  | [] => mret logger
  | channelName :: names =>
      l ← get_state;
      match HasChannel channelName l with
      | Some channel =>
          AddChannels names (mk_Logger (lg_name logger) (lg_level logger) (lg_channels logger ++ [channel]))
      | None =>
          _ ← fmt_print_log "Error while configuring Channel '{}' in Logger {}. Channel does not exist";
          AddChannels names logger
      end
  end.

Definition CreateLoggerFromConfig (cfg : ConfigState) (configLoggerName : string) : LogM unit :=
  if is_empty configLoggerName then mret ()
  else
    l ← get_state;
    match HasLogger configLoggerName l with
    | Some _ => fmt_print_log "Log::CreateLoggerFromConfig: {} is exist"
    | None =>
        let options := fst (GetOption_string configLoggerName "" true cfg) in
        let loggerName := substr_from PREFIX_LOGGER_LENGTH configLoggerName in
        if is_empty options
        then fmt_print_log "Log::CreateLoggerFromConfig: Missing config option Logger.{}"
        else
          let tokens := Tokenize options "," true in
          if negb (length tokens =? LOGGER_OPTIONS)%nat
          then fmt_print_log "Log::CreateLoggerFromConfig: Bad config options for Logger ({})"
          else
            match StringTo uint8 (nth 0 tokens "") with
            | Some loggerLevel =>
                if (MAX_LOG_LEVEL <=? loggerLevel)%Z
                then fmt_print_log "Log::CreateLoggerFromConfig: Wrong Log Level for logger {}"
                else
                  let level := LogLevel.of_Z loggerLevel in
                  _ ← (if LogLevel.ltb (highestLogLevel l) level
                       then modify_state (with_highest level) else mret ());
                  logger ← AddChannels (Tokenize (nth 1 tokens "") " " false)
                             (mk_Logger loggerName level []);
                  modify_state (λ l, with_loggers (emplace loggerName logger (_loggers l)) l)
            | None => fmt_print_log "Log::CreateLoggerFromConfig: Wrong Log Level for logger {}"
            end
    end.

Definition ReadLoggersFromConfig (order : gmap string string → list (string * string))
    (cfg : ConfigState) : LogM unit :=
  match GetKeysByString order PREFIX_LOGGER cfg with
  | [] => fmt_print_log "Log::ReadLoggersFromConfig - Not found loggers, change config file!"
  | keys =>
      _ ← for_each (CreateLoggerFromConfig cfg) keys;
      l ← get_state;
      match HasLogger LOGGER_ROOT l with
      | Some _ => mret ()
      | None => fmt_print_log "Log::ReadLoggersFromConfig - Logger '{0}' not found!"
      end
  end.

Definition ReadChannelsFromConfig (order : gmap string string → list (string * string))
    (penv : purge_env) (cfg : ConfigState) : LogM unit :=
  match GetKeysByString order PREFIX_CHANNEL cfg with
  | [] => fmt_print_log "Log::ReadChannelsFromConfig - Not found channels, change config file!"
  | keys => for_each (CreateChannelsFromConfig penv cfg) keys
  end.

(** [cwd] is the current directory, [dir_ok] what [CreateDirIfNeed] returns. *)
Definition LoadFromConfig (order : gmap string string → list (string * string)) (penv : purge_env)
    (cwd : string) (dir_ok : bool) (cfg : ConfigState) : LogM unit :=
  _ ← modify_state (with_highest LogLevel.Fatal);
  _ ← modify_state (with_logsDir (CorrectDirPath cwd (fst (GetOption_string "LogsDir" "" false cfg))));
  _ ← lift (assert dir_ok "Warhead::File::CreateDirIfNeed(_logsDir)");
  _ ← Clear;
  _ ← ReadChannelsFromConfig order penv cfg;
  ReadLoggersFromConfig order cfg.

Definition Initialize (order : gmap string string → list (string * string)) (penv : purge_env)
    (cwd : string) (dir_ok : bool) (cfg : ConfigState) : LogM unit :=
  l ← get_state;
  if _isUseDefaultLogs l then mret () else LoadFromConfig order penv cwd dir_ok cfg.

Definition UsingDefaultLogs (value : bool) : LogM unit :=
  _ ← modify_state (with_default value);
  if negb value then mret ()
  else
    _ ← Clear;
    _ ← modify_state (with_highest LogLevel.Debug);
    try_catch
      (c ← lift (new_ConsoleChannel_colors "Console" LogLevel.Debug "[%H:%M:%S] %t"
                   "lightRed lightRed red brown cyan lightMagenta green");
       p ← allocate (ConsoleObj c);
       _ ← modify_state (λ l, with_channels (emplace "Console" p (_channels l)) l);
       modify_state (λ l, with_loggers
         (emplace "root" (mk_Logger "root" LogLevel.Debug [p]) (_loggers l)) l))
      (λ _, fmt_print_log "Log::UsingDefaultLogs - {}").

(** ** Writing *)

(** [channel->Write(msg)], the virtual call. *)
Definition Channel_Write (env : file_env) (p : nat) (msg : LogMessage) : LogM unit := λ l,
  match heap l !! p with
  | Some (ConsoleObj c) => cout (Console_Write fmt_time c msg) l
  | Some (FileObj c) =>
      let '(r, (c', fs)) := File_Write fmt_time fmt_format env msg (c, log_files l) in
      (r, with_files fs (with_heap (<[p := FileObj c']> (heap l)) l))
  | None => (Crash "dangling channel", l)
  end.

(** The loop of [Logger::Write]. *)
Definition Logger_Write (env : file_env) (logger : Logger) (msg : LogMessage) : LogM unit :=
  if LogLevel.ltb (lg_level logger) (msg_level msg) then mret ()
  else
    for_each (λ channel,
      l ← get_state;
      match heap l !! channel with
      | Some c =>
          if LogLevel.ltb (lc_level (channel_base c)) (msg_level msg) then mret ()
          else Channel_Write env channel msg
      | None => abort "dangling channel"
      end) (lg_channels logger).

Definition Write (env : file_env) (msg : LogMessage) : LogM unit :=
  l ← get_state;
  logger ← lift (GetLoggerByType (msg_source msg) l);
  match logger with
  | Some logger => try_catch (Logger_Write env logger msg) (λ e, fmt_print_log ("Error at write: " +:+ e))
  | None => mret ()
  end.

(** [LOG_MSG_BODY] with a text that is formatted already. *)
Definition LOG_MSG_BODY (env : file_env) (msg : LogMessage) : LogM unit :=
  l ← get_state;
  should ← lift (ShouldLog (msg_source msg) (msg_level msg) l);
  if negb should then mret () else Write env msg.

Definition OutCommand (env : file_env) (accountID : Z) (time : Z) (message : string) : LogM unit :=
  l ← get_state;
  should ← lift (ShouldLog LOGGER_GM LogLevel.Info l);
  if negb should then mret ()
  else Write env (mk_LogMessage LOGGER_GM message LogLevel.Info time "" 0 (print_Z accountID)).
End Log.

(** ** Which logger is responsible *)

(** The type and its parents, the longest first: "a.b.c", "a.b", "a". *)
Definition ancestors (type : string) : list string :=
  let parts := split_on "." type in
  (λ k, join "." (take k parts)) <$> reverse (seq 1 (length parts)).

(** The logger of the closest ancestor that has one, or else the root logger. *)
Definition responsible (type : string) (l : Log) : option Logger :=
  head (omap (λ t, _loggers l !! t) (ancestors type ++ [LOGGER_ROOT])).

Lemma find_last_None c s : find_last c s = None → no_char c s = true.
Proof.
  induction s as [|a s IH]; [done|]. cbn. destruct (find_last c s); [done|].
  destruct (Ascii.eqb a c); [done|]. intros _. by apply IH.
Qed.

Lemma find_last_Some c s i :
  find_last c s = Some i →
  ∃ a b, s = a +:+ String c b ∧ String.length a = i ∧ no_char c b = true.
Proof.
  revert i. induction s as [|x s IH]; [done|]. intros i. cbn.
  destruct (find_last c s) as [j|] eqn:Hj.
  - intros [= <-]. destruct (IH j eq_refl) as (a & b & -> & <- & Hb). by exists (String x a), b.
  - destruct (Ascii.eqb x c) eqn:Hx; [|done]. intros [= <-]. apply Ascii.eqb_eq in Hx as ->.
    exists "", s. repeat split. by apply find_last_None.
Qed.

Lemma split_on_snoc c a b :
  no_char c b = true → split_on c (a +:+ String c b) = split_on c a ++ [b].
Proof.
  intros Hb. induction a as [|x a IH]; cbn.
  - rewrite Ascii.eqb_refl. by rewrite split_on_no_char.
  - rewrite IH. destruct (Ascii.eqb x c); [done|].
    pose proof (split_on_nonempty c a). by destruct (split_on c a).
Qed.

Lemma ancestors_no_dot type : no_char "." type = true → ancestors type = [type].
Proof. intros H. unfold ancestors. by rewrite split_on_no_char. Qed.

Lemma ancestors_dot a b :
  no_char "." b = true → ancestors (a +:+ String "." b) = (a +:+ String "." b) :: ancestors a.
Proof.
  intros Hb. unfold ancestors. rewrite split_on_snoc, length_app by done. cbn [length].
  rewrite seq_app, reverse_app. cbn [seq reverse]. rewrite reverse_singleton. cbn [app fmap list_fmap].
  f_equal.
  - rewrite take_ge by (rewrite length_app; cbn; lia). rewrite <- split_on_snoc by done.
    apply join_split_on.
  - apply list_fmap_ext. intros i k Hk. f_equal. apply take_app_le.
    apply list_elem_of_lookup_2 in Hk. rewrite elem_of_reverse, elem_of_seq in Hk. lia.
Qed.

Lemma GetLoggerByType_rec_eq fuel type l :
  String.length type + 2 ≤ fuel → GetLoggerByType_rec fuel type l = Done (responsible type l).
Proof.
  revert type. induction fuel as [|fuel IH]; intros type Hf; [lia|].
  cbn [GetLoggerByType_rec]. unfold responsible, HasLogger.
  destruct (find_last "." type) as [i|] eqn:Hi.
  - destruct (find_last_Some _ _ _ Hi) as (a & b & -> & <- & Hb). rewrite ancestors_dot by done.
    cbn [app omap list_omap]. destruct (_loggers l !! (a +:+ String "." b)); [done|].
    assert (String.eqb (a +:+ String "." b) LOGGER_ROOT = false) as ->.
    { apply String.eqb_neq. intros He. apply (f_equal (no_char ".")) in He.
      rewrite no_char_app in He. cbn in He. by rewrite andb_false_r in He. }
    rewrite substring_0_app. rewrite str_length_app in Hf. cbn in Hf. apply IH. lia.
  - rewrite ancestors_no_dot by (by apply find_last_None). cbn [app omap list_omap].
    destruct (_loggers l !! type) eqn:Ht; [done|].
    destruct (String.eqb_spec type LOGGER_ROOT) as [->|_]; [by rewrite Ht|].
    destruct fuel as [|fuel]; [lia|]. cbn [GetLoggerByType_rec]. unfold HasLogger.
    by destruct (_loggers l !! LOGGER_ROOT).
Qed.

Lemma GetLoggerByType_eq type l : GetLoggerByType type l = Done (responsible type l).
Proof. apply GetLoggerByType_rec_eq. lia. Qed.

(** ** The invariant of the registry *)

(** No logger logs above [highestLogLevel], and no shared pointer dangles. *)
Definition logger_ok (l : Log) (lg : Logger) : Prop :=
  (LogLevel.to_Z (lg_level lg) ≤ LogLevel.to_Z (highestLogLevel l))%Z ∧
  Forall (λ p, is_Some (heap l !! p)) (lg_channels lg).

Record log_ok (l : Log) : Prop := mk_log_ok {
  ok_loggers : map_Forall (λ _, logger_ok l) (_loggers l);
  ok_channels : map_Forall (λ _ p, is_Some (heap l !! p)) (_channels l) }.

(** States that agree on what the invariant reads, up to more memory and a
    higher threshold. *)
Definition extends (l l' : Log) : Prop :=
  (LogLevel.to_Z (highestLogLevel l) ≤ LogLevel.to_Z (highestLogLevel l'))%Z ∧
  (∀ p, is_Some (heap l !! p) → is_Some (heap l' !! p)).

Lemma logger_ok_extends l l' lg : extends l l' → logger_ok l lg → logger_ok l' lg.
Proof.
  intros [Hh Hp] [H1 H2]. split; [lia|]. eapply Forall_impl; [exact H2|]. cbn. auto.
Qed.

Lemma log_ok_extends l l' :
  extends l l' → _loggers l' = _loggers l → _channels l' = _channels l → log_ok l → log_ok l'.
Proof.
  intros He Hl Hc [H1 H2]. split.
  - rewrite Hl. intros n lg Hn. eapply logger_ok_extends; [done|by apply (H1 n)].
  - rewrite Hc. intros n p Hn. apply He. by apply (H2 n).
Qed.

Lemma extends_same l l' : highestLogLevel l' = highestLogLevel l → heap l' = heap l → extends l l'.
Proof. intros Hh Hp. unfold extends. rewrite Hh, Hp. split; [lia|done]. Qed.

Lemma extends_insert l l' p c :
  highestLogLevel l' = highestLogLevel l → heap l' = <[p := c]> (heap l) → extends l l'.
Proof.
  intros Hh Hp. unfold extends. rewrite Hh, Hp. split; [lia|]. intros q Hq.
  destruct (decide (q = p)) as [->|]; [rewrite lookup_insert_eq; eauto|by rewrite lookup_insert_ne].
Qed.

(** Steps that keep the invariant whatever they return. *)
Abbreviation keeps m := (triple log_ok m (λ _, log_ok) (λ _ : string, log_ok)).
(** Steps that keep it and throw nothing. *)
Abbreviation quiet m := (triple log_ok m (λ _, log_ok) (λ _ : string, λ _ : Log, False)).

Lemma quiet_ret : quiet (mret ()).
Proof. intros l Hl. exact Hl. Qed.

Lemma quiet_keeps {A : Type} (m : LogM A) : quiet m → keeps m.
Proof. intros H. eapply triple_weaken; [exact H|done|done|]. by intros e s []. Qed.

Lemma quiet_modify (f : Log → Log) :
  (∀ l, extends l (f l) ∧ _loggers (f l) = _loggers l ∧ _channels (f l) = _channels l) →
  quiet (modify_state f).
Proof.
  intros H. apply triple_modify. intros l Hl. destruct (H l) as (? & ? & ?).
  by eapply log_ok_extends.
Qed.

Lemma fmt_print_log_quiet s : quiet (fmt_print_log s).
Proof. apply quiet_modify. intros l. by split; [apply extends_same|]. Qed.

Lemma cout_quiet s : quiet (cout s).
Proof. apply quiet_modify. intros l. by split; [apply extends_same|]. Qed.

#[export] Hint Resolve quiet_ret fmt_print_log_quiet cout_quiet : warhead.

Lemma allocate_ok (c : Channel) X :
  triple log_ok (allocate c) (λ p l, log_ok l ∧ is_Some (heap l !! p)) X.
Proof.
  intros l Hl. cbn. rewrite lookup_insert_eq. split; [|by eexists].
  apply (log_ok_extends l); [|done|done|exact Hl]. by apply (extends_insert l _ (next_ptr l) c).
Qed.

Lemma lift_ok {A : Type} (o : outcome string A) P :
  (∀ w, o ≠ Crash w) → triple P (lift o) (λ a l, o = Done a ∧ P l) (λ _, P).
Proof. intros H l Hl. unfold lift. destruct o as [a|e|w]; [done|done|]. by destruct (H w). Qed.

(** Adding an entry to one of the tables. *)
Lemma emplace_channel_ok name p (X : string → Log → Prop) :
  triple (λ l, log_ok l ∧ is_Some (heap l !! p))
    (modify_state (λ l, with_channels (emplace name p (_channels l)) l)) (λ _, log_ok) X.
Proof.
  apply triple_modify. intros l [[H1 H2] Hp]. split; [exact H1|]. cbn. unfold emplace.
  destruct (_channels l !! name); [done|]. by apply map_Forall_insert_2.
Qed.

Lemma emplace_logger_ok name lg (X : string → Log → Prop) :
  triple (λ l, log_ok l ∧ logger_ok l lg)
    (modify_state (λ l, with_loggers (emplace name lg (_loggers l)) l)) (λ _, log_ok) X.
Proof.
  apply triple_modify. intros l [[H1 H2] Hp]. split; [|exact H2]. cbn. unfold emplace.
  destruct (_loggers l !! name); [exact H1|]. by apply map_Forall_insert_2.
Qed.

(** *** Nothing of a channel's construction crashes *)
Lemma read_until_bracket_length s : String.length (snd (read_until_bracket s)) ≤ String.length s.
Proof.
  induction s as [|c s IH]; cbn; [lia|]. destruct (Ascii.eqb c "]"); cbn; [lia|].
  destruct (read_until_bracket s). cbn in *. lia.
Qed.

Lemma ParsePattern_loop_no_crash fuel it prep c w :
  String.length it < fuel → fst (ParsePattern_loop fuel it prep c) ≠ Crash w.
Proof.
  revert it prep c. induction fuel as [|fuel IH]; intros it prep c Hf; [lia|].
  destruct it as [|x it]; cbn [ParsePattern_loop]; [by destruct (is_empty prep)|]. cbn in Hf.
  destruct (negb (Ascii.eqb x "%")); [apply IH; lia|].
  destruct it as [|key rest]; [apply IH; cbn; lia|]. cbn in Hf.
  destruct (Ascii.eqb key "[").
  - pose proof (read_until_bracket_length rest). destruct (read_until_bracket rest) as [p r].
    unfold push_action. sm_unfold. apply IH. cbn in *. lia.
  - assert (∀ len, fst ((_ ← push_action (mk_PatternAction key len "" prep);
      ParsePattern_loop fuel rest "") c) ≠ Crash w) as Hplain.
    { intros len. unfold push_action. sm_unfold. apply IH. lia. }
    destruct rest as [|y rest]; [apply Hplain|].
    destruct y as [[] [] [] [] [] [] [] []]; try apply Hplain.
    pose proof (read_until_bracket_length rest). destruct (read_until_bracket rest) as [p r].
    destruct (StringTo uint64 p); [|done].
    unfold push_action. sm_unfold. apply IH. cbn in *. lia.
Qed.

Lemma new_LogChannel_no_crash name level pattern w : new_LogChannel name level pattern ≠ Crash w.
Proof.
  unfold new_LogChannel, ParsePattern. sm_unfold. cbn [lc_pattern].
  destruct (is_empty pattern); [done|].
  pose proof (ParsePattern_loop_no_crash (S (String.length pattern)) pattern ""
    (set_actions [] (mk_LogChannel name level pattern []))) as H.
  destruct (ParsePattern_loop _ _ _ _) as [[[]|e|w'] c]; [|done|].
  - by destruct (lc_patternActions c).
  - exfalso. by apply (H w'); [lia|].
Qed.

Lemma outcome_bind_no_crash {E A B : Type} (o : outcome E A) (f : A → outcome E B) :
  (∀ w, o ≠ Crash w) → (∀ a w, f a ≠ Crash w) → ∀ w, o ≫= f ≠ Crash w.
Proof. intros Ho Hf w. destruct o as [a|e|w']; cbn; [apply Hf|done|]. by destruct (Ho w'). Qed.

Lemma SetColors_no_crash text colors w : SetColors text colors ≠ Crash w.
Proof.
  unfold SetColors. case_match; [done|]. generalize 0. revert colors w. clear.
  induction (Tokenize text " " true) as [|t ts IH]; intros colors w n; [done|]. cbn [SetColors_loop].
  apply outcome_bind_no_crash; [|intros; apply IH]. intros w'. unfold ParseColor.
  by destruct (List.find _ _) as [[]|].
Qed.

Lemma new_ConsoleChannel_no_crash name level pattern options w :
  new_ConsoleChannel name level pattern options ≠ Crash w.
Proof.
  unfold new_ConsoleChannel. apply outcome_bind_no_crash; [apply new_LogChannel_no_crash|].
  intros a w'. case_match; [done|]. apply outcome_bind_no_crash; [|done]. intros w2.
  case_match; [apply SetColors_no_crash|done].
Qed.

Lemma new_ConsoleChannel_colors_no_crash name level pattern colors w :
  new_ConsoleChannel_colors name level pattern colors ≠ Crash w.
Proof.
  unfold new_ConsoleChannel_colors. apply outcome_bind_no_crash; [apply new_LogChannel_no_crash|].
  intros a w'. apply outcome_bind_no_crash; [|done]. intros w2.
  case_match; [done|apply SetColors_no_crash].
Qed.

Lemma new_FileChannel_no_crash dir name level pattern options w :
  new_FileChannel dir name level pattern options ≠ Crash w.
Proof.
  unfold new_FileChannel, option_bool, option_uint32.
  apply outcome_bind_no_crash; [apply new_LogChannel_no_crash|].
  intros a w1. case_match; [|done].
  repeat (apply outcome_bind_no_crash; [intros ?; repeat case_match; done|intros ? ?]). done.
Qed.

(** *** The operations keep the invariant *)
Lemma triple_get_bind {B : Type} (f : Log → LogM B) P Q X :
  (∀ l, P l → triple (λ l', l' = l) (f l) Q X) → triple P (l ← get_state; f l) Q X.
Proof. intros H l Hl. unfold mbind, SM_bind, get_state. by apply (H l). Qed.

Lemma triple_at {A : Type} (m : LogM A) P Q X l :
  triple P m Q X → P l → triple (λ l', l' = l) m Q X.
Proof. intros H Hl l' ->. by apply H. Qed.

Lemma quiet_at (m : LogM unit) l :
  quiet m → log_ok l → triple (λ l', l' = l) m (λ _, log_ok) (λ _ _, False).
Proof. apply triple_at. Qed.

Lemma keeps_at {A : Type} (m : LogM A) l :
  keeps m → log_ok l → triple (λ l', l' = l) m (λ _, log_ok) (λ _, log_ok).
Proof. apply triple_at. Qed.

Lemma create_ok f penv name level pattern options :
  triple log_ok (create f penv name level pattern options)
    (λ p l, log_ok l ∧ is_Some (heap l !! p)) (λ _, log_ok).
Proof.
  destruct f; cbn [create].
  - eapply triple_bind; [apply lift_ok, new_ConsoleChannel_no_crash|].
    intros c. eapply triple_weaken; [apply (allocate_ok _ (λ _, log_ok))|by intros ? []|done|done].
  - apply triple_get_bind. intros l Hl. eapply triple_at; [|exact Hl].
    eapply triple_bind; [apply lift_ok, new_FileChannel_no_crash|]. intros c.
    eapply (triple_bind _ _ _ (λ _, log_ok)); [|intros ?; apply allocate_ok].
    apply (triple_weaken _ log_ok _ (λ _, log_ok) _ (λ _, log_ok)); [|by intros ? []|done|done].
    case_match; [|apply quiet_keeps, quiet_ret].
    destruct (ClearOldFiles _ _ _ _ _ _). apply quiet_keeps, quiet_modify.
    intros l'. by split; [apply extends_same|].
Qed.

Lemma CreateChannelsFromConfig_quiet penv cfg name : quiet (CreateChannelsFromConfig penv cfg name).
Proof.
  unfold CreateChannelsFromConfig. case_match; [apply quiet_ret|].
  apply triple_get_bind. intros l Hl. apply quiet_at; [|done].
  repeat (case_match; try apply fmt_print_log_quiet).
  eapply triple_try; [|intros e; apply fmt_print_log_quiet].
  eapply triple_bind; [apply create_ok|]. intros p. apply emplace_channel_ok.
Qed.

Lemma AddChannels_ok names lg :
  triple (λ l, log_ok l ∧ logger_ok l lg) (AddChannels names lg)
    (λ lg' l, log_ok l ∧ logger_ok l lg') (λ _ _, False).
Proof.
  revert lg. induction names as [|n names IH]; intros lg; cbn [AddChannels].
  { intros l Hl. exact Hl. }
  apply triple_get_bind. intros l [Hl Hlg]. unfold HasChannel. destruct (_channels l !! n) as [p|] eqn:Hp.
  - eapply triple_at; [apply IH|]. cbn. split; [done|]. destruct Hlg as [H1 H2]. split; [done|].
    cbn. apply Forall_app. split; [done|]. apply Forall_singleton. by apply (ok_channels l Hl n).
  - apply (triple_at _ (λ l, log_ok l ∧ logger_ok l lg)); [|exact (conj Hl Hlg)].
    eapply triple_bind; [|intros ?; apply IH].
    apply triple_modify. intros l' [Hl' Hlg']. split.
    + eapply log_ok_extends; [| | |exact Hl']; [by apply extends_same|done|done].
    + eapply logger_ok_extends; [|exact Hlg']. by apply extends_same.
Qed.

Lemma raise_highest_ok level l :
  log_ok l →
  triple (λ l', l' = l)
    (if LogLevel.ltb (highestLogLevel l) level then modify_state (with_highest level) else mret ())
    (λ _ l', log_ok l' ∧ (LogLevel.to_Z level ≤ LogLevel.to_Z (highestLogLevel l'))%Z ∧
       _loggers l' = _loggers l) (λ (_ : string) _, False).
Proof.
  intros Hl l' ->. unfold LogLevel.ltb. destruct (Z.ltb_spec (LogLevel.to_Z (highestLogLevel l)) (LogLevel.to_Z level)).
  - split; [|cbn; split; [lia|done]]. apply (log_ok_extends l); [|done|done|exact Hl].
    split; [cbn; lia|done].
  - split; [exact Hl|]. split; [lia|done].
Qed.

Lemma CreateLoggerFromConfig_quiet cfg name : quiet (CreateLoggerFromConfig cfg name).
Proof.
  unfold CreateLoggerFromConfig. case_match; [apply quiet_ret|].
  apply triple_get_bind. intros l Hl. pose proof (λ s, quiet_at _ l (fmt_print_log_quiet s) Hl) as Hmsg.
  destruct (HasLogger name l); [apply Hmsg|]. cbv zeta.
  destruct (is_empty (fst _)); [apply Hmsg|]. destruct (negb _); [apply Hmsg|].
  destruct (StringTo uint8 _) as [v|]; [|apply Hmsg]. destruct (_ <=? _)%Z; [apply Hmsg|].
  eapply triple_bind; [by apply raise_highest_ok|]. intros ?.
  eapply triple_bind; [|intros lg; apply emplace_logger_ok].
  eapply triple_weaken; [apply AddChannels_ok| |done|done].
  intros l' (H1 & H2 & _). split; [done|]. split; [done|]. constructor.
Qed.

Lemma ReadChannelsFromConfig_quiet order penv cfg : quiet (ReadChannelsFromConfig order penv cfg).
Proof.
  unfold ReadChannelsFromConfig. case_match; [apply fmt_print_log_quiet|].
  apply triple_for_each. intros; apply CreateChannelsFromConfig_quiet.
Qed.

Lemma ReadLoggersFromConfig_quiet order cfg : quiet (ReadLoggersFromConfig order cfg).
Proof.
  unfold ReadLoggersFromConfig. case_match; [apply fmt_print_log_quiet|].
  eapply triple_bind; [apply triple_for_each; intros; apply CreateLoggerFromConfig_quiet|]. intros ?.
  apply triple_get_bind. intros l1 Hl. apply quiet_at; [|done].
  case_match; [apply quiet_ret|apply fmt_print_log_quiet].
Qed.

(** An empty registry satisfies the invariant. *)
Lemma log_ok_empty l : _loggers l = ∅ → _channels l = ∅ → log_ok l.
Proof. intros Hl Hc. split; [rewrite Hl|rewrite Hc]; apply map_Forall_empty. Qed.

Lemma LoadFromConfig_quiet order penv cwd cfg : quiet (LoadFromConfig order penv cwd true cfg).
Proof.
  intros l _. unfold LoadFromConfig. cbn [assert].
  assert (quiet (_ ← ReadChannelsFromConfig order penv cfg; ReadLoggersFromConfig order cfg)) as H.
  { eapply triple_bind; [apply ReadChannelsFromConfig_quiet|]. intros ?. apply ReadLoggersFromConfig_quiet. }
  by apply H, log_ok_empty.
Qed.

Lemma Initialize_quiet order penv cwd cfg : quiet (Initialize order penv cwd true cfg).
Proof.
  apply triple_get_bind. intros l Hl. apply quiet_at; [|done].
  case_match; [apply quiet_ret|apply LoadFromConfig_quiet].
Qed.

Lemma UsingDefaultLogs_quiet value : quiet (UsingDefaultLogs value).
Proof.
  unfold UsingDefaultLogs.
  eapply (triple_bind _ _ _ (λ _, log_ok)).
  { apply quiet_modify. intros l. by split; [apply extends_same|]. }
  intros ?. case_match; [apply quiet_ret|].
  eapply (triple_bind _ _ _ (λ _ l, _loggers l = ∅ ∧ _channels l = ∅)); [by intros l _|].
  intros ?. eapply (triple_bind _ _ _ (λ _ l, (log_ok l) ∧ highestLogLevel l = LogLevel.Debug)).
  { apply triple_modify. intros l [H1 H2]. split; [by apply log_ok_empty|done]. }
  intros ?. eapply (triple_try _ _ _ _ (λ _, log_ok)); [|intros e; apply fmt_print_log_quiet].
  eapply (triple_bind _ _ _ (λ _ l, log_ok l ∧ highestLogLevel l = LogLevel.Debug)).
  { intros l Hl. unfold lift. pose proof (new_ConsoleChannel_colors_no_crash "Console" LogLevel.Debug
      "[%H:%M:%S] %t" "lightRed lightRed red brown cyan lightMagenta green") as Hc.
    destruct (new_ConsoleChannel_colors _ _ _ _) as [c|e|w]; [done|by destruct Hl|by destruct (Hc w)]. }
  intros c. eapply (triple_bind _ _ _ (λ p l, log_ok l ∧ highestLogLevel l = LogLevel.Debug ∧ is_Some (heap l !! p))).
  { intros l [Hl Hh]. pose proof (allocate_ok (ConsoleObj c) (λ (_ : string) _, False) l Hl) as [Ha1 Ha2]. done. }
  intros p. eapply (triple_bind _ _ _ (λ _ l, log_ok l ∧ logger_ok l (mk_Logger "root" LogLevel.Debug [p])));
    [|intros ?; apply emplace_logger_ok].
  intros l (Hl & Hh & Hp).
  pose proof (emplace_channel_ok "Console" p (λ _ _, False) l (conj Hl Hp)) as He.
  split; [exact He|]. split; [cbn; rewrite Hh; cbn; lia|]. cbn. by apply Forall_singleton.
Qed.

Lemma SetLoggerLevel_quiet name level : quiet (SetLoggerLevel name level).
Proof.
  unfold SetLoggerLevel. case_match; [apply quiet_ret|]. apply triple_get_bind. intros l Hl.
  eapply triple_bind; [by apply raise_highest_ok|]. intros ?. unfold HasLogger.
  destruct (_loggers l !! name) as [lg|] eqn:Hlg; [|by intros l' [H' _]].
  apply triple_modify. intros l' (Hl' & Hle & Heq). split; [|apply (ok_channels l' Hl')].
  cbn. apply map_Forall_insert_2; [|apply (ok_loggers l' Hl')].
  split; [cbn; lia|]. cbn. apply (ok_loggers l' Hl' name). by rewrite Heq.
Qed.

Lemma SetChannelLevel_quiet name level : quiet (SetChannelLevel name level).
Proof.
  unfold SetChannelLevel. case_match; [apply quiet_ret|]. apply triple_get_bind. intros l Hl.
  apply quiet_at; [|done]. case_match; [|apply quiet_ret]. apply quiet_modify. intros l'.
  split; [|done]. split; [cbn; lia|]. cbn. intros p Hp. by apply lookup_alter_is_Some.
Qed.

(** *** Writing keeps the invariant *)
Section Writing.
Context (fmt_time : string → Z → string) (fmt_format : string → string → string).

Lemma File_Write_no_crash env msg st w : fst (File_Write fmt_time fmt_format env msg st) ≠ Crash w.
Proof.
  destruct st as [c fs]. unfold File_Write, OpenFile, stream_write, CloseFile. sm_unfold.
  destruct (fc_isDynamicFileName c && is_empty (msg_option msg)); [done|].
  destruct c as [base dir fn file dyn fl app ts mx pa].
  cbn [fc_isDynamicFileName fc_logFile set_fileName fc_fileName fc_isAddTimestamp fc_logsDir
       fc_isOpenModeAppend].
  destruct dyn, file as [[p [] []]|]; cbn; try done;
    destruct (device_ok env), ts; cbn; try done;
    match goal with |- context [can_open env ?n] => destruct (can_open env n) end; done.
Qed.

Lemma Channel_Write_keeps env p msg :
  triple (λ l, log_ok l ∧ is_Some (heap l !! p)) (Channel_Write fmt_time fmt_format env p msg)
    (λ _, log_ok) (λ _, log_ok).
Proof.
  intros l [Hl [c Hc]]. unfold Channel_Write. rewrite Hc. destruct c as [c|c]; [by apply cout_quiet|].
  pose proof (File_Write_no_crash env msg (c, log_files l)) as Hn.
  destruct (File_Write _ _ _ _ _) as [r [c' fs]].
  assert (log_ok (with_files fs (with_heap (<[p := FileObj c']> (heap l)) l))) as Hl'.
  { apply (log_ok_extends l); [|done|done|exact Hl]. by apply (extends_insert l _ p (FileObj c')). }
  destruct r as [[]|e|w]; [exact Hl'|exact Hl'|by apply (Hn w)].
Qed.

(** Writing changes no table, and objects stay where they are. *)
Definition grows (l0 l : Log) : Prop := log_ok l ∧ extends l0 l.

Lemma Channel_Write_extends env p msg l :
  extends l (snd (Channel_Write fmt_time fmt_format env p msg l)).
Proof.
  unfold Channel_Write. destruct (heap l !! p) as [[c|c]|]; [by apply extends_same| |by apply extends_same].
  destruct (File_Write _ _ _ _ _) as [r [c' fs]]. by apply (extends_insert l _ p (FileObj c')).
Qed.

Lemma extends_trans l1 l2 l3 : extends l1 l2 → extends l2 l3 → extends l1 l3.
Proof. intros [H1 H2] [H3 H4]. split; [lia|auto]. Qed.

Lemma Logger_Write_keeps env logger msg l0 :
  log_ok l0 → logger_ok l0 logger →
  triple (λ l, l = l0) (Logger_Write fmt_time fmt_format env logger msg) (λ _, log_ok) (λ _, log_ok).
Proof.
  intros Hl0 [_ Hp]. unfold Logger_Write. case_match; [by intros l ->|].
  apply (triple_weaken _ (grows l0) _ (λ _, grows l0) _ (λ _, grows l0));
    [|intros l ->; by split; [|apply extends_same]|by intros ? ? []|by intros ? ? []].
  apply triple_for_each. intros p Hin. apply triple_get_bind. intros l [Hl He].
  rewrite Forall_forall in Hp. destruct (proj2 He p (Hp p Hin)) as [c Hc]. rewrite Hc.
  case_match; [by intros ? ->|].
  intros l' ->. pose proof (Channel_Write_keeps env p msg l (conj Hl (ex_intro _ c Hc))) as Hk.
  pose proof (Channel_Write_extends env p msg l) as Hx.
  destruct (Channel_Write _ _ _ _ _ l) as [[[]|e|w] l']; [| |done];
    (split; [exact Hk|by eapply extends_trans]).
Qed.

Lemma responsible_ok type l lg : log_ok l → responsible type l = Some lg → logger_ok l lg.
Proof.
  intros Hl Hr. unfold responsible in Hr. apply head_Some_elem_of, list_elem_of_omap in Hr.
  destruct Hr as (t & _ & Ht). by apply (ok_loggers l Hl t).
Qed.

Lemma Write_quiet env msg : quiet (Write fmt_time fmt_format env msg).
Proof.
  unfold Write. apply triple_get_bind. intros l Hl. rewrite GetLoggerByType_eq.
  intros l' ->. cbn. destruct (responsible (msg_source msg) l) as [lg|] eqn:Hr; [|exact Hl].
  unshelve eapply (triple_try _ _ _ _ (λ _, log_ok)); [exact (λ l', l' = l)| | |done].
  - apply Logger_Write_keeps; [done|by eapply responsible_ok].
  - intros e. apply fmt_print_log_quiet.
Qed.

(** ** The program's calls of the registry *)
Inductive log_call :=
| CallInitialize (order : gmap string string → list (string * string)) (penv : purge_env)
    (cwd : string) (cfg : ConfigState)
| CallUsingDefaultLogs (value : bool)
| CallSetLoggerLevel (name : string) (level : LogLevel)
| CallSetChannelLevel (name : string) (level : LogLevel)
| CallLog (env : file_env) (msg : LogMessage)
| CallCommand (env : file_env) (accountID time : Z) (message : string).

Definition run_call (c : log_call) : LogM unit :=
  match c with
  | CallInitialize order penv cwd cfg => Initialize order penv cwd true cfg
  | CallUsingDefaultLogs value => UsingDefaultLogs value
  | CallSetLoggerLevel name level => SetLoggerLevel name level
  | CallSetChannelLevel name level => SetChannelLevel name level
  | CallLog env msg => LOG_MSG_BODY fmt_time fmt_format env msg
  | CallCommand env accountID time message => OutCommand fmt_time fmt_format env accountID time message
  end.

(** What [ShouldLog] means: the responsible logger is enabled for the level. *)
Definition enabled (type : string) (level : LogLevel) (l : Log) : bool :=
  match responsible type l with
  | Some lg => negb (bool_decide (lg_level lg = LogLevel.Disabled)) &&
               (LogLevel.to_Z level <=? LogLevel.to_Z (lg_level lg))%Z
  | None => false
  end.

Lemma ShouldLog_eq type level l : log_ok l → ShouldLog type level l = Done (enabled type level l).
Proof.
  intros Hl. unfold ShouldLog, enabled. rewrite GetLoggerByType_eq. unfold LogLevel.ltb. cbn [mbind outcome_bind].
  destruct (responsible type l) as [lg|] eqn:Hr; [|by case_match].
  destruct (responsible_ok _ _ _ Hl Hr) as [Hle _].
  destruct (Z.ltb_spec (LogLevel.to_Z (highestLogLevel l)) (LogLevel.to_Z level)).
  - destruct (Z.leb_spec (LogLevel.to_Z level) (LogLevel.to_Z (lg_level lg))); [lia|].
    by rewrite andb_false_r.
  - f_equal. f_equal. rewrite Z.leb_antisym. done.
Qed.

Lemma run_call_quiet c : quiet (run_call c).
Proof.
  assert (∀ type level (m : LogM unit), quiet m →
    quiet (l ← get_state; should ← lift (ShouldLog type level l);
           if negb should then mret () else m)) as Hlog.
  { intros type level m Hm. apply triple_get_bind. intros l Hl l' ->.
    rewrite ShouldLog_eq by done. cbn. destruct (enabled type level l); [by apply Hm|exact Hl]. }
  destruct c; cbn [run_call].
  - apply Initialize_quiet.
  - apply UsingDefaultLogs_quiet.
  - apply SetLoggerLevel_quiet.
  - apply SetChannelLevel_quiet.
  - apply Hlog, Write_quiet.
  - apply Hlog, Write_quiet.
Qed.

Lemma new_Log_ok : log_ok new_Log.
Proof. by apply log_ok_empty. Qed.

Lemma run_calls calls : ∃ l, for_each run_call calls new_Log = (Done (), l) ∧ log_ok l.
Proof.
  pose proof (triple_for_each run_call calls log_ok (λ _ _, False) (λ c _, run_call_quiet c) _ new_Log_ok) as H.
  destruct (for_each run_call calls new_Log) as [[[]|e|w] l]; [by exists l|done|done].
Qed.

(** A message the registry would not let through changes nothing. *)
Lemma Write_disabled env msg l :
  log_ok l → msg_level msg ≠ LogLevel.Disabled → enabled (msg_source msg) (msg_level msg) l = false →
  Write fmt_time fmt_format env msg l = (Done (), l).
Proof.
  intros Hl Hlev Hen. unfold Write. sm_unfold. unfold lift. rewrite GetLoggerByType_eq.
  unfold enabled in Hen. destruct (responsible _ _) as [lg|]; [|done]. unfold Logger_Write.
  assert (LogLevel.ltb (lg_level lg) (msg_level msg) = true) as ->; [|done].
  unfold LogLevel.ltb. apply Z.ltb_lt. apply andb_false_iff in Hen as [Hd|Hle].
  - apply negb_false_iff, bool_decide_eq_true in Hd. rewrite Hd. cbn. by destruct (msg_level msg).
  - by apply Z.leb_gt in Hle.
Qed.

End Writing.

(** ** Properties *)

(** Whatever the program asks of the logging system (configurations that are
    wrong in any way included), in any order: no call throws or crashes, no
    logger or channel name holds a dangling channel, and no logger is above the
    threshold [highestLogLevel]. *)
Theorem logging_never_fails (fmt_time : string → Z → string)
    (fmt_format : string → string → string) (calls : list log_call) :
  ∃ l, for_each (run_call fmt_time fmt_format) calls new_Log = (Done (), l) ∧ log_ok l.
Proof. apply run_calls. Qed.

(** C40 The early test of the log macros is exact: after any calls, [ShouldLog]
    says whether the responsible logger is enabled for the level (the shortcut
    through [highestLogLevel] loses nothing), and a message goes through the
    macro exactly as if it were written without the test. *)
Theorem ShouldLog_exact (fmt_time : string → Z → string)
    (fmt_format : string → string → string) (calls : list log_call) (l : Log) (type : string)
    (level : LogLevel) (env : file_env) (msg : LogMessage) :
  for_each (run_call fmt_time fmt_format) calls new_Log = (Done (), l) →
  msg_level msg ≠ LogLevel.Disabled →
  ShouldLog type level l = Done (enabled type level l) ∧
  LOG_MSG_BODY fmt_time fmt_format env msg l = Write fmt_time fmt_format env msg l.
Proof.
  intros Hcalls Hlev. destruct (run_calls fmt_time fmt_format calls) as (l' & Hl' & Hok).
  rewrite Hcalls in Hl'. injection Hl' as <-. split; [by apply ShouldLog_eq|].
  unfold LOG_MSG_BODY. sm_unfold. unfold lift. rewrite ShouldLog_eq by done.
  destruct (enabled _ _ _) eqn:He; [done|]. cbn. symmetry. by apply Write_disabled.
Qed.

Lemma ShouldLog_exact_witness :
  let calls := [CallUsingDefaultLogs true; CallSetLoggerLevel "root" LogLevel.Error] in
  let l := snd (for_each (run_call (λ _ _, "") (λ s _, s)) calls new_Log) in
  let msg := mk_LogMessage "sql.driver" "x" LogLevel.Warning 0 "" 0 "" in
  let env := mk_file_env (λ _, true) true "" in
  ShouldLog "a.b.c" LogLevel.Fatal l = Done true ∧
  LOG_MSG_BODY (λ _ _, "") (λ s _, s) env msg l = Write (λ _ _, "") (λ s _, s) env msg l.
Proof.
  intros calls l msg env.
  destruct (ShouldLog_exact (λ _ _, "") (λ s _, s) calls l "a.b.c" LogLevel.Fatal env msg) as [H1 H2].
  - vm_compute. reflexivity.
  - discriminate.
  - split; [|exact H2]. rewrite H1. vm_compute. reflexivity.
Defined.

(** [GetLoggerByType] ends for every type, and finds the logger of the type
    itself, or of its closest parent ("a.b" is the parent of "a.b.c") that has
    one, or the root logger. *)
Theorem GetLoggerByType_closest (type : string) (l : Log) :
  GetLoggerByType type l =
    Done (head (omap (λ t, _loggers l !! t) (ancestors type ++ [LOGGER_ROOT]))).
Proof. apply GetLoggerByType_eq. Qed.
