(* ===== verification/Fetcher.v ===== *)
(** * The update fetcher: server/database/Updater/UpdateFetcher.cpp

    Which SQL files of the source tree are applied to a database, in which
    order, and how the table `updates` records them.

    - The database is a type [DB] with the interface [UpdateDB]: the two
      [SELECT]s, the statements the fetcher sends (a [stmt] stands for the text
      [stmt_text] gives), and the command line client that applies a file.
      [UpdateDBLaws] states what SQL says these statements do to the table, whose
      names are compared by a collation, and that a script may change the states
      of its rows, as 2023_06_18_00.sql does.
    - The file system and the digest are arguments; the order in which hash
      tables are visited is an argument of which only "a permutation" is used.
    - The log and the progress bar are not modelled. *)
From S2P Require Import Prelude CppString Convert Config.

(** ** UpdateFetcher.h *)
Inductive State := RELEASED | CUSTOM | MODULE | ARCHIVED.
#[export] Instance State_eq_dec : EqDecision State.
Proof. solve_decision. Defined.

Definition StateConvert_of (state : string) : State :=
  if String.eqb state "RELEASED" then RELEASED
  else if String.eqb state "CUSTOM" then CUSTOM
  else if String.eqb state "MODULE" then MODULE
  else ARCHIVED.

Definition StateConvert (state : State) : string :=
  match state with
  | RELEASED => "RELEASED" | CUSTOM => "CUSTOM" | MODULE => "MODULE" | ARCHIVED => "ARCHIVED"
  end.

Record AppliedFileEntry := mk_AppliedFileEntry {
  afe_name : string;
  afe_hash : string;
  afe_state : State;
  afe_timestamp : Z }.

(** A path with the state of the directory it comes from. *)
Abbreviation LocaleFileEntry := (string * State)%type (only parsing).

Definition file_name (f : LocaleFileEntry) : string := path_filename f.1.

(** [PathCompare]: entries are ordered by their file names. *)
Definition PathCompare (left_ right_ : LocaleFileEntry) : bool :=
  String.ltb (file_name left_) (file_name right_).

(** [std::set] with that order: a list in ascending order. *)
Fixpoint storage_find (entry : LocaleFileEntry) (storage : list LocaleFileEntry) : bool :=
  match storage with
  | [] => false
  | e :: storage => String.eqb (file_name e) (file_name entry) || storage_find entry storage
  end.

Fixpoint storage_emplace (entry : LocaleFileEntry) (storage : list LocaleFileEntry)
    : list LocaleFileEntry :=
  match storage with
  | [] => [entry]
  | e :: rest =>
      if PathCompare entry e then entry :: storage
      else if String.eqb (file_name e) (file_name entry) then storage
      else e :: storage_emplace entry rest
  end.

(** [path.extension()]: from the last point of the file name, when it is not
    its first character. *)
Definition path_extension (path : string) : string :=
  let name := path_filename path in
  match find_last "." name with
  | Some (S i) => if String.eqb name ".." then EmptyString else substr_from (S i) name
  | _ => EmptyString
  end.

(** [p /= q] for a relative [q]. *)
Definition path_append (p q : string) : string :=
  if is_empty p then q
  else if match at_ p (String.length p - 1) with Some c => Ascii.eqb c "/" | None => false end
  then p +:+ q else p +:+ "/" +:+ q.

(** ** The statements sent to the database *)
Inductive stmt :=
| ReplaceUpdate (entry : AppliedFileEntry) (speed : Z)
| DeleteUpdate (name : string)
| RenameUpdate (from to : string)
| SetUpdateState (name : string) (state : State)
| DeleteUpdates (names : list string).

Definition quoted (s : string) : string := String quote (s +:+ String quote "").

Fixpoint join_comma (ts : list string) : string :=
  match ts with
  | [] => EmptyString
  | [t] => t
  | t :: ts => t +:+ ", " +:+ join_comma ts
  end.

Definition stmt_text (s : stmt) : string :=
  match s with
  | ReplaceUpdate e speed =>
      "REPLACE INTO `updates` (`name`, `hash`, `state`, `speed`) VALUES ('" +:+ afe_name e +:+ "', '"
      +:+ afe_hash e +:+ "', '" +:+ StateConvert (afe_state e) +:+ "', '" +:+ print_Z speed +:+ "')"
  | DeleteUpdate name => "DELETE FROM `updates` WHERE `name`=" +:+ quoted name
  | RenameUpdate from to =>
      "UPDATE `updates` SET `name`=" +:+ quoted to +:+ " WHERE `name`=" +:+ quoted from
  | SetUpdateState name state =>
      "UPDATE `updates` SET `state`='" +:+ StateConvert state +:+ "' WHERE `name`=" +:+ quoted name
  | DeleteUpdates names =>
      "DELETE FROM `updates` WHERE `name` IN(" +:+ join_comma (quoted <$> names) +:+ ")"
  end.

(** A row of `updates`: name, hash, state, time stamp. *)
Definition update_row : Type := string * string * string * Z.

(** What the fetcher is given: [_apply], [_applyFile] and the two uses of
    [_retrieve]; [None] is a null [QueryResult]. *)
Class UpdateDB (DB : Type) := {
  db_apply : stmt → DB → DB;
  db_applyFile : string → DB → outcome string DB;
  db_updates : DB → option (list update_row);
  db_includes : DB → option (list (string * string)) }.

(** The table by name: hash and state. *)
Definition row_map (rows : list update_row) : gmap string (string * string) :=
  list_to_map ((λ r : update_row, (r.1.1.1, (r.1.1.2, r.1.2))) <$> rows).

(** What a script may make of a row: it keeps its name and its digest, and an
    archived row stays archived. *)
Definition kept_row (row row' : option (string * string)) : Prop :=
  match row, row' with
  | None, None => True
  | Some (hash, state), Some (hash', state') =>
      hash' = hash ∧ (StateConvert_of state = ARCHIVED → StateConvert_of state' = ARCHIVED)
  | _, _ => False
  end.
Definition kept (t t' : gmap string (string * string)) : Prop := ∀ n, kept_row (t !! n) (t' !! n).

(** A text that the fetcher's quotes leave as it is and a column of [size]
    characters holds: printable ASCII without quotes and backslashes. *)
Definition storable (size : nat) (s : string) : bool :=
  (String.length s <=? size) &&
  forallb (λ c, let n := nat_of_ascii c in
    (32 <=? n) && (n <=? 126) && negb (existsb (Nat.eqb n) [34; 39; 92])) (String.list_ascii_of_string s).

(** What SQL says the statements do; [name], a varchar(200), is the primary key of
    `updates`, and [same_name] is equality in the collation of its column; [hash]
    is a char(40), [speed] an unsigned int.  What a statement does is said when its texts are storable and
    the rows it means are those of exactly its names. *)
Class UpdateDBLaws (DB : Type) `{UpdateDB DB} := {
  db_table : DB → gmap string (string * string);
  same_name : string → string → Prop;
  exact_name (t : gmap string (string * string)) (name : string) : Prop :=
    storable 200 name ∧ ∀ n, is_Some (t !! n) → same_name n name → n = name;
  db_updates_rows db :
    row_map (default [] (db_updates db)) = db_table db;
  db_updates_nodup db :
    NoDup ((λ r : update_row, r.1.1.1) <$> default [] (db_updates db));
  db_apply_replace e speed db :
    exact_name (db_table db) (afe_name e) → storable 40 (afe_hash e) → (0 ≤ speed < 2 ^ 32)%Z →
    db_table (db_apply (ReplaceUpdate e speed) db) =
      <[afe_name e := (afe_hash e, StateConvert (afe_state e))]> (db_table db);
  db_apply_delete name db :
    exact_name (db_table db) name → db_table (db_apply (DeleteUpdate name) db) = delete name (db_table db);
  db_apply_rename from to db :
    exact_name (db_table db) from → exact_name (db_table db) to → db_table db !! to = None →
    db_table (db_apply (RenameUpdate from to) db) =
      match db_table db !! from with
      | Some row => <[to := row]> (delete from (db_table db))
      | None => db_table db
      end;
  db_apply_state name state db :
    exact_name (db_table db) name →
    db_table (db_apply (SetUpdateState name state) db) =
      alter (λ row, (row.1, StateConvert state)) name (db_table db);
  db_apply_deletes names db :
    Forall (exact_name (db_table db)) names →
    db_table (db_apply (DeleteUpdates names) db) = foldr delete (db_table db) names;
  db_applyFile_table path db db' : db_applyFile path db = Done db' → kept (db_table db) (db_table db') }.

(** ** The fetcher *)
Record UpdateFetcher := mk_UpdateFetcher {
  _sourceDirectory : string;
  _dbModuleName : string;
  _setDirectories : option (list string);
  _modulesList : string }.

(** The machine: directories, the files below a directory, contents, the digest. *)
Record machine := mk_machine {
  is_directory : string → bool;
  recursive_files : string → list string;
  read_file : string → option string;
  sha1 : string → list Z }.

Inductive UpdateMode := MODE_APPLY | MODE_REHASH.
Record UpdateResult := mk_UpdateResult { updated : nat; recent : nat; archived : nat }.

Section Fetcher.
Context {DB : Type} `{UpdateDB DB} (m : machine) (cfg : ConfigState).

(** What was done to the database, in order. *)
Inductive db_event := AppliedFile (path : string) | Executed (s : stmt).

Record update_state := mk_update_state {
  us_db : DB;
  us_applied : gmap string AppliedFileEntry;
  us_imported : nat;
  us_trace : list db_event }.

Abbreviation UM := (SM string update_state).

Definition apply (s : stmt) : UM unit := modify_state (λ u,
  mk_update_state (db_apply s (us_db u)) (us_applied u) (us_imported u) (us_trace u ++ [Executed s])).

Definition applyFile (path : string) : UM unit := λ u,
  match db_applyFile path (us_db u) with
  | Done db => (Done (), mk_update_state db (us_applied u) (us_imported u)
                           (us_trace u ++ [AppliedFile path]))
  | Throw e => (Throw e, u)
  | Crash w => (Crash w, u)
  end.

(** [applied.erase(name)] *)
Definition erase_applied (name : string) : UM unit := modify_state (λ u,
  mk_update_state (us_db u) (delete name (us_applied u)) (us_imported u) (us_trace u)).

(** [++importedUpdates] *)
Definition count_import : UM unit := modify_state (λ u,
  mk_update_state (us_db u) (us_applied u) (S (us_imported u)) (us_trace u)).

Definition ReceiveIncludedDirectories (f : UpdateFetcher) : UM (list LocaleFileEntry) :=
  match _setDirectories f with
  | Some dirs =>
      mret (((λ itr, _sourceDirectory f +:+ itr) <$> dirs) ≫= λ p,
        if is_directory m p then [(p, StateConvert_of "MODULE")] else [])
  | None =>
      u ← get_state;
      match db_includes (us_db u) with
      | None => mret []
      | Some rows =>
          let directories := rows ≫= λ '(path, state),
            let path := if String.eqb (String.substring 0 1 path) "$"
                        then _sourceDirectory f +:+ substr_from 1 path else path in
            if is_directory m path then [(path, StateConvert_of state)] else [] in
          if match directories with [] => true | _ => false end || is_empty (_modulesList f)
          then mret directories
          else
            mret (directories ++ (Tokenize (_modulesList f) "," true ≫= λ name,
              let moduleDir := path_append (path_append (path_append (_sourceDirectory f) "modules") name) "sql" in
              if negb (is_directory m moduleDir) then []
              else
                let moduleDir := path_append moduleDir (_dbModuleName f) in
                if is_directory m moduleDir then [(moduleDir, MODULE)] else []))
      end
  end.

(** The loop of [FillFileListRecursively]. *)
Fixpoint FillFileList_loop (paths : list string) (state : State) (storage : list LocaleFileEntry)
    : UM (list LocaleFileEntry) :=
  match paths with
  | [] => mret storage
  | path :: paths =>
      if negb (String.eqb (path_extension path) ".sql")
      then FillFileList_loop paths state storage
      else if storage_find (path, state) storage
      then throw "Updating failed, see the log for details."
      else FillFileList_loop paths state (storage_emplace (path, state) storage)
  end.

Definition FillFileListRecursively (path : string) (storage : list LocaleFileEntry) (state : State)
    : UM (list LocaleFileEntry) :=
  FillFileList_loop (recursive_files m path) state storage.

Fixpoint fill_directories (directories storage : list LocaleFileEntry) : UM (list LocaleFileEntry) :=
  match directories with
  | [] => mret storage
  | (path, state) :: directories =>
      storage ← FillFileListRecursively path storage state;
      fill_directories directories storage
  end.

Definition GetFileList (f : UpdateFetcher) : UM (list LocaleFileEntry) :=
  directories ← ReceiveIncludedDirectories f;
  match directories with
  | [] =>
      let updateFile := foldl path_append (_sourceDirectory f)
        ["data"; "sql"; "base"; _dbModuleName f; "updates_include.sql"] in
      _ ← applyFile updateFile;
      directories ← ReceiveIncludedDirectories f;
      match directories with
      | [] => abort "Can't find all includes directory"
      | _ => fill_directories directories []
      end
  | _ => fill_directories directories []
  end.

(** [AppliedFileEntry entry{ name, hash, StateConvert(state), timestamp }] *)
Definition row_entry (r : update_row) : AppliedFileEntry :=
  mk_AppliedFileEntry r.1.1.1 r.1.1.2 (StateConvert_of r.1.2) r.2.

Definition ReceiveAppliedFiles (db : DB) : gmap string AppliedFileEntry :=
  foldl (λ map r, emplace (afe_name (row_entry r)) (row_entry r) map)
    ∅ (default [] (db_updates db)).

Definition ReadSQLUpdate (path : string) : UM string :=
  match read_file m path with
  | Some update => mret update
  | None => throw "Opening the sql update failed!"
  end.

(** The digest in hexadecimal. *)
Definition hash_of (update : string) : UM string :=
  match ByteArrayToHexStr (sha1 m update) false with
  | Done s => mret s
  | Throw e => match e : Empty_set with end
  | Crash w => abort w
  end.

Definition UpdateEntry (entry : AppliedFileEntry) (speed : Z) : UM unit :=
  apply (ReplaceUpdate entry speed).

Definition RenameEntry (from to : string) : UM unit :=
  _ ← apply (DeleteUpdate to);
  apply (RenameUpdate from to).

Definition UpdateState (name : string) (state : State) : UM unit := apply (SetUpdateState name state).

Definition CleanUp (names : list string) : UM unit :=
  match names with [] => mret () | _ => apply (DeleteUpdates names) end.

Definition redundancyChecks : bool := fst (GetOption_bool "Updates.Redundancy" true true cfg).
Definition allowRehash : bool := fst (GetOption_bool "Updates.AllowRehash" true true cfg).
Definition archivedRedundancy : bool :=
  fst (GetOption_bool "Updates.ArchivedRedundancy" false true cfg).
Definition cleanDeadReferencesMaxCount : Z :=
  fst (GetOption int32 "Updates.CleanDeadRefMaxCount" 3 true cfg).

(** The end of [ApplyUpdateFile]: [speed] is the time measured. *)
Definition finish_update (speed : string → Z) (filePath : string) (fileState : State)
    (hash : string) (mode : UpdateMode) (known : bool) : UM unit :=
  let name := path_filename filePath in
  let file := mk_AppliedFileEntry name hash fileState 0 in
  _ ← match mode with
      | MODE_APPLY => _ ← applyFile filePath; UpdateEntry file (speed filePath)
      | MODE_REHASH => UpdateEntry file 0
      end;
  _ ← (if known then erase_applied name else mret ());
  match mode with MODE_APPLY => count_import | MODE_REHASH => mret () end.

Definition ApplyUpdateFile (speed : string → Z) (hashToName : gmap string string)
    (available : list LocaleFileEntry) (f : LocaleFileEntry) : UM unit :=
  let '(filePath, fileState) := f in
  let name := path_filename filePath in
  u ← get_state;
  match us_applied u !! name with
  | Some iter =>
      if negb redundancyChecks then erase_applied name
      else if negb archivedRedundancy && bool_decide (afe_state iter = ARCHIVED) &&
              bool_decide (fileState = ARCHIVED)
      then erase_applied name
      else
        update ← ReadSQLUpdate filePath;
        hash ← hash_of update;
        if allowRehash && is_empty (afe_hash iter)
        then finish_update speed filePath fileState hash MODE_REHASH true
        else if negb (String.eqb (afe_hash iter) hash)
        then finish_update speed filePath fileState hash MODE_APPLY true
        else
          _ ← (if bool_decide (afe_state iter = fileState) then mret ()
               else UpdateState name fileState);
          erase_applied name
  | None =>
      update ← ReadSQLUpdate filePath;
      hash ← hash_of update;
      match hashToName !! hash with
      | Some old =>
          if existsb (λ e, String.eqb (file_name e) old) available
          then finish_update speed filePath fileState hash MODE_APPLY false
          else
            _ ← RenameEntry old name;
            erase_applied old
      | None => finish_update speed filePath fileState hash MODE_APPLY false
      end
  end.

Section Update.
Context (order : gmap string AppliedFileEntry → list (string * AppliedFileEntry))
  (speed : string → Z).

(** [for (entry : applied) hashToName.emplace(entry.second.hash, entry.first)] *)
Definition fill_hashToName (applied : gmap string AppliedFileEntry) : gmap string string :=
  foldl (λ h entry, emplace (afe_hash entry.2) entry.1 h) ∅ (order applied).

(** The files in the order in which [Update] goes through them: three loops over
    [available]. *)
Definition update_order (available : list LocaleFileEntry) : list LocaleFileEntry :=
  List.filter (λ f, bool_decide (f.2 = RELEASED) || bool_decide (f.2 = ARCHIVED)) available ++
  List.filter (λ f, bool_decide (f.2 = CUSTOM)) available ++
  List.filter (λ f, bool_decide (f.2 = MODULE)) available.

(** The orphaned entries. *)
Definition cleanup_orphans (f : UpdateFetcher) : UM unit :=
  u ← get_state;
  let applied := us_applied u in
  if negb (bool_decide (applied = ∅)) && bool_decide (_setDirectories f = None) then
    let doCleanup := (cleanDeadReferencesMaxCount <? 0)%Z ||
                     (Z.of_nat (size applied) <=? cleanDeadReferencesMaxCount)%Z in
    let toCleanup := List.filter (λ '(_, e), negb (bool_decide (afe_state e = MODULE)) && doCleanup)
                       (order applied) in
    if doCleanup then CleanUp toCleanup.*1 else mret ()
  else mret ().

(** [Update] once the files are known. *)
Definition Update_files (f : UpdateFetcher) (available : list LocaleFileEntry) : UM UpdateResult :=
  _ ← modify_state (λ u, mk_update_state (us_db u) (ReceiveAppliedFiles (us_db u)) 0 (us_trace u));
  u ← get_state;
  let applied := us_applied u in
  let states := (λ '(_, e), afe_state e) <$> order applied in
  let countRecentUpdates := length (List.filter (λ s, bool_decide (s = RELEASED)) states) in
  let countArchivedUpdates := length (List.filter (λ s, negb (bool_decide (s = RELEASED))) states) in
  let hashToName := fill_hashToName applied in
  _ ← for_each (ApplyUpdateFile speed hashToName available) (update_order available);
  _ ← cleanup_orphans f;
  u ← get_state;
  mret (mk_UpdateResult (us_imported u) countRecentUpdates countArchivedUpdates).

Definition Update (f : UpdateFetcher) : UM UpdateResult :=
  available ← GetFileList f;
  if bool_decide (is_Some (_setDirectories f)) && match available with [] => true | _ => false end
  then mret (mk_UpdateResult 0 0 0)
  else Update_files f available.
End Update.
End Fetcher.

(** ** Lemmas: the effect of one file *)
Section Facts.
Context {DB : Type} `{UpdateDB DB} (m : machine) (cfg : ConfigState) (speed : string → Z).

(** The digest of a file as the table records it. *)
Definition file_hash (path : string) : option string :=
  match read_file m path with
  | Some update => match ByteArrayToHexStr (sha1 m update) false with Done s => Some s | _ => None end
  | None => None
  end.

(** The file is in an archived directory, and its row is marked so: then it is
    not looked at. *)
Definition archived_skip (st st' : State) : bool :=
  negb (archivedRedundancy cfg) && bool_decide (st = ARCHIVED) && bool_decide (st' = ARCHIVED).

(** What [ApplyUpdateFile] does with a file, decided by the table as it was
    when the update began. *)
Inductive decision :=
| Keep                           (* nothing to do *)
| Restate                        (* the row gets the file's state *)
| Rehash (hash : string)         (* the row gets the file's digest *)
| ApplyFile (hash : string)      (* the file is applied and recorded *)
| RenameFrom (old : string).     (* the row of a file that is gone is renamed *)

Definition decide_file (applied : gmap string AppliedFileEntry) (hashToName : gmap string string)
    (available : list LocaleFileEntry) (f : LocaleFileEntry) (hash : string) : decision :=
  match applied !! file_name f with
  | Some e =>
      if negb (redundancyChecks cfg) || archived_skip (afe_state e) f.2 then Keep
      else if allowRehash cfg && is_empty (afe_hash e) then Rehash hash
      else if negb (String.eqb (afe_hash e) hash) then ApplyFile hash
      else if bool_decide (afe_state e = f.2) then Keep else Restate
  | None =>
      match hashToName !! hash with
      | Some old => if existsb (λ e, String.eqb (file_name e) old) available
                    then ApplyFile hash else RenameFrom old
      | None => ApplyFile hash
      end
  end.

(** The statements and files of a decision. *)
Definition decision_trace (f : LocaleFileEntry) (d : decision) : list db_event :=
  let entry := λ h, mk_AppliedFileEntry (file_name f) h f.2 0 in
  match d with
  | Keep => []
  | Restate => [Executed (SetUpdateState (file_name f) f.2)]
  | Rehash h => [Executed (ReplaceUpdate (entry h) 0)]
  | ApplyFile h => [AppliedFile f.1; Executed (ReplaceUpdate (entry h) (speed f.1))]
  | RenameFrom old => [Executed (DeleteUpdate (file_name f)); Executed (RenameUpdate old (file_name f))]
  end.

Definition decision_table (f : LocaleFileEntry) (d : decision) (t : gmap string (string * string))
    : gmap string (string * string) :=
  match d with
  | Keep => t
  | Restate => alter (λ row, (row.1, StateConvert f.2)) (file_name f) t
  | Rehash h | ApplyFile h => <[file_name f := (h, StateConvert f.2)]> t
  | RenameFrom old =>
      let t := delete (file_name f) t in
      match t !! old with Some row => <[file_name f := row]> (delete old t) | None => t end
  end.

Definition decision_erases (f : LocaleFileEntry) (d : decision) : string :=
  match d with RenameFrom old => old | _ => file_name f end.

Definition imports (d : decision) : bool := match d with ApplyFile _ => true | _ => false end.

(** A file whose digest is not needed. *)
Definition unread (applied : gmap string AppliedFileEntry) (f : LocaleFileEntry) : bool :=
  match applied !! file_name f with
  | Some e => negb (redundancyChecks cfg) || archived_skip (afe_state e) f.2
  | None => false
  end.

Definition hash_known (applied : gmap string AppliedFileEntry) (f : LocaleFileEntry) (hash : string) : Prop :=
  unread applied f = false → file_hash f.1 = Some hash.

(** The database after a sequence of events. *)
Inductive replays : DB → list db_event → DB → Prop :=
| rp_nil db : replays db [] db
| rp_stmt s db tr db' : replays (db_apply s db) tr db' → replays db (Executed s :: tr) db'
| rp_file p db db1 tr db' : db_applyFile p db = Done db1 → replays db1 tr db' → replays db (AppliedFile p :: tr) db'.

Lemma replays_app db tr1 db1 tr2 db2 : replays db tr1 db1 → replays db1 tr2 db2 → replays db (tr1 ++ tr2) db2.
Proof. induction 1; cbn; eauto using replays. Qed.

Lemma replays_app_inv db tr1 tr2 db2 :
  replays db (tr1 ++ tr2) db2 → ∃ db1, replays db tr1 db1 ∧ replays db1 tr2 db2.
Proof.
  revert db. induction tr1 as [|e tr1 IH]; intros db; cbn; [exists db; by split; [constructor|]|].
  intros Hr. inversion Hr; subst.
  - destruct (IH _ ltac:(eassumption)) as (db1 & ? & ?). exists db1. eauto using replays.
  - destruct (IH _ ltac:(eassumption)) as (db1' & ? & ?). exists db1'. eauto using replays.
Qed.

(** The effect of a call on the four parts of the state. *)
Definition effect (u u' : @update_state DB) (trace : list db_event) (n : nat)
    (applied : gmap string AppliedFileEntry) : Prop :=
  us_trace u' = us_trace u ++ trace ∧ us_imported u' = us_imported u + n ∧
  us_applied u' = applied ∧ replays (us_db u) trace (us_db u').

Lemma effect_none u : effect u u [] 0 (us_applied u).
Proof. unfold effect. rewrite app_nil_r, Nat.add_0_r. by repeat constructor. Qed.

Lemma finish_update_Done path st hash mode known u u' :
  finish_update speed path st hash mode known u = (Done (), u') →
  let d := match mode with MODE_APPLY => ApplyFile hash | MODE_REHASH => Rehash hash end in
  effect u u' (decision_trace (path, st) d) (if imports d then 1 else 0)
    (if known then delete (path_filename path) (us_applied u) else us_applied u).
Proof.
  unfold finish_update, UpdateEntry, apply, applyFile, erase_applied, count_import. sm_unfold.
  unfold effect. destruct mode.
  - destruct (db_applyFile path (us_db u)) as [db|e|w] eqn:Hf; [|done..]. intros Hd.
    destruct known; injection Hd as <-; cbn; rewrite <- app_assoc, ?Nat.add_1_r; eauto 10 using replays.
  - intros Hd. destruct known; injection Hd as <-; cbn; rewrite ?Nat.add_0_r; eauto 10 using replays.
Qed.

Lemma ReadSQLUpdate_hash {A : Type} path (k : string → SM string (@update_state DB) A) u a u' :
  (update ← ReadSQLUpdate m path; hash ← hash_of m update; k hash) u = (Done a, u') →
  ∃ hash, file_hash path = Some hash ∧ k hash u = (Done a, u').
Proof.
  unfold ReadSQLUpdate, hash_of, file_hash. sm_unfold. destruct (read_file m path) as [upd|]; [|done].
  destruct (ByteArrayToHexStr (sha1 m upd) false) as [h|[]|w]; [|done]. intros Hk. by exists h.
Qed.

(** A call that returns did what [decide_file] says. *)
Lemma ApplyUpdateFile_Done h2n available f u u' :
  ApplyUpdateFile m cfg speed h2n available f u = (Done (), u') →
  ∃ hash, hash_known (us_applied u) f hash ∧
    let d := decide_file (us_applied u) h2n available f hash in
    effect u u' (decision_trace f d) (if imports d then 1 else 0)
      (delete (decision_erases f d) (us_applied u)).
Proof.
  destruct f as [path st]. unfold ApplyUpdateFile, hash_known, unread, decide_file, file_name.
  cbn [fst snd]. unfold mbind at 1, SM_bind at 1, get_state at 1.
  destruct (us_applied u !! path_filename path) as [e|] eqn:He.
  - unfold archived_skip.
    assert (∀ b : bool, b = true → erase_applied (path_filename path) u = (Done (), u') →
      effect u u' [] 0 (delete (path_filename path) (us_applied u))) as Hskip.
    { intros _ _ [= <-]. unfold effect. cbn. rewrite app_nil_r, Nat.add_0_r. eauto using replays. }
    destruct (negb (redundancyChecks cfg)); [intros Hd; exists ""; split; [done|by apply (Hskip true)]|].
    destruct (negb (archivedRedundancy cfg) && _ && _);
      [intros Hd; exists ""; split; [done|by apply (Hskip true)]|]. cbn [orb].
    intros (hash & Hh & Hd)%ReadSQLUpdate_hash. exists hash. split; [done|].
    destruct (allowRehash cfg && is_empty (afe_hash e)); [by apply finish_update_Done in Hd|].
    destruct (negb (String.eqb (afe_hash e) hash)); [by apply finish_update_Done in Hd|].
    revert Hd. unfold UpdateState, apply, erase_applied. sm_unfold. unfold effect.
    case_bool_decide; intros [= <-]; cbn; rewrite ?app_nil_r, ?Nat.add_0_r; eauto 10 using replays.
  - intros (hash & Hh & Hd)%ReadSQLUpdate_hash. exists hash. split; [done|].
    assert (∀ s, finish_update speed path st hash MODE_APPLY false u = (Done (), s) →
      effect u s (decision_trace (path, st) (ApplyFile hash)) 1
        (delete (path_filename path) (us_applied u))) as Happ.
    { intros s Hs%finish_update_Done. cbn in Hs. rewrite delete_id by done. exact Hs. }
    destruct (h2n !! hash) as [old|]; [|by apply Happ].
    destruct (existsb _ available); [by apply Happ|].
    revert Hd. unfold RenameEntry, apply, erase_applied. sm_unfold. unfold effect.
    intros [= <-]. cbn. rewrite <- app_assoc, Nat.add_0_r. eauto 10 using replays.
Qed.

(** ** Lemmas: a whole update *)
Section Loop.
Context (applied0 : gmap string AppliedFileEntry) (h2n : gmap string string)
  (available : list LocaleFileEntry).

Definition hash_or_empty (f : LocaleFileEntry) : string := default "" (file_hash f.1).
Definition decision_of (f : LocaleFileEntry) : decision :=
  decide_file applied0 h2n available f (hash_or_empty f).

Lemma decide_file_hash applied f hash :
  applied !! file_name f = applied0 !! file_name f → hash_known applied f hash →
  decide_file applied h2n available f hash = decision_of f.
Proof.
  unfold decision_of, decide_file, hash_known, unread, hash_or_empty. intros ->.
  destruct (applied0 !! file_name f) as [e|].
  - destruct (negb (redundancyChecks cfg) || archived_skip (afe_state e) f.2); [done|].
    intros Hh. by rewrite Hh.
  - intros Hh. by rewrite Hh.
Qed.

Definition decision_hash (d : decision) : string :=
  match d with Rehash h | ApplyFile h => h | _ => EmptyString end.

Lemma decision_hash_storable f :
  (∀ h, file_hash f.1 = Some h → storable 40 h) → storable 40 (decision_hash (decision_of f)).
Proof.
  intros Hf. assert (storable 40 (hash_or_empty f)) as Hs.
  { unfold hash_or_empty. destruct (file_hash f.1) as [h|]; [by apply Hf|done]. }
  unfold decision_of, decide_file. by repeat case_match.
Qed.

(** What a decision erases or renames is no other available file. *)
Lemma decision_of_rename f old :
  decision_of f = RenameFrom old →
  applied0 !! file_name f = None ∧ h2n !! hash_or_empty f = Some old ∧
  ∀ g, g ∈ available → file_name g ≠ old.
Proof.
  unfold decision_of, decide_file. destruct (applied0 !! file_name f).
  - by repeat case_match.
  - destruct (h2n !! hash_or_empty f) as [o|]; [|done]. destruct (existsb _ available) eqn:He; [done|].
    intros [= ->]. split; [done|]. split; [done|]. intros g Hg Hn.
    assert (existsb (λ e, String.eqb (file_name e) old) available = true); [|congruence].
    apply existsb_exists. exists g. split; [by apply list_elem_of_In|]. by apply String.eqb_eq.
Qed.

Lemma decision_erases_other f g :
  g ∈ available → file_name f ≠ file_name g → decision_erases f (decision_of f) ≠ file_name g.
Proof.
  intros Hg Hne. destruct (decision_of f) eqn:Hd; try exact Hne.
  destruct (decision_of_rename _ _ Hd) as (_ & _ & Ho). intros He. by apply (Ho g).
Qed.

Lemma loop_Done l u u' :
  NoDup (file_name <$> l) → l ⊆ available →
  (∀ f, f ∈ l → us_applied u !! file_name f = applied0 !! file_name f) →
  for_each (ApplyUpdateFile m cfg speed h2n available) l u = (Done (), u') →
  effect u u' (concat ((λ f, decision_trace f (decision_of f)) <$> l))
    (length (List.filter (λ f, imports (decision_of f)) l))
    (foldl (λ a f, delete (decision_erases f (decision_of f)) a) (us_applied u) l) ∧
  Forall (λ f, unread applied0 f = false → is_Some (file_hash f.1)) l.
Proof.
  revert u. induction l as [|f l IH]; intros u Hnd Hsub Happ.
  { intros [= <-]. split; [apply effect_none|constructor]. }
  cbn [for_each fmap list_fmap] in *. apply NoDup_cons in Hnd as [Hf Hnd].
  unfold mbind, SM_bind. destruct (ApplyUpdateFile _ _ _ _ _ f u) as [[[]|e|w] u1] eqn:Hu1; [|done..].
  intros Hloop. apply ApplyUpdateFile_Done in Hu1 as (hash & Hh & He). cbv zeta in He.
  assert (us_applied u !! file_name f = applied0 !! file_name f) as Hfa by (apply Happ; by left).
  rewrite (decide_file_hash _ _ _ Hfa Hh) in He. destruct He as (Ht & Hi & Ha & Hdb).
  destruct (IH u1) as [(Ht' & Hi' & Ha' & Hdb') Hread]; [done|set_solver| |done|].
  { intros g Hg. rewrite Ha, lookup_delete_ne; [apply Happ; by right|].
    apply decision_erases_other; [apply Hsub; by right|]. intros Heq. apply Hf. rewrite Heq.
    apply list_elem_of_fmap. by exists g. }
  split.
  - unfold effect. rewrite Ht', Ht, Hi', Hi, Ha', Ha. cbn.
    rewrite <- app_assoc. split; [done|]. split; [|split; [done|by eapply replays_app]].
    destruct (imports (decision_of f)); cbn; lia.
  - constructor; [|done]. intros Hun. unfold hash_known, unread in *. rewrite Hfa in Hh.
    rewrite (Hh Hun). by eexists.
Qed.

(** What the loop leaves in the cache of unaccounted entries. *)
Lemma loop_erased (l : list LocaleFileEntry) (a : gmap string AppliedFileEntry) f :
  f ∈ l → l ⊆ available → (∀ g, g ∈ l → a !! file_name g = None ∨ a !! file_name g = applied0 !! file_name g) →
  foldl (λ a f, delete (decision_erases f (decision_of f)) a) a l !! file_name f = None.
Proof.
  assert (∀ l (a : gmap string AppliedFileEntry) n, a !! n = None →
    foldl (λ a f, delete (decision_erases f (decision_of f)) a) a l !! n = None) as Hnone.
  { clear. intros l. induction l as [|g l IH]; intros a n Hn; [done|]. cbn. apply IH.
    rewrite lookup_delete. by case_decide. }
  revert a. induction l as [|g l IH]; intros a Hf Hsub Ha; [by apply not_elem_of_nil in Hf|]. cbn.
  apply elem_of_cons in Hf as [<-|Hf].
  - apply Hnone. destruct (decision_of f) eqn:Hd; cbn [decision_erases]; try apply lookup_delete_eq.
    destruct (decision_of_rename _ _ Hd) as (Hn & _). rewrite lookup_delete. case_decide; [done|].
    destruct (Ha f ltac:(by left)) as [?| ->]; done.
  - apply IH; [done|set_solver|]. intros h Hh. rewrite lookup_delete. case_decide; [by left|].
    apply Ha. by right.
Qed.
End Loop.

(** ** Lemmas: what an update leaves behind *)

(** The table and the map the fetcher makes of it agree. *)
Definition agree (table : gmap string (string * string)) (applied : gmap string AppliedFileEntry) : Prop :=
  ∀ n, (λ e, (afe_hash e, afe_state e)) <$> applied !! n =
       (λ row : string * string, (row.1, StateConvert_of row.2)) <$> table !! n.

Context `{!UpdateDBLaws DB}.

Lemma ReceiveAppliedFiles_agree (db : DB) : agree (db_table db) (ReceiveAppliedFiles db).
Proof.
  intros n. rewrite <- db_updates_rows. unfold ReceiveAppliedFiles, row_map.
  rewrite (foldl_emplace (λ r, afe_name (row_entry r)) row_entry), (left_id_L ∅ (∪)).
  induction (default [] (db_updates db)) as [|r rows IH]; [done|]. cbn.
  destruct (decide (n = r.1.1.1)) as [->|Hne]; [by rewrite !lookup_insert_eq|].
  by rewrite !lookup_insert_ne by done.
Qed.

Lemma fill_hashToName_Some order applied hash old :
  (∀ a, order a ≡ₚ map_to_list a) → fill_hashToName order applied !! hash = Some old →
  ∃ e, applied !! old = Some e ∧ afe_hash e = hash.
Proof.
  intros Hord. unfold fill_hashToName.
  rewrite (foldl_emplace (λ ne : string * AppliedFileEntry, afe_hash ne.2) fst), (left_id_L ∅ (∪)).
  intros Hl. apply elem_of_list_to_map_2, list_elem_of_fmap in Hl as ([n e] & [= -> ->] & Hin).
  exists e. split; [|done]. apply elem_of_map_to_list. by rewrite <- Hord.
Qed.

Section Settled.
Context (table0 : gmap string (string * string)) (applied0 : gmap string AppliedFileEntry)
  (h2n : gmap string string) (available : list LocaleFileEntry).
Context (Hagree : agree table0 applied0)
  (Hh2n : ∀ h old, h2n !! h = Some old → ∃ e, applied0 !! old = Some e ∧ afe_hash e = h)
  (Hnodup : NoDup (file_name <$> available))
  (Hinj : ∀ f g h, f ∈ available → g ∈ available →
     file_hash f.1 = Some h → file_hash g.1 = Some h → f = g).

Abbreviation D := (decision_of applied0 h2n available).
Abbreviation run := (foldl (λ t f, decision_table f (D f) t)).

(** The row of the file says what the file is, or the file is not looked at. *)
Definition settled (table : gmap string (string * string)) (f : LocaleFileEntry) : Prop :=
  ∃ hash state, table !! file_name f = Some (hash, state) ∧
    (redundancyChecks cfg = false ∨ archived_skip (StateConvert_of state) f.2 = true ∨
     file_hash f.1 = Some hash).

Lemma agree_row n e : applied0 !! n = Some e →
  ∃ st, table0 !! n = Some (afe_hash e, st) ∧ StateConvert_of st = afe_state e.
Proof.
  intros He. specialize (Hagree n). rewrite He in Hagree. cbn in Hagree.
  destruct (table0 !! n) as [[h st]|]; [|done]. injection Hagree as -> Hs. by exists st.
Qed.

Lemma decision_table_other f n table :
  n ≠ file_name f → (∀ old, D f = RenameFrom old → n ≠ old) →
  decision_table f (D f) table !! n = table !! n.
Proof.
  intros Hn Hold. destruct (D f) as [| |h|h|old] eqn:Hd; cbn [decision_table].
  - done.
  - by rewrite lookup_alter_ne.
  - by rewrite lookup_insert_ne.
  - by rewrite lookup_insert_ne.
  - specialize (Hold old eq_refl). destruct (delete (file_name f) table !! old).
    + by rewrite lookup_insert_ne, !lookup_delete_ne.
    + by rewrite lookup_delete_ne.
Qed.

Lemma file_name_inj f g :
  f ∈ available → g ∈ available → file_name f = file_name g → f = g.
Proof.
  intros [i Hi]%list_elem_of_lookup [j Hj]%list_elem_of_lookup Heq.
  assert (i = j) as ->; [|congruence].
  eapply (NoDup_lookup (file_name <$> available)); [done| |]; rewrite list_lookup_fmap.
  - by rewrite Hi.
  - rewrite Hj. cbn. by rewrite Heq.
Qed.

(** One file: its row is settled, given that nobody touched what it needs. *)
Lemma decision_settles f table :
  f ∈ available → (unread applied0 f = false → is_Some (file_hash f.1)) →
  table !! file_name f = table0 !! file_name f →
  (∀ old, D f = RenameFrom old → table !! old = table0 !! old) →
  settled (decision_table f (D f) table) f.
Proof.
  intros Hf Hread Hrow Hold. unfold settled, decision_of, decide_file, unread, hash_or_empty in *.
  destruct (applied0 !! file_name f) as [e|] eqn:He.
  - destruct (agree_row _ _ He) as (st & Ht & Hst). rewrite Ht in Hrow.
    destruct (negb (redundancyChecks cfg) || archived_skip (afe_state e) f.2) eqn:Hun.
    { exists (afe_hash e), st. split; [done|]. rewrite Hst.
      apply orb_true_iff in Hun as [Hr%negb_true_iff|Hs]; auto. }
    destruct (Hread eq_refl) as [hash Hh]. rewrite Hh in *. cbn [default from_option] in *. unfold id in *.
    destruct (allowRehash cfg && is_empty (afe_hash e)); cbn [decision_table].
    { rewrite lookup_insert_eq. eauto 10. }
    destruct (String.eqb_spec (afe_hash e) hash) as [<-|Hne]; cbn [negb].
    + case_bool_decide; cbn [decision_table]; [by exists (afe_hash e), st; auto|].
      rewrite lookup_alter_eq, Hrow. cbn. eauto 10.
    + cbn [decision_table]. rewrite lookup_insert_eq. eauto 10.
  - destruct (Hread eq_refl) as [hash Hh]. rewrite Hh in *. cbn [default from_option] in *. unfold id in *.
    assert (settled (<[file_name f := (hash, StateConvert f.2)]> table) f) as Hins.
    { exists hash, (StateConvert f.2). rewrite lookup_insert_eq. split; [done|]. by right; right. }
    unfold settled in Hins. rewrite Hh in Hins.
    destruct (h2n !! hash) as [old|] eqn:Ho; [|exact Hins].
    destruct (existsb _ available) eqn:Hex; [exact Hins|]. cbn [decision_table].
    destruct (Hh2n _ _ Ho) as (e & Heo & Hhe). destruct (agree_row _ _ Heo) as (st & Ht & Hst).
    assert (old ≠ file_name f) as Hne by congruence.
    rewrite lookup_delete_ne by done. rewrite (Hold old eq_refl), Ht, lookup_insert_eq.
    rewrite Hhe. eauto 10.
Qed.

(** Two available files do not rename the same row. *)
Lemma rename_distinct f g old old' :
  f ∈ available → g ∈ available → file_name f ≠ file_name g →
  (unread applied0 f = false → is_Some (file_hash f.1)) →
  (unread applied0 g = false → is_Some (file_hash g.1)) →
  D f = RenameFrom old → D g = RenameFrom old' → old ≠ old'.
Proof.
  intros Hf Hg Hne Hrf Hrg Hdf Hdg <-.
  destruct (decision_of_rename _ _ _ _ _ Hdf) as (Hnf & Hof & _).
  destruct (decision_of_rename _ _ _ _ _ Hdg) as (Hng & Hog & _).
  unfold unread in *. rewrite Hnf in Hrf. rewrite Hng in Hrg.
  destruct (Hrf eq_refl) as [hf Hhf], (Hrg eq_refl) as [hg Hhg].
  unfold hash_or_empty in *. rewrite Hhf in Hof. rewrite Hhg in Hog. cbn in *.
  destruct (Hh2n _ _ Hof) as (e & He & Hef), (Hh2n _ _ Hog) as (e' & He' & Heg).
  assert (hf = hg) as -> by congruence. apply Hne. f_equal. by apply (Hinj f g hg).
Qed.

Lemma run_settles l table :
  NoDup (file_name <$> l) → l ⊆ available →
  Forall (λ f, unread applied0 f = false → is_Some (file_hash f.1)) l →
  (∀ f, f ∈ l → table !! file_name f = table0 !! file_name f) →
  (∀ f old, f ∈ l → D f = RenameFrom old → table !! old = table0 !! old) →
  (∀ f, f ∈ l → settled (run table l) f) ∧
  (∀ f, f ∈ available → file_name f ∉ file_name <$> l →
     run table l !! file_name f = table !! file_name f).
Proof.
  revert table. induction l as [|f l IH]; intros table Hnd Hsub Hread Hrow Hold.
  { split; [|done]. by intros f Hf%not_elem_of_nil. }
  cbn [fmap list_fmap] in Hnd. apply NoDup_cons in Hnd as [Hfl Hnd]. apply Forall_cons in Hread as [Hrf Hrl].
  assert (f ∈ available) as Hf by (apply Hsub; by left).
  assert (∀ g, g ∈ l → file_name g ≠ file_name f) as Hne.
  { intros g Hg Heq. apply Hfl. rewrite <- Heq. apply list_elem_of_fmap. by exists g. }
  assert (∀ g, g ∈ available → file_name g ≠ file_name f →
    decision_table f (D f) table !! file_name g = table !! file_name g) as Hother.
  { intros g Hg Hgf. apply decision_table_other; [done|]. intros old Hd.
    destruct (decision_of_rename _ _ _ _ _ Hd) as (_ & _ & Ho). by apply Ho. }
  destruct (IH (decision_table f (D f) table)) as [IH1 IH2]; [done|set_solver|done| | |].
  { intros g Hg. rewrite Hother by (try (apply Hsub; by right); by apply Hne). apply Hrow. by right. }
  { intros g old Hg Hd. rewrite Forall_forall in Hrl. rewrite decision_table_other.
    - apply (Hold g); [by right|done].
    - intros ->. destruct (decision_of_rename _ _ _ _ _ Hd) as (_ & _ & Ho). by apply (Ho f Hf).
    - intros old' Hd'. intros ->. eapply (rename_distinct g f old' old'); try done.
      + apply Hsub. by right.
      + by apply Hne.
      + by apply Hrl. }
  split.
  - intros g Hg. cbn [foldl]. apply elem_of_cons in Hg as [->|Hg]; [|by apply IH1].
    destruct (decision_settles f table) as (hash & st & Hs & Hok); [done|done| | |].
    { apply Hrow. by left. }
    { intros old Hd. apply (Hold f); [by left|done]. }
    exists hash, st. split; [|done]. rewrite IH2; done.
  - intros g Hg Hn. cbn [foldl fmap list_fmap] in *. apply not_elem_of_cons in Hn as [Hn1 Hn2].
    rewrite IH2 by done. by apply Hother.
Qed.
Lemma settled_kept table table' f : kept table table' → settled table f → settled table' f.
Proof.
  intros Hk (hash & st & Hrow & Hok). specialize (Hk (file_name f)). rewrite Hrow in Hk.
  destruct (table' !! file_name f) as [[hash' st']|] eqn:Hrow'; [|done]. destruct Hk as [-> Ha].
  exists hash, st'. split; [done|]. destruct Hok as [Hok|[Hok|Hok]]; [by left| |by right; right]. right; left.
  unfold archived_skip in *. apply andb_true_iff in Hok as [[H1 H2%bool_decide_eq_true]%andb_true_iff H3].
  rewrite H1, H3, (Ha H2). done.
Qed.
End Settled.

(** *** What the events of a decision make of the table

    [N] holds of all names there are, and no two of them are the same name. *)
Lemma kept_row_refl row : kept_row row row.
Proof. by destruct row as [[]|]. Qed.
Lemma same_kept t : kept t t.
Proof. intros n. apply kept_row_refl. Qed.
Lemma kept_kept t1 t2 t3 : kept t1 t2 → kept t2 t3 → kept t1 t3.
Proof.
  intros H1 H2 n. specialize (H1 n). specialize (H2 n).
  destruct (t1 !! n) as [[]|], (t2 !! n) as [[]|], (t3 !! n) as [[]|]; cbn in *; naive_solver.
Qed.
Lemma kept_insert t t' n row : kept t t' → kept (<[n := row]> t) (<[n := row]> t').
Proof.
  intros Hk x. destruct (decide (n = x)) as [<-|]; [by rewrite !lookup_insert_eq; apply kept_row_refl|].
  by rewrite !lookup_insert_ne.
Qed.
Lemma kept_delete t t' n : kept t t' → kept (delete n t) (delete n t').
Proof.
  intros Hk x. destruct (decide (n = x)) as [<-|]; [by rewrite !lookup_delete_eq|]. by rewrite !lookup_delete_ne.
Qed.
Lemma kept_deletes t t' ns : kept t t' → kept (foldr delete t ns) (foldr delete t' ns).
Proof. intros Hk. induction ns as [|n ns IH]; [done|]. by apply kept_delete. Qed.

Lemma decision_table_kept f d t t' : kept t t' → kept (decision_table f d t) (decision_table f d t').
Proof.
  intros Hk. destruct d as [| |h|h|old]; cbn [decision_table]; [done| |by apply kept_insert..|].
  - intros x. destruct (decide (file_name f = x)) as [<-|]; [|by rewrite !lookup_alter_ne].
    rewrite !lookup_alter_eq. specialize (Hk (file_name f)).
    destruct (t !! file_name f) as [[]|], (t' !! file_name f) as [[]|]; cbn in *; naive_solver.
  - apply (kept_delete _ _ (file_name f)) in Hk. pose proof (Hk old) as Ho.
    destruct (delete (file_name f) t !! old) as [[h s]|], (delete (file_name f) t' !! old) as [[h' s']|]; try done.
    destruct Ho as [-> Ha]. intros x. destruct (decide (file_name f = x)) as [<-|].
    + rewrite !lookup_insert_eq. done.
    + rewrite !lookup_insert_ne by done. by apply (kept_delete _ _ old).
Qed.

Section Names.
Context (N : string → Prop) (HN : ∀ a b, N a → N b → same_name a b → a = b)
  (HS : ∀ a, N a → storable 200 a) (Hspeed : ∀ p, (0 ≤ speed p < 2 ^ 32)%Z).

Definition named (t : gmap string (string * string)) : Prop := ∀ n, is_Some (t !! n) → N n.

Lemma named_exact t n : named t → N n → exact_name t n.
Proof. intros Ht Hn. split; [by apply HS|]. intros x Hx. apply HN; auto. Qed.

Lemma named_kept t t' : kept t t' → named t → named t'.
Proof.
  intros Hk Ht n [row Hn]. apply Ht. specialize (Hk n). rewrite Hn in Hk. by destruct (t !! n), row.
Qed.

Lemma named_delete t n : named t → named (delete n t).
Proof. intros Ht x [row [_ Hx]%lookup_delete_Some]. eauto. Qed.

Lemma named_insert t n row : named t → N n → named (<[n := row]> t).
Proof. intros Ht Hn x [row' [[<- _]|[_ Hx]]%lookup_insert_Some]; eauto. Qed.

Lemma named_decision f d t : named t → N (file_name f) → named (decision_table f d t).
Proof.
  intros Ht Hf. destruct d as [| |h|h|old]; cbn [decision_table]; [done| |by apply named_insert..|].
  - intros n [row Hn]. apply Ht. apply lookup_alter_Some in Hn as [(_ & ? & -> & _)|[_ ->]]; eauto.
  - pose proof (named_delete t (file_name f) Ht). case_match; [|done]. by apply named_insert, Hf; apply named_delete.
Qed.

Lemma named_decisions D l : ∀ t,
  named t → (∀ f, f ∈ l → N (file_name f)) → named (foldl (λ t f, decision_table f (D f) t) t l).
Proof.
  induction l as [|f l IH]; intros t Ht Hf; [done|]. apply IH; [|intros g Hg; apply Hf; by right].
  apply named_decision; [done|apply Hf; by left].
Qed.

Lemma decision_replayed f d db db' :
  named (db_table db) → N (file_name f) → (∀ old, d = RenameFrom old → N old) → storable 40 (decision_hash d) →
  replays db (decision_trace f d) db' → kept (decision_table f d (db_table db)) (db_table db').
Proof.
  intros Ht Hf Hold Hh Hr.
  pose proof (named_exact _ _ Ht Hf) as Hx.
  destruct d as [| |h|h|old]; cbn [decision_trace decision_table] in *; inversion Hr; subst; clear Hr.
  - apply same_kept.
  - match goal with Hr : replays _ [] _ |- _ => inversion Hr; subst end. rewrite db_apply_state by done. apply same_kept.
  - match goal with Hr : replays _ [] _ |- _ => inversion Hr; subst end. rewrite db_apply_replace by done. apply same_kept.
  - match goal with Hr : replays _ [_] _ |- _ => inversion Hr; subst; clear Hr end.
    match goal with Hr : replays _ [] _ |- _ => inversion Hr; subst end.
    match goal with Ha : db_applyFile _ _ = Done _ |- _ => apply db_applyFile_table in Ha as Hk end.
    rewrite db_apply_replace by (done || apply Hspeed || (apply named_exact; [by eapply named_kept|done])). by apply kept_insert.
  - match goal with Hr : replays _ [_] _ |- _ => inversion Hr; subst; clear Hr end.
    match goal with Hr : replays _ [] _ |- _ => inversion Hr; subst end.
    pose proof (named_delete _ (file_name f) Ht) as Ht'.
    rewrite db_apply_rename; rewrite db_apply_delete by done.
    + apply same_kept.
    + by apply named_exact, Hold.
    + by apply named_exact.
    + by apply lookup_delete_eq.
Qed.

Lemma decisions_replayed D l : ∀ db db',
  named (db_table db) → (∀ f, f ∈ l → N (file_name f)) → (∀ f old, f ∈ l → D f = RenameFrom old → N old) →
  (∀ f, f ∈ l → storable 40 (decision_hash (D f))) →
  replays db (concat ((λ f, decision_trace f (D f)) <$> l)) db' →
  kept (foldl (λ t f, decision_table f (D f) t) (db_table db) l) (db_table db').
Proof.
  assert (∀ l t t', kept t t' → kept (foldl (λ t f, decision_table f (D f) t) t l)
    (foldl (λ t f, decision_table f (D f) t) t' l)) as Hmono.
  { intros k. induction k as [|f k IH]; intros t t' Hk; [done|]. by apply IH, decision_table_kept. }
  induction l as [|f l IH]; intros db db' Ht Hf Ho Hh Hr; cbn in *; [inversion Hr; subst; apply same_kept|].
  apply replays_app_inv in Hr as (db1 & Hr1 & Hr).
  assert (kept (decision_table f (D f) (db_table db)) (db_table db1)) as Hk.
  { apply decision_replayed; [done|apply Hf; left|intros old; apply Ho; left|apply Hh; left|done]. }
  eapply kept_kept; [by apply Hmono|]. apply IH; [|intros; apply Hf; by right|intros g old Hg; apply Ho; by right|intros g Hg; apply Hh; by right|done].
  eapply named_kept; [done|]. apply named_decision; [done|apply Hf; left].
Qed.
End Names.

(** *** A whole update *)
Lemma update_order_Permutation (l : list LocaleFileEntry) : update_order l ≡ₚ l.
Proof.
  induction l as [|[p st] l IH]; [done|].
  assert (update_order ((p, st) :: l) ≡ₚ (p, st) :: update_order l) as ->; [|by rewrite IH].
  unfold update_order. destruct st; cbn; [done| | |done].
  - symmetry. apply Permutation_middle.
  - rewrite !app_assoc. symmetry. apply Permutation_middle.
Qed.

Context (order : gmap string AppliedFileEntry → list (string * AppliedFileEntry))
  (Horder : ∀ a, order a ≡ₚ map_to_list a).

Definition cleanup_events (names : list string) : list db_event :=
  match names with [] => [] | _ => [Executed (DeleteUpdates names)] end.

Lemma cleanup_orphans_Done f (u : @update_state DB) :
  ∃ u' names, cleanup_orphans cfg order f u = (Done (), u') ∧
    us_imported u' = us_imported u ∧ us_trace u' = us_trace u ++ cleanup_events names ∧
    replays (us_db u) (cleanup_events names) (us_db u') ∧
    (∀ n, n ∈ names → is_Some (us_applied u !! n)).
Proof.
  unfold cleanup_orphans, CleanUp. sm_unfold.
  assert (∃ u' names, (Done () : outcome string unit, u) = (Done (), u') ∧
    us_imported u' = us_imported u ∧ us_trace u' = us_trace u ++ cleanup_events names ∧
    replays (us_db u) (cleanup_events names) (us_db u') ∧
    (∀ n, n ∈ names → is_Some (us_applied u !! n))) as Hnone.
  { exists u, []. cbn. rewrite app_nil_r. repeat split; try done; [constructor|]. by intros n Hn%not_elem_of_nil. }
  destruct (negb _ && _); [|exact Hnone].
  set (l := (List.filter _ (order (us_applied u))).*1).
  destruct (_ || _); [|exact Hnone]. destruct l as [|n ns] eqn:Hl; [exact Hnone|].
  unfold apply. sm_unfold. eexists _, (n :: ns). split; [done|]. cbn [us_imported us_trace us_db].
  split; [done|]. split; [done|]. split; [eauto using replays|].
  rewrite <- Hl. intros n' ([n2 e] & -> & Hin)%list_elem_of_fmap. exists e.
  apply list_elem_of_In, filter_In in Hin as [Hin _]. apply list_elem_of_In in Hin.
  rewrite Horder in Hin. by apply elem_of_map_to_list in Hin.
Qed.

(** The maps an update starts from. *)
Definition start_applied (u : @update_state DB) := ReceiveAppliedFiles (us_db u).
Definition start_names (u : @update_state DB) := fill_hashToName order (start_applied u).
Definition start_decision (u : @update_state DB) (available : list LocaleFileEntry) :=
  decision_of (start_applied u) (start_names u) available.

Lemma Update_files_Done f available u r u' :
  NoDup (file_name <$> available) →
  Update_files m cfg order speed f available u = (Done r, u') →
  let D := start_decision u available in
  let l := update_order available in
  ∃ names,
    us_trace u' = us_trace u ++ concat ((λ f, decision_trace f (D f)) <$> l) ++ cleanup_events names ∧
    updated r = length (List.filter (λ f, imports (D f)) l) ∧
    (∀ g, g ∈ available → file_name g ∉ names) ∧ (∀ n, n ∈ names → is_Some (start_applied u !! n)) ∧
    (∃ db, replays (us_db u) (concat ((λ f, decision_trace f (D f)) <$> l)) db ∧
       replays db (cleanup_events names) (us_db u')) ∧
    Forall (λ f, unread (start_applied u) f = false → is_Some (file_hash f.1)) l.
Proof.
  intros Hnd. unfold Update_files. sm_unfold. cbn [us_db us_applied us_trace].
  set (u0 := mk_update_state (us_db u) _ 0 (us_trace u)).
  fold (start_applied u). fold (start_names u).
  pose proof (update_order_Permutation available) as Hperm.
  destruct (for_each _ _ u0) as [[[]|e|w] u1] eqn:Hloop; [|done..].
  apply (loop_Done (start_applied u)) in Hloop as [(Ht & Hi & Ha & Hdb) Hread];
    [|by rewrite Hperm|intros x Hx; by rewrite <- Hperm|done].
  destruct (cleanup_orphans_Done f u1) as (u2 & names & Hc & Hi2 & Ht2 & Hdb2 & Hn).
  rewrite Hc. intros [= <- <-]. exists names.
  split; [rewrite Ht2, Ht; cbn; by rewrite app_assoc|].
  split; [cbn; by rewrite Hi2, Hi|]. split; [|split; [|split; [by eexists|done]]].
  2:{ intros n Hin. destruct (Hn n Hin) as [e He]. rewrite Ha in He. exists e.
      assert (∀ l (a : gmap string AppliedFileEntry), foldl (λ a f, delete (decision_erases f (decision_of (start_applied u) (start_names u) available f)) a)
        a l !! n = Some e → a !! n = Some e) as Hsub; [|by apply Hsub in He].
      intros l. induction l as [|x l IH]; intros a Hl; [done|]. cbn in Hl. apply IH in Hl.
      by apply lookup_delete_Some in Hl as [_ ?]. }
  intros g Hg Hin. destruct (Hn _ Hin) as [e He]. rewrite Ha in He.
  rewrite loop_erased in He; [done| | |].
  - by rewrite Hperm.
  - intros x Hx. by rewrite <- Hperm.
  - intros x Hx. by right.
Qed.

(** The names of the files and of the rows. *)
Definition in_play (db : DB) (available : list LocaleFileEntry) (n : string) : Prop :=
  is_Some (db_table db !! n) ∨ n ∈ file_name <$> available.

Lemma start_names_row (u : @update_state DB) h old :
  start_names u !! h = Some old → ∃ e, start_applied u !! old = Some e ∧ afe_hash e = h.
Proof. intros Hl. eapply fill_hashToName_Some; [exact Horder|exact Hl]. Qed.

Lemma start_applied_row (u : @update_state DB) n :
  is_Some (start_applied u !! n) → is_Some (db_table (us_db u) !! n).
Proof.
  intros [e He]. pose proof (ReceiveAppliedFiles_agree (us_db u) n) as Ha.
  fold (start_applied u) in Ha. rewrite He in Ha. destruct (db_table (us_db u) !! n); [by eexists|done].
Qed.

Lemma foldr_delete_other {A : Type} (table : gmap string A) names n :
  n ∉ names → foldr delete table names !! n = table !! n.
Proof.
  induction names as [|x names IH]; [done|]. intros [Hn1 Hn2]%not_elem_of_cons. cbn.
  rewrite lookup_delete_ne by done. by apply IH.
Qed.

(** A file whose row says what it is needs nothing but, perhaps, a new state. *)
Definition up_to_date (applied : gmap string AppliedFileEntry) (f : LocaleFileEntry) : Prop :=
  ∃ e, applied !! file_name f = Some e ∧
    (unread applied f = true ∨ file_hash f.1 = Some (afe_hash e)).

Lemma up_to_date_no_import applied h2n available f :
  up_to_date applied f → imports (decision_of applied h2n available f) = false ∧
    ∀ p, AppliedFile p ∉ decision_trace f (decision_of applied h2n available f).
Proof.
  intros (e & He & Hok).
  assert (∀ d, d = Keep ∨ d = Restate ∨ (∃ h, d = Rehash h) →
    imports d = false ∧ ∀ p, AppliedFile p ∉ decision_trace f d) as Hd.
  { intros d [->|[->|[h ->]]]; (split; [done|]); intros p; cbn; set_solver. }
  apply Hd. unfold decision_of, decide_file, hash_or_empty, unread in *. rewrite He in *.
  destruct (negb (redundancyChecks cfg) || archived_skip (afe_state e) f.2); [by left|].
  destruct Hok as [?|Hh]; [done|]. rewrite Hh. cbn. unfold id. rewrite String.eqb_refl. cbn.
  destruct (allowRehash cfg && is_empty (afe_hash e)); [right; right; by eexists|].
  case_bool_decide; auto.
Qed.

Lemma file_hash_read {A : Type} path hash (k : string → SM string (@update_state DB) A) u :
  file_hash path = Some hash →
  (update ← ReadSQLUpdate m path; hash ← hash_of m update; k hash) u = k hash u.
Proof.
  unfold file_hash, ReadSQLUpdate, hash_of. sm_unfold. destruct (read_file m path) as [upd|]; [|done].
  destruct (ByteArrayToHexStr (sha1 m upd) false) as [h|[]|w]; [|done]. by intros [= ->].
Qed.

Lemma ApplyUpdateFile_up_to_date h2n available f u :
  up_to_date (us_applied u) f → ∃ u', ApplyUpdateFile m cfg speed h2n available f u = (Done (), u').
Proof.
  destruct f as [path st]. intros (e & He & Hok). unfold ApplyUpdateFile, unread, archived_skip, file_name in *.
  cbn [fst snd] in *. unfold mbind at 1, SM_bind at 1, get_state at 1. rewrite He in *.
  destruct (negb (redundancyChecks cfg)) eqn:E1; [by eexists|].
  destruct (negb (archivedRedundancy cfg) && _ && _) eqn:E2; [by eexists|].
  cbn [orb] in Hok. destruct Hok as [Hok|Hh]; [congruence|]. rewrite (file_hash_read _ _ _ _ Hh), String.eqb_refl. cbn [negb].
  destruct (allowRehash cfg && is_empty (afe_hash e)); [by eexists|].
  destruct (bool_decide (afe_state e = st)); eexists; reflexivity.
Qed.

Lemma loop_up_to_date h2n available l u :
  NoDup (file_name <$> l) → l ⊆ available → (∀ f, f ∈ l → up_to_date (us_applied u) f) →
  ∃ u', for_each (ApplyUpdateFile m cfg speed h2n available) l u = (Done (), u').
Proof.
  revert u. induction l as [|f l IH]; intros u Hnd Hsub Hup; [by eexists|].
  cbn [for_each fmap list_fmap] in *. apply NoDup_cons in Hnd as [Hf Hnd].
  destruct (ApplyUpdateFile_up_to_date h2n available f u ltac:(apply Hup; by left)) as [u1 Hu1].
  rewrite (SM_bind_Done _ _ _ _ _ Hu1). apply IH; [done|set_solver|].
  apply ApplyUpdateFile_Done in Hu1 as (hash & Hh & _ & _ & Ha & _).
  assert (us_applied u1 = delete (file_name f) (us_applied u)) as Ha'.
  { rewrite Ha. f_equal. destruct (Hup f ltac:(by left)) as (e & He & _). unfold decide_file.
    rewrite He. by repeat case_match. }
  intros g Hg. destruct (Hup g ltac:(by right)) as (e & He & Hok). unfold up_to_date, unread in *.
  rewrite Ha', lookup_delete_ne; [by exists e|]. intros Heq. apply Hf. rewrite Heq.
  apply list_elem_of_fmap. by exists g.
Qed.

Lemma settled_up_to_date (db : DB) f :
  settled (db_table db) f → up_to_date (ReceiveAppliedFiles db) f.
Proof.
  intros (hash & state & Hrow & Hok). pose proof (ReceiveAppliedFiles_agree db (file_name f)) as Ha.
  rewrite Hrow in Ha. cbn in Ha. destruct (ReceiveAppliedFiles db !! file_name f) as [e|] eqn:He; [|done].
  injection Ha as Hh Hs. exists e. split; [done|]. unfold unread. rewrite He, Hs, Hh.
  destruct Hok as [Hr|[Hr|Hr]]; [left; by rewrite Hr|left; by rewrite Hr, orb_true_r|by right].
Qed.
(** A second pass over files that are all up to date returns and imports none. *)
Lemma up_to_date_returns f available u :
  NoDup (file_name <$> available) →
  (∀ g, g ∈ available → up_to_date (start_applied u) g) →
  ∃ r u', Update_files m cfg order speed f available u = (Done r, u').
Proof.
  intros Hnd Hup. pose proof (update_order_Permutation available) as Hperm.
  unfold Update_files. sm_unfold. cbn [us_db us_applied us_trace].
  set (u0 := mk_update_state (us_db u) _ 0 (us_trace u)).
  destruct (loop_up_to_date (fill_hashToName order (ReceiveAppliedFiles (us_db u)))
    available (update_order available) u0) as [u2 ->].
  - by rewrite Hperm.
  - intros x Hx. by rewrite <- Hperm.
  - intros g Hg. apply Hup. by rewrite <- Hperm.
  - destruct (cleanup_orphans_Done f u2) as (u3 & ns & -> & _). by eexists _, _.
Qed.

Lemma up_to_date_quiet available u l :
  (∀ g, g ∈ l → up_to_date (start_applied u) g) →
  List.filter (λ f, imports (start_decision u available f)) l = [] ∧
  ∀ p, AppliedFile p ∉ concat ((λ f, decision_trace f (start_decision u available f)) <$> l).
Proof.
  intros Hup. induction l as [|g l IH]; [split; [done|]; intros p; cbn; apply not_elem_of_nil|].
  destruct IH as [Hl Hp]; [intros x Hx; apply Hup; by right|].
  destruct (up_to_date_no_import (start_applied u) (start_names u) available g) as [Hg Hno];
    [apply Hup; by left|].
  split.
  - cbn. unfold start_decision at 1. by rewrite Hg.
  - intros p. cbn. rewrite elem_of_app. intros [Hin|Hin]; [by apply (Hno p)|by apply (Hp p)].
Qed.

(** After an update that returned, the row of every file is settled. *)
Lemma Update_files_settles f available u r u1 :
  NoDup (file_name <$> available) →
  (∀ f g h, f ∈ available → g ∈ available → file_hash f.1 = Some h → file_hash g.1 = Some h → f = g) →
  (∀ a b, in_play (us_db u) available a → in_play (us_db u) available b → same_name a b → a = b) →
  (∀ a, in_play (us_db u) available a → storable 200 a) →
  (∀ f h, f ∈ available → file_hash f.1 = Some h → storable 40 h) →
  (∀ p, (0 ≤ speed p < 2 ^ 32)%Z) →
  Update_files m cfg order speed f available u = (Done r, u1) →
  ∀ g, g ∈ available → settled (db_table (us_db u1)) g.
Proof.
  intros Hnd Hinj Hnames Hst Hhash Hspeed Hu g Hg.
  destruct (Update_files_Done f available u r u1 Hnd Hu) as (names & _ & _ & Hn & Hsome & (db & Hr1 & Hr2) & Hread).
  pose proof (update_order_Permutation available) as Hperm.
  set (D := start_decision u available) in *. set (N := in_play (us_db u) available) in *.
  assert (named N (db_table (us_db u))) as Hnamed by (intros n Hs; by left).
  assert (∀ x, x ∈ update_order available → N (file_name x)) as Hfiles.
  { intros x Hx. right. rewrite Hperm in Hx. apply list_elem_of_fmap. by exists x. }
  assert (∀ x old, x ∈ update_order available → D x = RenameFrom old → N old) as Hold.
  { intros x old Hx Hd. apply decision_of_rename in Hd as (_ & Ho & _).
    apply start_names_row in Ho as (e & He & _). left. apply start_applied_row. by exists e. }
  assert (∀ x, x ∈ update_order available → storable 40 (decision_hash (D x))) as Hdh.
  { intros x Hx. rewrite Hperm in Hx. apply decision_hash_storable. intros h. by apply Hhash. }
  pose proof (decisions_replayed N Hnames Hst Hspeed D _ _ _ Hnamed Hfiles Hold Hdh Hr1) as Hkept.
  assert (settled (db_table db) g) as Hs.
  { eapply settled_kept; [exact Hkept|].
    refine (proj1 (run_settles (db_table (us_db u)) (start_applied u) (start_names u)
      available (ReceiveAppliedFiles_agree _) _ Hnd Hinj (update_order available) _ _ _ Hread _ _) g _).
    - intros h old Ho. by apply start_names_row.
    - by rewrite Hperm.
    - intros x Hx. by rewrite <- Hperm.
    - done.
    - done.
    - by rewrite Hperm. }
  assert (named N (db_table db)) as Hndb.
  { eapply named_kept; [exact Hkept|]. by apply named_decisions. }
  destruct names as [|n ns]; cbn in Hr2; inversion Hr2; subst; [done|].
  match goal with Hr : replays _ [] _ |- _ => inversion Hr; subst end.
  unfold settled. rewrite db_apply_deletes.
  - rewrite foldr_delete_other by (by apply Hn). exact Hs.
  - apply Forall_forall. intros x Hx. apply (named_exact N Hnames Hst); [done|]. left. by apply start_applied_row, Hsome.
Qed.
End Facts.

(** ** Lemmas: the list of files *)
Section Files.
Context {DB : Type} `{UpdateDB DB} (m : machine).

Abbreviation names l := (file_name <$> l).
Abbreviation sorted_files := (Sorted (λ f g, PathCompare f g = true)).

Lemma storage_find_names e (l : list LocaleFileEntry) :
  storage_find e l = false → file_name e ∉ names l.
Proof.
  induction l as [|x l IH]; [intros _; apply not_elem_of_nil|]. cbn.
  intros [Hx Hl]%orb_false_iff. apply String.eqb_neq in Hx. apply not_elem_of_cons. split; [congruence|auto].
Qed.

Lemma storage_emplace_names e (l : list LocaleFileEntry) :
  storage_find e l = false → names (storage_emplace e l) ≡ₚ file_name e :: names l.
Proof.
  induction l as [|x l IH]; [done|]. cbn. intros [Hx Hl]%orb_false_iff.
  destruct (PathCompare e x); [done|]. rewrite Hx. cbn. rewrite IH by done. apply Permutation_swap.
Qed.

Lemma PathCompare_total (e x : LocaleFileEntry) :
  PathCompare e x = false → file_name x ≠ file_name e → PathCompare x e = true.
Proof.
  unfold PathCompare, String.ltb. rewrite (String.compare_antisym (file_name x) (file_name e)).
  destruct (file_name e ?= file_name x)%string eqn:Hc; intros H1 Hne; [|discriminate H1|reflexivity].
  apply String.compare_eq_iff in Hc. congruence.
Qed.

Lemma storage_emplace_sorted e (l : list LocaleFileEntry) :
  storage_find e l = false → sorted_files l → sorted_files (storage_emplace e l).
Proof.
  induction l as [|x l IH]; [by repeat constructor|]. cbn. intros [Hx Hl]%orb_false_iff Hs.
  apply String.eqb_neq in Hx. destruct (PathCompare e x) eqn:Hc; [constructor; [done|by constructor]|].
  rewrite (proj2 (String.eqb_neq _ _) Hx). inversion_clear Hs as [|? ? Hs' Hhd].
  constructor; [by apply IH|]. destruct l as [|y l]; cbn.
  - constructor. by apply PathCompare_total.
  - inversion_clear Hhd. destruct (PathCompare e y); [constructor; by apply PathCompare_total|].
    destruct (String.eqb (file_name y) (file_name e)); by constructor.
Qed.

Definition files_ok (l : list LocaleFileEntry) : Prop := NoDup (names l) ∧ sorted_files l.

Lemma FillFileList_loop_ok paths st storage (u : @update_state DB) l u' :
  files_ok storage → FillFileList_loop paths st storage u = (Done l, u') → files_ok l ∧ u' = u.
Proof.
  revert storage. induction paths as [|p paths IH]; intros storage Hok; cbn [FillFileList_loop].
  { by intros [= <- <-]. }
  destruct (negb _); [by apply IH|]. destruct (storage_find (p, st) storage) eqn:Hf; [done|].
  apply IH. destruct Hok as [H1 H2]. split; [|by apply storage_emplace_sorted].
  rewrite storage_emplace_names by done. constructor; [by apply storage_find_names|done].
Qed.

Lemma fill_directories_ok dirs storage (u : @update_state DB) l u' :
  files_ok storage → fill_directories m dirs storage u = (Done l, u') → files_ok l ∧ u' = u.
Proof.
  revert storage. induction dirs as [|[p st] dirs IH]; intros storage Hok; cbn [fill_directories].
  { by intros [= <- <-]. }
  unfold FillFileListRecursively, mbind, SM_bind.
  destruct (FillFileList_loop _ _ _ u) as [[l1|e|w] u1] eqn:Hl; [|done..].
  destruct (FillFileList_loop_ok _ _ _ _ _ _ Hok Hl) as [Hok1 ->]. by apply IH.
Qed.

Lemma GetFileList_ok f (u : @update_state DB) l u' : GetFileList m f u = (Done l, u') → files_ok l.
Proof.
  assert (files_ok []) as Hnil by (split; constructor).
  unfold GetFileList, mbind, SM_bind.
  destruct (ReceiveIncludedDirectories m f u) as [[d|e|w] u1]; [|done..].
  destruct d as [|d ds].
  - destruct (applyFile _ u1) as [[[]|e|w] u2]; [|done..].
    destruct (ReceiveIncludedDirectories m f u2) as [[[|d ds]|e|w] u3]; [done| |done..].
    intros Hl. by apply fill_directories_ok in Hl as [].
  - intros Hl. by apply fill_directories_ok in Hl as [].
Qed.
End Files.

(** ** Properties *)

(** C15 An update that returns did this, in this order: it went once through the
    files it found (sorted by file name, no name twice), first those of the
    released and archived directories, then the custom ones, then those of the
    modules; for each one it did what the table said when it began, and then it
    deleted rows whose files are gone, and no other.  The number it reports is
    the number of files it applied. *)
Theorem Update_in_order_of_files {DB : Type} `{UpdateDB DB} (m : machine) (cfg : ConfigState)
    (order : gmap string AppliedFileEntry → list (string * AppliedFileEntry))
    (speed : string → Z) (f : UpdateFetcher) (u u' : @update_state DB) (r : UpdateResult) :
  (∀ a, order a ≡ₚ map_to_list a) →
  Update m cfg order speed f u = (Done r, u') →
  ∃ available u1 names,
    GetFileList m f u = (Done available, u1) ∧
    Sorted (λ f g, PathCompare f g = true) available ∧ NoDup (file_name <$> available) ∧
    let decide_ := start_decision m cfg order u1 available in
    us_trace u' = us_trace u1 ++
      concat ((λ f, decision_trace speed f (decide_ f)) <$> update_order available) ++
      cleanup_events names ∧
    replays (us_db u1) (concat ((λ f, decision_trace speed f (decide_ f)) <$> update_order available) ++
      cleanup_events names) (us_db u') ∧
    updated r = length (List.filter (λ f, imports (decide_ f)) (update_order available)) ∧
    (∀ g, g ∈ available → file_name g ∉ names).
Proof.
  intros Hord. unfold Update, mbind at 1, SM_bind at 1.
  destruct (GetFileList m f u) as [[available|e|w] u1] eqn:Hfiles; [|done..].
  destruct (GetFileList_ok _ _ _ _ _ Hfiles) as [Hnd Hs]. intros Hd.
  exists available, u1. destruct (bool_decide _ && _) eqn:Hearly.
  - apply andb_true_iff in Hearly as [_ He]. destruct available; [|done].
    injection Hd as <- <-. exists []. cbn. rewrite app_nil_r. repeat split; try done; [constructor|].
    intros g _. apply not_elem_of_nil.
  - destruct (Update_files_Done m cfg speed order Hord f available u1 r u' Hnd Hd)
      as (names & Ht & Hi & Hn & _ & (db & H1 & H2) & _). exists names.
    do 3 (split; [done|]). split; [done|]. split; [by eapply replays_app|done].
Qed.


(** ** A concrete database: the table alone; one file cannot be applied, one archives every row *)
#[local] Definition toy_apply (s : stmt) (t : gmap string (string * string)) : gmap string (string * string) :=
  match s with
  | ReplaceUpdate e _ => <[afe_name e := (afe_hash e, StateConvert (afe_state e))]> t
  | DeleteUpdate n => delete n t
  | RenameUpdate from to =>
      match t !! from with Some row => <[to := row]> (delete from t) | None => t end
  | SetUpdateState n st => alter (λ row, (row.1, StateConvert st)) n t
  | DeleteUpdates ns => foldr delete t ns
  end.

#[local] Instance toy_db : UpdateDB (gmap string (string * string)) := {|
  db_apply := toy_apply;
  db_applyFile path t :=
    if String.eqb path "bad.sql" then Throw "update failed"
    else if String.eqb path "src/custom/0.sql" then Done ((λ row : string * string, (row.1, "ARCHIVED")) <$> t)
    else Done t;
  db_updates t := Some ((λ '(n, (h, st)), (n, h, st, 0%Z)) <$> map_to_list t);
  db_includes t := Some [("$/sql", "RELEASED"); ("$/custom", "CUSTOM")] |}.

#[local] Instance toy_laws : UpdateDBLaws (gmap string (string * string)).
Proof.
  unshelve refine (Build_UpdateDBLaws _ _ (λ t, t) (=) _ _ _ _ _ _ _ _); intros; try done.
  - unfold row_map. cbn. rewrite <- list_fmap_compose. etransitivity; [|apply (list_to_map_to_list db)].
    f_equal. rewrite <- (list_fmap_id (map_to_list db)) at 2. apply list_fmap_ext. by intros ? [? [? ?]] _.
  - cbn. rewrite <- list_fmap_compose. erewrite list_fmap_ext; [apply (NoDup_fst_map_to_list db)|].
    by intros ? [? [? ?]] _.
  - cbn in *. destruct (String.eqb path "bad.sql"); [done|].
    destruct (String.eqb path "src/custom/0.sql"); injection H as <-; intros n;
      rewrite ?lookup_fmap; destruct (db !! n) as [[]|]; by cbn.
Defined.

#[local] Definition toy_machine : machine :=
  mk_machine (λ _, true)
    (λ dir, if String.eqb dir "src/sql" then ["src/sql/2.sql"; "src/sql/readme"; "src/sql/1.sql"]
            else ["src/custom/0.sql"])
    (λ path, Some path)
    (λ s, (λ c, Z.of_nat (nat_of_ascii c)) <$> String.list_ascii_of_string s).

#[local] Definition toy_fetcher : UpdateFetcher := mk_UpdateFetcher "src" "db_discord/" None "".
#[local] Definition toy_state : @update_state (gmap string (string * string)) :=
  mk_update_state {["1.sql" := ("00", "RELEASED"); "gone.sql" := ("11", "RELEASED")]} ∅ 0 [].
#[local] Definition toy_run : outcome string UpdateResult * @update_state (gmap string (string * string)) :=
  Update toy_machine initial_state map_to_list (λ _, 7%Z) toy_fetcher toy_state.

Example toy_run_ex :
  (λ e, match e with AppliedFile p => Some p | _ => None end) <$> us_trace (snd toy_run) =
    [Some "src/sql/1.sql"; None; Some "src/sql/2.sql"; None; Some "src/custom/0.sql"; None; None].
Proof. vm_compute. reflexivity. Qed.

Lemma Update_in_order_of_files_witness :
  ∃ r u' available, Update toy_machine initial_state map_to_list (λ _, 7%Z) toy_fetcher toy_state
    = (Done r, u') ∧ updated r = 3 ∧
    Sorted (λ f g, PathCompare f g = true) available ∧ file_name <$> available = ["0.sql"; "1.sql"; "2.sql"].
Proof.
  assert (updated <$> fst toy_run = Done 3) as H3 by (vm_compute; reflexivity).
  assert (fst (GetFileList toy_machine toy_fetcher toy_state) = Done [("src/custom/0.sql", CUSTOM);
    ("src/sql/1.sql", RELEASED); ("src/sql/2.sql", RELEASED)]) as Hl by (vm_compute; reflexivity).
  destruct toy_run as [o u'] eqn:Hrun. destruct o as [r|e|w]; [|discriminate H3..].
  destruct (Update_in_order_of_files toy_machine initial_state map_to_list (λ _, 7%Z) toy_fetcher
    toy_state u' r ltac:(reflexivity) Hrun) as (available & u1 & names & Hf & Hs & _ & _ & Hu & _).
  exists r, u', available. rewrite Hf in Hl. injection Hl as ->.
  split; [exact Hrun|]. split; [|split; [exact Hs|reflexivity]]. by injection H3 as ->.
Defined.

#[local] Definition toy_available : list LocaleFileEntry :=
  [("src/custom/0.sql", CUSTOM); ("src/sql/1.sql", RELEASED); ("src/sql/2.sql", RELEASED)].


(** Two new files with the content of one file that is gone: the first takes
    over its row; the second is neither applied nor recorded. *)
#[local] Definition same_content : machine :=
  mk_machine (λ _, true) (λ _, []) (λ _, Some "x") (sha1 toy_machine).

Example renamed_twice_is_lost :
  let '(r, u) := Update_files same_content initial_state map_to_list (λ _, 0%Z) toy_fetcher
    [("a.sql", RELEASED); ("b.sql", RELEASED)] (mk_update_state {["old.sql" := ("78", "RELEASED")]} ∅ 0 []) in
  updated <$> r = Done 0 ∧ us_db u = {["a.sql" := ("78", "RELEASED")]}.
Proof. vm_compute. done. Qed.

(** The same table as the server compares its names: without their case. *)
Fixpoint lower (s : string) : string :=
  match s with
  | EmptyString => EmptyString
  | String c s =>
      let n := nat_of_ascii c in
      String (if (65 <=? n) && (n <=? 90) then ascii_of_nat (n + 32) else c) (lower s)
  end.

#[local] Definition without_case (t : gmap string (string * string)) (n : string) : gmap string (string * string) :=
  filter (λ row, lower row.1 ≠ lower n) t.
#[local] Definition rename_case (from to : string) (t : gmap string (string * string)) : gmap string (string * string) :=
  list_to_map ((λ row : string * (string * string),
    (if String.eqb (lower row.1) (lower from) then to else row.1, row.2)) <$> map_to_list t).

#[local] Definition case_db : UpdateDB (gmap string (string * string)) := {|
  db_apply s t := match s with
    | ReplaceUpdate e _ => <[afe_name e := (afe_hash e, StateConvert (afe_state e))]> (without_case t (afe_name e))
    | DeleteUpdate n => without_case t n
    | RenameUpdate from to => rename_case from to t
    | SetUpdateState n st =>
        map_imap (λ k row, Some (if String.eqb (lower k) (lower n) then (row.1, StateConvert st) else row)) t
    | DeleteUpdates ns => foldr (λ n t, without_case t n) t ns
    end;
  db_applyFile path t := Done t;
  db_updates := @db_updates _ toy_db;
  db_includes := @db_includes _ toy_db |}.

(** A file renamed in its case only: the row that is to be renamed is the one that
    is deleted first, and the next update applies the file again. *)
Example case_rename_is_lost :
  let update := Update_files (H := case_db) same_content initial_state map_to_list (λ _, 0%Z) toy_fetcher
    [("A.sql", RELEASED)] in
  let '(r, u) := update (mk_update_state {["a.sql" := ("78", "RELEASED")]} ∅ 0 []) in
  updated <$> r = Done 0 ∧ us_db u = ∅ ∧ updated <$> fst (update u) = Done 1.
Proof. vm_compute. done. Qed.
