(* ===== verification/DatabaseMgr.v ===== *)
(** * Opening and closing the databases: server/database/Database/DatabaseMgr.cpp

    [AddDatabase] fills four queues of closures and [Load] works through them.
    A closure is kept as the data it captures, and run by the definition that
    holds its body.  A pool is seen through the interface [PoolOps] (its
    [Open], [Close], [PrepareStatements], [Update] and the updater's [Create],
    [Populate] and [Update]); each of its calls may end the process or throw, as
    [AddTasks] and [MakeExtraFile] do.  [mgr_trace] records the calls in order. *)
From S2P Require Import Prelude CppString Convert Config.

(** Pools are called by name; [W] is everything behind them.  An exception is
    its text. *)
Class PoolOps (W : Type) := {
  pool_Open : string → W → outcome string Z * W;
  pool_Close : string → W → outcome string unit * W;
  pool_SetConnectionInfo : string → string → W → outcome string unit * W;
  pool_PrepareStatements : string → W → outcome string bool * W;
  pool_Update : Z → string → W → outcome string unit * W;
  updater_Create : string → W → outcome string bool * W;
  updater_Populate : string → W → outcome string bool * W;
  updater_Update : string → W → outcome string bool * W }.

(** How a call does not return. *)
Inductive stop := Thrown (e : string) | Ended (why : string).
Definition stop_of {E A : Type} (text : E → string) (r : outcome E A) : option stop :=
  match r with Done _ => None | Throw e => Some (Thrown (text e)) | Crash w => Some (Ended w) end.

(** Some call of a pool or its updater does not return, in this way. *)
Inductive pool_stops {W : Type} `{PoolOps W} (x : stop) : Prop :=
| Open_stops name w : stop_of id (fst (pool_Open name w)) = Some x → pool_stops x
| Close_stops name w : stop_of id (fst (pool_Close name w)) = Some x → pool_stops x
| SetConnectionInfo_stops name info w : stop_of id (fst (pool_SetConnectionInfo name info w)) = Some x → pool_stops x
| PrepareStatements_stops name w : stop_of id (fst (pool_PrepareStatements name w)) = Some x → pool_stops x
| Update_stops diff name w : stop_of id (fst (pool_Update diff name w)) = Some x → pool_stops x
| Create_stops name w : stop_of id (fst (updater_Create name w)) = Some x → pool_stops x
| Populate_stops name w : stop_of id (fst (updater_Populate name w)) = Some x → pool_stops x
| updater_stops name w : stop_of id (fst (updater_Update name w)) = Some x → pool_stops x.
#[export] Hint Constructors pool_stops : warhead.

Definition CR_CONNECTION_ERROR : Z := 2002.
Definition ER_BAD_DB_ERROR : Z := 1049.

(** What happened to the pools. *)
Inductive mgr_event :=
| EvOpen (name : string) (ok : bool)      (* the predicate of [_open] returned *)
| EvPopulate (name : string) (ok : bool)
| EvUpdate (name : string) (ok : bool)
| EvPrepare (name : string) (ok : bool)
| EvClose (name : string).

Section DatabaseMgr.
Context {W : Type} `{PoolOps W}.

Record DatabaseMgr := mk_DatabaseMgr {
  _autoSetup : bool;
  _updateFlags : Z;
  _open : list (string * bool);    (* name, updatesEnabledForThis *)
  _populate : list string;
  _update : list string;
  _prepare : list string;
  _close : list string;            (* the stack, its top first *)
  _poolList : list string;
  world : W;
  mgr_trace : list mgr_event }.

Abbreviation MM := (SM string DatabaseMgr).

Definition with_queues (o : list (string * bool)) (po u pr c pl : list string) (m : DatabaseMgr)
    : DatabaseMgr :=
  mk_DatabaseMgr (_autoSetup m) (_updateFlags m) o po u pr c pl (world m) (mgr_trace m).
Definition with_close (c : list string) (m : DatabaseMgr) : DatabaseMgr :=
  with_queues (_open m) (_populate m) (_update m) (_prepare m) c (_poolList m) m.
Definition with_world (w : W) (m : DatabaseMgr) : DatabaseMgr :=
  mk_DatabaseMgr (_autoSetup m) (_updateFlags m) (_open m) (_populate m) (_update m) (_prepare m)
    (_close m) (_poolList m) w (mgr_trace m).
Definition record_event (e : mgr_event) : MM unit := modify_state (λ m,
  mk_DatabaseMgr (_autoSetup m) (_updateFlags m) (_open m) (_populate m) (_update m) (_prepare m)
    (_close m) (_poolList m) (world m) (mgr_trace m ++ [e])).
(** A call of the interface. *)
Definition call_world {A : Type} (f : W → outcome string A * W) : MM A := λ m,
  let '(r, w) := f (world m) in (r, with_world w m).

Definition new_DatabaseMgr (cfg : ConfigState) (w : W) : DatabaseMgr :=
  mk_DatabaseMgr (fst (GetOption_bool "Updates.AutoSetup" true true cfg))
    (fst (GetOption uint32 "Updates.EnableDatabases" 0 true cfg)) [] [] [] [] [] [] w [].

(** [DBUpdater::IsEnabled] *)
Definition IsEnabled (poolType updateMask : Z) : bool := negb (Z.land updateMask poolType =? 0)%Z.

Definition AddDatabase (name : string) (poolType : Z) : MM unit := modify_state (λ m,
  let updatesEnabledForThis := IsEnabled poolType (_updateFlags m) in
  with_queues (_open m ++ [(name, updatesEnabledForThis)])
    (_populate m ++ if updatesEnabledForThis then [name] else [])
    (_update m ++ if updatesEnabledForThis then [name] else [])
    (_prepare m ++ [name]) (_close m) (_poolList m) m).

(** [while (reconnectCount < attempts)]: [todo] is the difference. *)
Fixpoint reconnect_loop (todo : nat) (name : string) (error : Z) : MM Z :=
  match todo with
  | O => mret error
  | S todo =>
      error ← call_world (pool_Open name);
      if (error =? CR_CONNECTION_ERROR)%Z then reconnect_loop todo name error else mret error
  end.

(** The body of the closure in [_open]. *)
Definition run_open (cfg : ConfigState) (entry : string * bool) : MM bool :=
  let '(name, updatesEnabledForThis) := entry in
  let dbString := fst (GetOption_string (name +:+ "DatabaseInfo") "" true cfg) in
  if is_empty dbString then mret false
  else
    _ ← call_world (pool_SetConnectionInfo name dbString);
    error ← call_world (pool_Open name);
    m ← get_state;
    error ← (if negb (error =? 0)%Z then
               error ← (if (error =? CR_CONNECTION_ERROR)%Z then
                          reconnect_loop
                            (Z.to_nat (fst (GetOption uint8 "Database.Reconnect.Attempts" 20 true cfg)))
                            name error
                        else mret error);
               if (error =? ER_BAD_DB_ERROR)%Z && updatesEnabledForThis && _autoSetup m then
                 created ← call_world (updater_Create name);
                 if negb created then mret error
                 else
                   again ← call_world (pool_Open name);
                   mret (if (again =? 0)%Z then 0%Z else error)
               else mret error
             else mret 0%Z);
    if negb (error =? 0)%Z then mret false
    else
      _ ← modify_state (λ m, with_close (name :: _close m) m);
      mret true.

(** The bodies of the closures in the other queues. *)
Definition run_populate (name : string) : MM bool := call_world (updater_Populate name).
Definition run_update (name : string) : MM bool := call_world (updater_Update name).
Definition run_prepare (name : string) : MM bool :=
  ok ← call_world (pool_PrepareStatements name);
  if negb ok then mret false
  else
    _ ← modify_state (λ m, with_queues (_open m) (_populate m) (_update m) (_prepare m) (_close m)
                             (_poolList m ++ [name]) m);
    mret true.

(** [while (!_close.empty()) { _close.top()(); _close.pop(); }] *)
Fixpoint close_all (stack : list string) : MM unit :=
  match stack with
  | [] => modify_state (with_close [])
  | name :: stack =>
      _ ← call_world (pool_Close name);
      _ ← record_event (EvClose name);
      _ ← modify_state (with_close stack);
      close_all stack
  end.

Definition CloseAllConnections : MM unit := m ← get_state; close_all (_close m).

(** [Process] of a queue: [run] is the body of its closures, [set] stores what
    is left of it, [ev] names the event.  The closure that fails stays in the
    queue. *)
Fixpoint Process {A : Type} (run : A → MM bool) (set : list A → DatabaseMgr → DatabaseMgr)
    (ev : A → bool → mgr_event) (queue : list A) : MM bool :=
  match queue with
  | [] => mret true
  | front :: rest =>
      ok ← run front;
      _ ← record_event (ev front ok);
      if negb ok then
        _ ← CloseAllConnections;
        mret false
      else
        _ ← modify_state (set rest);
        Process run set ev rest
  end.

Definition OpenDatabases (cfg : ConfigState) : MM bool :=
  m ← get_state;
  Process (run_open cfg)
    (λ q m, with_queues q (_populate m) (_update m) (_prepare m) (_close m) (_poolList m) m)
    (λ e, EvOpen e.1) (_open m).

Definition PopulateDatabases : MM bool :=
  m ← get_state;
  Process run_populate
    (λ q m, with_queues (_open m) q (_update m) (_prepare m) (_close m) (_poolList m) m)
    EvPopulate (_populate m).

Definition UpdateDatabases : MM bool :=
  m ← get_state;
  Process run_update
    (λ q m, with_queues (_open m) (_populate m) q (_prepare m) (_close m) (_poolList m) m)
    EvUpdate (_update m).

Definition PrepareStatements : MM bool :=
  m ← get_state;
  Process run_prepare
    (λ q m, with_queues (_open m) (_populate m) (_update m) q (_close m) (_poolList m) m)
    EvPrepare (_prepare m).

Definition Load (cfg : ConfigState) : MM bool :=
  ok ← OpenDatabases cfg;
  if negb ok then mret false
  else
    ok ← PopulateDatabases;
    if negb ok then mret false
    else
      ok ← UpdateDatabases;
      if negb ok then mret false
      else
        ok ← PrepareStatements;
        if negb ok then mret false else mret true.

Definition Update (diff : Z) : MM unit :=
  m ← get_state;
  for_each (λ pool, call_world (pool_Update diff pool)) (_poolList m).

(** ** Lemmas *)
Definition opened_by (tr : list mgr_event) : list string :=
  omap (λ e, match e with EvOpen n true => Some n | _ => None end) tr.
Definition closed_by (tr : list mgr_event) : list string :=
  omap (λ e, match e with EvClose n => Some n | _ => None end) tr.

(** A call that ran to its end: what it traced, and where the stack of open
    pools went. *)
Definition accounts (m m' : DatabaseMgr) (b : bool) (tr : list mgr_event) : Prop :=
  mgr_trace m' = mgr_trace m ++ tr ∧
  closed_by tr ++ _close m' = reverse (opened_by tr) ++ _close m ∧
  (if b then closed_by tr = [] else _close m' = []).

(** Code that leaves the stack and the trace alone, and returns unless a call of
    a pool does not. *)
Definition keeps_close {A : Type} (c : MM A) : Prop :=
  ∀ m, mgr_trace (snd (c m)) = mgr_trace m ∧ _close (snd (c m)) = _close m ∧
    ∀ x, stop_of id (fst (c m)) = Some x → pool_stops x.

Lemma call_world_keeps {A : Type} (f : W → outcome string A * W) :
  (∀ w x, stop_of id (fst (f w)) = Some x → pool_stops x) → keeps_close (call_world f).
Proof.
  intros Hf m. unfold call_world. specialize (Hf (world m)). destruct (f (world m)) as [a w]. by split; [|split].
Qed.

Lemma mret_keeps {A : Type} (a : A) : keeps_close (mret a).
Proof. by intros m. Qed.

Lemma bind_keeps {A B : Type} (c : MM A) (f : A → MM B) :
  keeps_close c → (∀ a, keeps_close (f a)) → keeps_close (c ≫= f).
Proof.
  intros Hc Hf m. destruct (Hc m) as (Ht & Hcl & Hx). unfold mbind, SM_bind.
  destruct (c m) as [[a|e|w] m1]; cbn in *; [|done..].
  destruct (Hf a m1) as (Ht2 & Hcl2 & Hx2). split; [congruence|split; [congruence|done]].
Qed.

Lemma get_state_keeps : keeps_close get_state.
Proof. by intros m. Qed.

Ltac keeps :=
  repeat first
    [ apply mret_keeps | apply get_state_keeps | apply call_world_keeps; eauto with warhead
    | apply bind_keeps; [|intros ?] | case_match ].

Lemma reconnect_loop_keeps todo name error : keeps_close (reconnect_loop todo name error).
Proof. revert error. induction todo as [|todo IH]; intros error; cbn [reconnect_loop]; keeps. apply IH. Qed.

(** The first part of [run_open]: the error that is left. *)
Definition open_error (cfg : ConfigState) (name dbString : string) (updatesEnabledForThis : bool) : MM Z :=
  _ ← call_world (pool_SetConnectionInfo name dbString);
  error ← call_world (pool_Open name);
  m ← get_state;
  if negb (error =? 0)%Z then
    error ← (if (error =? CR_CONNECTION_ERROR)%Z then
               reconnect_loop (Z.to_nat (fst (GetOption uint8 "Database.Reconnect.Attempts" 20 true cfg))) name error
             else mret error);
    if (error =? ER_BAD_DB_ERROR)%Z && updatesEnabledForThis && _autoSetup m then
      created ← call_world (updater_Create name);
      if negb created then mret error
      else
        again ← call_world (pool_Open name);
        mret (if (again =? 0)%Z then 0%Z else error)
    else mret error
  else mret 0%Z.

Lemma open_error_keeps cfg name dbString upd : keeps_close (open_error cfg name dbString upd).
Proof. unfold open_error. keeps. apply reconnect_loop_keeps. Qed.

Lemma run_open_split cfg name upd m :
  run_open cfg (name, upd) m =
    (let dbString := fst (GetOption_string (name +:+ "DatabaseInfo") "" true cfg) in
     if is_empty dbString then mret false
     else error ← open_error cfg name dbString upd;
          if negb (error =? 0)%Z then mret false
          else _ ← modify_state (λ m, with_close (name :: _close m) m); mret true) m.
Proof.
  unfold run_open, open_error. cbv zeta. destruct (is_empty _); [done|]. unfold mbind, SM_bind, get_state.
  destruct (call_world _ m) as [[u|e|w] m1]; [|done..].
  destruct (call_world (pool_Open name) m1) as [[u'|e|w] m2]; done.
Qed.

(** How a computation of the four phases may end: with its account, or where a
    call of a pool did not return. *)
Definition ran (m : DatabaseMgr) (p : outcome string bool * DatabaseMgr) : Prop :=
  match p with
  | (Done b, m') => ∃ tr, accounts m m' b tr
  | (r, _) => ∃ x, stop_of id r = Some x ∧ pool_stops x
  end.

(** A closure of a queue: it pushes its pool when it opened it. *)
Definition runs_entry {A : Type} (run : A → MM bool) (ev : A → bool → mgr_event) : Prop := ∀ a m,
  match run a m with
  | (Done b, m') => mgr_trace m' = mgr_trace m ∧ _close m' = reverse (opened_by [ev a b]) ++ _close m
  | (r, _) => ∃ x, stop_of id r = Some x ∧ pool_stops x
  end.

Lemma keeps_runs {A : Type} (run : A → MM bool) ev :
  (∀ a, keeps_close (run a)) → (∀ a b, opened_by [ev a b] = []) → runs_entry run ev.
Proof.
  intros Hk Hev a m. destruct (Hk a m) as (Ht & Hc & Hx).
  destruct (run a m) as [[b|e|w] m']; cbn in *; [by rewrite Hev|eauto..].
Qed.

Lemma run_open_runs cfg : runs_entry (run_open cfg) (λ e, EvOpen e.1).
Proof.
  intros [name upd] m. rewrite run_open_split. cbv zeta. destruct (is_empty _); [done|].
  destruct (open_error_keeps cfg name (fst (GetOption_string (name +:+ "DatabaseInfo") "" true cfg)) upd m)
    as (Ht & Hc & Hx). unfold mbind, SM_bind.
  destruct (open_error _ _ _ _ m) as [[e|e|w] m1]; cbn in *; [|eauto..].
  destruct (e =? 0)%Z; cbn; [|done]. by rewrite Hc.
Qed.

Lemma close_all_spec stack m :
  match close_all stack m with
  | (Done _, m') => mgr_trace m' = mgr_trace m ++ (EvClose <$> stack) ∧ _close m' = []
  | (r, _) => ∃ x, stop_of id r = Some x ∧ pool_stops x
  end.
Proof.
  revert m. induction stack as [|n stack IH]; intros m; [cbn; by rewrite app_nil_r|].
  cbn [close_all]. unfold record_event, call_world. sm_unfold. cbn.
  destruct (pool_Close n (world m)) as [[u|e|w] w'] eqn:E.
  2,3: eexists; split; [done|]; apply (Close_stops _ n (world m)); by rewrite E.
  match goal with |- context [close_all stack ?m0] => specialize (IH m0) end.
  destruct (close_all stack _) as [[[]|e|w] m']; [|done..]. destruct IH as [-> ->]. cbn. by rewrite <- app_assoc.
Qed.

Lemma closed_by_app tr1 tr2 : closed_by (tr1 ++ tr2) = closed_by tr1 ++ closed_by tr2.
Proof. apply omap_app. Qed.
Lemma opened_by_app tr1 tr2 : opened_by (tr1 ++ tr2) = opened_by tr1 ++ opened_by tr2.
Proof. apply omap_app. Qed.
Lemma closed_by_close stack : closed_by (EvClose <$> stack) = stack.
Proof. induction stack as [|n l IH]; [done|]. cbn. f_equal. exact IH. Qed.
Lemma opened_by_close stack : opened_by (EvClose <$> stack) = [].
Proof. induction stack as [|n l IH]; [done|]. exact IH. Qed.

Lemma accounts_trans m m1 m2 tr1 tr2 b :
  accounts m m1 true tr1 → accounts m1 m2 b tr2 → accounts m m2 b (tr1 ++ tr2).
Proof.
  intros (Ht1 & Hc1 & Hb1) (Ht2 & Hc2 & Hb2). unfold accounts.
  rewrite closed_by_app, opened_by_app, reverse_app, Hb1. rewrite Hb1 in Hc1. cbn in *. split; [|split].
  - by rewrite Ht2, Ht1, <- app_assoc.
  - by rewrite Hc2, Hc1, <- app_assoc.
  - exact Hb2.
Qed.

Lemma ran_after m m1 tr p : accounts m m1 true tr → ran m1 p → ran m p.
Proof.
  intros Ha. destruct p as [[b|e|w] m']; [|done..]. intros [tr' Ha']. exists (tr ++ tr'). by eapply accounts_trans.
Qed.

Lemma Process_ran {A : Type} (run : A → MM bool) set ev (queue : list A) m :
  runs_entry run ev → (∀ a b, closed_by [ev a b] = []) →
  (∀ q m, mgr_trace (set q m) = mgr_trace m ∧ _close (set q m) = _close m) →
  ran m (Process run set ev queue m).
Proof.
  intros Hrun Hev Hset. revert m. induction queue as [|a queue IH]; intros m.
  { exists []. unfold accounts. by rewrite app_nil_r. }
  cbn [Process]. specialize (Hrun a m). unfold mbind at 1, SM_bind at 1.
  destruct (run a m) as [[b|e|w] m1]; [|done..]. destruct Hrun as [Ht Hc].
  unfold record_event, CloseAllConnections. unfold mbind, SM_bind, modify_state, get_state. destruct b; cbn [negb].
  - match goal with |- context [Process _ _ _ queue (set queue ?m0)] =>
      destruct (Hset queue m0) as [Hst Hsc]; pose proof (IH (set queue m0)) as Hr end.
    cbn in Hst, Hsc. refine (ran_after m _ [ev a true] _ _ Hr). unfold accounts. rewrite Hst, Hsc, Ht, Hev. done.
  - match goal with |- context [close_all _ ?m0] => pose proof (close_all_spec (_close m0) m0) as Hcl end.
    destruct (close_all _ _) as [[[]|e|w] m']; [|done..]. cbn [_close mgr_trace] in Hcl.
    destruct Hcl as [Htr Hce]. exists ([ev a false] ++ (EvClose <$> _close m1)). unfold accounts.
    rewrite closed_by_app, opened_by_app, Hev, closed_by_close, opened_by_close, app_nil_r.
    split; [|split; [|done]].
    + by rewrite Htr, Ht, <- app_assoc.
    + by rewrite Hce, app_nil_r, Hc.
Qed.

Lemma run_prepare_keeps name : keeps_close (run_prepare name).
Proof.
  unfold run_prepare. keeps.
Qed.

(** [if (!phase()) return false; rest] *)
Lemma ran_phase m (phase rest : MM bool) :
  ran m (phase m) → (∀ m, ran m (rest m)) →
  ran m ((ok ← phase; if negb ok then mret false else rest : MM bool) m).
Proof.
  intros Hp Hr. unfold mbind, SM_bind. destruct (phase m) as [[[]|e|w] m1]; cbn [negb]; [|done..].
  destruct Hp as [tr Ha]. by eapply ran_after.
Qed.

(** The four phases. *)
Lemma Load_ran cfg m : ran m (Load cfg m).
Proof.
  unfold Load. apply ran_phase; [|intros m1; apply ran_phase; [|intros m2; apply ran_phase; [|intros m3; apply ran_phase]]].
  - apply Process_ran; [apply run_open_runs|by intros a []|done].
  - apply Process_ran; [|done|done]. apply keeps_runs; [|done]. intros a. unfold run_populate. keeps.
  - apply Process_ran; [|done|done]. apply keeps_runs; [|done]. intros a. unfold run_update. keeps.
  - apply Process_ran; [|done|done]. apply keeps_runs; [|done]. apply run_prepare_keeps.
  - intros m4. exists []. unfold accounts. by rewrite app_nil_r.
Qed.
End DatabaseMgr.

(** ** Properties *)

(** C23 [Load] returns unless a call of a pool or its updater throws or ends the
    process, and no database stays open by mistake: when it succeeds, every pool
    it opened is on the stack of pools to close and none was closed; when it
    fails, in whatever phase, every pool that was opened is closed, exactly once
    and in the reverse order of opening, and the stack is empty. *)
Theorem Load_closes_what_it_opened {W : Type} `{PoolOps W} (cfg : ConfigState) (m : @DatabaseMgr W) :
  match Load cfg m with
  | (Done b, m') => ∃ tr, mgr_trace m' = mgr_trace m ++ tr ∧
      if b then closed_by tr = [] ∧ _close m' = reverse (opened_by tr) ++ _close m
      else closed_by tr = reverse (opened_by tr) ++ _close m ∧ _close m' = []
  | (r, _) => ∃ x, stop_of id r = Some x ∧ pool_stops x
  end.
Proof.
  pose proof (Load_ran cfg m) as Hr. destruct (Load cfg m) as [[b|e|w] m']; [|done..].
  destruct Hr as (tr & Ht & Hc & Hb). exists tr. split; [done|]. destruct b.
  - split; [done|]. by rewrite <- Hc, Hb.
  - split; [|done]. by rewrite <- Hc, Hb, app_nil_r.
Qed.

(** ** A concrete machine: the second pool cannot be reached for a while *)
#[local] Instance toy_pools : PoolOps (list Z) := {
  pool_Open name w := match w with c :: w => (Done c, w) | [] => (Crash "MaxQueueSize", []) end;
  pool_Close name w := (Done (), w);
  pool_SetConnectionInfo name info w := (Done (), w);
  pool_PrepareStatements name w := (Done (negb (String.eqb name "C")), w);
  pool_Update diff name w := (Done (), w);
  updater_Create name w := (Done true, w);
  updater_Populate name w := (Done true, w);
  updater_Update name w := (Done true, w) }.

#[local] Definition toy_config : ConfigState :=
  mk_ConfigState "" (list_to_map [("ADatabaseInfo", "x"); ("BDatabaseInfo", "x"); ("CDatabaseInfo", "x");
    ("Updates.EnableDatabases", "1")]) false [].

#[local] Definition toy_load (answers : list Z) : list mgr_event :=
  mgr_trace (snd ((_ ← AddDatabase "A" 1; _ ← AddDatabase "B" 2; _ ← AddDatabase "C" 1;
    Load toy_config) (new_DatabaseMgr toy_config answers))).

Example toy_load_prepare_fails :
  toy_load [0; 2002; 2002; 0; 0]%Z =
    [EvOpen "A" true; EvOpen "B" true; EvOpen "C" true; EvPopulate "A" true; EvPopulate "C" true;
     EvUpdate "A" true; EvUpdate "C" true; EvPrepare "A" true; EvPrepare "B" true; EvPrepare "C" false;
     EvClose "C"; EvClose "B"; EvClose "A"].
Proof. vm_compute. reflexivity. Qed.

Example toy_load_open_fails :
  toy_load [0; 1045]%Z = [EvOpen "A" true; EvOpen "B" false; EvClose "A"].
Proof. vm_compute. reflexivity. Qed.

(** An assertion in [AddTasks] of the second pool: the first one stays open. *)
Example toy_load_ends :
  toy_load [0]%Z = [EvOpen "A" true] ∧
  fst ((_ ← AddDatabase "A" 1; _ ← AddDatabase "B" 2; Load toy_config) (new_DatabaseMgr toy_config [0%Z])) =
    Crash "MaxQueueSize".
Proof. vm_compute. done. Qed.
