(* ===== verification/WorkerPool.v ===== *)
(** * The pool of connections: server/database/Database/DatabaseWorkerPool.cpp

    Which thread may use which synchronous connection, and when dynamic
    connections come and go.  The pool is a state machine: each [pool_op] is
    what one thread does between two points at which another one can run.

    - A thread that finds no free connection in [GetFreeConnection] polls the
      list, holding [_cleanupMutex] and [_openSyncConnectMutex]: it is the
      [pl_poller] of the state, and operations that need [_cleanupMutex] wait.
    - [pl_holders] records which connection each thread was given (what the
      code keeps in local variables); the connections are numbered, because a
      pointer to one that was destroyed must not be used.
    - What the server answers to an attempt to connect is an argument, and so
      is the clock. *)
From S2P Require Import Prelude Convert Config.

Definition MAX_SYNC_CONNECTIONS : nat := 32.
Definition MAX_ASYNC_CONNECTIONS : nat := 32.
Definition MIN_DB_SERVER_VERSION : Z := 50700.
Definition DYNAMIC_CONNECTION_TIMEOUT : Z := 1000.

(** A [MySQLConnection] as the pool sees it; [pc_locked]: its mutex is held. *)
Record pconn := mk_pconn {
  pc_id : nat;
  pc_isDynamic : bool;
  pc_locked : bool;
  pc_lastUseTime : Z }.

(** What opening a connection meets: the error of [Open], the version of the
    server, whether its statements can be prepared, and the time. *)
Record open_answer := mk_open_answer {
  oa_error : Z; oa_version : Z; oa_prepared : bool; oa_now : Z }.

(** The operations of the queue: those of the callers, and [PingOperation]. *)
Inductive async_task := UserTask (n : nat) | PingOperation.

Record Pool := mk_Pool {
  pl_sync : list pconn;                   (* _connections[IDX_SYNCH] *)
  pl_async : list pconn;                  (* _connections[IDX_ASYNC] *)
  pl_queue : list async_task;             (* _queue *)
  pl_maxAsyncQueueSize : Z;
  pl_tasks : list Z;                      (* first runs of the scheduled tasks, in ms *)
  pl_next : nat;
  pl_holders : gmap nat nat;
  pl_poller : option (nat * Z * Z)        (* thread, i, num_cons *) }.

Definition new_Pool : Pool := mk_Pool [] [] [] 0 [] 0 ∅ None.

Definition set_sync (l : list pconn) (p : Pool) : Pool :=
  mk_Pool l (pl_async p) (pl_queue p) (pl_maxAsyncQueueSize p) (pl_tasks p) (pl_next p) (pl_holders p)
    (pl_poller p).
Definition set_async (l : list pconn) (p : Pool) : Pool :=
  mk_Pool (pl_sync p) l (pl_queue p) (pl_maxAsyncQueueSize p) (pl_tasks p) (pl_next p) (pl_holders p)
    (pl_poller p).
Definition set_queue (q : list async_task) (p : Pool) : Pool :=
  mk_Pool (pl_sync p) (pl_async p) q (pl_maxAsyncQueueSize p) (pl_tasks p) (pl_next p) (pl_holders p)
    (pl_poller p).
Definition set_tasks (max : Z) (l : list Z) (p : Pool) : Pool :=
  mk_Pool (pl_sync p) (pl_async p) (pl_queue p) max l (pl_next p) (pl_holders p) (pl_poller p).
Definition set_holders (h : gmap nat nat) (p : Pool) : Pool :=
  mk_Pool (pl_sync p) (pl_async p) (pl_queue p) (pl_maxAsyncQueueSize p) (pl_tasks p) (pl_next p) h
    (pl_poller p).
Definition set_poller (x : option (nat * Z * Z)) (p : Pool) : Pool :=
  mk_Pool (pl_sync p) (pl_async p) (pl_queue p) (pl_maxAsyncQueueSize p) (pl_tasks p) (pl_next p)
    (pl_holders p) x.
Definition bump (p : Pool) : Pool :=
  mk_Pool (pl_sync p) (pl_async p) (pl_queue p) (pl_maxAsyncQueueSize p) (pl_tasks p) (S (pl_next p))
    (pl_holders p) (pl_poller p).

(** An operation that another thread's mutex keeps waiting, or that its thread
    is in no position to take. *)
Inductive not_taken := Waits | NotEnabled.
Abbreviation res := (outcome not_taken).

Inductive InternalIndex := IDX_ASYNC | IDX_SYNCH.

(** [OpenConnection]; the constructor of a connection sets its last use. *)
Definition OpenConnection (type : InternalIndex) (isDynamic : bool) (a : open_answer) (p : Pool)
    : Z * option nat * Pool :=
  if negb (oa_error a =? 0)%Z then (oa_error a, None, p)
  else if (oa_version a <? MIN_DB_SERVER_VERSION)%Z then (1%Z, None, p)
  else
    let c := mk_pconn (pl_next p) isDynamic false (oa_now a) in
    let p' := match type with
              | IDX_ASYNC => set_async (pl_async p ++ [c]) p
              | IDX_SYNCH => set_sync (pl_sync p ++ [c]) p
              end in
    (0%Z, Some (pl_next p), bump p').

Definition AddTasks (cfg : ConfigState) (p : Pool) : res Pool :=
  let max := fst (GetOption uint32 "MaxQueueSize" 10 true cfg) in
  _ ← assert (10 <=? max)%Z "Queue size can only be greater than or equal to 10";
  Done (set_tasks max
    (pl_tasks p ++ [(fst (GetOption uint32 "MaxPingTime" 30 true cfg) * 60000)%Z; 10000; 1000]%Z) p).

Definition Open (cfg : ConfigState) (a1 a2 : open_answer) (p : Pool) : res (Z * Pool) :=
  let '(error, _, p) := OpenConnection IDX_ASYNC false a1 p in
  if negb (error =? 0)%Z then Done (error, p)
  else
    let '(error, _, p) := OpenConnection IDX_SYNCH false a2 p in
    if negb (error =? 0)%Z then Done (error, p)
    else p ← AddTasks cfg p; Done (error, p).

(** [Close]; [_scheduler->CancelAll()] drops the tasks. *)
Definition Close (p : Pool) : Pool :=
  match pl_async p, pl_sync p with
  | [], [] => p
  | _, _ => set_sync [] (set_async [] (set_tasks (pl_maxAsyncQueueSize p) [] p))
  end.

Definition OpenDynamicAsyncConnect (a : open_answer) (p : Pool) : res Pool :=
  if (MAX_ASYNC_CONNECTIONS <=? length (pl_async p))%nat then Done p
  else
    let '(error, _, p) := OpenConnection IDX_ASYNC true a p in
    if negb (error =? 0)%Z then Done p
    else
      _ ← assert (oa_prepared a) "Can't register prepare statements for dynamic async connection";
      Done p.

Definition OpenDynamicSyncConnect (a : open_answer) (p : Pool) : res Pool :=
  if (MAX_SYNC_CONNECTIONS <=? length (pl_sync p))%nat then Done p
  else
    let '(error, _, p) := OpenConnection IDX_SYNCH true a p in
    if negb (error =? 0)%Z then Done p
    else
      _ ← assert (oa_prepared a) "connection->PrepareStatements()";
      Done p.

(** [LockIfReady], [Unlock], [UpdateLastUseTime] *)
Definition lock_conn (c : pconn) : pconn := mk_pconn (pc_id c) (pc_isDynamic c) true (pc_lastUseTime c).
Definition unlock_conn (c : pconn) : pconn := mk_pconn (pc_id c) (pc_isDynamic c) false (pc_lastUseTime c).
Definition touch_conn (now : Z) (c : pconn) : pconn := mk_pconn (pc_id c) (pc_isDynamic c) (pc_locked c) now.

(** The first loop of [GetFreeConnection]: the position of the first
    connection that is ready. *)
Definition first_ready (l : list pconn) : option (nat * pconn) := list_find (λ c, pc_locked c = false) l.

(** Lock the connection at [k] and hand it to [thread]. *)
Definition give (thread k : nat) (c : pconn) (p : Pool) : Pool :=
  set_holders (<[thread := pc_id c]> (pl_holders p)) (set_sync (<[k := lock_conn c]> (pl_sync p)) p).

(** [GetFreeConnection], up to the polling. *)
Definition GetFreeConnection (thread : nat) (a : open_answer) (p : Pool) : res Pool :=
  match first_ready (pl_sync p) with
  | Some (k, c) => Done (give thread k c p)
  | None =>
      p ← OpenDynamicSyncConnect a p;
      Done (set_poller (Some (thread, 0%Z, Z.of_nat (length (pl_sync p)))) p)
  end.

(** One round of [for (;;)] in [GetFreeConnection]; [i] is a [uint8]. *)
Definition poll_round (thread : nat) (i num_cons : Z) (p : Pool) : res Pool :=
  let i := wrap_u 8 (i + 1) in
  if (num_cons =? 0)%Z then Crash "modulo by zero"
  else
    let k := Z.to_nat (i mod num_cons) in
    match pl_sync p !! k with
    | None => Crash "index out of range"
    | Some c =>
        if pc_locked c then Done (set_poller (Some (thread, i, num_cons)) p)
        else Done (set_poller None (give thread k c p))
    end.

(** [CanRemoveConnection] *)
Definition CanRemoveConnection (now : Z) (c : pconn) : bool :=
  pc_isDynamic c && (DYNAMIC_CONNECTION_TIMEOUT <=? now - pc_lastUseTime c)%Z.

Definition remove_idle (now : Z) (l : list pconn) : list pconn :=
  filter (λ c, CanRemoveConnection now c = false) l.

Definition CleanupConnections (now : Z) (p : Pool) : Pool :=
  set_async (remove_idle now (pl_async p)) (set_sync (remove_idle now (pl_sync p)) p).

(** [for (i = 0; i < queueSize; i += _maxAsyncQueueSize) OpenDynamicAsyncConnect()];
    [answers] tells what the server answers in each round. *)
Fixpoint CheckAsyncQueue_loop (fuel : nat) (answers : Z → open_answer) (i queueSize maxSize : Z) (p : Pool)
    : res Pool :=
  match fuel with
  | O => Crash "out of fuel"
  | S fuel =>
      if (i <? queueSize)%Z then
        p ← OpenDynamicAsyncConnect (answers i) p;
        CheckAsyncQueue_loop fuel answers (i + maxSize) queueSize maxSize p
      else Done p
  end.

Definition CheckAsyncQueue (answers : Z → open_answer) (p : Pool) : res Pool :=
  let queueSize := Z.of_nat (length (pl_queue p)) in
  CheckAsyncQueue_loop (S (length (pl_queue p))) answers 0 queueSize (pl_maxAsyncQueueSize p) p.

Definition Enqueue (t : async_task) (p : Pool) : Pool := set_queue (pl_queue p ++ [t]) p.

(** [KeepAlive]: the ping of the first connection leaves it as it was. *)
Definition KeepAlive (p : Pool) : res Pool :=
  match pl_sync p with
  | [] => Crash "front of an empty vector"
  | _ => Done (Enqueue PingOperation p)
  end.

Definition destroyed : string := "use of a destroyed connection".

(** The connection [thread] was given, if it is still there. *)
Definition use_connection (thread : nat) (p : Pool) : res (nat * pconn) :=
  match pl_holders p !! thread with
  | None => Throw NotEnabled
  | Some id =>
      match list_find (λ c, pc_id c = id) (pl_sync p) with
      | None => Crash destroyed
      | Some kc => Done kc
      end
  end.

(** ** What the threads do *)
Inductive pool_op :=
| OpGet (thread : nat) (a : open_answer)   (* GetFreeConnection, up to the polling *)
| OpPoll                                   (* one round of its last loop *)
| OpUse (thread : nat) (now : Z)           (* a query on the connection succeeds *)
| OpUnlock (thread : nat)                  (* connection->Unlock() *)
| OpCleanup (now : Z)
| OpEnqueue (t : async_task)
| OpWork                                   (* the worker of an asynchronous connection takes a task *)
| OpCheckQueue (answers : Z → open_answer)
| OpKeepAlive.

Definition with_cleanup_mutex (p : Pool) (f : res Pool) : res Pool :=
  match pl_poller p with Some _ => Throw Waits | None => f end.

Definition run_op (op : pool_op) (p : Pool) : res Pool :=
  match op with
  | OpGet thread a =>
      match pl_holders p !! thread with
      | Some _ => Throw NotEnabled
      | None => with_cleanup_mutex p (GetFreeConnection thread a p)
      end
  | OpPoll =>
      match pl_poller p with
      | None => Throw NotEnabled
      | Some (thread, i, num_cons) => poll_round thread i num_cons p
      end
  | OpUse thread now =>
      '(k, c) ← use_connection thread p;
      Done (set_sync (<[k := touch_conn now c]> (pl_sync p)) p)
  | OpUnlock thread =>
      '(k, c) ← use_connection thread p;
      Done (set_holders (delete thread (pl_holders p)) (set_sync (<[k := unlock_conn c]> (pl_sync p)) p))
  | OpCleanup now => with_cleanup_mutex p (Done (CleanupConnections now p))
  | OpEnqueue t => Done (Enqueue t p)
  | OpWork =>
      match pl_async p, pl_queue p with
      | _ :: _, _ :: q => Done (set_queue q p)
      | _, _ => Throw NotEnabled
      end
  | OpCheckQueue answers =>
      if (Z.of_nat (length (pl_queue p)) <? pl_maxAsyncQueueSize p)%Z then Done p
      else with_cleanup_mutex p (CheckAsyncQueue answers p)
  | OpKeepAlive => with_cleanup_mutex p (KeepAlive p)
  end.

Fixpoint run_ops (ops : list pool_op) (p : Pool) : res Pool :=
  match ops with
  | [] => Done p
  | op :: ops => p ← run_op op p; run_ops ops p
  end.

(** ** The invariant *)
Definition static_head (l : list pconn) : Prop := ∃ c l', l = c :: l' ∧ pc_isDynamic c = false.

Definition held (h : gmap nat nat) (id : nat) : Prop := ∃ t, h !! t = Some id.

Record wf (p : Pool) : Prop := {
  wf_sync_head : static_head (pl_sync p);
  wf_async_head : static_head (pl_async p);
  wf_sync_ids : NoDup (pc_id <$> pl_sync p);
  wf_ids_lt : ∀ c, c ∈ pl_sync p → pc_id c < pl_next p;
  wf_sync_max : length (pl_sync p) ≤ MAX_SYNC_CONNECTIONS;
  wf_async_max : length (pl_async p) ≤ MAX_ASYNC_CONNECTIONS;
  wf_queue_max : (10 ≤ pl_maxAsyncQueueSize p)%Z;
  wf_held_lt : ∀ t id, pl_holders p !! t = Some id → id < pl_next p;
  wf_locked : ∀ c, c ∈ pl_sync p → pc_locked c = true ↔ held (pl_holders p) (pc_id c);
  wf_exclusive : ∀ t1 t2 id, pl_holders p !! t1 = Some id → pl_holders p !! t2 = Some id → t1 = t2;
  wf_poller : ∀ t i n, pl_poller p = Some (t, i, n) →
    pl_holders p !! t = None ∧ n = Z.of_nat (length (pl_sync p)) ∧ (0 ≤ i < 256)%Z }.

(** A run may only end in one of these. *)
Definition known_crashes : list string :=
  [destroyed; "connection->PrepareStatements()";
   "Can't register prepare statements for dynamic async connection"].

Definition ok (r : res Pool) : Prop :=
  match r with Done p => wf p | Throw _ => True | Crash w => w ∈ known_crashes end.

(** ** Lemmas *)
Lemma static_head_insert l k c c' :
  static_head l → l !! k = Some c → pc_isDynamic c' = pc_isDynamic c → static_head (<[k := c']> l).
Proof.
  intros (c0 & l' & -> & H0) Hk Hd. destruct k as [|k]; cbn in *.
  - simplify_eq. exists c', l'. split; [done|]. by rewrite Hd.
  - by exists c0, (<[k := c']> l').
Qed.

Lemma static_head_app l c : static_head l → static_head (l ++ [c]).
Proof. intros (c0 & l' & -> & H0). by exists c0, (l' ++ [c]). Qed.

Lemma static_head_remove_idle now l : static_head l → static_head (remove_idle now l).
Proof.
  intros (c0 & l' & -> & H0). unfold remove_idle. rewrite filter_cons_True.
  - by exists c0, (filter (λ c, CanRemoveConnection now c = false) l').
  - unfold CanRemoveConnection. by rewrite H0.
Qed.

Lemma static_head_length l : static_head l → 0 < length l.
Proof. intros (c & l' & -> & _). cbn. lia. Qed.

Lemma ids_insert (l : list pconn) k c c' :
  l !! k = Some c → pc_id c' = pc_id c → pc_id <$> <[k := c']> l = pc_id <$> l.
Proof.
  intros Hk Hid. rewrite list_fmap_insert, Hid. apply list_insert_id. by rewrite list_lookup_fmap, Hk.
Qed.

Lemma ids_insert_ne (l : list pconn) k c c' c0 :
  NoDup (pc_id <$> l) → l !! k = Some c → pc_id c' = pc_id c → c0 ∈ <[k := c']> l →
  c0 = c' ∨ c0 ∈ l ∧ pc_id c0 ≠ pc_id c.
Proof.
  intros Hnd Hk Hid [j Hj]%list_elem_of_lookup.
  destruct (decide (j = k)) as [->|Hne].
  - rewrite list_lookup_insert_eq in Hj by (by eapply lookup_lt_Some). left. by simplify_eq.
  - rewrite list_lookup_insert_ne in Hj by done. right. split; [by eapply list_elem_of_lookup_2|].
    intros He. apply Hne. eapply (NoDup_lookup (pc_id <$> l)); [done| |];
      rewrite list_lookup_fmap; [rewrite Hj|rewrite Hk]; cbn; by rewrite ?He.
Qed.

(** A change of one connection and of who holds it. *)
Lemma wf_change p k c c' h :
  wf p → pl_sync p !! k = Some c → pc_id c' = pc_id c → pc_isDynamic c' = pc_isDynamic c →
  (pc_locked c' = true ↔ held h (pc_id c)) →
  (∀ id, id ≠ pc_id c → held h id ↔ held (pl_holders p) id) →
  (∀ t id, h !! t = Some id → pl_holders p !! t = Some id ∨ id = pc_id c) →
  (∀ t1 t2 id, h !! t1 = Some id → h !! t2 = Some id → t1 = t2) →
  (∀ t i n, pl_poller p = Some (t, i, n) → h !! t = None) →
  wf (set_holders h (set_sync (<[k := c']> (pl_sync p)) p)).
Proof.
  intros W Hk Hid Hdyn Hl Hother Hh Hex Hpoll.
  assert (pc_id c < pl_next p) as Hlt by (apply (wf_ids_lt p W); by eapply list_elem_of_lookup_2).
  split; cbn.
  - eapply static_head_insert; [apply (wf_sync_head p W)|done..].
  - apply (wf_async_head p W).
  - erewrite ids_insert; [apply (wf_sync_ids p W)|done..].
  - intros c0 H0. destruct (ids_insert_ne _ _ _ _ _ (wf_sync_ids p W) Hk Hid H0) as [->|[? _]];
      [by rewrite Hid|by apply (wf_ids_lt p W)].
  - rewrite length_insert. apply (wf_sync_max p W).
  - apply (wf_async_max p W).
  - apply (wf_queue_max p W).
  - intros t id Ht. destruct (Hh t id Ht) as [Hp| ->]; [by eapply (wf_held_lt p W)|done].
  - intros c0 H0. destruct (ids_insert_ne _ _ _ _ _ (wf_sync_ids p W) Hk Hid H0) as [->|[Hin Hne]].
    + by rewrite Hid.
    + rewrite Hother by done. by apply (wf_locked p W).
  - done.
  - intros t i n Hp. rewrite length_insert. destruct (wf_poller p W t i n Hp) as (_ & ? & ?).
    split; [by eapply Hpoll|done].
Qed.

Lemma wf_set_queue p q : wf p → wf (set_queue q p).
Proof. intros []. by split. Qed.

Lemma wf_set_poller p x :
  wf p → (∀ t i n, x = Some (t, i, n) →
    pl_holders p !! t = None ∧ n = Z.of_nat (length (pl_sync p)) ∧ (0 ≤ i < 256)%Z) →
  wf (set_poller x p).
Proof. intros [] H. by split. Qed.

(** A connection nobody uses is handed to a thread that has none. *)
Lemma wf_give p thread k c :
  wf p → pl_sync p !! k = Some c → pc_locked c = false → pl_holders p !! thread = None →
  (∀ t i n, pl_poller p = Some (t, i, n) → t ≠ thread) →
  wf (give thread k c p).
Proof.
  intros W Hk Hl Ht Hp.
  assert (¬ held (pl_holders p) (pc_id c)) as Hfree.
  { rewrite <- (wf_locked p W c) by (by eapply list_elem_of_lookup_2). by rewrite Hl. }
  apply wf_change with c; [done..| | | | |].
  - cbn. split; [|done]. intros _. exists thread. by rewrite lookup_insert_eq.
  - intros id Hne. split; intros [t Hin].
    + rewrite lookup_insert_Some in Hin. destruct Hin as [[_ <-]|[_ Hin]]; [done|by exists t].
    + exists t. rewrite lookup_insert_ne by (intros ->; congruence). done.
  - intros t id [[-> <-]|[_ Hin]]%lookup_insert_Some; [by right|by left].
  - intros t1 t2 id [[-> <-]|[? H1]]%lookup_insert_Some [[-> ?]|[? H2]]%lookup_insert_Some; simplify_eq.
    + done.
    + destruct Hfree. by exists t2.
    + destruct Hfree. by exists t1.
    + by apply (wf_exclusive p W t1 t2 id).
  - intros t i n Hpo. rewrite lookup_insert_ne by (intros ->; by eapply Hp).
    by apply (wf_poller p W t i n).
Qed.

Lemma OpenConnection_spec type dyn a p :
  let '(error, _, p') := OpenConnection type dyn a p in
  error ≠ 0%Z ∧ p' = p ∨
  error = 0%Z ∧
    let c := mk_pconn (pl_next p) dyn false (oa_now a) in
    p' = bump (match type with
               | IDX_ASYNC => set_async (pl_async p ++ [c]) p
               | IDX_SYNCH => set_sync (pl_sync p ++ [c]) p
               end).
Proof.
  unfold OpenConnection. destruct (Z.eqb_spec (oa_error a) 0) as [|]; cbn [negb]; [|by left].
  destruct (_ <? _)%Z; [by left|]. by right.
Qed.

Lemma wf_add_sync p dyn now :
  wf p → pl_poller p = None → length (pl_sync p) < MAX_SYNC_CONNECTIONS →
  wf (bump (set_sync (pl_sync p ++ [mk_pconn (pl_next p) dyn false now]) p)).
Proof.
  intros W Hpo Hlen. split; cbn.
  - apply static_head_app, W.
  - apply W.
  - rewrite fmap_app. apply NoDup_app. split; [apply W|]. split; [|apply NoDup_singleton].
    intros x (c & -> & Hc)%list_elem_of_fmap Hn. apply list_elem_of_singleton in Hn.
    apply (wf_ids_lt p W) in Hc. cbn in Hn. lia.
  - intros c [Hc| ->%list_elem_of_singleton]%elem_of_app; cbn; [|lia].
    apply (wf_ids_lt p W) in Hc. lia.
  - rewrite length_app. cbn. lia.
  - apply W.
  - apply W.
  - intros t id Ht. apply (wf_held_lt p W) in Ht. lia.
  - intros c [Hc| ->%list_elem_of_singleton]%elem_of_app; [by apply (wf_locked p W)|]. cbn.
    split; [done|]. intros [t Ht]. apply (wf_held_lt p W) in Ht. lia.
  - apply W.
  - by rewrite Hpo.
Qed.

Lemma wf_add_async p dyn now :
  wf p → length (pl_async p) < MAX_ASYNC_CONNECTIONS →
  wf (bump (set_async (pl_async p ++ [mk_pconn (pl_next p) dyn false now]) p)).
Proof.
  intros W Hlen. split; cbn; try apply W.
  - apply static_head_app, W.
  - intros c Hc. apply (wf_ids_lt p W) in Hc. lia.
  - rewrite length_app. cbn. lia.
  - intros t id Ht. apply (wf_held_lt p W) in Ht. lia.
Qed.

(** Opening dynamic connections leaves who holds what alone. *)
Definition same_users (p p' : Pool) : Prop :=
  pl_holders p' = pl_holders p ∧ pl_poller p' = pl_poller p ∧ pl_queue p' = pl_queue p ∧
  pl_maxAsyncQueueSize p' = pl_maxAsyncQueueSize p.

Lemma OpenDynamicAsyncConnect_ok a p :
  wf p → ok (OpenDynamicAsyncConnect a p) ∧
    ∀ p', OpenDynamicAsyncConnect a p = Done p' → same_users p p'.
Proof.
  intros W. unfold OpenDynamicAsyncConnect. destruct (Nat.leb_spec MAX_ASYNC_CONNECTIONS (length (pl_async p))).
  { split; [done|]. by intros p' [= <-]. }
  pose proof (OpenConnection_spec IDX_ASYNC true a p) as Hs.
  destruct (OpenConnection _ _ _ _) as [[error id] p1].
  destruct Hs as [[He ->]|[-> ->]].
  - apply Z.eqb_neq in He. rewrite He. cbn. split; [done|]. by intros p' [= <-].
  - cbn. destruct (oa_prepared a); cbn.
    + split; [by apply wf_add_async|]. by intros p' [= <-].
    + split; [|done]. by apply (bool_decide_eq_true_1 (_ ∈ _)); vm_compute.
Qed.

Lemma OpenDynamicSyncConnect_ok a p :
  wf p → pl_poller p = None → ok (OpenDynamicSyncConnect a p) ∧
    ∀ p', OpenDynamicSyncConnect a p = Done p' → same_users p p'.
Proof.
  intros W Hpo. unfold OpenDynamicSyncConnect.
  destruct (Nat.leb_spec MAX_SYNC_CONNECTIONS (length (pl_sync p))).
  { split; [done|]. by intros p' [= <-]. }
  pose proof (OpenConnection_spec IDX_SYNCH true a p) as Hs.
  destruct (OpenConnection _ _ _ _) as [[error id] p1].
  destruct Hs as [[He ->]|[-> ->]].
  - apply Z.eqb_neq in He. rewrite He. cbn. split; [done|]. by intros p' [= <-].
  - cbn. destruct (oa_prepared a); cbn.
    + split; [by apply wf_add_sync|]. by intros p' [= <-].
    + split; [|done]. by apply (bool_decide_eq_true_1 (_ ∈ _)); vm_compute.
Qed.

Lemma GetFreeConnection_ok thread a p :
  wf p → pl_poller p = None → pl_holders p !! thread = None → ok (GetFreeConnection thread a p).
Proof.
  intros W Hpo Ht. unfold GetFreeConnection, first_ready.
  destruct (list_find _ _) as [[k c]|] eqn:Hf.
  - apply list_find_Some in Hf as (Hk & Hl & _). apply wf_give; [done..|]. by rewrite Hpo.
  - destruct (OpenDynamicSyncConnect_ok a p W Hpo) as [Hok Hs].
    destruct (OpenDynamicSyncConnect a p) as [p1| |]; [|done..]. cbn.
    destruct (Hs p1 eq_refl) as (Hh & _). apply wf_set_poller; [done|].
    intros t i n [= <- <- <-]. rewrite Hh. by split_and!.
Qed.

Lemma poll_round_ok thread i n p :
  wf p → pl_poller p = Some (thread, i, n) → ok (poll_round thread i n p).
Proof.
  intros W Hpo. destruct (wf_poller p W _ _ _ Hpo) as (Ht & -> & Hi). unfold poll_round.
  pose proof (static_head_length _ (wf_sync_head p W)).
  destruct (Z.eqb_spec (Z.of_nat (length (pl_sync p))) 0); [lia|].
  set (j := wrap_u 8 (i + 1)). pose proof (wrap_u_range 8 (i + 1) ltac:(lia)).
  pose proof (Z.mod_pos_bound j (Z.of_nat (length (pl_sync p))) ltac:(lia)).
  destruct (pl_sync p !! Z.to_nat _) as [c|] eqn:Hk.
  2: { apply lookup_ge_None in Hk. lia. }
  destruct (pc_locked c) eqn:Hl.
  - apply wf_set_poller; [done|]. intros t i' n' [= <- <- <-]. split; [done|]. split; [done|]. exact H0.
  - change (set_poller None (give thread (Z.to_nat (j mod Z.of_nat (length (pl_sync p)))) c p))
      with (give thread (Z.to_nat (j mod Z.of_nat (length (pl_sync p)))) c (set_poller None p)).
    apply wf_give; [by apply wf_set_poller|done..].
Qed.

Lemma wf_CleanupConnections now p :
  wf p → pl_poller p = None → wf (CleanupConnections now p).
Proof.
  intros W Hpo. unfold CleanupConnections, remove_idle. split; cbn; try apply W.
  - by apply static_head_remove_idle, W.
  - by apply static_head_remove_idle, W.
  - eapply sublist_NoDup; [apply W|apply fmap_sublist, sublist_filter].
  - intros c [_ Hc]%list_elem_of_filter. by apply W.
  - pose proof (length_filter (λ c, CanRemoveConnection now c = false) (pl_sync p)).
    pose proof (wf_sync_max p W). lia.
  - pose proof (length_filter (λ c, CanRemoveConnection now c = false) (pl_async p)).
    pose proof (wf_async_max p W). lia.
  - intros c [_ Hc]%list_elem_of_filter. by apply W.
  - by rewrite Hpo.
Qed.

Lemma CheckAsyncQueue_loop_ok fuel answers i q m p :
  wf p → (1 ≤ m)%Z → (Z.max 0 (q - i) < Z.of_nat fuel)%Z →
  ok (CheckAsyncQueue_loop fuel answers i q m p).
Proof.
  revert i p. induction fuel as [|fuel IH]; intros i p W Hm Hf; [lia|].
  cbn [CheckAsyncQueue_loop]. destruct (Z.ltb_spec i q); [|done].
  destruct (OpenDynamicAsyncConnect_ok (answers i) p W) as [Hok _].
  destruct (OpenDynamicAsyncConnect (answers i) p) as [p1| |]; [|done..]. cbn. apply IH; [done..|lia].
Qed.

(** The connection a thread uses is one of the list, and held. *)
Lemma use_connection_spec thread p :
  match use_connection thread p with
  | Done (k, c) => pl_sync p !! k = Some c ∧ pl_holders p !! thread = Some (pc_id c)
  | Throw _ => True
  | Crash w => w = destroyed
  end.
Proof.
  unfold use_connection. destruct (pl_holders p !! thread) as [id|]; [|done].
  destruct (list_find _ _) as [[k c]|] eqn:Hf; [|done].
  by apply list_find_Some in Hf as (Hk & <- & _).
Qed.

Lemma wf_touch p k c now :
  wf p → pl_sync p !! k = Some c → wf (set_sync (<[k := touch_conn now c]> (pl_sync p)) p).
Proof.
  intros W Hk.
  change (set_sync (<[k := touch_conn now c]> (pl_sync p)) p)
    with (set_holders (pl_holders p) (set_sync (<[k := touch_conn now c]> (pl_sync p)) p)).
  apply wf_change with c; [done..| | | | |].
  - exact (wf_locked p W c (list_elem_of_lookup_2 _ _ _ Hk)).
  - done.
  - by left.
  - apply W.
  - intros t i n Hp. by apply (wf_poller p W t i n).
Qed.

Lemma wf_unlock p k c thread :
  wf p → pl_sync p !! k = Some c → pl_holders p !! thread = Some (pc_id c) →
  wf (set_holders (delete thread (pl_holders p)) (set_sync (<[k := unlock_conn c]> (pl_sync p)) p)).
Proof.
  intros W Hk Ht. apply wf_change with c; [done..| | | | |].
  - cbn. split; [done|]. intros [t [Hne Hin]%lookup_delete_Some].
    destruct Hne. by eapply (wf_exclusive p W).
  - intros id Hne. split; intros [t Hin].
    + apply lookup_delete_Some in Hin as [_ Hin]. by exists t.
    + exists t. rewrite lookup_delete_ne by (intros ->; congruence). done.
  - intros t id [_ Hin]%lookup_delete_Some. by left.
  - intros t1 t2 id [_ H1]%lookup_delete_Some [_ H2]%lookup_delete_Some. by eapply (wf_exclusive p W).
  - intros t i n Hp. apply lookup_delete_None. right. by apply (wf_poller p W t i n).
Qed.

Lemma run_op_ok op p : wf p → ok (run_op op p).
Proof.
  intros W. destruct op; cbn [run_op].
  - destruct (pl_holders p !! thread) eqn:Ht; [done|]. unfold with_cleanup_mutex.
    destruct (pl_poller p) eqn:Hpo; [done|]. by apply GetFreeConnection_ok.
  - destruct (pl_poller p) as [[[t i] n]|] eqn:Hpo; [|done]. by apply poll_round_ok.
  - pose proof (use_connection_spec thread p) as Hu.
    destruct (use_connection thread p) as [[k c]| |w]; cbn; [|done|subst w; by left].
    apply wf_touch; [done|apply Hu].
  - pose proof (use_connection_spec thread p) as Hu.
    destruct (use_connection thread p) as [[k c]| |w]; cbn; [|done|subst w; by left].
    apply wf_unlock; [done|apply Hu..].
  - unfold with_cleanup_mutex. destruct (pl_poller p) eqn:Hpo; [done|]. by apply wf_CleanupConnections.
  - cbn. by apply wf_set_queue.
  - destruct (pl_async p), (pl_queue p); try done. by apply wf_set_queue.
  - destruct (_ <? _)%Z; [done|]. unfold with_cleanup_mutex. destruct (pl_poller p); [done|].
    apply CheckAsyncQueue_loop_ok; [done| |lia]. pose proof (wf_queue_max p W). lia.
  - unfold with_cleanup_mutex. destruct (pl_poller p); [done|]. unfold KeepAlive.
    destruct (wf_sync_head p W) as (c & l & -> & _). by apply wf_set_queue.
Qed.

Lemma run_ops_ok ops p : wf p → ok (run_ops ops p).
Proof.
  revert p. induction ops as [|op ops IH]; intros p W; [done|]. cbn [run_ops].
  pose proof (run_op_ok op p W). destruct (run_op op p) as [p1| |]; [by apply IH|done..].
Qed.

Lemma Open_wf cfg a1 a2 p : Open cfg a1 a2 new_Pool = Done (0%Z, p) → wf p ∧ pl_holders p = ∅.
Proof.
  unfold Open. pose proof (OpenConnection_spec IDX_ASYNC false a1 new_Pool) as H1.
  destruct (OpenConnection IDX_ASYNC false a1 new_Pool) as [[e1 id1] p1].
  destruct H1 as [[He ->]|[-> H1]].
  { apply Z.eqb_neq in He. rewrite He. cbn. intros [= ->]. done. }
  cbn [Z.eqb negb]. pose proof (OpenConnection_spec IDX_SYNCH false a2 p1) as H2.
  destruct (OpenConnection IDX_SYNCH false a2 p1) as [[e2 id2] p2].
  destruct H2 as [[He ->]|[-> H2]].
  { apply Z.eqb_neq in He. rewrite He. cbn. intros [= -> ->]. done. }
  cbn [Z.eqb negb]. unfold AddTasks. destruct (Z.leb_spec 10 (fst (GetOption uint32 "MaxQueueSize" 10 true cfg)));
    [|done].
  cbv zeta in H1, H2. cbn. intros [= <-]. subst p2 p1. cbn. split; [|done]. split; cbn; try done.
  - by eexists _, [].
  - by eexists _, [].
  - apply NoDup_singleton.
  - intros c ->%list_elem_of_singleton. cbn. lia.
  - unfold MAX_SYNC_CONNECTIONS. lia.
  - unfold MAX_ASYNC_CONNECTIONS. lia.
  - intros c ->%list_elem_of_singleton. cbn. split; [done|]. by intros [t Ht].
Qed.

(** Rounds of the polling with nothing in between, until it ends. *)
Fixpoint poll_rounds (rounds : nat) (p : Pool) : res Pool :=
  match rounds, pl_poller p with
  | O, _ | _, None => Done p
  | S rounds, Some _ => p ← run_op OpPoll p; poll_rounds rounds p
  end.

Lemma poll_rounds_more m m' p p' :
  m ≤ m' → poll_rounds m p = Done p' → pl_poller p' = None → poll_rounds m' p = Done p'.
Proof.
  revert m' p. induction m as [|m IH]; intros m' p Hm Hp Hn; cbn in Hp.
  - simplify_eq. destruct m'; cbn; by rewrite ?Hn.
  - destruct m' as [|m']; [lia|]. cbn. destruct (pl_poller p) as [[[t i] n]|]; [|done].
    destruct (poll_round t i n p) as [p1| |]; cbn in *; [|done..]. apply IH; [lia|done..].
Qed.

(** What the polling is after, in a state that has a free connection. *)
Definition got_free (t : nat) (p p' : Pool) : Prop :=
  pl_poller p' = None ∧ wf p' ∧
  ∃ c, c ∈ pl_sync p ∧ pc_locked c = false ∧ pl_holders p' !! t = Some (pc_id c).

Lemma poll_reaches m p t i n k c :
  wf p → pl_poller p = Some (t, i, n) → pl_sync p !! k = Some c → pc_locked c = false →
  ((Z.of_nat k - (i + 1)) mod 256 = Z.of_nat m)%Z →
  ∃ p', poll_rounds (S m) p = Done p' ∧ got_free t p p'.
Proof.
  revert p i. induction m as [|m IH]; intros p i W Hpo Hk Hl Hm.
  all: pose proof (poll_round_ok t i n p W Hpo) as Hok; destruct (wf_poller p W _ _ _ Hpo) as (Ht & Hn & Hi).
  all: pose proof (wf_sync_max p W) as Hmax; unfold MAX_SYNC_CONNECTIONS in Hmax.
  all: pose proof (lookup_lt_Some _ _ _ Hk) as Hlt.
  all: cbn [poll_rounds]; rewrite Hpo; cbn [run_op]; rewrite Hpo; unfold poll_round in *.
  all: destruct (Z.eqb_spec n 0); [lia|]; set (j := wrap_u 8 (i + 1)) in *.
  all: assert (j = ((i + 1) mod 256)%Z) as Hj by done.
  all: destruct (pl_sync p !! Z.to_nat (j mod n)) as [c1|] eqn:Hk1; [|apply lookup_ge_None in Hk1; pose proof (Z.mod_pos_bound j n ltac:(lia)); lia].
  all: destruct (pc_locked c1) eqn:Hl1; cbn [mbind outcome_bind];
    [|eexists; split; [reflexivity|]; split; [done|]; split; [exact Hok|];
      exists c1; split; [by eapply list_elem_of_lookup_2|]; split; [done|]; cbn; by rewrite lookup_insert_eq].
  - assert (j = Z.of_nat k) as Hjk.
    { rewrite Hj. pose proof (Z.mod_pos_bound (i + 1) 256 ltac:(lia)).
      apply Z.mod_divide in Hm as [q Hq]; [|lia].
      pose proof (Z.div_mod (i + 1) 256 ltac:(lia)). lia. }
    rewrite Hjk, Z.mod_small, Nat2Z.id in Hk1 by lia. congruence.
  - destruct (IH (set_poller (Some (t, j, n)) p) j) as (p' & Hp' & Hg); [done..| |].
    { rewrite Hj. pose proof (Z.div_mod (i + 1) 256 ltac:(lia)) as H1.
      pose proof (Z.div_mod (Z.of_nat k - (i + 1)) 256 ltac:(lia)) as H2. rewrite Hm in H2.
      symmetry. apply Z.mod_unique with ((Z.of_nat k - (i + 1)) / 256 + (i + 1) / 256)%Z; [|lia].
      left. pose proof (Z.mod_pos_bound (Z.of_nat k - (i + 1)) 256 ltac:(lia)). lia. }
    exists p'. by split.
Qed.

Lemma poll_keeps_waiting m p t i n :
  wf p → pl_poller p = Some (t, i, n) → (∀ c, c ∈ pl_sync p → pc_locked c = true) →
  ∃ j, poll_rounds m p = Done (set_poller (Some (t, j, n)) p).
Proof.
  revert p i. induction m as [|m IH]; intros p i W Hpo Hall.
  { exists i. cbn. rewrite <- Hpo. by destruct p. }
  pose proof (poll_round_ok t i n p W Hpo) as Hok. destruct (wf_poller p W _ _ _ Hpo) as (Ht & Hn & Hi).
  cbn [poll_rounds]. rewrite Hpo. cbn [run_op]. rewrite Hpo. unfold poll_round in *.
  pose proof (static_head_length _ (wf_sync_head p W)).
  destruct (Z.eqb_spec n 0); [lia|]. set (j := wrap_u 8 (i + 1)) in *.
  destruct (pl_sync p !! Z.to_nat (j mod n)) as [c1|] eqn:Hk1.
  2: { apply lookup_ge_None in Hk1. pose proof (Z.mod_pos_bound j n ltac:(lia)). lia. }
  rewrite (Hall c1) in * by (by eapply list_elem_of_lookup_2). cbn [mbind outcome_bind].
  destruct (IH (set_poller (Some (t, j, n)) p) j Hok eq_refl Hall) as [j' Hj']. by exists j'.
Qed.

(** ** Properties *)

(** C10 Once a pool is open, whatever its threads do and in whatever order, no
    connection is given to two threads at a time, exactly the connections that
    were given and still exist are locked, there is always a first connection
    that is not dynamic, and neither list grows past 32; the run never divides
    by zero, indexes out of range, or reads the front of an empty list.  The
    only ways out are the two assertions on prepared statements and the use of
    a connection [CleanupConnections] destroyed under its user. *)
Theorem connections_are_exclusive cfg a1 a2 p0 ops :
  Open cfg a1 a2 new_Pool = Done (0%Z, p0) →
  match run_ops ops p0 with
  | Done p =>
      wf p ∧ ∀ t1 t2 id, pl_holders p !! t1 = Some id → pl_holders p !! t2 = Some id → t1 = t2
  | Throw _ => True
  | Crash why => why ∈ known_crashes
  end.
Proof.
  intros [W _]%Open_wf. pose proof (run_ops_ok ops p0 W) as Hok.
  destruct (run_ops ops p0) as [p| |]; [|done..]. split; [done|]. apply Hok.
Qed.

(** C36 The endless loop of [GetFreeConnection] ends within 256 rounds as soon
    as a connection is free: the [uint8] it counts with visits every position
    of the list, and the thread is given a connection that was free.  While
    none is free it waits, and changes nothing. *)
Theorem GetFreeConnection_finds_free p t i n :
  wf p → pl_poller p = Some (t, i, n) →
  ((∃ c, c ∈ pl_sync p ∧ pc_locked c = false) → ∃ p', poll_rounds 256 p = Done p' ∧ got_free t p p') ∧
  ((∀ c, c ∈ pl_sync p → pc_locked c = true) →
    ∀ m, ∃ j, poll_rounds m p = Done (set_poller (Some (t, j, n)) p)).
Proof.
  intros W Hpo. split; [|intros; by eapply poll_keeps_waiting].
  intros (c & [k Hk]%list_elem_of_lookup & Hl).
  pose proof (Z.mod_pos_bound (Z.of_nat k - (i + 1)) 256 ltac:(lia)) as Hb.
  destruct (poll_reaches (Z.to_nat ((Z.of_nat k - (i + 1)) mod 256)) p t i n k c W Hpo Hk Hl)
    as (p' & Hp' & Hg); [lia|].
  exists p'. split; [|done]. eapply poll_rounds_more; [|done|apply Hg]. lia.
Qed.

(** ** Concrete runs *)
#[local] Definition fine (now : Z) : open_answer := mk_open_answer 0 80000 true now.
#[local] Definition refused : open_answer := mk_open_answer 2002 0 false 0.
#[local] Definition toy_cfg : ConfigState := mk_ConfigState "" ∅ false [].
#[local] Definition opened : Pool :=
  match Open toy_cfg (fine 0) (fine 0) new_Pool with Done (_, p) => p | _ => new_Pool end.
#[local] Definition run_from_open (ops : list pool_op) : option Pool :=
  match run_ops ops opened with Done p => Some p | _ => None end.

(** Two threads, a second connection; the query of the second thread takes a
    second, and its connection is destroyed under it. *)
Example cleanup_destroys_connection_in_use :
  run_ops [OpGet 1 (fine 0); OpGet 2 (fine 100); OpPoll; OpCleanup 1100; OpUse 2 1200] opened
    = Crash destroyed.
Proof. vm_compute. reflexivity. Qed.

Example after_close_polling_divides_by_zero :
  (p ← run_op (OpGet 1 refused) (Close opened); run_op OpPoll p) = Crash "modulo by zero".
Proof. vm_compute. reflexivity. Qed.

Example connections_are_exclusive_witness :
  Open toy_cfg (fine 0) (fine 0) new_Pool = Done (0%Z, opened) ∧
  match run_ops [OpGet 1 (fine 0); OpGet 2 (fine 100); OpPoll] opened with
  | Done p =>
      wf p ∧ ∀ t1 t2 id, pl_holders p !! t1 = Some id → pl_holders p !! t2 = Some id → t1 = t2
  | Throw _ => True
  | Crash why => why ∈ known_crashes
  end.
Proof.
  split; [vm_compute; reflexivity|].
  apply (connections_are_exclusive toy_cfg (fine 0) (fine 0) opened). vm_compute. reflexivity.
Defined.

(** Thread 2 polls the only connection, which thread 1 gives back. *)
#[local] Definition polling : Pool :=
  default new_Pool (run_from_open [OpGet 1 (fine 0); OpGet 2 refused; OpPoll; OpUnlock 1]).

Lemma polling_wf : wf polling.
Proof.
  pose proof (run_ops_ok [OpGet 1 (fine 0); OpGet 2 refused; OpPoll; OpUnlock 1] opened) as H.
  assert (run_ops [OpGet 1 (fine 0); OpGet 2 refused; OpPoll; OpUnlock 1] opened = Done polling) as E
    by (vm_compute; reflexivity).
  rewrite E in H. apply H.
  apply (Open_wf toy_cfg (fine 0) (fine 0)). vm_compute. reflexivity.
Qed.

Example GetFreeConnection_finds_free_witness :
  pl_poller polling = Some (2, 1%Z, 1%Z) ∧ (pc_locked <$> pl_sync polling) = [false] ∧
  ((∃ c, c ∈ pl_sync polling ∧ pc_locked c = false) →
    ∃ p', poll_rounds 256 polling = Done p' ∧ got_free 2 polling p') ∧
  ((∀ c, c ∈ pl_sync polling → pc_locked c = true) →
    ∀ m, ∃ j, poll_rounds m polling = Done (set_poller (Some (2, j, 1%Z)) polling)).
Proof.
  split; [vm_compute; reflexivity|]. split; [vm_compute; reflexivity|].
  apply (GetFreeConnection_finds_free polling 2 1 1); [exact polling_wf|vm_compute; reflexivity].
Defined.
