(* ===== verification/Field.v ===== *)
(** * A field of a query result: server/database/Database/Field.cpp, Field.h

    A field points into memory of the client library: [fd_value] is what can be
    read from that pointer on, [fd_length] what the server said the length is.
    Numbers of text rows are parsed, numbers of prepared rows are read with a
    [reinterpret_cast], which needs as many bytes as the type has.  What the
    code does with [float] and [double] goes through [float_ops], the
    operations of the language on them.  The checks under
    WARHEAD_STRICT_DATABASE_TYPE_CHECKS, which no build file defines, and the
    log messages are left out. *)
From S2P Require Import Prelude CppString Convert Prepared.

Inductive DatabaseFieldTypes :=
| FT_Null | FT_Int8 | FT_Int16 | FT_Int32 | FT_Int64 | FT_Float | FT_Double | FT_Decimal | FT_Date
| FT_Binary.

#[export] Instance DatabaseFieldTypes_eq_dec : EqDecision DatabaseFieldTypes.
Proof. solve_decision. Defined.

Record QueryResultFieldMetadata := mk_FieldMetadata {
  TableName : string;
  TableAlias : string;
  Name : string;
  Alias : string;
  TypeName : string;
  Index : Z;
  Type_ : DatabaseFieldTypes }.

Record Field := mk_Field {
  fd_value : option string;     (* null, or the bytes from the pointer on *)
  fd_length : Z;
  fd_raw : bool;
  fd_meta : option QueryResultFieldMetadata }.

Definition Field_new : Field := mk_Field None 0 false None.
Definition SetByteValue (newValue : option string) (len : Z) (f : Field) : Field :=
  mk_Field newValue len true (fd_meta f).
Definition SetStructuredValue (newValue : option string) (len : Z) (f : Field) : Field :=
  mk_Field newValue len false (fd_meta f).
Definition SetMetadata (m : QueryResultFieldMetadata) (f : Field) : Field :=
  mk_Field (fd_value f) (fd_length f) (fd_raw f) (Some m).
Definition IsNull (f : Field) : bool := match fd_value f with None => true | Some _ => false end.

(** ** Reading memory *)

(** The text up to the terminating zero. *)
Fixpoint c_str (s : string) : string :=
  match s with
  | EmptyString => EmptyString
  | String c s => if Ascii.eqb c (ch 0) then EmptyString else String c (c_str s)
  end.

(** [*reinterpret_cast<T const*>(p)] of an unsigned integer of [n] bytes. *)
Fixpoint read_le (n : nat) (s : string) : option Z :=
  match n, s with
  | O, _ => Some 0%Z
  | S n, String c s => v ← read_le n s; Some (Z.of_nat (nat_of_ascii c) + 256 * v)%Z
  | S _, EmptyString => None
  end.

(** The value of the integer type with these bits. *)
Definition of_bits (t : int_type) (v : Z) : Z :=
  if it_signed t then wrap_s (it_width t) v else wrap_u (it_width t) v.

(** ** The types of [Get] *)
Inductive num_type := TBool | TInt (t : int_type) | TFloat | TDouble.

Inductive field_error := OutOfFuel.
Abbreviation fres := (outcome field_error).

Section Field.
(** The values of [double]; a [float] is one of them. *)
Variable D : Type.
Record float_ops := mk_float_ops {
  fo_one : D;                             (* 1.0f *)
  fo_float_of_bits : Z → D;
  fo_double_of_bits : Z → D;
  fo_stof : string → option D;            (* StringTo<float> *)
  fo_stod : string → option D;            (* StringTo<double> *)
  fo_of_int : Z → D;                      (* from an unsigned 64-bit integer *)
  fo_to_int : int_type → D → Z;
  fo_to_bool : D → bool;
  fo_to_float : D → D }.
Variable ops : float_ops.

Inductive num_val := NBool (b : bool) | NInt (v : Z) | NReal (d : D).

Definition GetDefaultValue (T : num_type) : num_val :=
  match T with
  | TBool => NBool false
  | TInt _ => NInt 0
  | TFloat | TDouble => NReal (fo_one ops)
  end.

Definition IsCorrectFieldType (T : num_type) (type : DatabaseFieldTypes) : bool :=
  match T with
  | TBool => bool_decide (type = FT_Int8)
  | TInt t =>
      if (it_width t =? 8)%Z then bool_decide (type = FT_Int8)
      else if (it_width t =? 16)%Z then bool_decide (type = FT_Int16)
      else if (it_width t =? 32)%Z then bool_decide (type = FT_Int32)
      else bool_decide (type = FT_Int64)
  | TFloat => bool_decide (type = FT_Float)
  | TDouble => bool_decide (type = FT_Double ∨ type = FT_Decimal)
  end.

(** The alias up to an opening parenthesis. *)
Definition GetCleanAliasName (alias : string) : option string :=
  if is_empty alias then None
  else pos ← find_from "("%char alias 0; Some (String.substring 0 pos alias).

Definition is_uint64 (T : num_type) : bool :=
  match T with TInt t => (it_width t =? 64)%Z && negb (it_signed t) | _ => false end.

Definition IsCorrectAlias (T : num_type) (type : DatabaseFieldTypes) (alias : string) : bool :=
  match T with
  | TDouble =>
      (StringEqualI alias "sum" || StringEqualI alias "avg") && bool_decide (type = FT_Decimal)
  | _ =>
      if is_uint64 T then StringEqualI alias "count" && bool_decide (type = FT_Int64)
      else (StringEqualI alias "min" || StringEqualI alias "max") && IsCorrectFieldType T type
  end.

(** [*reinterpret_cast<T const*>(data.value)] *)
Definition read_raw (T : num_type) (p : string) : fres num_val :=
  let rd (n : nat) : fres Z :=
    match read_le n p with Some v => Done v | None => Crash "read past the value" end in
  match T with
  | TBool =>
      v ← rd 1;
      if (v =? 0)%Z then Done (NBool false)
      else if (v =? 1)%Z then Done (NBool true) else Crash "a bool that is neither 0 nor 1"
  | TInt t => v ← rd (int_bytes t); Done (NInt (of_bits t v))
  | TFloat => v ← rd 4; Done (NReal (fo_float_of_bits ops v))
  | TDouble => v ← rd 8; Done (NReal (fo_double_of_bits ops v))
  end.

(** [Warhead::StringTo<T>(data.value)] *)
Definition parse (T : num_type) (p : string) : option num_val :=
  let s := c_str p in
  match T with
  | TBool => NBool <$> FromString_bool s false
  | TInt t => NInt <$> StringTo t s
  | TFloat => NReal <$> fo_stof ops s
  | TDouble => NReal <$> fo_stod ops s
  end.

(** Numbers that are no value of the unsigned type are tried as signed ones. *)
Definition parse_signed (T : num_type) (p : string) : option num_val :=
  match T with
  | TInt t =>
      if it_signed t then None
      else (λ v, NInt (wrap_u (it_width t) v)) <$> StringTo (mk_int_type true (it_width t)) (c_str p)
  | _ => None
  end.

(** The conversion of [return GetData<double>();] and [return GetData<uint64>();]. *)
Definition convert (T : num_type) (v : num_val) : num_val :=
  match T, v with
  | TBool, NInt z => NBool (negb (z =? 0)%Z)
  | TBool, NReal d => NBool (fo_to_bool ops d)
  | TInt t, NInt z => NInt (of_bits t z)
  | TInt t, NReal d => NInt (fo_to_int ops t d)
  | TFloat, NInt z => NReal (fo_to_float ops (fo_of_int ops z))
  | TFloat, NReal d => NReal (fo_to_float ops d)
  | TDouble, NInt z => NReal (fo_of_int ops z)
  | _, v => v
  end.

(** The value before the alias is looked at. *)
Definition read_value (T : num_type) (f : Field) (p : string) (m : QueryResultFieldMetadata)
    : fres (option num_val) :=
  result ← (if fd_raw f then v ← read_raw T p; Done (Some v) else Done (parse T p));
  let result := match result with None => parse_signed T p | r => r end in
  match T with
  | TDouble =>
      if fd_raw f && negb (bool_decide (Type_ m = FT_Decimal)) then v ← read_raw TDouble p; Done (Some v)
      else Done (NReal <$> fo_stof ops (c_str p))
  | _ => Done result
  end.

(** [GetData<T>]; [fuel] bounds the depth of the recursion. *)
Fixpoint GetData (fuel : nat) (T : num_type) (f : Field) : fres num_val :=
  match fuel with
  | O => Throw OutOfFuel
  | S fuel =>
      match fd_value f, fd_meta f with
      | None, _ => Done (GetDefaultValue T)
      | Some _, None => Crash "meta is null"
      | Some p, Some m =>
          result ← read_value T f p m;
          let final := Done (default (GetDefaultValue T) result) in
          match GetCleanAliasName (Alias m) with
          | None => final
          | Some alias =>
              if (StringEqualI alias "sum" || StringEqualI alias "avg")
                 && negb (IsCorrectAlias T (Type_ m) alias) then
                v ← GetData fuel TDouble f; Done (convert T v)
              else if StringEqualI alias "count" && negb (IsCorrectAlias T (Type_ m) alias) then
                v ← GetData fuel (TInt uint64) f; Done (convert T v)
              else final
          end
      end
  end.

(** [{ data.value, data.length }], and the copies. *)
Definition read_bytes (f : Field) (p : string) : fres string :=
  if (Z.of_nat (String.length p) <? fd_length f)%Z then Crash "read past the value"
  else Done (String.substring 0 (Z.to_nat (fd_length f)) p).

Definition GetDataString (f : Field) : fres string :=
  match fd_value f with None => Done EmptyString | Some p => read_bytes f p end.

Definition GetDataStringView (f : Field) : fres string :=
  match fd_value f with None => Done EmptyString | Some p => read_bytes f p end.

Definition GetDataBinary (f : Field) : fres string :=
  match fd_value f with
  | None => Done EmptyString
  | Some p => if (fd_length f =? 0)%Z then Done EmptyString else read_bytes f p
  end.

(** [Get<Binary, S>] *)
Definition GetBinarySizeChecked (size : Z) (f : Field) : fres string :=
  match fd_value f with
  | None => Crash "Expected a binary blob, got no data"
  | Some p => _ ← assert (fd_length f =? size)%Z "Expected a binary blob of another size"; read_bytes f p
  end.
End Field.

Arguments NBool {D} b.
Arguments NInt {D} v.
Arguments NReal {D} d.
Arguments float_ops D : clear implicits.
Arguments GetDefaultValue {D} ops T.
Arguments read_raw {D} ops T p.
Arguments parse {D} ops T p.
Arguments parse_signed {D} T p.
Arguments convert {D} ops T v.
Arguments read_value {D} ops T f p m.
Arguments GetData {D} ops fuel T f.

(** [Get<std::chrono::…>]: the count of a duration. *)
Definition Get_duration {D : Type} (ops : float_ops D) (fuel : nat) (convertToUin32 : bool) (f : Field)
    : fres (num_val D) :=
  if convertToUin32 then GetData ops fuel (TInt uint32) f else GetData ops fuel (TInt uint64) f.

(** ** Lemmas *)

(** The bytes of an integer in memory. *)
Fixpoint memory (l : list Z) : string :=
  match l with [] => EmptyString | b :: l => String (ch (Z.to_nat b)) (memory l) end.

Lemma read_le_memory l rest :
  Forall (λ b, (0 ≤ b < 256)%Z) l → read_le (List.length l) (memory l +:+ rest) = Some (le_value l).
Proof.
  induction 1 as [|b l Hb Hl IH]; [done|]. cbn [List.length memory].
  cbn [String.append read_le]. rewrite IH. cbn [mbind option_bind le_value]. unfold ch.
  rewrite Ascii.nat_ascii_embedding by lia. f_equal. lia.
Qed.

Lemma le_bytes_range n v : Forall (λ b, (0 ≤ b < 256)%Z) (le_bytes n v).
Proof.
  revert v. induction n as [|n IH]; intros v; cbn; constructor; [|apply IH].
  apply Z.mod_pos_bound. lia.
Qed.

Definition c_width (t : int_type) : Prop := it_width t ∈ [8; 16; 32; 64]%Z.

Lemma c_width_pos t : c_width t → (0 < it_width t ≤ 64)%Z.
Proof. unfold c_width. rewrite !elem_of_cons, elem_of_nil. lia. Qed.

Lemma of_bits_in_range t v : c_width t → in_range t v = true → of_bits t v = v.
Proof.
  intros Hw%c_width_pos Hr. unfold of_bits, in_range, it_min, it_max in *.
  destruct (it_signed t); [apply wrap_s_small|apply wrap_u_small]; lia.
Qed.

Lemma read_raw_int {D : Type} (ops : float_ops D) t v rest :
  c_width t → in_range t v = true →
  read_raw ops (TInt t) (memory (le_bytes (int_bytes t) v) +:+ rest) = Done (NInt v).
Proof.
  intros Hw Hr. unfold read_raw.
  pose proof (read_le_memory (le_bytes (int_bytes t) v) rest (le_bytes_range _ _)) as Hm.
  rewrite le_bytes_length in Hm. rewrite Hm. cbn [mbind outcome_bind].
  pose proof (read_int_bytes t v Hr Hw) as Hi. unfold read_int in Hi. rewrite le_bytes_length in Hi.
  assert (8 * Z.of_nat (int_bytes t) = it_width t)%Z as Hb.
  { unfold int_bytes, c_width in *. rewrite !elem_of_cons, elem_of_nil in Hw.
    destruct Hw as [->|[->|[->|[->|[]]]]]; done. }
  rewrite Hb in Hi. do 2 f_equal. unfold of_bits. unfold in_range, it_min, it_max in Hr.
  destruct (it_signed t); cbn [negb] in Hi; [exact Hi|]. rewrite Hi. apply wrap_u_small. lia.
Qed.

Lemma c_str_app s c rest :
  no_char (ch 0) s = true → c = ch 0 → c_str (s +:+ String c rest) = s.
Proof.
  intros Hs ->. induction s as [|a s IH]; [done|]. cbn [no_char String.append c_str] in *.
  apply andb_true_iff in Hs as [Ha Hs]. apply negb_true_iff in Ha. by rewrite Ha, IH.
Qed.

Lemma StringEqualI_lower a b : StringEqualI a b = String.eqb (lower a) (lower b).
Proof.
  revert b. induction a as [|c a IH]; intros [|d b]; try done. cbn [StringEqualI lower String.eqb].
  rewrite IH. by destruct (Ascii.eqb (tolower c) (tolower d)).
Qed.

Lemma StringEqualI_exclusive a x y :
  StringEqualI a x = true → String.eqb (lower x) (lower y) = false → StringEqualI a y = false.
Proof. rewrite !StringEqualI_lower. intros ->%String.eqb_eq. done. Qed.

(** ** What an aggregate in the alias does to [GetData] *)

(** The aliases whose type is not the one the code expects. *)
Definition alias_mismatch (m : QueryResultFieldMetadata) : bool :=
  match GetCleanAliasName (Alias m) with
  | None => false
  | Some alias =>
      if StringEqualI alias "sum" || StringEqualI alias "avg" then negb (bool_decide (Type_ m = FT_Decimal))
      else StringEqualI alias "count" && negb (bool_decide (Type_ m = FT_Int64))
  end.

Section Aliases.
Context {D : Type} (ops : float_ops D).

Lemma read_raw_no_throw T p e : read_raw ops T p ≠ Throw e.
Proof.
  unfold read_raw. destruct T as [|t| |].
  - destruct (read_le 1 p) as [v|]; cbn; [|done]. repeat (destruct (v =? _)%Z; [done|]). done.
  - by destruct (read_le (int_bytes t) p).
  - by destruct (read_le 4 p).
  - by destruct (read_le 8 p).
Qed.

Lemma read_value_no_fuel T f p m : read_value ops T f p m ≠ Throw OutOfFuel.
Proof.
  unfold read_value. pose proof (read_raw_no_throw T p OutOfFuel) as H1.
  pose proof (read_raw_no_throw TDouble p OutOfFuel) as H2.
  destruct (fd_raw f); cbn [mbind outcome_bind andb].
  - destruct (read_raw ops T p) as [v| |]; cbn [mbind outcome_bind]; [|congruence|done].
    destruct T; try done. destruct (negb _); [|done]. destruct (read_raw ops TDouble p); cbn; congruence.
  - by destruct T.
Qed.

(** The aggregates a value of type [T] may have, one level down. *)
Lemma IsCorrectAlias_sum T type alias :
  StringEqualI alias "sum" || StringEqualI alias "avg" = true →
  IsCorrectAlias T type alias = match T with TDouble => bool_decide (type = FT_Decimal) | _ => false end.
Proof.
  intros Ha. assert (StringEqualI alias "count" = false ∧ StringEqualI alias "min" = false ∧
    StringEqualI alias "max" = false) as (Hc & Hmin & Hmax).
  { apply orb_true_iff in Ha as [Ha|Ha]; repeat split; by apply (StringEqualI_exclusive _ _ _ Ha). }
  destruct T; cbn [IsCorrectAlias]; rewrite ?Ha, ?Hc, ?Hmin, ?Hmax; try done. by destruct (is_uint64 _).
Qed.

Lemma IsCorrectAlias_count T type alias :
  StringEqualI alias "count" = true →
  IsCorrectAlias T type alias = is_uint64 T && bool_decide (type = FT_Int64).
Proof.
  intros Ha. assert (StringEqualI alias "sum" = false ∧ StringEqualI alias "avg" = false ∧
    StringEqualI alias "min" = false ∧ StringEqualI alias "max" = false) as (Hs & Hv & Hmin & Hmax).
  { repeat split; by apply (StringEqualI_exclusive _ _ _ Ha). }
  destruct T; cbn [IsCorrectAlias]; rewrite ?Ha, ?Hs, ?Hv, ?Hmin, ?Hmax; done.
Qed.

Lemma GetData_two_levels T f m :
  fd_meta f = Some m → alias_mismatch m = false → GetData ops 2 T f ≠ Throw OutOfFuel.
Proof.
  intros Hm Ha. unfold alias_mismatch in Ha. cbn [GetData]. rewrite Hm.
  destruct (fd_value f) as [p|]; [|done].
  assert (∀ T' (k : option (num_val D) → fres (num_val D)), (∀ r, k r ≠ Throw OutOfFuel) →
    (read_value ops T' f p m ≫= k) ≠ Throw OutOfFuel) as Hk.
  { intros T' k Hk. pose proof (read_value_no_fuel T' f p m). destruct (read_value ops T' f p m) as [r|[]|w];
      cbn; [apply Hk|done|done]. }
  apply Hk. intros r. destruct (GetCleanAliasName (Alias m)) as [alias|]; [|done].
  destruct (StringEqualI alias "sum" || StringEqualI alias "avg") eqn:Hs; cbn [andb].
  - rewrite !IsCorrectAlias_sum by done. apply negb_false_iff in Ha. rewrite Ha. cbn [negb andb].
    assert (StringEqualI alias "count" = false) as ->.
    { apply orb_true_iff in Hs as [Hs|Hs]; by apply (StringEqualI_exclusive _ _ _ Hs). }
    cbn [andb]. destruct T; cbn [negb]; try done.
    all: pose proof (Hk TDouble (λ r, Done (default (GetDefaultValue ops TDouble) r)) ltac:(done)) as H.
    all: destruct (read_value ops TDouble f p m) as [r'|[]|w]; cbn in *; done.
  - destruct (StringEqualI alias "count") eqn:Hc; cbn [andb] in *; [|done].
    rewrite !IsCorrectAlias_count by done. apply negb_false_iff in Ha. rewrite Ha, !andb_true_r.
    destruct (is_uint64 T) eqn:Hu; cbn [negb]; [done|]. cbn [is_uint64 it_width it_signed uint64 andb negb Z.eqb].
    pose proof (Hk (TInt uint64) (λ r, Done (default (GetDefaultValue ops (TInt uint64)) r)) ltac:(done)) as H.
    destruct (read_value ops (TInt uint64) f p m) as [r'|[]|w]; cbn in *; done.
Qed.

Lemma GetData_never_returns fuel T f p m v :
  fd_value f = Some p → fd_meta f = Some m → alias_mismatch m = true → GetData ops fuel T f ≠ Done v.
Proof.
  intros Hp Hm Ha. revert T v. induction fuel as [|fuel IH]; intros T v; [done|].
  cbn [GetData]. rewrite Hp, Hm. unfold alias_mismatch in Ha.
  destruct (read_value ops T f p m) as [r| |]; cbn [mbind outcome_bind]; [|done..].
  destruct (GetCleanAliasName (Alias m)) as [alias|]; [|done].
  assert (∀ T', (v ← GetData ops fuel T' f; Done (convert ops T v)) ≠ (Done v : fres (num_val D))) as Hrec.
  { intros T'. destruct (GetData ops fuel T' f) as [v'| |] eqn:HG; cbn; [|done..].
    by destruct (IH T' v'). }
  destruct (StringEqualI alias "sum" || StringEqualI alias "avg") eqn:Hs; cbn [andb].
  - rewrite IsCorrectAlias_sum by done. apply negb_true_iff in Ha. rewrite Ha.
    assert ((match T with TDouble => false | _ => false end : bool) = false) as -> by (by destruct T).
    apply Hrec.
  - apply andb_true_iff in Ha as [Hc Ht]. rewrite Hc, IsCorrectAlias_count by done.
    apply negb_true_iff in Ht. rewrite Ht, andb_false_r. apply Hrec.
Qed.
End Aliases.

(** ** Properties *)

(** C26 [GetData] recurses at most once on every field whose alias is no
    aggregate, or an aggregate of the type the code expects (DECIMAL for SUM
    and AVG, BIGINT for COUNT).  On any other aggregate, such as the SUM of a
    DOUBLE column, it never returns, whatever type is asked for and however
    deep the recursion may go. *)
Theorem GetData_returns {D : Type} (ops : float_ops D) T f p m :
  fd_value f = Some p → fd_meta f = Some m →
  if alias_mismatch m then ∀ fuel v, GetData ops fuel T f ≠ Done v
  else GetData ops 2 T f ≠ Throw OutOfFuel.
Proof.
  intros Hp Hm. destruct (alias_mismatch m) eqn:Ha.
  - intros fuel v. by eapply GetData_never_returns.
  - by eapply GetData_two_levels.
Qed.

(** An integer of a row reads back as what the server holds, at every width
    and either sign: as the bytes of a prepared row, as the text of a plain
    row; a negative text read as an unsigned type gives the same bits; NULL
    gives the default of the type. *)
Theorem GetData_reads_integers {D : Type} (ops : float_ops D) fuel t v f m rest :
  c_width t → fd_meta f = Some m → GetCleanAliasName (Alias m) = None →
  (in_range t v = true → fd_raw f = true → fd_value f = Some (memory (le_bytes (int_bytes t) v) +:+ rest) →
     GetData ops (S fuel) (TInt t) f = Done (NInt v)) ∧
  (in_range t v = true → fd_raw f = false → fd_value f = Some (print_Z v +:+ String (ch 0) rest) →
     GetData ops (S fuel) (TInt t) f = Done (NInt v)) ∧
  (it_signed t = false → in_range (mk_int_type true (it_width t)) v = true → (v < 0)%Z →
     fd_raw f = false → fd_value f = Some (print_Z v +:+ String (ch 0) rest) →
     GetData ops (S fuel) (TInt t) f = Done (NInt (v + 2 ^ it_width t))) ∧
  (fd_value f = None → GetData ops (S fuel) (TInt t) f = Done (NInt 0)).
Proof.
  intros Hw Hm Ha. cbn [GetData]. rewrite Hm. split; [|split; [|split]].
  - intros Hr Hraw ->. unfold read_value. rewrite Hraw, (read_raw_int ops t v rest Hw Hr). cbn. by rewrite Ha.
  - intros Hr Hraw ->. unfold read_value, parse. rewrite Hraw, c_str_app by (try apply no_char_print_Z; done).
    rewrite StringTo_print by done. cbn. by rewrite Ha.
  - intros Hs Hr Hneg Hraw ->. unfold read_value, parse, parse_signed.
    rewrite Hraw, !c_str_app, Hs by (try apply no_char_print_Z; done).
    assert (StringTo t (print_Z v) = None) as ->.
    { destruct (StringTo t (print_Z v)) as [u|] eqn:Hu; [|done]. revert Hu.
      unfold StringTo, FromString, print_Z. destruct (Z.ltb_spec v 0); [|lia]. cbn [Z.eqb mbind option_bind].
      unfold from_chars. rewrite Hs. cbn. done. }
    rewrite StringTo_print by done. cbn. rewrite Ha. do 2 f_equal. unfold wrap_u.
    pose proof (c_width_pos t Hw). unfold in_range, it_min, it_max in Hr. cbn in Hr.
    symmetry. apply Z.mod_unique_pos with (-1)%Z; [|lia].
    assert (2 ^ it_width t = 2 * 2 ^ (it_width t - 1))%Z by (rewrite <- Z.pow_succ_r by lia; f_equal; lia). lia.
  - by intros ->.
Qed.

(** ** Concrete fields (whole numbers stand for the floating ones) *)
#[local] Definition toy_ops : float_ops Z :=
  mk_float_ops Z 1%Z id id (StringTo int64) (StringTo int64) id (λ t, of_bits t) (λ d, negb (d =? 0)%Z) id.
#[local] Definition toy_meta (alias : string) (type : DatabaseFieldTypes) : QueryResultFieldMetadata :=
  mk_FieldMetadata "t" "t" "a" alias "" 0 type.
#[local] Definition toy_field (is_raw : bool) (v : string) (alias : string) (type : DatabaseFieldTypes) : Field :=
  mk_Field (Some v) (Z.of_nat (String.length v)) is_raw (Some (toy_meta alias type)).

Example GetData_sum_of_decimals :
  GetData toy_ops 2 (TInt uint32) (toy_field false "12" "SUM(a)" FT_Decimal) = Done (NInt 12%Z).
Proof. vm_compute. reflexivity. Qed.

Example GetData_sum_of_doubles :
  GetData toy_ops 1000 TDouble (toy_field false "12" "SUM(a)" FT_Double) = Throw OutOfFuel.
Proof. vm_compute. reflexivity. Qed.

Example GetData_null_real :
  GetData toy_ops 1 TDouble (mk_Field None 0 true (Some (toy_meta "a" FT_Double))) = Done (NReal 1%Z).
Proof. vm_compute. reflexivity. Qed.

Example GetData_returns_witness :
  (∀ fuel v, GetData toy_ops fuel (TInt uint32) (toy_field false "12" "SUM(a)" FT_Double) ≠ Done v) ∧
  GetData toy_ops 2 (TInt uint32) (toy_field false "12" "SUM(a)" FT_Decimal) ≠ Throw OutOfFuel.
Proof.
  split.
  - exact (GetData_returns toy_ops (TInt uint32) (toy_field false "12" "SUM(a)" FT_Double) "12"
      (toy_meta "SUM(a)" FT_Double) eq_refl eq_refl).
  - exact (GetData_returns toy_ops (TInt uint32) (toy_field false "12" "SUM(a)" FT_Decimal) "12"
      (toy_meta "SUM(a)" FT_Decimal) eq_refl eq_refl).
Defined.

Example GetData_reads_integers_witness :
  GetData toy_ops 1 (TInt int16) (toy_field true (memory [254; 255]%Z) "a" FT_Int16) = Done (NInt (-2)).
Proof.
  refine (proj1 (GetData_reads_integers toy_ops 0 int16 (-2)%Z
    (toy_field true (memory [254; 255]%Z) "a" FT_Int16) (toy_meta "a" FT_Int16) EmptyString _ _ _) _ _ _).
  - unfold c_width. rewrite !elem_of_cons. cbn. tauto.
  - reflexivity.
  - reflexivity.
  - reflexivity.
  - reflexivity.
  - reflexivity.
Defined.
