(* ===== verification/QueryResult.v ===== *)
(** * Query results: server/database/Database/QueryResult.cpp, QueryResult.h

    [ResultSet] walks over the rows of a plain query, [PreparedResultSet]
    copies all rows of a prepared statement into one buffer when it is
    constructed.

    - Pointers into the buffer are offsets; a write outside of it crashes.
    - The heap is the set of blocks that are allocated; freeing a block that is
      not, or reading one, crashes.  Blocks are numbered.
    - What the client library answers (whether it can store and bind the
      result, and the rows it delivers) is an argument. *)
From S2P Require Import Prelude CppString Convert Prepared Field.

Abbreviation out := (outcome Empty_set).

(** ** Types of columns *)
Record MYSQL_FIELD := mk_MYSQL_FIELD {
  mf_org_table : string;
  mf_table : string;
  mf_org_name : string;
  mf_name : string;
  mf_type : enum_field_types;
  mf_max_length : Z;
  mf_unsigned : bool }.

Section Types.
Variable sizeof_MYSQL_TIME : Z.

(** The result is a [uint32]. *)
Definition SizeForType (field : MYSQL_FIELD) : Z :=
  match mf_type field with
  | MYSQL_TYPE_NULL => 0
  | MYSQL_TYPE_TINY => 1
  | MYSQL_TYPE_YEAR | MYSQL_TYPE_SHORT => 2
  | MYSQL_TYPE_INT24 | MYSQL_TYPE_LONG | MYSQL_TYPE_FLOAT => 4
  | MYSQL_TYPE_DOUBLE | MYSQL_TYPE_LONGLONG | MYSQL_TYPE_BIT => 8
  | MYSQL_TYPE_TIMESTAMP | MYSQL_TYPE_DATE | MYSQL_TYPE_TIME | MYSQL_TYPE_DATETIME =>
      wrap_u 32 sizeof_MYSQL_TIME
  | MYSQL_TYPE_TINY_BLOB | MYSQL_TYPE_MEDIUM_BLOB | MYSQL_TYPE_LONG_BLOB | MYSQL_TYPE_BLOB
  | MYSQL_TYPE_STRING | MYSQL_TYPE_VAR_STRING => wrap_u 32 (mf_max_length field + 1)
  | MYSQL_TYPE_DECIMAL | MYSQL_TYPE_NEWDECIMAL => 64
  | _ => 0
  end%Z.
End Types.

Definition MysqlTypeToFieldType (type : enum_field_types) : DatabaseFieldTypes :=
  match type with
  | MYSQL_TYPE_NULL => FT_Null
  | MYSQL_TYPE_TINY => FT_Int8
  | MYSQL_TYPE_YEAR | MYSQL_TYPE_SHORT => FT_Int16
  | MYSQL_TYPE_INT24 | MYSQL_TYPE_LONG => FT_Int32
  | MYSQL_TYPE_LONGLONG | MYSQL_TYPE_BIT => FT_Int64
  | MYSQL_TYPE_FLOAT => FT_Float
  | MYSQL_TYPE_DOUBLE => FT_Double
  | MYSQL_TYPE_DECIMAL | MYSQL_TYPE_NEWDECIMAL => FT_Decimal
  | MYSQL_TYPE_TIMESTAMP | MYSQL_TYPE_DATE | MYSQL_TYPE_TIME | MYSQL_TYPE_DATETIME => FT_Date
  | MYSQL_TYPE_TINY_BLOB | MYSQL_TYPE_MEDIUM_BLOB | MYSQL_TYPE_LONG_BLOB | MYSQL_TYPE_BLOB
  | MYSQL_TYPE_STRING | MYSQL_TYPE_VAR_STRING => FT_Binary
  | _ => FT_Null
  end.

Definition FieldTypeToString (type : enum_field_types) : string :=
  match type with
  | MYSQL_TYPE_BIT => "BIT"
  | MYSQL_TYPE_BLOB => "BLOB"
  | MYSQL_TYPE_DATE => "DATE"
  | MYSQL_TYPE_DATETIME => "DATETIME"
  | MYSQL_TYPE_NEWDECIMAL => "NEWDECIMAL"
  | MYSQL_TYPE_DECIMAL => "DECIMAL"
  | MYSQL_TYPE_DOUBLE => "DOUBLE"
  | MYSQL_TYPE_ENUM => "ENUM"
  | MYSQL_TYPE_FLOAT => "FLOAT"
  | MYSQL_TYPE_GEOMETRY => "GEOMETRY"
  | MYSQL_TYPE_INT24 => "INT24"
  | MYSQL_TYPE_LONG => "LONG"
  | MYSQL_TYPE_LONGLONG => "LONGLONG"
  | MYSQL_TYPE_LONG_BLOB => "LONG_BLOB"
  | MYSQL_TYPE_MEDIUM_BLOB => "MEDIUM_BLOB"
  | MYSQL_TYPE_NEWDATE => "NEWDATE"
  | MYSQL_TYPE_NULL => "NULL"
  | MYSQL_TYPE_SET => "SET"
  | MYSQL_TYPE_SHORT => "SHORT"
  | MYSQL_TYPE_STRING => "STRING"
  | MYSQL_TYPE_TIME => "TIME"
  | MYSQL_TYPE_TIMESTAMP => "TIMESTAMP"
  | MYSQL_TYPE_TINY => "TINY"
  | MYSQL_TYPE_TINY_BLOB => "TINY_BLOB"
  | MYSQL_TYPE_VAR_STRING => "VAR_STRING"
  | MYSQL_TYPE_YEAR => "YEAR"
  | _ => "-Unknown-"
  end.

Definition InitializeDatabaseFieldMetadata (field : MYSQL_FIELD) (fieldIndex : nat)
    : QueryResultFieldMetadata :=
  mk_FieldMetadata (mf_org_table field) (mf_table field) (mf_org_name field) (mf_name field)
    (FieldTypeToString (mf_type field)) (Z.of_nat fieldIndex) (MysqlTypeToFieldType (mf_type field)).

Definition metadata_of (fields : list MYSQL_FIELD) : list QueryResultFieldMetadata :=
  imap (λ i f, InitializeDatabaseFieldMetadata f i) fields.

(** ** ResultSet *)

(** A row of [mysql_fetch_row] with [mysql_fetch_lengths]; [None] as lengths
    is a null pointer. *)
Record text_row := mk_text_row { tr_values : list (option string); tr_lengths : option (list Z) }.

Record ResultSet := mk_ResultSet {
  rs_fieldMetadata : list QueryResultFieldMetadata;
  rs_rowCount : Z;
  rs_currRow : list Field;
  rs_fields : list MYSQL_FIELD;
  rs_result : option (list text_row)     (* the rows to come; null once freed *) }.

Definition rs_fieldCount (rs : ResultSet) : nat := List.length (rs_fields rs).

Definition ResultSet_new (rows : list text_row) (fields : list MYSQL_FIELD) (rowCount : Z) : ResultSet :=
  mk_ResultSet (metadata_of fields) rowCount ((λ m, SetMetadata m Field_new) <$> metadata_of fields)
    fields (Some rows).

(** [CleanUp] *)
Definition ResultSet_CleanUp (rs : ResultSet) : ResultSet :=
  mk_ResultSet (rs_fieldMetadata rs) (rs_rowCount rs) (rs_currRow rs) (rs_fields rs) None.

(** [for (i = 0; i < _fieldCount; i++) _currRow[i].SetStructuredValue(row[i], lengths[i])]:
    the texts of the library end with a zero. *)
Fixpoint set_structured (row : list (option string)) (lengths : list Z) (l : list Field) : out (list Field) :=
  match l, row, lengths with
  | [], _, _ => Done []
  | f :: l, v :: row, n :: lengths =>
      l ← set_structured row lengths l;
      Done (SetStructuredValue ((λ s, s +:+ String (ch 0) EmptyString) <$> v) n f :: l)
  | _, _, _ => Crash "a row of the library is too short"
  end.

Definition ResultSet_NextRow (rs : ResultSet) : out (bool * ResultSet) :=
  match rs_result rs with
  | None => Done (false, rs)
  | Some [] => Done (false, ResultSet_CleanUp rs)
  | Some (row :: rows) =>
      match tr_lengths row with
      | None => Done (false, ResultSet_CleanUp rs)
      | Some lengths =>
          currRow ← set_structured (tr_values row) lengths (rs_currRow rs);
          Done (true, mk_ResultSet (rs_fieldMetadata rs) (rs_rowCount rs) currRow (rs_fields rs) (Some rows))
      end
  end.

Definition GetFieldName (index : nat) (rs : ResultSet) : out string :=
  match rs_fields rs !! index with Some f => Done (mf_name f) | None => Crash "index < _fieldCount" end.

(** [operator[]] *)
Definition ResultSet_at (index : nat) (rs : ResultSet) : out Field :=
  _ ← assert (index <? rs_fieldCount rs)%nat "index < _fieldCount";
  match rs_currRow rs !! index with Some f => Done f | None => Crash "_currRow" end.

(** [FetchTuple]: the fields of the row, for a tuple of [n] types. *)
Definition ResultSet_FetchTuple (n : nat) (rs : ResultSet) : out (list Field) :=
  _ ← assert (n =? rs_fieldCount rs)%nat "sizeRows == _fieldCount";
  Done (take n (rs_currRow rs)).

(** ** The heap *)
Record heap := mk_heap { live : gset nat; fresh_block : nat }.

Definition new_block (h : heap) : nat * heap :=
  (fresh_block h, mk_heap ({[fresh_block h]} ∪ live h) (S (fresh_block h))).
Definition delete_block (b : nat) (h : heap) : out heap :=
  if bool_decide (b ∈ live h) then Done (mk_heap (live h ∖ {[b]}) (fresh_block h)) else Crash "double free".
Definition read_block (b : nat) (h : heap) : out unit :=
  assert (bool_decide (b ∈ live h)) "use after free".

(** ** PreparedResultSet *)

(** What the client library keeps in [MYSQL_STMT]: whether results were bound
    once, and the arrays [bind->length] and [bind->is_null] of that time. *)
Record MySQLStmt := mk_MySQLStmt { bind_result_done : bool; st_length : nat; st_is_null : nat }.

(** A value of a row as the library delivers it: the length it has at the
    server, and the bytes written to the buffer. *)
Record cell := mk_cell { c_null : bool; c_length : Z; c_bytes : list ascii }.

Record stmt_answers := mk_stmt_answers {
  sa_store_fails : bool;          (* mysql_stmt_store_result *)
  sa_num_rows : Z;                (* mysql_stmt_num_rows *)
  sa_bind_fails : bool;           (* mysql_stmt_bind_result *)
  sa_rows : list (list cell)      (* mysql_stmt_fetch: the rows, until it fails *) }.

(** A field of [_rows]: an offset into the buffer, and a column. *)
Record pfield := mk_pfield { pf_value : option nat; pf_length : Z; pf_meta : option nat }.
Definition pfield_new : pfield := mk_pfield None 0 None.

Record PreparedResultSet := mk_PreparedResultSet {
  prs_fieldMetadata : list QueryResultFieldMetadata;
  prs_rows : list pfield;
  prs_rowCount : Z;
  prs_rowPosition : Z;
  prs_fieldCount : Z;
  prs_rBind : option (nat * option nat);   (* the array, and [_rBind->buffer] *)
  prs_metadataResult : option nat;
  prs_data : list ascii                    (* what the buffer holds *) }.

(** *** Copying the rows *)
Record fetch_state := mk_fetch_state {
  fs_ptrs : list nat;        (* _stmt->bind[i].buffer *)
  fs_data : list ascii;
  fs_rows : list pfield }.

(** Write [bytes] at [off]. *)
Definition write_at (off : nat) (bytes data : list ascii) : out (list ascii) :=
  if (off + List.length bytes <=? List.length data)%nat
  then Done (take off data ++ bytes ++ drop (off + List.length bytes) data)
  else Crash "write past the buffer".

(** What [mysql_stmt_fetch] writes: the bytes of the columns that are not null. *)
Fixpoint write_cells (ptrs : list nat) (cells : list cell) (data : list ascii) : out (list ascii) :=
  match cells, ptrs with
  | [], _ => Done data
  | c :: cells, p :: ptrs =>
      data ← (if c_null c then Done data else write_at p (c_bytes c) data);
      write_cells ptrs cells data
  | _ :: _, [] => Crash "a row of the library is too long"
  end.

Definition is_text_type (t : enum_field_types) : bool :=
  match t with
  | MYSQL_TYPE_TINY_BLOB | MYSQL_TYPE_MEDIUM_BLOB | MYSQL_TYPE_LONG_BLOB | MYSQL_TYPE_BLOB
  | MYSQL_TYPE_STRING | MYSQL_TYPE_VAR_STRING => true
  | _ => false
  end.

Definition insert_row (k : nat) (f : pfield) (rows : list pfield) : out (list pfield) :=
  if (k <? List.length rows)%nat then Done (<[k := f]> rows) else Crash "_rows: index out of range".

(** The index [uint32(_rowPosition) * _fieldCount + fIndex]. *)
Definition row_index (position fieldCount : Z) (fIndex : nat) : nat :=
  Z.to_nat (wrap_u 32 (wrap_u 32 position * fieldCount + Z.of_nat fIndex)).

(** The body of the loop over the columns. *)
Definition fill_column (rowSize : nat) (position fieldCount : Z) (fIndex : nat) (type : enum_field_types)
    (size : Z) (c : cell) (s : fetch_state) : out fetch_state :=
  let k := row_index position fieldCount fIndex in
  if negb (c_null c) then
    match fs_ptrs s !! fIndex with
    | None => Crash "_stmt->bind: index out of range"
    | Some buffer =>
        data ← (if is_text_type type && (c_length c <? size)%Z
                then write_at (buffer + Z.to_nat (c_length c)) [ch 0] (fs_data s) else Done (fs_data s));
        rows ← insert_row k (mk_pfield (Some buffer) (c_length c) (Some fIndex)) (fs_rows s);
        Done (mk_fetch_state (<[fIndex := (buffer + rowSize)%nat]> (fs_ptrs s)) data rows)
    end
  else
    rows ← insert_row k (mk_pfield None (c_length c) (Some fIndex)) (fs_rows s);
    Done (mk_fetch_state (fs_ptrs s) (fs_data s) rows).

Fixpoint fill_row (rowSize : nat) (position fieldCount : Z) (fIndex : nat)
    (cols : list (enum_field_types * Z)) (cells : list cell) (s : fetch_state) : out fetch_state :=
  match cols, cells with
  | [], _ => Done s
  | (type, size) :: cols, c :: cells =>
      s ← fill_column rowSize position fieldCount fIndex type size c s;
      fill_row rowSize position fieldCount (S fIndex) cols cells s
  | _ :: _, [] => Crash "a row of the library is too short"
  end.

(** [while (_NextRow())] *)
Fixpoint fetch_loop (rowSize : nat) (rowCount fieldCount : Z) (cols : list (enum_field_types * Z))
    (rows : list (list cell)) (position : Z) (s : fetch_state) : out fetch_state :=
  match rows with
  | [] => Done s
  | cells :: rows =>
      if (rowCount <=? position)%Z then Done s
      else
        data ← write_cells (fs_ptrs s) cells (fs_data s);
        s ← fill_row rowSize position fieldCount 0 cols cells (mk_fetch_state (fs_ptrs s) data (fs_rows s));
        fetch_loop rowSize rowCount fieldCount cols rows (position + 1) s
  end.

(** [for (uint32 i = 0, offset = 0; …)] *)
Fixpoint offsets (offset : Z) (sizes : list Z) : list nat :=
  match sizes with
  | [] => []
  | size :: sizes => Z.to_nat offset :: offsets (wrap_u 32 (offset + size)) sizes
  end.

Definition sum_Z (l : list Z) : Z := foldr Z.add 0%Z l.

(** [CleanUp]; [_metadataResult] is not set to null. *)
Definition PreparedResultSet_CleanUp (rs : PreparedResultSet) (h : heap) : out (PreparedResultSet * heap) :=
  h ← match prs_metadataResult rs with Some r => delete_block r h | None => Done h end;
  match prs_rBind rs with
  | None => Done (rs, h)
  | Some (b, buf) =>
      _ ← read_block b h;
      h ← match buf with Some d => delete_block d h | None => Done h end;
      h ← delete_block b h;
      Done (mk_PreparedResultSet (prs_fieldMetadata rs) (prs_rows rs) (prs_rowCount rs) (prs_rowPosition rs)
              (prs_fieldCount rs) None (prs_metadataResult rs) (prs_data rs), h)
  end.

Section Constructor.
Variable sizeof_MYSQL_TIME : Z.
(** What [new char[]] leaves in the buffer. *)
Variable uninitialised : nat → ascii.

Definition columns (fields : list MYSQL_FIELD) : list (enum_field_types * Z) :=
  (λ f, (mf_type f, SizeForType sizeof_MYSQL_TIME f)) <$> fields.

Definition fresh_buffer (n : nat) : list ascii := uninitialised <$> seq 0 n.

(** The constructor; [fields] are the [_fieldCount] columns of
    [_metadataResult]. *)
Definition PreparedResultSet_new (ans : stmt_answers) (fields : list MYSQL_FIELD) (result : option nat)
    (rowCount : Z) (stmt : MySQLStmt) (h : heap) : out (PreparedResultSet * MySQLStmt * heap) :=
  let fieldCount := Z.of_nat (List.length fields) in
  match result with
  | None => Done (mk_PreparedResultSet [] [] rowCount 0 fieldCount None None [], stmt, h)
  | Some _ =>
      h ← (if bind_result_done stmt
           then h ← delete_block (st_length stmt) h; delete_block (st_is_null stmt) h
           else Done h);
      let '(rBind, h) := new_block h in
      let '(isNull, h) := new_block h in
      let '(len, h) := new_block h in
      if sa_store_fails ans then
        h ← delete_block rBind h;
        h ← delete_block isNull h;
        h ← delete_block len h;
        Done (mk_PreparedResultSet [] [] rowCount 0 fieldCount (Some (rBind, None)) result [], stmt, h)
      else
        let rowCount := sa_num_rows ans in
        let sizes := (columns fields).*2 in
        let rowSize := sum_Z sizes in
        let data := fresh_buffer (Z.to_nat (wrap_u 64 (rowSize * rowCount))) in
        let '(dataBuffer, h) := new_block h in
        let rs := mk_PreparedResultSet (metadata_of fields) [] rowCount 0 fieldCount
                    (Some (rBind, Some dataBuffer)) result data in
        if sa_bind_fails ans then
          '(rs, h) ← PreparedResultSet_CleanUp rs h;
          h ← delete_block isNull h;
          h ← delete_block len h;
          Done (rs, stmt, h)
        else
          let rows := replicate (Z.to_nat (wrap_u 32 (wrap_u 32 rowCount * fieldCount))) pfield_new in
          s ← fetch_loop (Z.to_nat rowSize) rowCount fieldCount (columns fields) (sa_rows ans) 0
                (mk_fetch_state (offsets 0 sizes) data rows);
          Done (mk_PreparedResultSet (metadata_of fields) (fs_rows s) rowCount 0 fieldCount
                  (Some (rBind, Some dataBuffer)) result (fs_data s),
                mk_MySQLStmt true len isNull, h)
  end.
End Constructor.

(** *** Walking over the rows *)
Definition PreparedResultSet_NextRow (rs : PreparedResultSet) : bool * PreparedResultSet :=
  let position := wrap_u 64 (prs_rowPosition rs + 1) in
  (negb (prs_rowCount rs <=? position)%Z,
   mk_PreparedResultSet (prs_fieldMetadata rs) (prs_rows rs) (prs_rowCount rs) position (prs_fieldCount rs)
     (prs_rBind rs) (prs_metadataResult rs) (prs_data rs)).

Fixpoint string_of (l : list ascii) : string :=
  match l with [] => EmptyString | c :: l => String c (string_of l) end.

(** The [Field] a [pfield] is. *)
Definition field_of (rs : PreparedResultSet) (p : pfield) : Field :=
  mk_Field ((λ off, string_of (drop off (prs_data rs))) <$> pf_value p) (pf_length p)
    (match pf_meta p with Some _ => true | None => false end)
    (c ← pf_meta p; prs_fieldMetadata rs !! c).

(** [operator[]] *)
Definition PreparedResultSet_at (index : nat) (rs : PreparedResultSet) : out Field :=
  _ ← assert (prs_rowPosition rs <? prs_rowCount rs)%Z "_rowPosition < _rowCount";
  _ ← assert (Z.of_nat index <? prs_fieldCount rs)%Z "index < _fieldCount";
  match prs_rows rs !! row_index (prs_rowPosition rs) (prs_fieldCount rs) index with
  | Some p => Done (field_of rs p)
  | None => Crash "_rows: index out of range"
  end.

(** [for (auto& row : *result) body]: [begin()] is the result itself, [++]
    calls [NextRow], and [end()] is the null pointer. *)
Fixpoint for_rows {A : Type} (fuel : nat) (body : PreparedResultSet → out A) (rs : PreparedResultSet)
    : out (list A * PreparedResultSet) :=
  match fuel with
  | O => Crash "out of fuel"
  | S fuel =>
      a ← body rs;
      let '(more, rs) := PreparedResultSet_NextRow rs in
      if more then '(l, rs) ← for_rows fuel body rs; Done (a :: l, rs) else Done ([a], rs)
  end.

(** ** Lemmas: writing to disjoint places *)
Definition holds (data : list ascii) (off : nat) (s : list ascii) : Prop :=
  ∀ j, j < List.length s → data !! (off + j) = s !! j.

Definition write : Type := nat * list ascii.
Definition disjoint_writes (w w' : write) : Prop :=
  w.1 + List.length w.2 ≤ w'.1 ∨ w'.1 + List.length w'.2 ≤ w.1.

Lemma write_at_spec off bytes data :
  off + List.length bytes ≤ List.length data →
  ∃ data', write_at off bytes data = Done data' ∧ List.length data' = List.length data ∧
    holds data' off bytes ∧
    ∀ i, i < off ∨ off + List.length bytes ≤ i → data' !! i = data !! i.
Proof.
  intros H. unfold write_at. pose proof H as Hle. apply Nat.leb_le in Hle as ->.
  eexists. split; [done|]. split; [|split].
  - rewrite !length_app, length_take, length_drop. lia.
  - intros j Hj. rewrite lookup_app_r by (rewrite length_take; lia).
    rewrite lookup_app_l by (rewrite length_take; lia). rewrite length_take. f_equal. lia.
  - intros i [Hi|Hi].
    + rewrite lookup_app_l by (rewrite length_take; lia). by rewrite lookup_take_lt.
    + rewrite lookup_app_r by (rewrite length_take; lia). rewrite lookup_app_r by (rewrite length_take; lia).
      rewrite lookup_drop, length_take. f_equal. lia.
Qed.

Fixpoint write_all (ws : list write) (data : list ascii) : out (list ascii) :=
  match ws with
  | [] => Done data
  | (off, bytes) :: ws => data ← write_at off bytes data; write_all ws data
  end.

Lemma write_all_app ws1 ws2 data :
  write_all (ws1 ++ ws2) data = write_all ws1 data ≫= write_all ws2.
Proof.
  revert data. induction ws1 as [|[o b] ws1 IH]; intros data; [done|]. cbn.
  destruct (write_at o b data); cbn; [apply IH|done..].
Qed.

(** Writes to disjoint places all take effect. *)
Lemma write_all_spec ws data :
  Forall (λ w : write, w.1 + List.length w.2 ≤ List.length data) ws →
  ForallOrdPairs disjoint_writes ws →
  ∃ data', write_all ws data = Done data' ∧ List.length data' = List.length data ∧
    (∀ w, w ∈ ws → holds data' w.1 w.2) ∧
    (∀ i, (∀ w, w ∈ ws → i < w.1 ∨ w.1 + List.length w.2 ≤ i) → data' !! i = data !! i).
Proof.
  intros Hin Hd. revert data Hin. induction Hd as [|[o b] ws Hw Hd IH]; intros data Hin.
  { exists data. repeat split; try done. by intros w ?%elem_of_nil. }
  apply Forall_cons in Hin as [Ho Hin]. cbn in Ho. cbn [write_all].
  destruct (write_at_spec o b data Ho) as (d1 & -> & Hl1 & Hh1 & Hout1). cbn [mbind outcome_bind].
  destruct (IH d1) as (d2 & -> & Hl2 & Hh2 & Hout2); [by rewrite Hl1|].
  exists d2. split; [done|]. split; [by rewrite Hl2|]. split.
  - intros w [->|Hin']%elem_of_cons; [|by apply Hh2]. intros j Hj. cbn in *. rewrite Hout2; [by apply Hh1|].
    intros w' Hw'. rewrite Forall_forall in Hw. specialize (Hw w' Hw'). unfold disjoint_writes in Hw.
    cbn in Hw. lia.
  - intros i Hi. rewrite Hout2 by (intros w ?; apply Hi; by right).
    apply Hout1. apply (Hi (o, b)). by left.
Qed.

Lemma FOP_app (ws1 ws2 : list write) :
  ForallOrdPairs disjoint_writes ws1 → ForallOrdPairs disjoint_writes ws2 →
  (∀ w w', w ∈ ws1 → w' ∈ ws2 → disjoint_writes w w') → ForallOrdPairs disjoint_writes (ws1 ++ ws2).
Proof.
  intros H1 H2 Hc. induction H1 as [|w ws1 Hw H1 IH]; [done|]. cbn. constructor.
  - apply Forall_app. split; [done|]. apply Forall_forall. intros w' Hw'. apply Hc; [by left|done].
  - apply IH. intros. apply Hc; [by right|done].
Qed.

(** ** Lemmas: the slots of the buffer

    Column [c] of sizes [szs] has its [k]-th value at [reg c k]. *)
Section Slots.
Variable szs : list nat.
Definition base (c : nat) : nat := sum_list (take c szs).
Definition row_size : nat := sum_list szs.
Definition size_of (c : nat) : nat := default 0 (szs !! c).
Definition reg (c k : nat) : nat := base c + row_size * k.

Lemma base_le c c' : c < c' → base c + size_of c ≤ base c'.
Proof.
  unfold base, size_of. revert c c'. induction szs as [|s l IH]; intros c c' H.
  { rewrite !take_nil, lookup_nil. cbn. lia. }
  destruct c' as [|c']; [lia|]. destruct c as [|c]; cbn; [lia|].
  rewrite <- Nat.add_assoc. apply Nat.add_le_mono_l, IH. lia.
Qed.

Lemma base_row_size c : base c + size_of c ≤ row_size.
Proof.
  pose proof (base_le c (S (c + List.length szs)) ltac:(lia)) as H.
  assert (base (S (c + List.length szs)) = row_size) as <-; [|exact H].
  unfold base, row_size. f_equal. apply take_ge. lia.
Qed.

Definition in_slot (w : write) (c k : nat) : Prop :=
  reg c k ≤ w.1 ∧ w.1 + List.length w.2 ≤ reg c k + size_of c.

Lemma slots_disjoint w w' c k c' k' :
  in_slot w c k → in_slot w' c' k' → (c, k) ≠ (c', k') → disjoint_writes w w'.
Proof.
  unfold in_slot, disjoint_writes, reg. intros [H1 H2] [H3 H4] Hne.
  pose proof (base_row_size c). pose proof (base_row_size c').
  destruct (lt_eq_lt_dec k k') as [[Hk| ->]|Hk].
  - left. assert (row_size * k + row_size ≤ row_size * k') by (rewrite <- Nat.mul_succ_r; apply Nat.mul_le_mono_l; lia).
    lia.
  - destruct (lt_eq_lt_dec c c') as [[Hc| ->]|Hc]; [left| |right]; [|by destruct Hne|].
    + pose proof (base_le c c' Hc). lia.
    + pose proof (base_le c' c Hc). lia.
  - right. assert (row_size * k' + row_size ≤ row_size * k) by (rewrite <- Nat.mul_succ_r; apply Nat.mul_le_mono_l; lia).
    lia.
Qed.

Lemma in_slot_bound w c k n : in_slot w c k → k < n → w.1 + List.length w.2 ≤ row_size * n.
Proof.
  unfold in_slot, reg. intros [H1 H2] Hk. pose proof (base_row_size c).
  assert (row_size * k + row_size ≤ row_size * n) by (rewrite <- Nat.mul_succ_r; apply Nat.mul_le_mono_l; lia).
  lia.
Qed.
End Slots.

(** ** Lemmas: what the loop writes, as a list *)
Definition next_ptrs (rowSize : nat) (ptrs : list nat) (cells : list cell) : list nat :=
  zip_with (λ p x, if c_null x then p else (p + rowSize)%nat) ptrs cells.

Fixpoint writes1 (ptrs : list nat) (cells : list cell) : list write :=
  match ptrs, cells with
  | p :: ptrs, x :: cells => (if c_null x then [] else [(p, c_bytes x)]) ++ writes1 ptrs cells
  | _, _ => []
  end.

Fixpoint writes2 (cols : list (enum_field_types * Z)) (ptrs : list nat) (cells : list cell) : list write :=
  match cols, ptrs, cells with
  | (type, size) :: cols, p :: ptrs, x :: cells =>
      (if negb (c_null x) && (is_text_type type && (c_length x <? size)%Z)
       then [((p + Z.to_nat (c_length x))%nat, [ch 0])] else []) ++ writes2 cols ptrs cells
  | _, _, _ => []
  end.

Fixpoint row_fields (c0 : nat) (ptrs : list nat) (cells : list cell) : list pfield :=
  match ptrs, cells with
  | p :: ptrs, x :: cells =>
      mk_pfield (if c_null x then None else Some p) (c_length x) (Some c0) :: row_fields (S c0) ptrs cells
  | _, _ => []
  end.

Lemma write_cells_all ptrs cells data :
  List.length ptrs = List.length cells → write_cells ptrs cells data = write_all (writes1 ptrs cells) data.
Proof.
  revert cells data. induction ptrs as [|p ptrs IH]; intros [|x cells] data Hl; try done.
  cbn in Hl. cbn [write_cells writes1]. rewrite write_all_app. destruct (c_null x); cbn [write_all mbind outcome_bind].
  - apply IH. lia.
  - destruct (write_at p (c_bytes x) data); cbn; [|done..]. apply IH. lia.
Qed.

Lemma row_fields_length c0 ptrs cells :
  List.length ptrs = List.length cells → List.length (row_fields c0 ptrs cells) = List.length cells.
Proof.
  revert c0 cells. induction ptrs as [|p ptrs IH]; intros c0 [|x cells] Hl; try done. cbn in *. f_equal.
  apply IH. lia.
Qed.

Lemma insert_row_middle (A C : list pfield) f o :
  insert_row (List.length A) f (A ++ o :: C) = Done (A ++ f :: C).
Proof.
  unfold insert_row.
  assert ((List.length A <? List.length (A ++ o :: C))%nat = true) as ->
    by (apply Nat.ltb_lt; rewrite length_app; cbn; lia).
  rewrite insert_app_r_alt by lia. by rewrite Nat.sub_diag.
Qed.

Lemma fill_row_spec rowSize position fc cols cells pre ptrs A old C data :
  List.length ptrs = List.length cols → List.length cells = List.length cols →
  List.length old = List.length cols →
  (∀ j, j < List.length cols → row_index position fc (List.length pre + j) = List.length A + j) →
  fill_row rowSize position fc (List.length pre) cols cells (mk_fetch_state (pre ++ ptrs) data (A ++ old ++ C)) =
  (data ← write_all (writes2 cols ptrs cells) data;
   Done (mk_fetch_state (pre ++ next_ptrs rowSize ptrs cells) data
          (A ++ row_fields (List.length pre) ptrs cells ++ C))).
Proof.
  revert cells pre ptrs A old data. induction cols as [|[type size] cols IH];
    intros [|x cells] pre [|p ptrs] A [|o old] data Hp Hc Ho Hi; try done.
  cbn in Hp, Hc, Ho. injection Hp as Hp. injection Hc as Hc. injection Ho as Ho.
  cbn [fill_row writes2 row_fields]. unfold fill_column. cbv zeta. cbn [fs_ptrs fs_data fs_rows].
  pose proof (Hi 0 ltac:(cbn; lia)) as H0. rewrite !Nat.add_0_r in H0. rewrite H0.
  assert (∀ p' f d, fill_row rowSize position fc (S (List.length pre)) cols cells
    (mk_fetch_state (pre ++ p' :: ptrs) d (A ++ f :: old ++ C)) =
    (data ← write_all (writes2 cols ptrs cells) d;
     Done (mk_fetch_state (pre ++ p' :: next_ptrs rowSize ptrs cells) data
       (A ++ f :: row_fields (S (List.length pre)) ptrs cells ++ C)))) as Hrec.
  { intros p' f d. specialize (IH cells (pre ++ [p']) ptrs (A ++ [f]) old d Hp Hc Ho).
    rewrite !length_app, <- !app_assoc in IH. cbn [List.length app] in IH.
    rewrite Nat.add_1_r in IH. apply IH. intros j Hj.
    replace (S (List.length pre) + j) with (List.length pre + S j) by lia. rewrite Hi by (cbn; lia). lia. }
  change ((o :: old) ++ C) with (o :: (old ++ C)). unfold next_ptrs in *. cbn [zip_with].
  rewrite write_all_app. destruct (c_null x) eqn:Hn; cbn [negb andb].
  - rewrite (insert_row_middle A (old ++ C)). cbn [mbind outcome_bind write_all app fs_ptrs fs_data].
    apply (Hrec p).
  - rewrite list_lookup_middle by done.
    destruct (is_text_type type && (c_length x <? size)%Z); cbn [mbind outcome_bind write_all app].
    + destruct (write_at _ _ data) as [d| |]; cbn [mbind outcome_bind]; [|done..].
      rewrite (insert_row_middle A (old ++ C)). cbn [mbind outcome_bind].
      rewrite insert_app_r_alt, Nat.sub_diag by lia. apply (Hrec (p + rowSize)).
    + rewrite (insert_row_middle A (old ++ C)). cbn [mbind outcome_bind].
      rewrite insert_app_r_alt, Nat.sub_diag by lia. apply (Hrec (p + rowSize)).
Qed.

Lemma next_ptrs_length rowSize ptrs cells :
  List.length cells = List.length ptrs → List.length (next_ptrs rowSize ptrs cells) = List.length ptrs.
Proof. intros H. unfold next_ptrs. rewrite length_zip_with. lia. Qed.

(** All writes, and all fields, of the rows from some pointers on. *)
Fixpoint all_writes (rowSize : nat) (cols : list (enum_field_types * Z)) (ptrs : list nat)
    (rows : list (list cell)) : list write :=
  match rows with
  | [] => []
  | cells :: rows =>
      (writes1 ptrs cells ++ writes2 cols ptrs cells) ++
      all_writes rowSize cols (next_ptrs rowSize ptrs cells) rows
  end.

Fixpoint all_fields (rowSize : nat) (ptrs : list nat) (rows : list (list cell)) : list (list pfield) :=
  match rows with
  | [] => []
  | cells :: rows => row_fields 0 ptrs cells :: all_fields rowSize (next_ptrs rowSize ptrs cells) rows
  end.

Lemma row_index_small pos n j :
  (Z.of_nat pos * Z.of_nat n + Z.of_nat j < 2 ^ 32)%Z → (0 < n)%nat →
  row_index (Z.of_nat pos) (Z.of_nat n) j = pos * n + j.
Proof.
  intros H Hn. unfold row_index. rewrite (wrap_u_small 32 (Z.of_nat pos)) by nia.
  rewrite wrap_u_small by nia. lia.
Qed.

Lemma fetch_loop_spec rowSize cols rows pos A ptrs data :
  let n := List.length cols in
  (0 < n)%nat → List.length ptrs = n → Forall (λ cells, List.length cells = n) rows →
  List.length A = pos * n → (Z.of_nat ((pos + List.length rows) * n) < 2 ^ 32)%Z →
  fetch_loop rowSize (Z.of_nat (pos + List.length rows)) (Z.of_nat n) cols rows (Z.of_nat pos)
    (mk_fetch_state ptrs data (A ++ replicate (List.length rows * n) pfield_new)) =
  (data ← write_all (all_writes rowSize cols ptrs rows) data;
   Done (mk_fetch_state (foldl (next_ptrs rowSize) ptrs rows) data
          (A ++ concat (all_fields rowSize ptrs rows)))).
Proof.
  intros n Hn. revert pos A ptrs data. induction rows as [|cells rows IH]; intros pos A ptrs data Hp Hf HA Hm.
  { cbn. by rewrite app_nil_r. }
  apply Forall_cons in Hf as [Hc Hf]. cbn [List.length] in Hm. cbn [fetch_loop].
  destruct (Z.leb_spec (Z.of_nat (pos + List.length (cells :: rows))) (Z.of_nat pos)) as [Hle|_];
    [cbn in Hle; lia|].
  cbn [fs_ptrs fs_data fs_rows all_writes]. rewrite write_cells_all by congruence.
  rewrite !write_all_app. destruct (write_all (writes1 ptrs cells) data) as [d1| |]; cbn [mbind outcome_bind];
    [|done..].
  cbn [List.length Nat.mul]. rewrite replicate_add.
  pose proof (fill_row_spec rowSize (Z.of_nat pos) (Z.of_nat n) cols cells [] ptrs A
    (replicate n pfield_new) (replicate (List.length rows * n) pfield_new) d1) as Hfill.
  cbn [List.length app] in Hfill. rewrite Hfill; clear Hfill;
    [|done|done|by rewrite length_replicate|].
  2: { intros j Hj. fold n in Hj. rewrite HA. apply row_index_small; nia. }
  destruct (write_all (writes2 cols ptrs cells) d1) as [d2| |]; cbn [mbind outcome_bind]; [|done..].
  rewrite app_assoc.
  specialize (IH (S pos) (A ++ row_fields 0 ptrs cells) (next_ptrs rowSize ptrs cells) d2).
  rewrite Nat2Z.inj_succ in IH. rewrite <- Z.add_1_r in IH.
  rewrite <- Nat.add_succ_comm. rewrite IH.
  - cbn [foldl all_fields concat]. by rewrite <- app_assoc.
  - rewrite next_ptrs_length; lia.
  - done.
  - rewrite length_app, row_fields_length by congruence. lia.
  - rewrite Nat.add_succ_comm. exact Hm.
Qed.

(** *** The writes do not overlap *)
Section Disjoint.
Variable cols : list (enum_field_types * Z).
Definition szs : list nat := Z.to_nat <$> cols.*2.

(** The bytes of a value fit its column. *)
Definition cell_ok (col : enum_field_types * Z) (x : cell) : Prop :=
  c_null x = false → c_length x = Z.of_nat (List.length (c_bytes x)) ∧ (c_length x ≤ col.2)%Z.

(** The pointers after [K c] values of column [c]. *)
Definition ptrs_ok (K : nat → nat) (ptrs : list nat) : Prop :=
  List.length ptrs = List.length cols ∧ ∀ c p, ptrs !! c = Some p → p = reg szs c (K c).

Definition row_ok (cells : list cell) : Prop := Forall2 cell_ok cols cells.

Definition taken (cells : list cell) (c : nat) : nat :=
  match cells !! c with Some x => if c_null x then 0 else 1 | None => 0 end.

Lemma next_ptrs_ok K ptrs cells :
  ptrs_ok K ptrs → row_ok cells → ptrs_ok (λ c, K c + taken cells c) (next_ptrs (row_size szs) ptrs cells).
Proof.
  intros [Hl HK] Hc. apply Forall2_length in Hc. split; [rewrite next_ptrs_length; lia|].
  intros c p Hp. unfold next_ptrs in Hp. rewrite lookup_zip_with_Some in Hp.
  destruct Hp as (p0 & x & -> & H0 & Hx). apply HK in H0. unfold taken. rewrite Hx. subst p0. unfold reg.
  destruct (c_null x); lia.
Qed.

Lemma writes1_in w ptrs cells :
  w ∈ writes1 ptrs cells →
  ∃ c p x, ptrs !! c = Some p ∧ cells !! c = Some x ∧ c_null x = false ∧ w = (p, c_bytes x).
Proof.
  revert cells. induction ptrs as [|p ptrs IH]; intros [|x cells] Hw; cbn in Hw; try by apply elem_of_nil in Hw.
  apply elem_of_app in Hw as [Hw|Hw].
  - destruct (c_null x) eqn:Hn; [by apply elem_of_nil in Hw|]. apply list_elem_of_singleton in Hw as ->.
    by exists 0, p, x.
  - destruct (IH cells Hw) as (c & p' & x' & H). by exists (S c), p', x'.
Qed.

Lemma writes2_in w cs ptrs cells :
  w ∈ writes2 cs ptrs cells →
  ∃ c p x t sz, ptrs !! c = Some p ∧ cells !! c = Some x ∧ cs !! c = Some (t, sz) ∧ c_null x = false ∧
    (c_length x < sz)%Z ∧ w = (p + Z.to_nat (c_length x), [ch 0]).
Proof.
  revert ptrs cells. induction cs as [|[t sz] cs IH]; intros [|p ptrs] [|x cells] Hw; cbn in Hw;
    try by apply elem_of_nil in Hw.
  apply elem_of_app in Hw as [Hw|Hw].
  - destruct (c_null x) eqn:Hn; cbn in Hw; [by apply elem_of_nil in Hw|].
    destruct (is_text_type t && _) eqn:Ht; [|by apply elem_of_nil in Hw].
    apply list_elem_of_singleton in Hw as ->. apply andb_true_iff in Ht as [_ Ht].
    exists 0, p, x, t, sz. repeat split; try done. lia.
  - destruct (IH ptrs cells Hw) as (c & p' & x' & t' & sz' & H). by exists (S c), p', x', t', sz'.
Qed.

Lemma cols_lookup cells c x :
  row_ok cells → cells !! c = Some x → ∃ t sz, cols !! c = Some (t, sz) ∧ cell_ok (t, sz) x ∧
    size_of szs c = Z.to_nat sz.
Proof.
  intros Hr Hx. destruct (Forall2_lookup_r _ _ _ _ _ Hr Hx) as ([t sz] & Hc & Hok).
  exists t, sz. split; [done|]. split; [done|]. unfold size_of, szs. by rewrite !list_lookup_fmap, Hc.
Qed.

(** The writes of a row lie in the next slot of their column. *)
Lemma row_writes_slots K ptrs cells w :
  ptrs_ok K ptrs → row_ok cells → w ∈ writes1 ptrs cells ++ writes2 cols ptrs cells →
  ∃ c, in_slot szs w c (K c) ∧ taken cells c = 1.
Proof.
  intros [Hl HK] Hr [Hw|Hw]%elem_of_app.
  - destruct (writes1_in _ _ _ Hw) as (c & p & x & Hp & Hx & Hn & ->).
    destruct (cols_lookup _ _ _ Hr Hx) as (t & sz & Hc & Hok & Hs). destruct (Hok Hn) as [Hlen Hle].
    exists c. unfold taken. rewrite Hx, Hn. split; [|done]. apply HK in Hp as ->.
    split; cbn in *; [lia|]. rewrite Hs. lia.
  - destruct (writes2_in _ _ _ _ Hw) as (c & p & x & t & sz & Hp & Hx & Hc & Hn & Hlt & ->).
    destruct (cols_lookup _ _ _ Hr Hx) as (t' & sz' & Hc' & Hok & Hs). simplify_eq.
    destruct (Hok Hn) as [Hlen Hle]. exists c. unfold taken. rewrite Hx, Hn. split; [|done].
    apply HK in Hp as ->. split; cbn in *; [lia|]. rewrite Hs. lia.
Qed.

Lemma writes1_FOP K c0 ptrs cells :
  (∀ j p, ptrs !! j = Some p → p = reg szs (c0 + j) (K (c0 + j))) →
  (∀ j x, cells !! j = Some x → c_null x = false → List.length (c_bytes x) ≤ size_of szs (c0 + j)) →
  ForallOrdPairs disjoint_writes (writes1 ptrs cells).
Proof.
  revert c0 cells. induction ptrs as [|p ptrs IH]; intros c0 [|x cells] HK Hx; cbn; [constructor..|].
  assert (ForallOrdPairs disjoint_writes (writes1 ptrs cells)) as Hrec.
  { apply (IH (S c0)); [intros j q Hj|intros j y Hj]; rewrite Nat.add_succ_comm; [by apply HK|by apply (Hx (S j))]. }
  destruct (c_null x) eqn:Hn; [done|]. cbn. constructor; [|done]. apply Forall_forall.
  intros w (c & q & y & Hq & Hy & Hny & ->)%writes1_in.
  apply (slots_disjoint szs _ _ c0 (K c0) (c0 + S c) (K (c0 + S c))).
  - pose proof (HK 0 p eq_refl) as Hp. pose proof (Hx 0 x eq_refl Hn) as Hl. rewrite Nat.add_0_r in *.
    subst p. split; cbn; lia.
  - pose proof (HK (S c) q Hq) as Hp. pose proof (Hx (S c) y Hy Hny) as Hl. subst q. split; cbn; lia.
  - intros [= H _]. lia.
Qed.

Lemma writes2_FOP K c0 cs ptrs cells :
  (∀ j p, ptrs !! j = Some p → p = reg szs (c0 + j) (K (c0 + j))) →
  (∀ j x t sz, cells !! j = Some x → cs !! j = Some (t, sz) → size_of szs (c0 + j) = Z.to_nat sz ∧
     (c_null x = false → 0 ≤ c_length x)%Z) →
  ForallOrdPairs disjoint_writes (writes2 cs ptrs cells).
Proof.
  revert c0 ptrs cells. induction cs as [|[t sz] cs IH]; intros c0 [|p ptrs] [|x cells] HK Hx; cbn;
    [constructor..|].
  assert (ForallOrdPairs disjoint_writes (writes2 cs ptrs cells)) as Hrec.
  { apply (IH (S c0)); [intros j q Hj|intros j y t' sz' Hj Hc]; rewrite Nat.add_succ_comm;
      [by apply HK|by apply (Hx (S j) y t' sz')]. }
  destruct (negb (c_null x) && _) eqn:Hn; [|done]. cbn. constructor; [|done].
  apply andb_true_iff in Hn as [Hn [_ Hlt]%andb_true_iff]. apply negb_true_iff in Hn.
  apply Forall_forall. intros w (c & q & y & t' & sz' & Hq & Hy & Hc & Hny & Hlty & ->)%writes2_in.
  apply (slots_disjoint szs _ _ c0 (K c0) (c0 + S c) (K (c0 + S c))).
  - pose proof (HK 0 p eq_refl) as Hp. destruct (Hx 0 x t sz eq_refl eq_refl) as [Hs Hl].
    rewrite Nat.add_0_r in *. subst p. specialize (Hl Hn). split; cbn; [lia|]. rewrite Hs. lia.
  - pose proof (HK (S c) q Hq) as Hp. destruct (Hx (S c) y t' sz' Hy Hc) as [Hs Hl]. subst q.
    specialize (Hl Hny). split; cbn; [lia|]. rewrite Hs. lia.
  - intros [= H _]. lia.
Qed.

Lemma row_writes_FOP K ptrs cells :
  ptrs_ok K ptrs → row_ok cells →
  ForallOrdPairs disjoint_writes (writes1 ptrs cells ++ writes2 cols ptrs cells).
Proof.
  intros [Hl HK] Hr. apply FOP_app.
  - apply (writes1_FOP K 0); [done|]. intros j x Hx Hn.
    destruct (cols_lookup _ _ _ Hr Hx) as (t & sz & Hc & Hok & Hs). destruct (Hok Hn) as [H1 H2].
    cbn in *. rewrite Hs. lia.
  - apply (writes2_FOP K 0); [done|]. intros j x t sz Hx Hc.
    destruct (cols_lookup _ _ _ Hr Hx) as (t' & sz' & Hc' & Hok & Hs). simplify_eq. split; [done|].
    intros Hn. destruct (Hok Hn) as [H1 H2]. lia.
  - intros w w' (c & p & x & Hp & Hx & Hn & ->)%writes1_in
      (c' & p' & x' & t & sz & Hp' & Hx' & Hc' & Hn' & Hlt & ->)%writes2_in.
    destruct (cols_lookup _ _ _ Hr Hx) as (t1 & sz1 & Hc1 & Hok1 & Hs1). destruct (Hok1 Hn) as [Hb1 Hle1].
    destruct (cols_lookup _ _ _ Hr Hx') as (t2 & sz2 & Hc2 & Hok2 & Hs2). destruct (Hok2 Hn') as [Hb2 Hle2].
    cbn in *. destruct (decide (c = c')) as [->|Hne].
    + simplify_eq. left. cbn. lia.
    + simplify_eq. apply (slots_disjoint szs _ _ c (K c) c' (K c')); [| |congruence].
      * rewrite (HK _ _ Hp). split; cbn; [lia|]. rewrite Hs1. lia.
      * rewrite (HK _ _ Hp'). split; cbn; [lia|]. rewrite Hs2. lia.
Qed.

Lemma all_writes_slots K ptrs rows :
  ptrs_ok K ptrs → Forall row_ok rows →
  (∀ w, w ∈ all_writes (row_size szs) cols ptrs rows →
     ∃ c k, in_slot szs w c k ∧ K c ≤ k < K c + List.length rows) ∧
  ForallOrdPairs disjoint_writes (all_writes (row_size szs) cols ptrs rows).
Proof.
  revert K ptrs. induction rows as [|cells rows IH]; intros K ptrs Hp Hr.
  { split; [|constructor]. by intros w ?%elem_of_nil. }
  apply Forall_cons in Hr as [Hc Hr].
  destruct (IH _ _ (next_ptrs_ok _ _ _ Hp Hc) Hr) as [Hs Hd]. cbn [all_writes List.length]. split.
  - intros w [Hw|Hw]%elem_of_app.
    + destruct (row_writes_slots _ _ _ _ Hp Hc Hw) as (c & Hin & _). exists c, (K c). split; [done|]. lia.
    + destruct (Hs w Hw) as (c & k & Hin & Hk). exists c, k. split; [done|].
      unfold taken in Hk. repeat case_match; lia.
  - apply FOP_app; [by apply (row_writes_FOP K)|done|]. intros w w' Hw Hw'.
    destruct (row_writes_slots _ _ _ _ Hp Hc Hw) as (c & Hin & Ht).
    destruct (Hs w' Hw') as (c' & k' & Hin' & Hk').
    apply (slots_disjoint szs _ _ c (K c) c' k' Hin Hin'). intros [= <- Hk]. rewrite Ht in Hk'. lia.
Qed.
End Disjoint.

(** *** Reading back *)
Lemma concat_uniform {A : Type} (ls : list (list A)) n r c :
  Forall (λ l, List.length l = n) ls → c < n → concat ls !! (r * n + c) = (l ← ls !! r; l !! c).
Proof.
  intros Hl Hc. revert r. induction Hl as [|l ls Hn Hl IH]; intros [|r]; cbn; [done..| |].
  - by rewrite lookup_app_l by lia.
  - rewrite lookup_app_r by lia. rewrite <- IH. f_equal. lia.
Qed.

Lemma row_fields_lookup c0 ptrs cells c p x :
  ptrs !! c = Some p → cells !! c = Some x →
  row_fields c0 ptrs cells !! c =
    Some (mk_pfield (if c_null x then None else Some p) (c_length x) (Some (c0 + c))).
Proof.
  revert c0 cells c. induction ptrs as [|q ptrs IH]; intros c0 [|y cells] [|c] Hp Hx; try done; cbn in *.
  - simplify_eq. by rewrite Nat.add_0_r.
  - rewrite (IH (S c0)) by done. by rewrite Nat.add_succ_comm.
Qed.

Lemma writes1_intro ptrs cells c p x :
  ptrs !! c = Some p → cells !! c = Some x → c_null x = false → (p, c_bytes x) ∈ writes1 ptrs cells.
Proof.
  revert cells c. induction ptrs as [|q ptrs IH]; intros [|y cells] [|c] Hp Hx Hn; try done; cbn in *.
  - simplify_eq. rewrite Hn. by left.
  - apply elem_of_app. right. by apply (IH cells c).
Qed.

Lemma writes2_intro cs ptrs cells c p x t sz :
  ptrs !! c = Some p → cells !! c = Some x → cs !! c = Some (t, sz) → c_null x = false →
  is_text_type t = true → (c_length x < sz)%Z →
  (p + Z.to_nat (c_length x), [ch 0]) ∈ writes2 cs ptrs cells.
Proof.
  revert ptrs cells c. induction cs as [|[t0 s0] cs IH]; intros [|q ptrs] [|y cells] [|c] Hp Hx Hc Hn Ht Hl;
    try done; cbn in *.
  - simplify_eq. rewrite Hn, Ht. apply Z.ltb_lt in Hl as ->. by left.
  - apply elem_of_app. right. by apply (IH ptrs cells c).
Qed.

(** The field of row [r] and column [c], and the writes behind it. *)
Lemma all_fields_lookup rowSize cols ptrs rows r c cells x t sz :
  List.length ptrs = List.length cols → Forall (λ cells, List.length cells = List.length cols) rows →
  rows !! r = Some cells → cells !! c = Some x → cols !! c = Some (t, sz) →
  ∃ p, concat (all_fields rowSize ptrs rows) !! (r * List.length cols + c) =
         Some (mk_pfield (if c_null x then None else Some p) (c_length x) (Some c)) ∧
    (c_null x = false → (p, c_bytes x) ∈ all_writes rowSize cols ptrs rows ∧
      (is_text_type t = true → (c_length x < sz)%Z →
         (p + Z.to_nat (c_length x), [ch 0]) ∈ all_writes rowSize cols ptrs rows)).
Proof.
  intros Hl Hr Hrow Hx Hc.
  assert (∀ ptrs rows r, List.length ptrs = List.length cols →
    Forall (λ cells, List.length cells = List.length cols) rows → rows !! r = Some cells →
    ∃ p, (l ← all_fields rowSize ptrs rows !! r; l !! c) =
         Some (mk_pfield (if c_null x then None else Some p) (c_length x) (Some c)) ∧
    (c_null x = false → (p, c_bytes x) ∈ all_writes rowSize cols ptrs rows ∧
      (is_text_type t = true → (c_length x < sz)%Z →
         (p + Z.to_nat (c_length x), [ch 0]) ∈ all_writes rowSize cols ptrs rows))) as Hgen.
  { clear - Hx Hc. intros ptrs rows. revert ptrs. induction rows as [|cells0 rows IH]; intros ptrs [|r] Hl Hr Hrow;
      try done; apply Forall_cons in Hr as [H0 Hr].
    - cbn in Hrow. simplify_eq. destruct (lookup_lt_is_Some_2 ptrs c) as [p Hp].
      { rewrite Hl, <- H0. by eapply lookup_lt_Some. }
      exists p. cbn [all_fields list_lookup lookup mbind option_bind].
      pose proof (row_fields_lookup 0 ptrs cells c p x Hp Hx) as Hf. cbn in Hf |- *. split; [exact Hf|].
      intros Hn. split; [|intros Ht Hlt]; apply elem_of_app; left; apply elem_of_app.
      + left. by eapply writes1_intro.
      + right. by eapply writes2_intro.
    - destruct (IH (next_ptrs rowSize ptrs cells0) r) as (p & Hf & Hw); [|done|done|].
      { rewrite next_ptrs_length; lia. }
      exists p. split; [exact Hf|]. intros Hn. destruct (Hw Hn) as [H1 H2].
      split; [|intros Ht Hlt; specialize (H2 Ht Hlt)]; apply elem_of_app; by right. }
  destruct (Hgen ptrs rows r Hl Hr Hrow) as (p & Hf & Hw). exists p. split; [|done].
  rewrite concat_uniform; [done| |by eapply lookup_lt_Some].
  clear - Hl Hr. revert ptrs Hl. induction Hr as [|cells0 rows H0 Hr IH]; intros ptrs Hl; cbn; constructor.
  - rewrite row_fields_length; congruence.
  - apply IH. rewrite next_ptrs_length; lia.
Qed.

Lemma string_of_app l1 l2 : string_of (l1 ++ l2) = string_of l1 +:+ string_of l2.
Proof. induction l1 as [|c l1 IH]; [done|]. cbn. by rewrite IH. Qed.

Lemma holds_drop data off s :
  holds data off s → off + List.length s ≤ List.length data →
  drop off data = s ++ drop (off + List.length s) data.
Proof.
  intros Hh Hl. apply list_eq. intros i. rewrite lookup_drop.
  destruct (decide (i < List.length s)) as [Hi|Hi].
  - rewrite lookup_app_l by done. by apply Hh.
  - rewrite lookup_app_r by lia. rewrite lookup_drop. f_equal. lia.
Qed.

(** *** The layout of a row *)
Lemma SizeForType_nonneg t f : (0 ≤ SizeForType t f)%Z.
Proof. unfold SizeForType. destruct (mf_type f); try lia; by apply wrap_u_range. Qed.

Lemma sum_Z_nonneg sizes : Forall (λ s, (0 ≤ s)%Z) sizes → (0 ≤ sum_Z sizes)%Z.
Proof. unfold sum_Z. induction 1; cbn; lia. Qed.

Lemma offsets_spec o sizes c :
  Forall (λ s, (0 ≤ s)%Z) sizes → (0 ≤ o)%Z → (o + sum_Z sizes < 2 ^ 32)%Z → c < List.length sizes →
  offsets o sizes !! c = Some (Z.to_nat o + base (Z.to_nat <$> sizes) c).
Proof.
  intros Hs. revert o c. induction Hs as [|s sizes Hs0 Hs IH]; intros o c Ho Hsum Hc; [cbn in Hc; lia|].
  change (sum_Z (s :: sizes)) with (s + sum_Z sizes)%Z in Hsum. pose proof (sum_Z_nonneg _ Hs).
  destruct c as [|c]; cbn; [by rewrite Nat.add_0_r|]. cbn in Hc.
  rewrite wrap_u_small by lia. rewrite IH by lia. f_equal. unfold base. cbn. lia.
Qed.

Lemma offsets_length o sizes : List.length (offsets o sizes) = List.length sizes.
Proof. revert o. induction sizes as [|s sizes IH]; intros o; cbn; [done|]. by rewrite IH. Qed.

Lemma sum_Z_nat sizes :
  Forall (λ s, (0 ≤ s)%Z) sizes → sum_Z sizes = Z.of_nat (sum_list (Z.to_nat <$> sizes)).
Proof. induction 1 as [|s sizes Hs0 Hs IH]; [done|]. cbn. unfold sum_Z in IH. cbn in IH. lia. Qed.

(** ** The constructor *)
Section Construction.
Variable time_size : Z.
Variable junk : nat → ascii.

(** The library answers with rows that fit the columns it describes, and the
    result set is not too large for the 32-bit arithmetic of the code. *)
Record answers_ok (ans : stmt_answers) (fields : list MYSQL_FIELD) : Prop := {
  ao_fields : fields ≠ [];
  ao_num_rows : sa_num_rows ans = Z.of_nat (List.length (sa_rows ans));
  ao_rows : Forall (row_ok (columns time_size fields)) (sa_rows ans);
  ao_size : (sum_Z (columns time_size fields).*2 < 2 ^ 32)%Z;
  ao_count : (Z.of_nat (List.length (sa_rows ans) * List.length fields) < 2 ^ 32)%Z }.

(** The cell [x] of column [c], read back from the rows and the buffer. *)
Definition reads_back (rows : list pfield) (data : list ascii) (n r c : nat) (col : enum_field_types * Z) (x : cell)
    : Prop :=
  ∃ p, rows !! (r * n + c) = Some (mk_pfield (if c_null x then None else Some p) (c_length x) (Some c)) ∧
    (c_null x = false → ∃ rest, drop p data = c_bytes x ++ rest ∧
       (is_text_type col.1 = true → (c_length x < col.2)%Z → ∃ rest', rest = ch 0 :: rest')).

Lemma columns_length fields : List.length (columns time_size fields) = List.length fields.
Proof. unfold columns. by rewrite length_fmap. Qed.

Lemma columns_nonneg fields : Forall (λ s, (0 ≤ s)%Z) (columns time_size fields).*2.
Proof.
  apply Forall_forall. intros s Hs. unfold columns in Hs.
  apply list_elem_of_fmap in Hs as (p & -> & (f & -> & _)%list_elem_of_fmap). apply SizeForType_nonneg.
Qed.

Lemma row_length cols rows :
  Forall (row_ok cols) rows → Forall (λ cells, List.length cells = List.length cols) rows.
Proof.
  intros Hr. eapply Forall_impl; [exact Hr|]. intros cells Hc. symmetry. exact (Forall2_length _ _ _ Hc).
Qed.

Lemma start_ptrs_ok cols :
  Forall (λ s, (0 ≤ s)%Z) cols.*2 → (sum_Z cols.*2 < 2 ^ 32)%Z → ptrs_ok cols (λ _, 0) (offsets 0 cols.*2).
Proof.
  intros Hnn Hs. split; [by rewrite offsets_length, length_fmap|]. intros c p Hp.
  rewrite offsets_spec in Hp; [|done|lia|lia|].
  - injection Hp as <-. unfold reg. by rewrite Nat.mul_0_r, Nat.add_0_r.
  - apply lookup_lt_Some in Hp. by rewrite offsets_length in Hp.
Qed.

(** All writes of the rows fit a buffer of their size, and read back. *)
Lemma written_rows_read_back cols ptrs rows buf :
  ptrs_ok cols (λ _, 0) ptrs → Forall (row_ok cols) rows →
  List.length buf = row_size (szs cols) * List.length rows →
  ∃ data, write_all (all_writes (row_size (szs cols)) cols ptrs rows) buf = Done data ∧
    ∀ r c cells x col, rows !! r = Some cells → cells !! c = Some x → cols !! c = Some col →
      reads_back (concat (all_fields (row_size (szs cols)) ptrs rows)) data (List.length cols) r c col x.
Proof.
  intros Hptrs Hrows Hbuf.
  destruct (all_writes_slots cols (λ _, 0) ptrs rows Hptrs Hrows) as [Hslots Hdis].
  destruct (write_all_spec (all_writes (row_size (szs cols)) cols ptrs rows) buf)
    as (data & Hw & Hld & Hh & _); [|exact Hdis|].
  { apply Forall_forall. intros w Hw. destruct (Hslots w Hw) as (c & k & Hin & Hk). cbn in Hk.
    rewrite Hbuf. eapply in_slot_bound; [exact Hin|lia]. }
  exists data. split; [exact Hw|]. intros r c cells x [t sz] Hr Hx Hc.
  destruct (all_fields_lookup (row_size (szs cols)) cols ptrs rows r c cells x t sz)
    as (p & Hf & Hin); [by apply Hptrs|by apply row_length|done..|].
  exists p. split; [done|]. intros Hnull. destruct (Hin Hnull) as [H1 H2].
  assert (p + List.length (c_bytes x) ≤ List.length data) as Hb1.
  { destruct (Hslots _ H1) as (c' & k & Hs & Hk). rewrite Hld, Hbuf.
    apply (in_slot_bound _ _ _ _ _ Hs). cbn in Hk. lia. }
  exists (drop (p + List.length (c_bytes x)) data). split; [apply holds_drop; [exact (Hh _ H1)|done]|].
  intros Ht Hlt. specialize (H2 Ht Hlt). rewrite Forall_lookup in Hrows.
  destruct (cols_lookup cols cells c x (Hrows r cells Hr) Hx) as (t' & sz' & _ & Hok & _).
  destruct (Hok Hnull) as [Hcl _]. rewrite Hcl, Nat2Z.id in H2.
  pose proof (Hh _ H2 0 ltac:(cbn; lia)) as H0. cbn in H0. rewrite Nat.add_0_r in H0.
  exists (drop (S (p + List.length (c_bytes x))) data). by apply drop_S.
Qed.

Lemma fetch_all ans fields :
  answers_ok ans fields →
  let cols := columns time_size fields in
  let rowSize := sum_Z cols.*2 in
  let rowCount := sa_num_rows ans in
  let fieldCount := Z.of_nat (List.length fields) in
  ∃ s, fetch_loop (Z.to_nat rowSize) rowCount fieldCount cols (sa_rows ans) 0
         (mk_fetch_state (offsets 0 cols.*2) (fresh_buffer junk (Z.to_nat (wrap_u 64 (rowSize * rowCount))))
            (replicate (Z.to_nat (wrap_u 32 (wrap_u 32 rowCount * fieldCount))) pfield_new)) = Done s ∧
    ∀ r c cells x col, sa_rows ans !! r = Some cells → cells !! c = Some x → cols !! c = Some col →
      reads_back (fs_rows s) (fs_data s) (List.length fields) r c col x.
Proof.
  intros [Hne -> Hrows Hsize Hcount] cols rowSize rowCount fieldCount. fold cols in Hrows, Hsize.
  set (rows := sa_rows ans) in *. set (n := List.length fields) in *.
  assert (List.length cols = n) as Hn by apply columns_length.
  assert (0 < n)%nat as Hn0 by (destruct fields; [done|cbn in n; lia]).
  pose proof (columns_nonneg fields) as Hnn. fold cols in Hnn.
  assert (rowSize = Z.of_nat (row_size (szs cols))) as Hrs by (by apply sum_Z_nat).
  assert (Z.of_nat (List.length rows) ≤ Z.of_nat (List.length rows * n))%Z as Hle by nia.
  assert (Z.to_nat (wrap_u 32 (wrap_u 32 rowCount * fieldCount)) = List.length rows * n) as ->.
  { unfold rowCount, fieldCount. rewrite (wrap_u_small 32 (Z.of_nat (List.length rows))) by (fold rows; lia).
    rewrite wrap_u_small by (fold rows n; lia). fold rows n. lia. }
  destruct (written_rows_read_back cols (offsets 0 cols.*2) rows
    (fresh_buffer junk (Z.to_nat (wrap_u 64 (rowSize * rowCount))))) as (data & Hw & Hread);
    [by apply start_ptrs_ok|done| |].
  { unfold fresh_buffer. rewrite length_fmap, length_seq, wrap_u_small; unfold rowCount; fold rows;
      rewrite Hrs; [lia|]. unfold rowSize in Hrs. rewrite Hrs in Hsize. nia. }
  pose proof (fetch_loop_spec (Z.to_nat rowSize) cols rows 0 [] (offsets 0 cols.*2)
    (fresh_buffer junk (Z.to_nat (wrap_u 64 (rowSize * rowCount))))) as Hspec. cbn zeta in Hspec.
  rewrite Hn in Hspec. cbn [Nat.add List.length Nat.mul app] in Hspec.
  change (Z.of_nat (List.length rows)) with rowCount in Hspec.
  change (Z.of_nat n) with fieldCount in Hspec. change (Z.of_nat 0) with 0%Z in Hspec. rewrite Hspec;
    [|done|by rewrite offsets_length, length_fmap|rewrite <- Hn; by apply row_length|done|exact Hcount].
  rewrite Hrs in Hw |- *. rewrite Nat2Z.id, Hw. eexists. split; [done|]. by rewrite <- Hn.
Qed.
End Construction.

(** *** The heap *)
Definition old_arrays (stmt : MySQLStmt) : gset nat :=
  if bind_result_done stmt then {[st_length stmt; st_is_null stmt]} else ∅.

(** Blocks are below [fresh_block]; the metadata of the result and the arrays a
    statement remembers are allocated, and different. *)
Record memory_ok (h : heap) (stmt : MySQLStmt) (res : nat) : Prop := {
  mo_fresh : ∀ b, b ∈ live h → b < fresh_block h;
  mo_res : res ∈ live h;
  mo_stmt : bind_result_done stmt = true →
    st_length stmt ∈ live h ∧ st_is_null stmt ∈ live h ∧
    st_length stmt ≠ st_is_null stmt ∧ res ≠ st_length stmt ∧ res ≠ st_is_null stmt }.

Lemma delete_block_live b h :
  b ∈ live h → delete_block b h = Done (mk_heap (live h ∖ {[b]}) (fresh_block h)).
Proof. intros H. unfold delete_block. by rewrite bool_decide_true. Qed.

Lemma delete_block_dead b h : b ∉ live h → delete_block b h = Crash "double free".
Proof. intros H. unfold delete_block. by rewrite bool_decide_false. Qed.

(** The arrays of the previous result are freed, three blocks are allocated. *)
Lemma prologue h stmt res :
  memory_ok h stmt res →
  ∃ h1, (if bind_result_done stmt
         then h ← delete_block (st_length stmt) h; delete_block (st_is_null stmt) h
         else (Done h : out heap)) = Done h1 ∧
    fresh_block h1 = fresh_block h ∧ live h1 = live h ∖ old_arrays stmt ∧ res ∈ live h1.
Proof.
  intros [Hf Hr Hs]. unfold old_arrays. destruct (bind_result_done stmt).
  - destruct Hs as (H1 & H2 & H3 & H4 & H5); [done|]. rewrite delete_block_live by done.
    cbn [mbind outcome_bind]. rewrite delete_block_live by (cbn; set_solver).
    eexists. split; [done|]. cbn. split; [done|]. split; [set_solver|set_solver].
  - exists h. split; [done|]. split; [done|]. split; [set_solver|done].
Qed.

Section Lifetime.
Variable time_size : Z.
Variable junk : nat → ascii.

(** What the constructor makes of the heap in its three outcomes. *)
Lemma PreparedResultSet_new_ok ans fields res rowCount stmt h :
  memory_ok h stmt res → answers_ok time_size ans fields →
  sa_store_fails ans = false → sa_bind_fails ans = false →
  let f := fresh_block h in
  ∃ s, PreparedResultSet_new time_size junk ans fields (Some res) rowCount stmt h =
    Done (mk_PreparedResultSet (metadata_of fields) (fs_rows s) (sa_num_rows ans) 0
            (Z.of_nat (List.length fields)) (Some (f, Some (S (S (S f))))) (Some res) (fs_data s),
          mk_MySQLStmt true (S (S f)) (S f),
          mk_heap ({[S (S (S f)); S (S f); S f; f]} ∪ live h ∖ old_arrays stmt) (S (S (S (S f))))) ∧
    ∀ r c cells x col, sa_rows ans !! r = Some cells → cells !! c = Some x →
      columns time_size fields !! c = Some col →
      reads_back (fs_rows s) (fs_data s) (List.length fields) r c col x.
Proof.
  intros Hm Ha Hst Hb f. destruct (fetch_all time_size junk ans fields Ha) as (s & Hs & Hread).
  exists s. split; [|exact Hread]. unfold PreparedResultSet_new.
  destruct (prologue h stmt res Hm) as (h1 & -> & Hf & Hl & _). cbn [mbind outcome_bind].
  unfold new_block. cbn [fresh_block live]. rewrite Hst, Hb. cbv zeta. rewrite Hs.
  cbn [mbind outcome_bind]. rewrite Hf, Hl. fold f. do 3 f_equal. set_solver.
Qed.

(** A result set whose [mysql_stmt_store_result] failed cannot be destroyed. *)
Lemma PreparedResultSet_store_failed ans fields res rowCount stmt h :
  memory_ok h stmt res → sa_store_fails ans = true →
  ∃ rs stmt' h', PreparedResultSet_new time_size junk ans fields (Some res) rowCount stmt h =
    Done (rs, stmt', h') ∧ PreparedResultSet_CleanUp rs h' = Crash "use after free".
Proof.
  intros Hm Hst. unfold PreparedResultSet_new.
  destruct (prologue h stmt res Hm) as (h1 & -> & Hf & Hl & Hr). cbn [mbind outcome_bind].
  unfold new_block. cbn [fresh_block live]. rewrite Hst.
  assert (∀ b, b ∈ live h1 → b < fresh_block h1) as Hfr.
  { rewrite Hl, Hf. intros b Hb. apply (mo_fresh _ _ _ Hm). set_solver. }
  rewrite (delete_block_live (fresh_block h1)) by (cbn; set_solver). cbn [mbind outcome_bind live fresh_block].
  rewrite (delete_block_live (S (fresh_block h1))) by (cbn; set_solver by lia). cbn [mbind outcome_bind live fresh_block].
  rewrite (delete_block_live (S (S (fresh_block h1)))) by (cbn; set_solver by lia).
  cbn [mbind outcome_bind live fresh_block]. do 3 eexists. split; [done|]. unfold PreparedResultSet_CleanUp.
  cbn [prs_metadataResult prs_rBind]. pose proof (Hfr res Hr).
  rewrite delete_block_live by (cbn; set_solver by lia). cbn [mbind outcome_bind]. unfold read_block.
  rewrite bool_decide_false; [done|]. cbn. set_solver.
Qed.

(** One whose [mysql_stmt_bind_result] failed frees its metadata twice. *)
Lemma PreparedResultSet_bind_failed ans fields res rowCount stmt h :
  memory_ok h stmt res → sa_store_fails ans = false → sa_bind_fails ans = true →
  ∃ rs stmt' h', PreparedResultSet_new time_size junk ans fields (Some res) rowCount stmt h =
    Done (rs, stmt', h') ∧ PreparedResultSet_CleanUp rs h' = Crash "double free".
Proof.
  intros Hm Hst Hb. unfold PreparedResultSet_new.
  destruct (prologue h stmt res Hm) as (h1 & -> & Hf & Hl & Hr). cbn [mbind outcome_bind].
  unfold new_block. cbn [fresh_block live]. rewrite Hst, Hb.
  assert (∀ b, b ∈ live h1 → b < fresh_block h1) as Hfr.
  { rewrite Hl, Hf. intros b Hin. apply (mo_fresh _ _ _ Hm). set_solver. }
  pose proof (Hfr res Hr). unfold PreparedResultSet_CleanUp at 1. cbn [prs_metadataResult prs_rBind].
  rewrite (delete_block_live res) by (cbn; set_solver). cbn [mbind outcome_bind live fresh_block].
  unfold read_block. rewrite bool_decide_true by (cbn; set_solver by lia). cbn [assert mbind outcome_bind].
  rewrite (delete_block_live (S (S (S (fresh_block h1))))) by (cbn; set_solver by lia).
  cbn [mbind outcome_bind live fresh_block].
  rewrite (delete_block_live (fresh_block h1)) by (cbn; set_solver by lia). cbn [mbind outcome_bind live fresh_block].
  rewrite (delete_block_live (S (fresh_block h1))) by (cbn; set_solver by lia). cbn [mbind outcome_bind live fresh_block].
  rewrite (delete_block_live (S (S (fresh_block h1)))) by (cbn; set_solver by lia).
  cbn [mbind outcome_bind live fresh_block]. do 3 eexists. split; [done|]. unfold PreparedResultSet_CleanUp.
  cbn [prs_metadataResult prs_rBind]. rewrite delete_block_dead; [done|]. cbn. set_solver.
Qed.

End Lifetime.

(** Destroying a complete result set leaves the two arrays of the statement. *)
Lemma PreparedResultSet_destroyed h stmt res (rs : PreparedResultSet) :
  memory_ok h stmt res →
  let f := fresh_block h in
  prs_rBind rs = Some (f, Some (S (S (S f)))) → prs_metadataResult rs = Some res →
  ∃ rs', PreparedResultSet_CleanUp rs
    (mk_heap ({[S (S (S f)); S (S f); S f; f]} ∪ live h ∖ old_arrays stmt) (S (S (S (S f))))) =
    Done (rs', mk_heap ({[S (S f); S f]} ∪ live h ∖ old_arrays stmt ∖ {[res]}) (S (S (S (S f))))).
Proof.
  intros Hm f Hb Hr. pose proof (mo_res _ _ _ Hm) as Hres. pose proof (mo_fresh _ _ _ Hm) as Hfr.
  assert (∀ b, b ∈ live h → b ≠ f ∧ b ≠ S f ∧ b ≠ S (S f) ∧ b ≠ S (S (S f))) as Hne.
  { intros b Hin. pose proof (Hfr b Hin). unfold f. lia. }
  assert (res ∉ old_arrays stmt) as Hold.
  { unfold old_arrays. destruct (bind_result_done stmt) eqn:E; [|set_solver].
    destruct (mo_stmt _ _ _ Hm E) as (_ & _ & _ & H1 & H2). set_solver. }
  destruct (Hne res Hres) as (H1 & H2 & H3 & H4).
  unfold PreparedResultSet_CleanUp. rewrite Hr, Hb.
  rewrite (delete_block_live res) by (cbn; set_solver). cbn [mbind outcome_bind live fresh_block].
  unfold read_block. rewrite bool_decide_true by (cbn; set_solver). cbn [assert mbind outcome_bind].
  rewrite (delete_block_live (S (S (S f)))) by (cbn; set_solver by lia). cbn [mbind outcome_bind live fresh_block].
  rewrite (delete_block_live f) by (cbn; set_solver by lia). cbn [mbind outcome_bind live fresh_block].
  eexists. do 3 f_equal. apply set_eq. intros b. specialize (Hne b).
  rewrite !elem_of_difference, !elem_of_union, !elem_of_difference, !elem_of_singleton.
  destruct (decide (b ∈ live h)) as [Hin|Hin].
  - destruct (Hne Hin) as (? & ? & ? & ?). naive_solver.
  - split; [naive_solver|]. intros [[->| ->]|[[? ?] ?]]; [| |done];
      (split; [split; [split|]|]); try lia; naive_solver lia.
Qed.

(** *** Walking over all rows *)
Definition set_pos (q : Z) (rs : PreparedResultSet) : PreparedResultSet :=
  mk_PreparedResultSet (prs_fieldMetadata rs) (prs_rows rs) (prs_rowCount rs) q (prs_fieldCount rs)
    (prs_rBind rs) (prs_metadataResult rs) (prs_data rs).

Lemma for_rows_spec {A : Type} (body : PreparedResultSet → out A) (l : list A) rs :
  l ≠ [] → (0 ≤ prs_rowPosition rs)%Z → (prs_rowCount rs < 2 ^ 64)%Z →
  prs_rowCount rs = (prs_rowPosition rs + Z.of_nat (List.length l))%Z →
  (∀ j a, l !! j = Some a → body (set_pos (prs_rowPosition rs + Z.of_nat j) rs) = Done a) →
  for_rows (List.length l) body rs = Done (l, set_pos (prs_rowCount rs) rs).
Proof.
  revert rs. induction l as [|a l IH]; intros rs Hne Hp Hc Hn Hb; [done|].
  cbn [List.length] in Hn. cbn [List.length for_rows].
  pose proof (Hb 0 a eq_refl) as H0. rewrite Z.add_0_r in H0.
  assert (set_pos (prs_rowPosition rs) rs = rs) as Hid by (by destruct rs). rewrite Hid in H0.
  rewrite H0. cbn [mbind outcome_bind]. unfold PreparedResultSet_NextRow. rewrite wrap_u_small by lia.
  fold (set_pos (prs_rowPosition rs + 1) rs). destruct l as [|b l].
  - cbn in Hn. destruct (Z.leb_spec (prs_rowCount rs) (prs_rowPosition rs + 1)); [|lia]. cbn [negb].
    do 3 f_equal. lia.
  - destruct (Z.leb_spec (prs_rowCount rs) (prs_rowPosition rs + 1)); [cbn in Hn; lia|]. cbn [negb].
    rewrite (IH (set_pos (prs_rowPosition rs + 1) rs)).
    + done.
    + done.
    + cbn. lia.
    + done.
    + cbn [prs_rowCount prs_rowPosition set_pos]. cbn [List.length] in Hn. cbn [List.length]. lia.
    + intros j x Hj. specialize (Hb (S j) x Hj). cbn [prs_rowPosition set_pos] in *.
      unfold set_pos in *. cbn in *. rewrite <- Hb. f_equal. f_equal. lia.
Qed.

(** *** Types of the fields

    A field the constructor has filled belongs to the column of its place. *)
Definition rows_typed (n : nat) (rows : list pfield) : Prop :=
  ∀ k p, rows !! k = Some p → p = pfield_new ∨ pf_meta p = Some (k mod n).

Lemma insert_row_typed n k f rows rows' c :
  rows_typed n rows → insert_row k f rows = Done rows' → pf_meta f = Some c → k mod n = c →
  rows_typed n rows' ∧ List.length rows' = List.length rows.
Proof.
  unfold insert_row. destruct (Nat.ltb_spec k (List.length rows)); [|done]. intros Ht [= <-] Hm Hk.
  split; [|apply length_insert]. intros k' p Hp.
  destruct (decide (k' = k)) as [->|Hne].
  - rewrite list_lookup_insert_eq in Hp by done. simplify_eq. by right.
  - rewrite list_lookup_insert_ne in Hp by done. by eapply Ht.
Qed.

Lemma fill_row_typed rowSize position n fIndex cols cells s s' total :
  List.length (fs_rows s) = total → rows_typed n (fs_rows s) → fIndex + List.length cols = n → (0 ≤ position)%Z →
  (position * Z.of_nat n + Z.of_nat n ≤ Z.of_nat total)%Z → (Z.of_nat total < 2 ^ 32)%Z →
  fill_row rowSize position (Z.of_nat n) fIndex cols cells s = Done s' →
  rows_typed n (fs_rows s') ∧ List.length (fs_rows s') = total.
Proof.
  revert fIndex cells s. induction cols as [|[t sz] cols IH];
    intros fIndex cells s Hlen Ht Hn Hp Htot Hmax Hf; cbn in Hf; [by simplify_eq|].
  destruct cells as [|x cells]; [done|]. apply outcome_bind_Done in Hf as (s1 & H1 & Hf).
  cbn in Hn.
  assert (rows_typed n (fs_rows s1) ∧ List.length (fs_rows s1) = total) as [Ht1 Hl1].
  { unfold fill_column in H1. set (k := row_index position (Z.of_nat n) fIndex) in *.
    assert (k = Z.to_nat position * n + fIndex) as Hk.
    { unfold k. pose proof (row_index_small (Z.to_nat position) n fIndex) as Hr.
      rewrite Z2Nat.id in Hr by done. apply Hr; [|lia]. nia. }
    assert (k mod n = fIndex) as Hmod.
    { rewrite Hk, Nat.add_comm, Nat.Div0.mod_add. apply Nat.mod_small. lia. }
    destruct (negb (c_null x)).
    - destruct (fs_ptrs s !! fIndex); [|done]. apply outcome_bind_Done in H1 as (d & _ & H1).
      apply outcome_bind_Done in H1 as (rows' & H1 & [= <-]). cbn.
      rewrite <- Hlen. by eapply (insert_row_typed n k _ _ _ fIndex).
    - apply outcome_bind_Done in H1 as (rows' & H1 & [= <-]). cbn.
      rewrite <- Hlen. by eapply (insert_row_typed n k _ _ _ fIndex). }
  by apply (IH (S fIndex) cells s1); [|done|lia|..].
Qed.

Lemma fetch_loop_typed rowSize n cols rows rowCount position s s' total :
  List.length (fs_rows s) = total → rows_typed n (fs_rows s) → List.length cols = n → (0 ≤ position)%Z →
  (rowCount * Z.of_nat n ≤ Z.of_nat total)%Z → (Z.of_nat total < 2 ^ 32)%Z →
  fetch_loop rowSize rowCount (Z.of_nat n) cols rows position s = Done s' →
  rows_typed n (fs_rows s') ∧ List.length (fs_rows s') = total.
Proof.
  revert position s. induction rows as [|cells rows IH];
    intros position s Hlen Ht Hn Hp Htot Hmax Hf; cbn in Hf; [by simplify_eq|].
  destruct (Z.leb_spec rowCount position); [by simplify_eq|].
  apply outcome_bind_Done in Hf as (d & _ & Hf). apply outcome_bind_Done in Hf as (s1 & H1 & Hf).
  eapply (fill_row_typed _ _ _ _ _ _ _ _ total) in H1 as [Ht1 Hl1]; [|done|done|done|done|nia|done].
  by apply (IH (position + 1)%Z s1); [..|lia|done|done|done].
Qed.

(** *** Walking over a result *)
(** The field of row [r] and column [c], for [n] columns. *)
Definition cell_field (rs : PreparedResultSet) (n c r : nat) : Field :=
  match prs_rows rs !! (r * n + c) with Some p => field_of rs p | None => Field_new end.

Lemma at_in_range rs n c q :
  prs_fieldCount rs = Z.of_nat n → c < n → (Z.of_nat q < prs_rowCount rs)%Z →
  (Z.of_nat (q * n + c) < 2 ^ 32)%Z →
  PreparedResultSet_at c (set_pos (Z.of_nat q) rs) =
    match prs_rows rs !! (q * n + c) with
    | Some p => Done (field_of rs p)
    | None => Crash "_rows: index out of range"
    end.
Proof.
  intros Hfc Hc Hq Hlt. unfold PreparedResultSet_at.
  cbn [prs_rowPosition prs_rowCount prs_fieldCount set_pos prs_rows]. rewrite Hfc.
  rewrite (proj2 (Z.ltb_lt (Z.of_nat q) (prs_rowCount rs)) Hq).
  rewrite (proj2 (Z.ltb_lt (Z.of_nat c) (Z.of_nat n))) by lia.
  cbn [assert mbind outcome_bind]. by rewrite row_index_small by lia.
Qed.

Lemma walk_column rs n c k :
  (0 < k)%nat → prs_rowPosition rs = 0%Z → prs_rowCount rs = Z.of_nat k → prs_fieldCount rs = Z.of_nat n →
  c < n → (Z.of_nat (k * n) < 2 ^ 32)%Z → (∀ r, r < k → is_Some (prs_rows rs !! (r * n + c))) →
  for_rows k (PreparedResultSet_at c) rs = Done (cell_field rs n c <$> seq 0 k, set_pos (prs_rowCount rs) rs).
Proof.
  intros Hk Hpos Hrc Hfc Hc Hmax Hin.
  pose proof (for_rows_spec (PreparedResultSet_at c) (cell_field rs n c <$> seq 0 k) rs) as Hfor.
  rewrite length_fmap, length_seq in Hfor. apply Hfor.
  - destruct k; [lia|done].
  - by rewrite Hpos.
  - rewrite Hrc. nia.
  - by rewrite Hrc, Hpos.
  - intros j a Hj. rewrite list_lookup_fmap in Hj.
    destruct (seq 0 k !! j) as [i|] eqn:Hi; [|done]. apply lookup_seq in Hi as [-> Hjl]. injection Hj as <-.
    rewrite Hpos, Z.add_0_l, (at_in_range rs n) by (done || nia).
    destruct (Hin j Hjl) as [p Hp]. unfold cell_field. cbn [Nat.add]. by rewrite Hp.
Qed.

(** A field that is read has the metadata of its column, or none. *)
Lemma at_typed rs fields c q f :
  rows_typed (List.length fields) (prs_rows rs) → prs_fieldMetadata rs = metadata_of fields →
  prs_fieldCount rs = Z.of_nat (List.length fields) →
  (prs_rowCount rs * Z.of_nat (List.length fields) < 2 ^ 32)%Z → (0 ≤ q < prs_rowCount rs)%Z →
  PreparedResultSet_at c (set_pos q rs) = Done f →
  (fd_value f = None ∧ fd_meta f = None) ∨
  (∃ fld, fields !! c = Some fld ∧ fd_meta f = Some (InitializeDatabaseFieldMetadata fld c) ∧ fd_raw f = true).
Proof.
  intros Ht Hm Hf Hc Hq Hat.
  assert (c < List.length fields) as Hcn.
  { unfold PreparedResultSet_at in Hat. cbn [prs_fieldCount set_pos] in Hat.
    apply outcome_bind_Done in Hat as (? & _ & Hat). apply outcome_bind_Done in Hat as (u & Hlt & _).
    unfold assert in Hlt. rewrite Hf in Hlt. destruct (Z.ltb_spec (Z.of_nat c) (Z.of_nat (List.length fields))); [lia|done]. }
  rewrite <- (Z2Nat.id q) in Hat by lia. rewrite (at_in_range rs (List.length fields)) in Hat by (done || nia).
  destruct (prs_rows rs !! _) as [p|] eqn:Hp; [|done]. injection Hat as <-.
  destruct (Ht _ _ Hp) as [->|Hmeta]; [by left|]. right.
  rewrite Nat.add_comm, Nat.Div0.mod_add, Nat.mod_small in Hmeta by lia.
  destruct (lookup_lt_is_Some_2 fields c) as [fld Hfld]; [lia|]. exists fld. split; [done|].
  unfold field_of. cbn. rewrite Hmeta. cbn. split; [|done]. rewrite Hm. unfold metadata_of.
  by rewrite list_lookup_imap, Hfld.
Qed.

(** Without rows nothing is read. *)
Lemma at_no_rows rs c q f : prs_rows rs = [] → PreparedResultSet_at c (set_pos q rs) ≠ Done f.
Proof.
  intros Hr. unfold PreparedResultSet_at. cbn [set_pos prs_rows]. rewrite Hr.
  intros Hat. by repeat (apply outcome_bind_Done in Hat as (? & _ & Hat)).
Qed.

(** ** Properties *)

(** C6 A prepared result gives back what the server sent.  When the library
    stores and binds the result, the constructor copies all rows without
    writing past its buffer, and walking over the result reads, column by
    column and row by row, exactly the bytes of each cell: no cell overwrites
    another one, whatever is NULL, and texts end with a zero when they have
    room for it. *)
Theorem prepared_rows_read_back time_size junk ans fields res rowCount stmt h :
  memory_ok h stmt res → answers_ok time_size ans fields →
  sa_store_fails ans = false → sa_bind_fails ans = false → sa_rows ans ≠ [] →
  ∃ rs stmt' h', PreparedResultSet_new time_size junk ans fields (Some res) rowCount stmt h =
      Done (rs, stmt', h') ∧
    ∀ c fld, fields !! c = Some fld →
      ∃ column rs', for_rows (List.length (sa_rows ans)) (PreparedResultSet_at c) rs = Done (column, rs') ∧
        ∀ r cells x, sa_rows ans !! r = Some cells → cells !! c = Some x →
          ∃ f, column !! r = Some f ∧ fd_meta f = Some (InitializeDatabaseFieldMetadata fld c) ∧
            fd_raw f = true ∧ fd_length f = c_length x ∧
            if c_null x then fd_value f = None
            else ∃ rest, fd_value f = Some (string_of (c_bytes x) +:+ rest) ∧
              (is_text_type (mf_type fld) = true → (c_length x < SizeForType time_size fld)%Z →
               ∃ rest', rest = String (ch 0) rest').
Proof.
  intros Hm Ha Hst Hb Hne.
  destruct (PreparedResultSet_new_ok time_size junk ans fields res rowCount stmt h Hm Ha Hst Hb)
    as (s & Hnew & Hread).
  destruct Ha as [Hfne Hnum Hrows Hsize Hcount]. set (rows := sa_rows ans) in *. set (n := List.length fields) in *.
  match type of Hnew with _ = Done (?r, _, _) => set (rs := r) in * end.
  eexists rs, _, _. split; [exact Hnew|]. intros c fld Hc.
  assert (c < n) as Hcn by (by eapply lookup_lt_Some).
  assert (columns time_size fields !! c = Some (mf_type fld, SizeForType time_size fld)) as Hcol.
  { unfold columns. by rewrite list_lookup_fmap, Hc. }
  exists (cell_field rs n c <$> seq 0 (List.length rows)), (set_pos (prs_rowCount rs) rs). split.
  - apply (walk_column rs n c (List.length rows)); [destruct rows; [done|cbn; lia]|done|done|done|done|done|].
    intros r Hr. destruct (lookup_lt_is_Some_2 rows r Hr) as [cells Hcells].
    assert (List.length cells = n) as Hlen.
    { rewrite Forall_lookup in Hrows. specialize (Hrows r cells Hcells). apply Forall2_length in Hrows.
      by rewrite columns_length in Hrows. }
    destruct (lookup_lt_is_Some_2 cells c) as [x Hx]; [lia|].
    destruct (Hread r c cells x _ Hcells Hx Hcol) as (p & Hp & _). by exists (mk_pfield (if c_null x then None else Some p) (c_length x) (Some c)).
  - intros r cells x Hr Hx. destruct (Hread r c cells x _ Hr Hx Hcol) as (p & Hp & Hval).
    exists (field_of rs (mk_pfield (if c_null x then None else Some p) (c_length x) (Some c))).
    rewrite list_lookup_fmap, lookup_seq_lt by (by eapply lookup_lt_Some). unfold cell_field. cbn [Nat.add fmap option_fmap option_map].
    change (prs_rows rs) with (fs_rows s). rewrite Hp. split; [done|]. split; [|split; [done|split; [done|]]].
    + cbn. unfold metadata_of. by rewrite list_lookup_imap, Hc.
    + destruct (c_null x); [done|]. destruct (Hval eq_refl) as (rest & Hd & Hz).
      exists (string_of rest). split.
      * unfold field_of. cbn [fd_value pf_value fmap option_fmap option_map prs_data rs]. by rewrite Hd, string_of_app.
      * intros H1 H2. destruct (Hz H1 H2) as [rest' ->]. by exists (string_of rest').
Qed.

(** C29 Fields are typed by their column, whatever the library answers: if the
    constructor returns, then at every position of the result [operator[]]
    gives, for column [c], either a field that holds nothing at all (a row that
    could not be fetched) or a field with the metadata of column [c]. *)
Theorem result_fields_typed time_size junk ans fields res rowCount stmt h rs stmt' h' :
  fields ≠ [] → (0 ≤ sa_num_rows ans)%Z →
  (sa_num_rows ans * Z.of_nat (List.length fields) < 2 ^ 32)%Z →
  PreparedResultSet_new time_size junk ans fields (Some res) rowCount stmt h = Done (rs, stmt', h') →
  ∀ q c f, (0 ≤ q < prs_rowCount rs)%Z → PreparedResultSet_at c (set_pos q rs) = Done f →
    (fd_value f = None ∧ fd_meta f = None) ∨
    (∃ fld, fields !! c = Some fld ∧ fd_meta f = Some (InitializeDatabaseFieldMetadata fld c) ∧ fd_raw f = true).
Proof.
  intros Hne Hnum Hcount Hnew q c f Hq Hat.
  assert (0 < List.length fields)%nat as Hn0 by (destruct fields; [done|cbn; lia]).
  revert Hnew. unfold PreparedResultSet_new. intros (h1 & _ & Hnew)%outcome_bind_Done.
  unfold new_block in Hnew. cbn in Hnew. destruct (sa_store_fails ans); [|destruct (sa_bind_fails ans)].
  - repeat (apply outcome_bind_Done in Hnew as (? & _ & Hnew)). injection Hnew as <- _ _.
    exfalso. by eapply at_no_rows; [|exact Hat].
  - apply outcome_bind_Done in Hnew as ([rs1 h2] & Hcl & Hnew).
    repeat (apply outcome_bind_Done in Hnew as (? & _ & Hnew)). injection Hnew as -> _ _.
    exfalso. unfold PreparedResultSet_CleanUp in Hcl. cbn in Hcl.
    repeat (apply outcome_bind_Done in Hcl as (? & _ & Hcl)). injection Hcl as <- _.
    by eapply at_no_rows; [|exact Hat].
  - apply outcome_bind_Done in Hnew as (s & Hs & Hnew). injection Hnew as <- _ _.
    apply (fun Ht Hm Hf Hc => at_typed _ fields c q f Ht Hm Hf Hc Hq Hat); [|done|done|exact Hcount]. cbn.
    rewrite (wrap_u_small 32 (sa_num_rows ans)),
      (wrap_u_small 32 (sa_num_rows ans * Z.of_nat (List.length fields))) in Hs by nia.
    eapply fetch_loop_typed in Hs as [Ht _]; [exact Ht|reflexivity| |apply columns_length|done|..];
      cbn; rewrite ?length_replicate, ?Z2Nat.id by nia; [|done|exact Hcount].
    intros k p Hp. apply lookup_replicate in Hp as [-> _]. by left.
Qed.

(** C31 The blocks of a result set.  When the library stores and binds the
    result, constructing a result set and destroying it frees every block
    once: what is left are the two arrays the statement remembers, in the place
    of the two it remembered before.  When the library cannot store the result,
    the destructor uses the freed [_rBind]; when it cannot bind it, the
    destructor frees the metadata a second time. *)
Theorem result_set_lifetime time_size junk ans fields res rowCount stmt h :
  memory_ok h stmt res → answers_ok time_size ans fields →
  ∃ rs stmt' h', PreparedResultSet_new time_size junk ans fields (Some res) rowCount stmt h =
      Done (rs, stmt', h') ∧
    if sa_store_fails ans then PreparedResultSet_CleanUp rs h' = Crash "use after free"
    else if sa_bind_fails ans then PreparedResultSet_CleanUp rs h' = Crash "double free"
    else ∃ rs' h'', PreparedResultSet_CleanUp rs h' = Done (rs', h'') ∧
      live h'' = live h ∖ old_arrays stmt ∖ {[res]} ∪ old_arrays stmt' ∧
      old_arrays stmt' = {[st_length stmt'; st_is_null stmt']} ∧ st_length stmt' ≠ st_is_null stmt' ∧
      ∀ res', res' ∉ live h' → memory_ok (mk_heap ({[res']} ∪ live h'') (S (max res' (fresh_block h'')))) stmt' res'.
Proof.
  intros Hm Ha. destruct (sa_store_fails ans) eqn:Hst; [by eapply PreparedResultSet_store_failed|].
  destruct (sa_bind_fails ans) eqn:Hb; [by eapply PreparedResultSet_bind_failed|].
  destruct (PreparedResultSet_new_ok time_size junk ans fields res rowCount stmt h Hm Ha Hst Hb)
    as (s & Hnew & _). cbv zeta in Hnew.
  match type of Hnew with _ = Done (?r, ?st, ?hp) => set (rs := r) in *; set (stmt' := st) in *; set (h' := hp) in * end.
  exists rs, stmt', h'. split; [exact Hnew|].
  destruct (PreparedResultSet_destroyed h stmt res rs Hm eq_refl eq_refl) as (rs' & Hd). cbv zeta in Hd.
  eexists rs', _. split; [exact Hd|]. unfold stmt'. cbn. unfold old_arrays at 2 3. cbn.
  split; [set_solver|]. split; [done|]. split; [lia|]. intros res' Hres.
  pose proof (mo_fresh _ _ _ Hm) as Hfr. unfold h' in Hres. cbn in Hres. split; cbn.
  - intros b. rewrite !elem_of_union, !elem_of_difference, !elem_of_singleton.
    intros [->|[[->| ->]|[[Hin _] _]]]; [lia..|]. apply Hfr in Hin. lia.
  - set_solver.
  - intros _. set_solver by lia.
Qed.

(** ** A concrete result: an INT and a VARCHAR column, three rows *)
#[local] Definition toy_fields : list MYSQL_FIELD :=
  [mk_MYSQL_FIELD "t" "t" "id" "id" MYSQL_TYPE_LONG 2 false;
   mk_MYSQL_FIELD "t" "t" "name" "name" MYSQL_TYPE_VAR_STRING 3 false].
#[local] Definition int_cell (v : Z) : cell :=
  mk_cell false 4 ((λ b, ch (Z.to_nat b)) <$> le_bytes 4 v).
#[local] Definition text_cell (s : string) : cell :=
  mk_cell false (Z.of_nat (String.length s)) (String.list_ascii_of_string s).
#[local] Definition null_cell : cell := mk_cell true 0 [].
#[local] Definition toy_answers (store bind : bool) : stmt_answers :=
  mk_stmt_answers store 3 bind
    [[int_cell 7; text_cell "ab"]; [null_cell; text_cell "xyz"]; [int_cell (-2); null_cell]].
#[local] Definition toy_heap : heap := mk_heap {[0]} 1.
#[local] Definition toy_stmt : MySQLStmt := mk_MySQLStmt false 0 0.

Lemma toy_answers_ok store bind : answers_ok 0 (toy_answers store bind) toy_fields.
Proof.
  split; [done|done| |by vm_compute|by vm_compute]. unfold row_ok.
  replace (columns 0 toy_fields) with [(MYSQL_TYPE_LONG, 4%Z); (MYSQL_TYPE_VAR_STRING, 4%Z)]
    by (vm_compute; reflexivity).
  apply Forall_cons; split; [|apply Forall_cons; split; [|apply Forall_cons; split; [|apply Forall_nil_2]]].
  all: repeat (apply List.Forall2_cons; [by intros ?|]).
  all: apply List.Forall2_nil.
Qed.

Lemma toy_memory_ok : memory_ok toy_heap toy_stmt 0.
Proof.
  split; [|cbn; set_solver|done]. intros b Hb. cbn in *. apply elem_of_singleton in Hb as ->. lia.
Qed.

#[local] Definition toy_column (c : nat) : option (list Field) :=
  match PreparedResultSet_new 0 (λ _, "?"%char) (toy_answers false false) toy_fields (Some 0) 0 toy_stmt toy_heap with
  | Done (rs, _, _) => match for_rows 3 (PreparedResultSet_at c) rs with Done (l, _) => Some l | _ => None end
  | _ => None
  end.

(** The NULL of the second row makes the later values of the first column use
    the place of the row before; nothing is overwritten. *)
Example toy_rows :
  (option_map (map fd_value) (toy_column 1), option_map (map fd_length) (toy_column 1)) =
    (Some [Some (("ab" +:+ String (ch 0) ("?" +:+ memory (le_bytes 4 (-2)) +:+ "xyz" +:+ String (ch 0) "????????"))%string);
           Some (("xyz" +:+ String (ch 0) "????????")%string); None],
     Some [2; 3; 0]%Z).
Proof. vm_compute. reflexivity. Qed.

Example prepared_rows_read_back_witness :
  ∃ rs stmt' h', PreparedResultSet_new 0 (λ _, "?"%char) (toy_answers false false) toy_fields (Some 0) 0 toy_stmt
      toy_heap = Done (rs, stmt', h') ∧
    ∀ c fld, toy_fields !! c = Some fld →
      ∃ column rs', for_rows 3 (PreparedResultSet_at c) rs = Done (column, rs') ∧
        ∀ r cells x, sa_rows (toy_answers false false) !! r = Some cells → cells !! c = Some x →
          ∃ f, column !! r = Some f ∧ fd_meta f = Some (InitializeDatabaseFieldMetadata fld c) ∧
            fd_raw f = true ∧ fd_length f = c_length x ∧
            if c_null x then fd_value f = None
            else ∃ rest, fd_value f = Some (string_of (c_bytes x) +:+ rest) ∧
              (is_text_type (mf_type fld) = true → (c_length x < SizeForType 0 fld)%Z →
               ∃ rest', rest = String (ch 0) rest').
Proof.
  apply (prepared_rows_read_back 0 (λ _, "?"%char) (toy_answers false false) toy_fields 0 0 toy_stmt toy_heap);
    [exact toy_memory_ok|exact (toy_answers_ok false false)|reflexivity|reflexivity|discriminate].
Defined.

Example result_fields_typed_witness :
  match PreparedResultSet_new 0 (λ _, "?"%char) (toy_answers false false) toy_fields (Some 0) 0 toy_stmt toy_heap with
  | Done (rs, _, _) =>
      ∀ q c f, (0 ≤ q < prs_rowCount rs)%Z → PreparedResultSet_at c (set_pos q rs) = Done f →
        (fd_value f = None ∧ fd_meta f = None) ∨
        (∃ fld, toy_fields !! c = Some fld ∧ fd_meta f = Some (InitializeDatabaseFieldMetadata fld c) ∧
           fd_raw f = true)
  | _ => False
  end.
Proof.
  destruct (PreparedResultSet_new 0 (λ _, "?"%char) (toy_answers false false) toy_fields (Some 0) 0 toy_stmt
    toy_heap) as [[[rs stmt'] h']| |] eqn:E; [|vm_compute in E; discriminate..].
  apply (result_fields_typed 0 (λ _, "?"%char) (toy_answers false false) toy_fields 0 0 toy_stmt toy_heap rs
    stmt' h'); [discriminate|by vm_compute|by vm_compute|exact E].
Defined.

Example result_set_lifetime_witness :
  ∃ rs stmt' h', PreparedResultSet_new 0 (λ _, "?"%char) (toy_answers false true) toy_fields (Some 0) 0 toy_stmt
      toy_heap = Done (rs, stmt', h') ∧ PreparedResultSet_CleanUp rs h' = Crash "double free".
Proof.
  exact (result_set_lifetime 0 (λ _, "?"%char) (toy_answers false true) toy_fields 0 0 toy_stmt toy_heap
    toy_memory_ok (toy_answers_ok false true)).
Defined.
