(* ===== verification/Shutdown.v ===== *)
(** * The end of the server: signals, threads, singletons

    How a signal ends the server, thread by thread: the thread that runs the I/O
    context ([SignalHandlerMgr], [IoContextMgr], [ThreadPool]), the main thread
    (Main.cpp: the loop, the destructors of the locals of [main], then those of
    the singletons), a thread of D++ that runs the handlers of commands, and a
    worker of the database.

    - GuildGetPlayersHandler and GuildDelHandler wait for a promise that a
      callback sets, and callbacks run in the main loop only.
    - Boost.Asio does what it documents: [run] returns once the context is
      stopped, the destructor of a thread pool joins its threads.  One thread of
      D++ stands for all of them; [cluster::shutdown] joins it.
    - A promise is held by its handler and by its callback, so the end of one of
      them does not break it. *)
From S2P Require Import Prelude.

(** ** The threads *)
Inductive main_pc :=
| InLoop                     (* ServerUpdateLoop tests the flag *)
| Updating                   (* BotMgr::Update *)
| JoinIo                     (* ~ThreadPool *)
| CloseDatabases             (* dbHandle *)
| ShutdownBot                (* ~DiscordMgr: Stop *)
| JoinShard                  (* cluster::shutdown *)
| Ended.
Inductive io_pc := IoRunning | IoHandling | IoReturned.
Inductive shard_pc := Idle | Waiting (id : nat) | Exited.

Record server := mk_server {
  main : main_pc;
  _stopEvent : bool;
  io : io_pc;
  io_stopped : bool;
  armed : bool;                  (* async_wait is outstanding *)
  signalled : bool;
  shard : shard_pc;
  terminating : bool;
  workers : bool;                (* the database has its workers *)
  tasks : list nat;              (* queries that wait for a worker *)
  results : list nat;            (* queries that have their result *)
  callbacks : list nat;
  promises : list nat;           (* promises that are set *)
  next_id : nat }.

Definition started : server :=
  mk_server InLoop false IoRunning false true false Idle false true [] [] [] [] 0.

Definition with_main (m : main_pc) (s : server) : server :=
  mk_server m (_stopEvent s) (io s) (io_stopped s) (armed s) (signalled s) (shard s) (terminating s) (workers s)
    (tasks s) (results s) (callbacks s) (promises s) (next_id s).
Definition with_shard (p : shard_pc) (s : server) : server :=
  mk_server (main s) (_stopEvent s) (io s) (io_stopped s) (armed s) (signalled s) p (terminating s) (workers s)
    (tasks s) (results s) (callbacks s) (promises s) (next_id s).

(** [SignalHandler] without an error; the operation is not armed again. *)
Definition SignalHandler (s : server) : server :=
  mk_server (main s) (_stopEvent s) IoHandling true false (signalled s) (shard s) (terminating s) (workers s)
    (tasks s) (results s) (callbacks s) (promises s) (next_id s).
(** [BotMgr::StopNow], which the handler of the signal executes next. *)
Definition StopNow (s : server) : server :=
  mk_server (main s) true IoRunning true (armed s) (signalled s) (shard s) (terminating s) (workers s)
    (tasks s) (results s) (callbacks s) (promises s) (next_id s).
(** [IoContextMgr::Run] returns. *)
Definition Run_returns (s : server) : server :=
  mk_server (main s) (_stopEvent s) IoReturned (io_stopped s) (armed s) (signalled s) (shard s) (terminating s)
    (workers s) (tasks s) (results s) (callbacks s) (promises s) (next_id s).
Definition receive_signal (s : server) : server :=
  mk_server (main s) (_stopEvent s) (io s) (io_stopped s) (armed s) true (shard s) (terminating s) (workers s)
    (tasks s) (results s) (callbacks s) (promises s) (next_id s).

(** [BotMgr::Update]: the callbacks that have a result run and set their
    promises. *)
Definition ProcessQueryCallbacks (s : server) : server :=
  mk_server InLoop (_stopEvent s) (io s) (io_stopped s) (armed s) (signalled s) (shard s) (terminating s) (workers s)
    (tasks s) (results s) (filter (λ id, id ∉ results s) (callbacks s))
    (promises s ++ filter (λ id, id ∈ results s) (callbacks s)) (next_id s).

(** A handler that asks the database and waits for its callback. *)
Definition wait_for_callback (s : server) : server :=
  mk_server (main s) (_stopEvent s) (io s) (io_stopped s) (armed s) (signalled s) (Waiting (next_id s)) (terminating s)
    (workers s) (tasks s ++ [next_id s]) (results s) (callbacks s ++ [next_id s]) (promises s) (S (next_id s)).

(** A worker executes the [k]-th task. *)
Definition run_query (k id : nat) (s : server) : server :=
  mk_server (main s) (_stopEvent s) (io s) (io_stopped s) (armed s) (signalled s) (shard s) (terminating s) (workers s)
    (delete k (tasks s)) (results s ++ [id]) (callbacks s) (promises s) (next_id s).

(** [CloseAllConnections]: the workers end. *)
Definition close_databases (s : server) : server :=
  mk_server ShutdownBot (_stopEvent s) (io s) (io_stopped s) (armed s) (signalled s) (shard s) (terminating s) false
    (tasks s) (results s) (callbacks s) (promises s) (next_id s).
(** [DiscordMgr::Stop], up to the join of the shard. *)
Definition terminate (s : server) : server :=
  mk_server JoinShard (_stopEvent s) (io s) (io_stopped s) (armed s) (signalled s) (shard s) true (workers s)
    (tasks s) (results s) (callbacks s) (promises s) (next_id s).

(** Every step but the arrival of a command whose handler waits. *)
Inductive step : server → server → Prop :=
| Signal s : signalled s = false → step s (receive_signal s)
| IoHandle s : io s = IoRunning → io_stopped s = false → armed s = true → signalled s = true →
    step s (SignalHandler s)
| IoStopNow s : io s = IoHandling → step s (StopNow s)
| IoReturn s : io s = IoRunning → io_stopped s = true → step s (Run_returns s)
| MainTest s : main s = InLoop → _stopEvent s = false → step s (with_main Updating s)
| MainUpdate s : main s = Updating → step s (ProcessQueryCallbacks s)
| MainLeave s : main s = InLoop → _stopEvent s = true → step s (with_main JoinIo s)
| MainJoinIo s : main s = JoinIo → io s = IoReturned → step s (with_main CloseDatabases s)
| MainClose s : main s = CloseDatabases → step s (close_databases s)
| MainStop s : main s = ShutdownBot → step s (terminate s)
| MainEnd s : main s = JoinShard → shard s = Exited → step s (with_main Ended s)
| Worker s k id : workers s = true → tasks s !! k = Some id → step s (run_query k id s)
| ShardResume s id : shard s = Waiting id → id ∈ promises s → step s (with_shard Idle s)
| ShardExit s : shard s = Idle → terminating s = true → step s (with_shard Exited s).

Inductive any_step : server → server → Prop :=
| Other s s' : step s s' → any_step s s'
| Command s : shard s = Idle → any_step s (wait_for_callback s).

Definition reachable (s : server) : Prop := rtc any_step started s.

(** The main loop will call no callback any more. *)
Definition loop_left (s : server) : Prop := main s ≠ InLoop ∧ main s ≠ Updating.
(** A handler waits for a promise that is not set. *)
Definition waits (s : server) : Prop := ∃ id, shard s = Waiting id ∧ id ∉ promises s.
(** No thread can take a step. *)
Definition stuck (s : server) : Prop := ∀ s', ¬ step s s'.

(** ** Lemmas *)
Definition inv (s : server) : Prop :=
  (_stopEvent s = true → io_stopped s = true) ∧ (loop_left s → _stopEvent s = true) ∧
  (main s = JoinShard → terminating s = true) ∧ (main s = Ended → shard s = Exited) ∧
  (_stopEvent s = false → io s = IoHandling ∨ io s = IoRunning ∧ io_stopped s = false ∧ armed s = true).

Ltac step_cases Hstep := destruct Hstep; unfold loop_left in *; cbn in *.

Lemma step_keeps_inv s s' : step s s' → inv s → inv s'.
Proof. intros Ht (Hio & Hl & Hj & He & Hf). unfold inv. step_cases Ht; intuition congruence. Qed.

Lemma any_step_keeps_inv s s' : any_step s s' → inv s → inv s'.
Proof.
  intros [s0 s1 Ht|s0 Hs] Hi; [by eapply step_keeps_inv|].
  destruct Hi as (Hio & Hl & Hj & He & Hf). unfold inv, loop_left in *. cbn. intuition congruence.
Qed.

Lemma reachable_keeps_inv s : reachable s → inv s.
Proof.
  intros Hr. apply (rtc_preserves _ inv any_step_keeps_inv _ _ Hr).
  unfold inv, loop_left. cbn. intuition congruence.
Qed.

Lemma step_keeps_stop s s' : step s s' → _stopEvent s = true → _stopEvent s' = true.
Proof. intros Ht. by step_cases Ht. Qed.

(** Once the loop is left it is not entered again, and no promise is set. *)
Lemma left_for_ever s s' : any_step s s' → loop_left s → loop_left s' ∧ promises s' = promises s.
Proof. intros [s0 s1 Ht|s0 Hs]; [step_cases Ht|unfold loop_left; cbn]; intuition congruence. Qed.

Lemma waits_for_ever s s' : any_step s s' → loop_left s ∧ waits s → loop_left s' ∧ waits s'.
Proof.
  intros Ht [Hl (id & Hs & Hn)]. destruct (left_for_ever _ _ Ht Hl) as [Hl' Hp].
  split; [done|]. exists id. rewrite Hp. split; [|done].
  destruct Ht as [s0 s1 Ht|s0 Hi]; [step_cases Ht|]; congruence.
Qed.

Lemma step_never_waits s s' : step s s' → ¬ waits s → ¬ waits s'.
Proof.
  intros Ht Hw (id & Hs & Hn). apply Hw. exists id.
  step_cases Ht; split; (congruence || set_solver).
Qed.

Lemma signal_sets_flag s : inv s → signalled s = true → _stopEvent s = false →
  ∃ s', rtc step s s' ∧ _stopEvent s' = true.
Proof.
  intros (_ & _ & _ & _ & Hf) Hs Hstop. destruct (Hf Hstop) as [Hi|(Hi & Ho & Ha)].
  - exists (StopNow s). split; [by apply rtc_once, IoStopNow|done].
  - exists (StopNow (SignalHandler s)). split; [|done].
    eapply rtc_l; [by apply IoHandle|]. by apply rtc_once, IoStopNow.
Qed.

(** What is left to do once the flag is set. *)
Definition main_work (m : main_pc) : nat :=
  match m with
  | Updating => 6 | InLoop => 5 | JoinIo => 4 | CloseDatabases => 3 | ShutdownBot => 2 | JoinShard => 1 | Ended => 0
  end.
Definition io_work (p : io_pc) : nat := match p with IoHandling => 2 | IoRunning => 1 | IoReturned => 0 end.
Definition shard_work (p : shard_pc) : nat := match p with Waiting _ => 2 | Idle => 1 | Exited => 0 end.
Definition work (s : server) : nat :=
  (if signalled s then 0 else 1) + io_work (io s) + main_work (main s) + length (tasks s) + shard_work (shard s).

Ltac use_equations :=
  repeat match goal with
  | H : main _ = _ |- _ => rewrite H; clear H
  | H : io _ = _ |- _ => rewrite H; clear H
  | H : shard _ = _ |- _ => rewrite H; clear H
  | H : signalled _ = _ |- _ => rewrite H; clear H
  end.

Lemma step_shrinks s s' : step s s' → inv s → _stopEvent s = true → work s' < work s.
Proof.
  intros Ht (Hio & _) Hstop. specialize (Hio Hstop). unfold work.
  destruct Ht as [| | | | | | | | | | |s k id0 Hw Hk| |]; cbn; try congruence; use_equations; cbn; try lia.
  pose proof (length_delete (tasks s) k ltac:(by eexists)). apply lookup_lt_Some in Hk. lia.
Qed.

(** The ids of the queries so far. *)
Definition ids_used (s : server) : Prop := ∀ id, id ∈ callbacks s ∨ id ∈ promises s → id < next_id s.

Lemma any_step_ids s s' : any_step s s' → ids_used s → ids_used s'.
Proof.
  intros Ht Hi id Hid. destruct Ht as [s s' Ht|s Hs]; [step_cases Ht; apply Hi; try done|]; cbn in *.
  { rewrite elem_of_app, !list_elem_of_filter in Hid. naive_solver. }
  destruct Hid as [[Hid|Hid%list_elem_of_singleton]%elem_of_app|Hid]; [|lia|]; apply Nat.lt_lt_succ_r, Hi; auto.
Qed.

Lemma reachable_ids s : reachable s → ids_used s.
Proof. intros Hr. apply (rtc_preserves _ ids_used any_step_ids _ _ Hr). intros id. cbn. set_solver. Qed.

(** The commands that may still come: one while the thread of D++ is free or will
    be, and one more if an update is going on. *)
Definition free (s : server) : bool :=
  match shard s with Idle => true | Waiting id => bool_decide (id ∈ promises s) | Exited => false end.
Definition commands_left (s : server) : nat :=
  (match main s with Updating => 1 | _ => 0 end) + (if free s then 1 else 0).

Lemma step_commands s s' : step s s' → _stopEvent s = true → commands_left s' ≤ commands_left s.
Proof.
  intros Ht Hstop. unfold commands_left, free.
  destruct Ht as [| | | | |s Hm|s Hm| | | | | |s id Hs Hin|s Hs Ht]; cbn in *; try congruence;
    repeat match goal with H : main _ = _ |- _ => rewrite H; clear H end;
    repeat match goal with H : shard _ = _ |- _ => rewrite H; clear H end; cbn; try lia.
  - destruct (shard s) as [|id|]; try lia. repeat case_bool_decide; lia.
  - rewrite bool_decide_eq_true_2 by done. lia.
Qed.

(** Every step after the flag is set, a command too, takes from what is left. *)
Definition left_to_do (s : server) : nat := work s + 3 * commands_left s.

Lemma any_step_shrinks s s' : any_step s s' → inv s → ids_used s → _stopEvent s = true → left_to_do s' < left_to_do s.
Proof.
  intros Ht Hi Hids Hstop. unfold left_to_do. destruct Ht as [s s' Ht|s Hs].
  - pose proof (step_shrinks _ _ Ht Hi Hstop). pose proof (step_commands _ _ Ht Hstop). lia.
  - unfold work, commands_left, free. cbn. rewrite Hs, length_app. cbn.
    rewrite bool_decide_eq_false_2; [lia|]. intros Hin. specialize (Hids (next_id s) (or_intror Hin)). lia.
Qed.

Lemma any_step_keeps_stop s s' : any_step s s' → _stopEvent s = true → _stopEvent s' = true.
Proof. intros [s0 s1 Ht|s0 _]; [by apply step_keeps_stop|done]. Qed.

Lemma any_steps_bounded n s s' : nsteps any_step n s s' → inv s → ids_used s → _stopEvent s = true →
  n + left_to_do s' ≤ left_to_do s.
Proof.
  induction 1 as [|n s1 s2 s3 Ht _ IH]; intros Hi Hids Hs; [lia|].
  pose proof (any_step_shrinks _ _ Ht Hi Hids Hs).
  pose proof (IH (any_step_keeps_inv _ _ Ht Hi) (any_step_ids _ _ Ht Hids) (any_step_keeps_stop _ _ Ht Hs)). lia.
Qed.

Lemma any_steps_keep s s' : rtc any_step s s' → inv s → _stopEvent s = true → inv s' ∧ _stopEvent s' = true.
Proof.
  induction 1 as [|s1 s2 s3 Ht _ IH]; intros Hi Hs; [done|].
  apply IH; [by eapply any_step_keeps_inv|by eapply any_step_keeps_stop].
Qed.

Lemma stuck_main s : inv s → _stopEvent s = true → stuck s →
  main s = Ended ∨ main s = JoinShard ∧ waits s.
Proof.
  intros (Hio & _ & Hj & _) Hstop Hst. specialize (Hio Hstop).
  destruct (main s) eqn:Hm; [| | | | | |by left].
  - destruct (Hst _ (MainLeave _ Hm Hstop)).
  - destruct (Hst _ (MainUpdate _ Hm)).
  - destruct (io s) eqn:Hi.
    + destruct (Hst _ (IoReturn _ Hi Hio)).
    + destruct (Hst _ (IoStopNow _ Hi)).
    + destruct (Hst _ (MainJoinIo _ Hm Hi)).
  - destruct (Hst _ (MainClose _ Hm)).
  - destruct (Hst _ (MainStop _ Hm)).
  - right. split; [done|]. destruct (shard s) as [|id|] eqn:Hs.
    + destruct (Hst _ (ShardExit _ Hs (Hj eq_refl))).
    + exists id. split; [done|]. intros Hin. destruct (Hst _ (ShardResume _ _ Hs Hin)).
    + destruct (Hst _ (MainEnd _ Hm Hs)).
Qed.

Lemma steps_keep s s' : rtc step s s' → inv s → _stopEvent s = true →
  inv s' ∧ _stopEvent s' = true ∧ (¬ waits s → ¬ waits s').
Proof.
  induction 1 as [|s1 s2 s3 Ht _ IH]; intros Hi Hs; [done|].
  destruct (IH (step_keeps_inv _ _ Ht Hi) (step_keeps_stop _ _ Ht Hs)) as (? & ? & Hw).
  split_and!; [done..|]. intros Hn. by apply Hw, (step_never_waits _ _ Ht).
Qed.

(** ** Properties *)


(** A command arrives while the loop ends. *)
Definition late_command : server :=
  with_main JoinIo (StopNow (SignalHandler (receive_signal (wait_for_callback started)))).

Lemma late_command_reachable : reachable late_command.
Proof.
  unfold reachable, late_command.
  eapply rtc_l; [by apply Command|]. eapply rtc_l; [by apply Other, Signal|].
  eapply rtc_l; [by apply Other, IoHandle|]. eapply rtc_l; [by apply Other, IoStopNow|].
  eapply rtc_l; [by apply Other, MainLeave|]. done.
Qed.

