(* ===== verification/Containers.v ===== *)
(** * Containers and random numbers: common/Utilities/Containers.h, Random.cpp

    The algorithms on containers, and the random choices they make.  What
    [std::uniform_int_distribution] draws is the argument [draws], in the order
    of the calls.  A container of elements that are moved is a list of options:
    [None] is a moved-from object.  Iterators are positions. *)
From Stdlib Require Import Factorial.
From S2P Require Import Prelude.

Inductive rng_error := NoDraw | out_of_range.
Abbreviation rand := (outcome rng_error).

(** ** Random.cpp *)
(** [uid(engine)]: a draw of a distribution on [min] to [max] lies there. *)
Definition draw (min max : Z) (draws : list Z) : rand (Z * list Z) :=
  match draws with
  | d :: draws => if (min <=? d)%Z && (d <=? max)%Z then Done (d, draws) else Throw NoDraw
  | [] => Throw NoDraw
  end.

Definition irand (min max : Z) (draws : list Z) : rand (Z * list Z) :=
  _ ← assert (min <=? max)%Z "max >= min"; draw min max draws.

Definition urand (min max : Z) (draws : list Z) : rand (Z * list Z) :=
  _ ← assert (min <=? max)%Z "max >= min"; draw min max draws.

Definition urandms (min max : Z) (draws : list Z) : rand (Z * list Z) :=
  _ ← assert (max <=? (2 ^ 32 - 1) / 1000)%Z "std::numeric_limits<uint32>::max() / Milliseconds::period::den >= max";
  urand (wrap_u 32 (min * 1000)) (wrap_u 32 (max * 1000)) draws.

Definition randtime (min max : Z) (draws : list Z) : rand (Z * list Z) :=
  let diff := (max - min)%Z in
  _ ← assert (0 <=? diff)%Z "diff >= 0";
  _ ← assert (diff <=? 2 ^ 32 - 1)%Z "diff <= (uint32) - 1";
  '(r, draws) ← urand 0 diff draws;
  Done ((min + r)%Z, draws).

(** ** CheckedBufferOutputIterator *)
Section Output.
Context {A : Type}.

(** The buffer and the position of [_buf]; [_end] is its end. *)
Record output_iterator := mk_output_iterator { buffer : list A; _buf : nat }.

Definition check (it : output_iterator) : rand unit :=
  if (length (buffer it) <=? _buf it)%nat then Throw out_of_range else Done ().

(** [*it = a], [++it] *)
Definition assign (a : A) (it : output_iterator) : rand output_iterator :=
  _ ← check it; Done (mk_output_iterator (<[_buf it := a]> (buffer it)) (_buf it)).
Definition advance (it : output_iterator) : rand output_iterator :=
  _ ← check it; Done (mk_output_iterator (buffer it) (S (_buf it))).
Definition remaining (it : output_iterator) : nat := length (buffer it) - _buf it.

(** What an algorithm of the standard library does with it: [*it++ = a]. *)
Definition copy_to (it : output_iterator) (l : list A) : rand output_iterator :=
  ofold (λ it a, it ← assign a it; advance it) l it.
End Output.
Arguments output_iterator : clear implicits.

(** ** Choosing and keeping at random *)
Section Random.
Context {A : Type}.

(** [*keepIt = std::move( *curIt )]: reading a moved-from object would give
    any value. *)
Definition move_to (keepIt curIt : nat) (c : list (option A)) : rand (list (option A)) :=
  match c !! curIt with
  | Some (Some x) => Done (<[curIt := None]> (<[keepIt := Some x]> c))
  | Some None => Crash "moved-from element"
  | None => Crash "past the end"
  end.

(** The [while] loop; [elementsToProcess] counts down. *)
Fixpoint RandomResize_loop (elementsToProcess : nat) (elementsToKeep : Z) (keepIt curIt : nat)
    (c : list (option A)) (draws : list Z) : rand (nat * list (option A) * list Z) :=
  match elementsToProcess with
  | O => Done (keepIt, c, draws)
  | S todo =>
      '(r, draws) ← urand 1 (Z.of_nat (S todo)) draws;
      if (r <=? elementsToKeep)%Z then
        c ← (if negb (keepIt =? curIt)%nat then move_to keepIt curIt c else Done c);
        RandomResize_loop todo (wrap_u 32 (elementsToKeep - 1)) (S keepIt) (S curIt) c draws
      else RandomResize_loop todo elementsToKeep keepIt (S curIt) c draws
  end.

Definition RandomResize (container : list (option A)) (requestedSize : nat) (draws : list Z)
    : rand (list (option A) * list Z) :=
  if (length container <=? requestedSize)%nat then Done (container, draws)
  else
    let elementsToKeep := wrap_u 32 (Z.of_nat requestedSize) in
    let elementsToProcess := wrap_u 32 (Z.of_nat (length container)) in
    '(keepIt, c, draws) ← RandomResize_loop (Z.to_nat elementsToProcess) elementsToKeep 0 0 container draws;
    Done (take keepIt c, draws).

(** The overload with a predicate. *)
Definition RandomResize_if (predicate : A → bool) (container : list A) (requestedSize : nat) (draws : list Z)
    : rand (list (option A) * list Z) :=
  let containerCopy := Some <$> List.filter predicate container in
  if negb (requestedSize =? 0)%nat then RandomResize containerCopy requestedSize draws
  else Done (containerCopy, draws).

Definition SelectRandomContainerElement (container : list A) (draws : list Z) : rand (A * list Z) :=
  '(i, draws) ← urand 0 (wrap_u 32 (wrap_u 32 (Z.of_nat (length container)) - 1)) draws;
  match container !! Z.to_nat i with
  | Some a => Done (a, draws)
  | None => Crash "past the end"
  end.
End Random.

(** ** Intersects, MapGetValuePtr, MultimapErasePair, EraseIf *)
Section Algorithms.
Context {A : Type} (lt : A → A → bool).

(** Both ranges shrink: [fuel] is their length together. *)
Fixpoint Intersects_loop (fuel : nat) (l1 l2 : list A) : bool :=
  match l1, l2, fuel with
  | a :: l1', b :: l2', S fuel =>
      if lt a b then Intersects_loop fuel l1' l2
      else if lt b a then Intersects_loop fuel l1 l2'
      else true
  | _, _, _ => false
  end.
Definition Intersects (l1 l2 : list A) : bool := Intersects_loop (length l1 + length l2) l1 l2.
End Algorithms.

Section Maps.
Context {K V : Type} (lt : K → K → bool) (eqb : V → V → bool).

(** A [std::multimap] is the list of its pairs in iteration order;
    [equal_range] is the part of it neither before nor after the key. *)
Definition equal_range (key : K) (m : list (K * V)) : list (K * V) * list (K * V) * list (K * V) :=
  let lower := List.filter (λ p, lt p.1 key) m in
  let upper := List.filter (λ p, lt key p.1) m in
  (lower, take (length m - length lower - length upper) (drop (length lower) m), upper).

(** The loop over the range, erasing as it goes. *)
Fixpoint erase_equal (value : V) (range : list (K * V)) : list (K * V) :=
  match range with
  | [] => []
  | p :: range => if eqb p.2 value then erase_equal value range else p :: erase_equal value range
  end.

Definition MultimapErasePair (m : list (K * V)) (key : K) (value : V) : list (K * V) :=
  let '(before, range, after) := equal_range key m in before ++ erase_equal value range ++ after.
End Maps.

Section EraseIf.
Context {A : Type} (p : A → bool).

(** [std::swap( *rpos, *wpos )] *)
Definition swap (i j : nat) (c : list A) : list A :=
  match c !! i, c !! j with
  | Some x, Some y => <[i := y]> (<[j := x]> c)
  | _, _ => c
  end.

(** The overload for containers whose elements can be assigned; [n] positions
    are left for [rpos]. *)
Fixpoint EraseIf_loop (n rpos wpos : nat) (c : list A) : nat * list A :=
  match n with
  | O => (wpos, c)
  | S n =>
      match c !! rpos with
      | None => (wpos, c)
      | Some x =>
          if negb (p x)
          then EraseIf_loop n (S rpos) (S wpos) (if negb (rpos =? wpos)%nat then swap rpos wpos c else c)
          else EraseIf_loop n (S rpos) wpos c
      end
  end.
Definition EraseIf (c : list A) : list A :=
  let '(wpos, c) := EraseIf_loop (length c) 0 0 c in take wpos c.

(** The other overload: [it = c.erase(it)]. *)
Fixpoint EraseIf_nodes (c : list A) : list A :=
  match c with
  | [] => []
  | x :: c => if p x then EraseIf_nodes c else x :: EraseIf_nodes c
  end.
End EraseIf.

(** ** Lemmas: the elements that are kept *)
Section Kept.
Context {A : Type}.

(** Which elements a sequence of draws keeps. *)
Fixpoint kept (k : Z) (draws : list Z) : list bool :=
  match draws with
  | [] => []
  | d :: draws => if (d <=? k)%Z then true :: kept (k - 1) draws else false :: kept k draws
  end.

Fixpoint select (m : list bool) (l : list A) : list A :=
  match m, l with
  | b :: m, x :: l => if b then x :: select m l else select m l
  | _, _ => []
  end.

(** The draws the distributions allow for [n] elements. *)
Fixpoint valid (n : nat) (ds : list Z) : Prop :=
  match n, ds with
  | O, [] => True
  | S n', d :: ds => (1 ≤ d ≤ Z.of_nat n)%Z ∧ valid n' ds
  | _, _ => False
  end.

Lemma urand_valid d n rest : (1 ≤ d ≤ n)%Z → urand 1 n (d :: rest) = Done (d, rest).
Proof.
  intros Hd. unfold urand, draw, assert. rewrite (proj2 (Z.leb_le 1 n)) by lia. cbn.
  rewrite (proj2 (Z.leb_le 1 d)), (proj2 (Z.leb_le d n)) by lia. done.
Qed.

Lemma move_to_spec (sel : list A) y mid (x : A) todo :
  move_to (length sel) (length sel + length (y :: mid)) ((Some <$> sel) ++ (y :: mid) ++ Some x :: todo) =
    Done ((Some <$> sel ++ [x]) ++ (mid ++ [None]) ++ todo).
Proof.
  unfold move_to.
  rewrite lookup_app_r by (rewrite length_fmap; lia). rewrite length_fmap.
  rewrite lookup_app_r by lia. replace (length sel + length (y :: mid) - length sel - length (y :: mid)) with 0 by lia.
  change ((Some x :: todo) !! 0) with (Some (Some x)). cbv iota beta.
  rewrite insert_app_r_alt by (rewrite length_fmap; lia). rewrite length_fmap, Nat.sub_diag.
  change (<[0 := Some x]> ((y :: mid) ++ Some x :: todo)) with (Some x :: mid ++ Some x :: todo).
  rewrite insert_app_r_alt by (rewrite length_fmap; lia). rewrite length_fmap.
  replace (length sel + length (y :: mid) - length sel) with (S (length mid)) by (cbn; lia).
  change (<[S (length mid) := None]> (Some x :: mid ++ Some x :: todo)) with (Some x :: <[length mid := None]> (mid ++ Some x :: todo)).
  rewrite insert_app_r_alt by lia. rewrite Nat.sub_diag. change (<[0 := None]> (Some x :: todo)) with (None :: todo).
  rewrite fmap_app, <- !app_assoc. done.
Qed.

Lemma RandomResize_loop_spec (todo : list A) : ∀ sel mid ds rest k,
  valid (length todo) ds → (0 ≤ k < 2 ^ 32)%Z →
  ∃ keepIt c, RandomResize_loop (length todo) k (length sel) (length sel + length mid)
      ((Some <$> sel) ++ mid ++ (Some <$> todo)) (ds ++ rest) = Done (keepIt, c, rest) ∧
    take keepIt c = Some <$> sel ++ select (kept k ds) todo.
Proof.
  induction todo as [|x todo IH]; intros sel mid ds rest k Hv Hk; (destruct ds as [|d ds]; [try done|try done]).
  - eexists _, _. split; [done|]. by rewrite take_app_length', app_nil_r by (by rewrite length_fmap).
  - destruct Hv as [Hd Hv]. cbn [length RandomResize_loop app kept]. rewrite urand_valid by done. cbn [mbind outcome_bind].
    destruct (Z.leb_spec d k) as [Hle|Hgt].
    + assert (wrap_u 32 (k - 1) = k - 1)%Z as -> by (apply Z.mod_small; lia).
      destruct mid as [|y mid].
      * rewrite Nat.add_0_r, Nat.eqb_refl. cbn [negb mbind outcome_bind].
        destruct (IH (sel ++ [x]) [] ds rest (k - 1)%Z Hv ltac:(lia)) as (keepIt & c & Hrun & Htake).
        rewrite fmap_app, <- app_assoc, length_app, Nat.add_0_r, Nat.add_comm in Hrun.
        exists keepIt, c. split; [exact Hrun|]. rewrite Htake. cbn. by rewrite <- app_assoc.
      * rewrite (proj2 (Nat.eqb_neq _ _)) by (cbn; lia). cbn [negb]. cbn [fmap list_fmap].
        rewrite move_to_spec. cbn [mbind outcome_bind].
        destruct (IH (sel ++ [x]) (mid ++ [None]) ds rest (k - 1)%Z Hv ltac:(lia)) as (keepIt & c & Hrun & Htake).
        rewrite !length_app, (Nat.add_comm (length sel)) in Hrun. cbn [length] in Hrun |- *.
        replace (1 + length sel + (length mid + 1)) with (S (length sel + S (length mid))) in Hrun by lia.
        exists keepIt, c. split; [exact Hrun|]. rewrite Htake. cbn. by rewrite <- app_assoc.
    + destruct (IH sel (mid ++ [Some x]) ds rest k Hv Hk) as (keepIt & c & Hrun & Htake).
      rewrite length_app, Nat.add_assoc, Nat.add_comm, <- app_assoc in Hrun. exists keepIt, c. split; [exact Hrun|exact Htake].
Qed.
End Kept.

(** ** Lemmas: how many draws keep a given choice *)
(** All draws for [n] elements, each once. *)
Fixpoint all_draws (n : nat) : list (list Z) :=
  match n with
  | O => [[]]
  | S n => i ← seq 1 (S n); (Z.of_nat i ::.) <$> all_draws n
  end.

Definition trues (m : list bool) : nat := length (List.filter id m).
Definition choices (n : nat) (k : Z) (m : list bool) : nat := length (filter (λ ds, kept k ds = m) (all_draws n)).

Lemma all_draws_valid n ds : ds ∈ all_draws n ↔ valid n ds.
Proof.
  revert ds. induction n as [|n IH]; intros ds; cbn [all_draws].
  - rewrite list_elem_of_singleton. by destruct ds.
  - rewrite list_elem_of_bind. split.
    + intros (i & (ds' & -> & Hds)%list_elem_of_fmap & Hi).
      apply list_elem_of_In, in_seq in Hi. cbn. split; [lia|by apply IH].
    + destruct ds as [|d ds]; [done|]. intros [Hd Hds]. exists (Z.to_nat d). split.
      * apply list_elem_of_fmap. exists ds. split; [f_equal; lia|by apply IH].
      * apply list_elem_of_In, in_seq. lia.
Qed.

Lemma length_bind {A B} (f : A → list B) l : length (l ≫= f) = sum_list_with (λ a, length (f a)) l.
Proof. induction l as [|a l IH]; [done|]. cbn. by rewrite length_app, IH. Qed.

Lemma filter_bind {A B} (P : B → Prop) `{∀ b, Decision (P b)} (f : A → list B) l :
  filter P (l ≫= f) = l ≫= λ a, filter P (f a).
Proof. induction l as [|a l IH]; [done|]. cbn. by rewrite filter_app, IH. Qed.

Lemma sum_list_with_ext' {A} (f g : A → nat) l : (∀ a, a ∈ l → f a = g a) → sum_list_with f l = sum_list_with g l.
Proof.
  induction l as [|a l IH]; [done|]. intros Heq. cbn. rewrite Heq by left. f_equal. apply IH. intros. apply Heq. by right.
Qed.

(** Of the numbers 1 to [N], [j] are at most [j]. *)
Lemma sum_draws (j N X Y : nat) : j ≤ N →
  sum_list_with (λ i, if (Z.of_nat i <=? Z.of_nat j)%Z then X else Y) (seq 1 N) = j * X + (N - j) * Y.
Proof.
  assert (∀ N, sum_list_with (λ i, if (Z.of_nat i <=? Z.of_nat j)%Z then X else Y) (seq 1 N) = min j N * X + (N - j) * Y) as H.
  { clear N. induction N as [|N IH]; [cbn; by rewrite Nat.min_0_r|]. rewrite seq_S, sum_list_with_app, IH. cbn [sum_list_with].
    destruct (Z.leb_spec (Z.of_nat (1 + N)) (Z.of_nat j)).
    - replace (min j (S N)) with (S (min j N)) by lia. replace (S N - j) with (N - j) by lia. lia.
    - replace (min j (S N)) with (min j N) by lia. replace (S N - j) with (S (N - j)) by lia. lia. }
  intros Hj. rewrite H. by rewrite Nat.min_l by done.
Qed.

Lemma length_all_draws n : length (all_draws n) = fact n.
Proof.
  induction n as [|n IH]; [done|]. cbn [all_draws]. rewrite length_bind.
  rewrite (sum_list_with_ext' _ (λ i, if (Z.of_nat i <=? Z.of_nat (S n))%Z then fact n else fact n)).
  - rewrite sum_draws by done. cbn [fact]. lia.
  - intros i _. rewrite length_fmap, IH. by case_match.
Qed.

Lemma length_filter_fmap {A B} (P : B → Prop) `{∀ b, Decision (P b)} (f : A → B) l :
  length (filter P (f <$> l)) = length (filter (λ a, P (f a)) l).
Proof. induction l as [|a l IH]; [done|]. cbn [fmap list_fmap]. rewrite !filter_cons. by case_decide; cbn; rewrite IH. Qed.

Lemma choices_S n k b m :
  choices (S n) k (b :: m) = sum_list_with (λ i, if (Z.of_nat i <=? k)%Z then if b then choices n (k - 1) m else 0
                                                else if b then 0 else choices n k m) (seq 1 (S n)).
Proof.
  unfold choices at 1. cbn [all_draws]. rewrite filter_bind, length_bind. apply sum_list_with_ext'. intros i _.
  rewrite length_filter_fmap. unfold choices. cbn [kept].
  assert (∀ (P Q : list Z → Prop) `{∀ x, Decision (P x)} `{∀ x, Decision (Q x)} l,
    (∀ x, P x ↔ Q x) → length (filter P l) = length (filter Q l)) as Hext.
  { intros P Q ? ? l Hiff. f_equal. by apply list_filter_iff. }
  assert (∀ (P : list Z → Prop) `{∀ x, Decision (P x)} l, (∀ x, ¬ P x) → length (filter P l) = 0) as Hnone.
  { intros P ? l Hno. induction l as [|x l IHl]; [done|]. rewrite filter_cons_False by apply Hno. done. }
  destruct (Z.leb_spec (Z.of_nat i) k), b.
  1,4: apply Hext; intros ds; split; [by intros [= ?]|by intros ->].
  all: by apply Hnone.
Qed.

(** Every choice of [k] elements out of [n] comes from k! (n - k)! draws. *)
Lemma choices_uniform n : ∀ k m, length m = n → trues m = k → choices n (Z.of_nat k) m = fact k * fact (n - k).
Proof.
  induction n as [|n IH]; intros k m Hm Hk.
  - destruct m; [|done]. cbn in Hk. subst k. done.
  - destruct m as [|b m]; [done|]. cbn in Hm. injection Hm as Hm. rewrite choices_S.
    assert (trues m ≤ n) as Hle by (rewrite <- Hm; apply filter_length_le).
    destruct b; cbn in Hk.
    + destruct k as [|k]; [done|]. injection Hk as Hk. rewrite (sum_draws (S k) (S n)) by (unfold trues in *; lia).
      rewrite Nat.mul_0_r, Nat.add_0_r. replace (Z.of_nat (S k) - 1)%Z with (Z.of_nat k) by lia. rewrite (IH k m Hm Hk).
      cbn [Nat.sub fact]. lia.
    + fold (trues m) in Hk. rewrite (sum_draws k (S n)) by lia. rewrite Nat.mul_0_r, (IH k m Hm Hk). cbn [Nat.add].
      replace (S n - k) with (S (n - k)) by lia. cbn [fact]. lia.
Qed.

Lemma trues_kept ds : ∀ n k, valid n ds → k ≤ n → trues (kept (Z.of_nat k) ds) = k ∧ length (kept (Z.of_nat k) ds) = n.
Proof.
  induction ds as [|d ds IH]; intros [|n] k Hv Hk; try done; [cbn; split; [lia|done]|]. destruct Hv as [Hd Hv]. cbn [kept].
  destruct (Z.leb_spec d (Z.of_nat k)).
  - destruct k as [|k]; [lia|]. replace (Z.of_nat (S k) - 1)%Z with (Z.of_nat k) by lia.
    destruct (IH n k Hv ltac:(lia)) as [Ht Hl]. unfold trues in *. cbn. by rewrite Ht, Hl.
  - destruct (IH n k Hv ltac:(lia)) as [Ht Hl]. unfold trues in *. cbn. by rewrite Ht, Hl.
Qed.

(** ** Lemmas: sorted ranges, erasing *)
Section Sorted.
Context {A : Type} (lt : A → A → bool).
Hypothesis lt_irrefl : ∀ a, lt a a = false.
Hypothesis lt_trans : ∀ a b c, lt a b = true → lt b c = true → lt a c = true.
Hypothesis lt_total : ∀ a b, lt a b = false → lt b a = false → a = b.

Definition le (a b : A) : Prop := lt b a = false.

Lemma lt_le_trans a b c : lt a b = true → le b c → lt a c = true.
Proof.
  unfold le. intros Hab Hbc. destruct (lt b c) eqn:E; [by eapply lt_trans|]. by rewrite <- (lt_total b c E Hbc).
Qed.

(** An element before all of a sorted range is not in it. *)
Lemma lt_not_in a b l : lt a b = true → StronglySorted le (b :: l) → a ∉ b :: l.
Proof.
  intros Hab [_ Hl]%StronglySorted_inv Hin. rewrite Forall_forall in Hl.
  assert (lt a a = true); [|by rewrite lt_irrefl in *].
  apply elem_of_cons in Hin as [->|Hin]; [done|]. eapply lt_le_trans; [exact Hab|by apply Hl].
Qed.

Lemma Intersects_spec fuel l1 : ∀ l2, length l1 + length l2 ≤ fuel → StronglySorted le l1 → StronglySorted le l2 →
  Intersects_loop lt fuel l1 l2 = true ↔ ∃ x, x ∈ l1 ∧ x ∈ l2.
Proof.
  revert l1. induction fuel as [|fuel IH]; intros [|a l1] [|b l2] Hf Hs1 Hs2; cbn in Hf; try lia; cbn [Intersects_loop].
  1,2,3,4: split; [done|]; intros (x & H1 & H2); by apply elem_of_nil in H1 || by apply elem_of_nil in H2.
  pose proof Hs1 as [Hs1' _]%StronglySorted_inv. pose proof Hs2 as [Hs2' _]%StronglySorted_inv.
  destruct (lt a b) eqn:Hab; [|destruct (lt b a) eqn:Hba].
  - rewrite IH by (cbn; lia || done). split; intros (x & H1 & H2); exists x; [split; [by right|done]|].
    split; [|done]. apply elem_of_cons in H1 as [->|H1]; [|done]. by destruct (lt_not_in a b l2 Hab Hs2).
  - rewrite IH by (cbn; lia || done). split; intros (x & H1 & H2); exists x; [split; [done|by right]|].
    split; [done|]. apply elem_of_cons in H2 as [->|H2]; [|done]. by destruct (lt_not_in b a l1 Hba Hs1).
  - split; [intros _|done]. exists a. rewrite (lt_total a b Hab Hba). split; left.
Qed.
End Sorted.

Lemma EraseIf_nodes_filter {A} (p : A → bool) c : EraseIf_nodes p c = List.filter (λ x, negb (p x)) c.
Proof. induction c as [|x c IH]; [done|]. cbn. destruct (p x); cbn; by rewrite IH. Qed.

Lemma swap_middle {A} (a : list A) y mid x b :
  swap (length a + length (y :: mid)) (length a) (a ++ (y :: mid) ++ x :: b) = (a ++ [x]) ++ (mid ++ [y]) ++ b.
Proof.
  unfold swap. rewrite lookup_app_r by lia. replace (length a + length (y :: mid) - length a) with (length (y :: mid)) by lia.
  rewrite list_lookup_middle by done. rewrite lookup_app_r, Nat.sub_diag by lia. cbn [lookup list_lookup app].
  rewrite insert_app_r_alt by lia. rewrite Nat.sub_diag.
  change (<[0 := x]> (y :: mid ++ x :: b)) with (x :: mid ++ x :: b).
  rewrite insert_app_r_alt by lia. replace (length a + length (y :: mid) - length a) with (S (length mid)) by (cbn; lia).
  change (<[S (length mid) := y]> (x :: mid ++ x :: b)) with (x :: <[length mid := y]> (mid ++ x :: b)).
  rewrite insert_app_r_alt by lia. rewrite Nat.sub_diag. cbn. by rewrite <- !app_assoc.
Qed.

(** The elements kept so far, some that are not, and the ones to come. *)
Lemma EraseIf_loop_spec {A} (p : A → bool) (todo : list A) : ∀ sel mid,
  ∃ wpos c, EraseIf_loop p (length todo) (length sel + length mid) (length sel) (sel ++ mid ++ todo) = (wpos, c) ∧
    take wpos c = sel ++ List.filter (λ x, negb (p x)) todo.
Proof.
  induction todo as [|x todo IH]; intros sel mid.
  { eexists _, _. split; [done|]. by rewrite take_app_length, app_nil_r. }
  cbn [length EraseIf_loop List.filter].
  assert ((sel ++ mid ++ x :: todo) !! (length sel + length mid) = Some x) as ->.
  { rewrite app_assoc. apply list_lookup_middle. by rewrite length_app. }
  destruct (p x); cbn [negb].
  - destruct (IH sel (mid ++ [x])) as (wpos & c & Hrun & Ht). exists wpos, c.
    rewrite length_app, Nat.add_assoc, Nat.add_comm, <- app_assoc in Hrun. split; [exact Hrun|exact Ht].
  - destruct mid as [|y mid].
    + rewrite Nat.add_0_r, Nat.eqb_refl. cbn [negb]. destruct (IH (sel ++ [x]) []) as (wpos & c & Hrun & Ht). exists wpos, c.
      rewrite length_app, Nat.add_0_r, Nat.add_comm, <- app_assoc in Hrun. split; [exact Hrun|]. by rewrite Ht, <- app_assoc.
    + rewrite (proj2 (Nat.eqb_neq _ _)) by (cbn; lia). cbn [negb]. rewrite swap_middle.
      destruct (IH (sel ++ [x]) (mid ++ [y])) as (wpos & c & Hrun & Ht). exists wpos, c.
      rewrite !length_app, (Nat.add_comm (length sel)) in Hrun. cbn [length] in Hrun |- *.
      replace (1 + length sel + (length mid + 1)) with (S (length sel + S (length mid))) in Hrun by lia.
      split; [exact Hrun|]. by rewrite Ht, <- app_assoc.
Qed.

(** ** Lemmas: the range of a key, the checked buffer *)
Section Range.
Context {K V : Type} (lt : K → K → bool).
Hypothesis lt_irrefl : ∀ a, lt a a = false.
Hypothesis lt_trans : ∀ a b c, lt a b = true → lt b c = true → lt a c = true.
Hypothesis lt_total : ∀ a b, lt a b = false → lt b a = false → a = b.
Variable key : K.

Definition is_before (p : K * V) : bool := lt p.1 key.
Definition is_after (p : K * V) : bool := lt key p.1.
Definition has_key (p : K * V) : bool := negb (is_before p) && negb (is_after p).
Definition key_sorted (m : list (K * V)) : Prop := StronglySorted (λ p q, le lt p.1 q.1) m.

Lemma filter_all_false {A} (f : A → bool) l : (∀ x, x ∈ l → f x = false) → List.filter f l = [].
Proof.
  induction l as [|x l IH]; [done|]. intros H. cbn. rewrite H by left. apply IH. intros. apply H. by right.
Qed.

Lemma sorted_partition m : key_sorted m →
  m = List.filter is_before m ++ List.filter has_key m ++ List.filter is_after m.
Proof.
  unfold key_sorted. induction 1 as [|p m Hm IH Hp]; [done|]. rewrite Forall_forall in Hp. cbn. unfold has_key at 1.
  destruct (is_before p) eqn:Hb; [|destruct (is_after p) eqn:Ha]; cbn.
  - destruct (is_after p) eqn:Ha; [|by f_equal]. unfold is_before, is_after in *.
    pose proof (lt_trans key p.1 key Ha Hb) as Hc. by rewrite lt_irrefl in Hc.
  - assert (∀ q, q ∈ m → is_after q = true) as Hq by (intros q Hq; by apply (lt_le_trans lt lt_trans lt_total _ p.1); [|apply Hp]).
    assert (∀ q, q ∈ m → is_before q = false) as Hq2.
    { intros q Hin. destruct (is_before q) eqn:E; [|done]. unfold is_before, is_after in *.
      pose proof (lt_trans key q.1 key (Hq q Hin) E) as Hc. by rewrite lt_irrefl in Hc. }
    rewrite (filter_all_false is_before) in * by done. rewrite (filter_all_false has_key) in *
      by (intros q Hin; unfold has_key; by rewrite Hq, andb_false_r). cbn in *. by f_equal.
  - assert (p.1 = key) as Hk by (by apply lt_total).
    rewrite (filter_all_false is_before) in *; [cbn in *; by f_equal|..].
    all: intros q Hin; unfold is_before; rewrite <- Hk; by apply Hp.
Qed.

Lemma length_filter_parts m : key_sorted m →
  length m = length (List.filter is_before m) + length (List.filter has_key m) + length (List.filter is_after m).
Proof. intros Hm. rewrite (sorted_partition m Hm) at 1. rewrite !length_app. lia. Qed.

Lemma equal_range_spec m : key_sorted m →
  equal_range lt key m = (List.filter is_before m, List.filter has_key m, List.filter is_after m).
Proof.
  intros Hm. unfold equal_range. do 2 f_equal. fold is_before is_after. rewrite (length_filter_parts m Hm).
  transitivity (take (length (List.filter has_key m)) (drop (length (List.filter is_before m))
    (List.filter is_before m ++ List.filter has_key m ++ List.filter is_after m))).
  - rewrite <- (sorted_partition m Hm). f_equal. lia.
  - by rewrite drop_app_length, take_app_length.
Qed.

Lemma erase_equal_filter (eqb : V → V → bool) value range :
  erase_equal eqb value range = List.filter (λ p : K * V, negb (eqb p.2 value)) range.
Proof. induction range as [|p r IH]; [done|]. cbn. destruct (eqb p.2 value); cbn; by rewrite IH. Qed.
End Range.

Lemma copy_to_end {A} (it : output_iterator A) a l : length (buffer it) ≤ _buf it → copy_to it (a :: l) = Throw out_of_range.
Proof. intros H. unfold copy_to, assign, check. cbn. by rewrite (proj2 (Nat.leb_le _ _)). Qed.

Lemma copy_to_spec {A} (l : list A) : ∀ done_ rest,
  copy_to (mk_output_iterator (done_ ++ rest) (length done_)) l =
    if decide (length l ≤ length rest) then Done (mk_output_iterator (done_ ++ l ++ drop (length l) rest) (length done_ + length l))
    else Throw out_of_range.
Proof.
  induction l as [|a l IH]; intros done_ rest.
  { rewrite decide_True by (cbn; lia). cbn. by rewrite Nat.add_0_r, drop_0. }
  destruct rest as [|b rest].
  { rewrite decide_False by (cbn; lia). apply copy_to_end. cbn. by rewrite app_nil_r. }
  assert ((it ← assign a (mk_output_iterator (done_ ++ b :: rest) (length done_)); advance it) =
    Done (mk_output_iterator (done_ ++ a :: rest) (S (length done_)))) as Hstep.
  { unfold assign, advance, check. cbn [buffer _buf].
    rewrite (proj2 (Nat.leb_gt _ _)) by (rewrite length_app; cbn; lia). cbn [mbind outcome_bind buffer _buf].
    rewrite length_insert, (proj2 (Nat.leb_gt _ _)) by (rewrite length_app; cbn; lia). cbn [mbind outcome_bind].
    by rewrite insert_app_r_alt, Nat.sub_diag by lia. }
  unfold copy_to. cbn [ofold]. rewrite Hstep. cbn [mbind outcome_bind].
  specialize (IH (done_ ++ [a]) rest). rewrite length_app, Nat.add_comm, <- app_assoc in IH. cbn [app length Nat.add] in IH.
  unfold copy_to in IH. rewrite IH. cbn [length]. destruct (decide (length l ≤ length rest)).
  - rewrite decide_True by lia. cbn [drop]. rewrite <- app_assoc. do 2 f_equal. lia.
  - by rewrite decide_False by lia.
Qed.

(** ** Properties *)
(** RandomResize keeps a uniformly random choice: the [n]! sequences of draws
    the distributions allow are equally likely, each keeps [k] elements of the
    container in their order, none of them moved-from, and every choice of [k]
    of the [n] elements comes from the same number of them, k! (n - k)!. *)
Theorem RandomResize_uniform {A : Type} (c : list A) (k : nat) :
  k < length c → (Z.of_nat (length c) < 2 ^ 32)%Z →
  let n := length c in
  length (all_draws n) = fact n ∧
  (∀ ds rest, ds ∈ all_draws n → ∃ m, length m = n ∧ trues m = k ∧ kept (Z.of_nat k) ds = m ∧
     RandomResize (Some <$> c) k (ds ++ rest) = Done (Some <$> select m c, rest)) ∧
  (∀ m, length m = n → trues m = k →
     length (filter (λ ds, kept (Z.of_nat k) ds = m) (all_draws n)) = fact k * fact (n - k)).
Proof.
  intros Hk Hn n. split; [apply length_all_draws|split].
  - intros ds rest Hds. apply all_draws_valid in Hds.
    destruct (trues_kept ds n k Hds) as [Ht Hl]; [unfold n; lia|]. exists (kept (Z.of_nat k) ds).
    split; [done|split; [done|split; [done|]]]. unfold RandomResize. rewrite length_fmap.
    rewrite (proj2 (Nat.leb_gt _ _)) by done. unfold wrap_u. rewrite !Z.mod_small, Nat2Z.id by lia.
    destruct (RandomResize_loop_spec c [] [] ds rest (Z.of_nat k) Hds ltac:(lia)) as (keepIt & c' & Hrun & Htake).
    cbn [fmap list_fmap app length Nat.add] in Hrun, Htake. fold (fmap (M := list) (@Some A) c) in Hrun.
    rewrite Hrun. cbn. by rewrite Htake.
  - intros m Hm Ht. by apply choices_uniform.
Qed.

(** Both overloads of EraseIf erase exactly the elements the predicate
    accepts and leave the others in their order. *)
Theorem EraseIf_is_filter {A : Type} (p : A → bool) (c : list A) :
  EraseIf p c = List.filter (λ x, negb (p x)) c ∧ EraseIf_nodes p c = EraseIf p c.
Proof.
  assert (EraseIf p c = List.filter (λ x, negb (p x)) c) as He.
  { unfold EraseIf. destruct (EraseIf_loop_spec p c [] []) as (wpos & c' & Hrun & Ht). cbn in Hrun, Ht. by rewrite Hrun. }
  split; [done|]. by rewrite He, EraseIf_nodes_filter.
Qed.

(** Intersects tells whether two sorted ranges have a common element. *)
Theorem Intersects_correct {A : Type} (lt : A → A → bool) (l1 l2 : list A) :
  (∀ a, lt a a = false) → (∀ a b c, lt a b = true → lt b c = true → lt a c = true) →
  (∀ a b, lt a b = false → lt b a = false → a = b) →
  StronglySorted (le lt) l1 → StronglySorted (le lt) l2 →
  Intersects lt l1 l2 = true ↔ ∃ x, x ∈ l1 ∧ x ∈ l2.
Proof. intros Hi Ht Hto H1 H2. by apply Intersects_spec. Qed.

(** MultimapErasePair erases exactly the pairs with this key and this value
    from a multimap, and leaves the others in their order. *)
Theorem MultimapErasePair_exact {K V : Type} (lt : K → K → bool) (eqb : V → V → bool) (m : list (K * V)) key value :
  (∀ a, lt a a = false) → (∀ a b c, lt a b = true → lt b c = true → lt a c = true) →
  (∀ a b, lt a b = false → lt b a = false → a = b) → key_sorted lt m →
  MultimapErasePair lt eqb m key value = List.filter (λ p, negb (has_key lt key p && eqb p.2 value)) m.
Proof.
  intros Hi Ht Hto Hm. unfold MultimapErasePair. rewrite (equal_range_spec lt Hi Ht Hto key m Hm), erase_equal_filter.
  rewrite (sorted_partition lt Hi Ht Hto key m Hm) at 4. rewrite !List.filter_app.
  assert (∀ (f g : K * V → bool) l, (∀ x, f x = true → g x = true) → List.filter g (List.filter f l) = List.filter f l) as Hsub.
  { intros f g l Hfg. induction l as [|x l IH]; [done|]. cbn. destruct (f x) eqn:E; [|done]. cbn. rewrite (Hfg x E). by f_equal. }
  f_equal; [|f_equal].
  - symmetry. apply Hsub. intros x Hx. unfold has_key. by rewrite Hx.
  - induction m as [|x m IH]; [done|]. apply StronglySorted_inv in Hm as [Hm _]. cbn.
    destruct (has_key lt key x) eqn:E; [|by apply IH]. cbn. rewrite E. cbn. destruct (eqb x.2 value); cbn; [|f_equal]; by apply IH.
  - symmetry. apply Hsub. intros x Hx. unfold has_key. by rewrite Hx, andb_false_r.
Qed.

(** An algorithm that writes through a CheckedBufferOutputIterator writes
    into its buffer only: all elements when they fit, and else it gets the
    exception out_of_range. *)
Theorem copy_to_bounded {A : Type} (buf l : list A) :
  copy_to (mk_output_iterator buf 0) l =
    if decide (length l ≤ length buf) then Done (mk_output_iterator (l ++ drop (length l) buf) (length l))
    else Throw out_of_range.
Proof. apply (copy_to_spec l [] buf). Qed.

(** ** Witnesses *)
Lemma RandomResize_uniform_witness :
  length (all_draws 4) = fact 4 ∧
  (∀ ds rest, ds ∈ all_draws 4 → ∃ m, length m = 4 ∧ trues m = 2 ∧ kept (Z.of_nat 2) ds = m ∧
     RandomResize (Some <$> [10; 20; 30; 40]) 2 (ds ++ rest) = Done (Some <$> select m [10; 20; 30; 40], rest)) ∧
  (∀ m, length m = 4 → trues m = 2 → length (filter (λ ds, kept (Z.of_nat 2) ds = m) (all_draws 4)) = fact 2 * fact (4 - 2)).
Proof. apply (RandomResize_uniform [10; 20; 30; 40] 2); cbn; lia. Defined.

Example RandomResize_run :
  RandomResize (Some <$> [10; 20; 30; 40]) 2 [3; 1; 2; 1]%Z = Done ([Some 20; Some 40], []).
Proof. reflexivity. Qed.

Lemma Intersects_correct_witness :
  Intersects Nat.ltb [1; 4; 9] [2; 4; 8] = true ↔ ∃ x, x ∈ [1; 4; 9] ∧ x ∈ [2; 4; 8].
Proof.
  apply (Intersects_correct Nat.ltb); [apply Nat.ltb_irrefl| | |repeat constructor..].
  - intros a b c H1%Nat.ltb_lt H2%Nat.ltb_lt. apply Nat.ltb_lt. lia.
  - intros a b H1%Nat.ltb_ge H2%Nat.ltb_ge. lia.
Defined.

Lemma MultimapErasePair_exact_witness :
  MultimapErasePair Nat.ltb Nat.eqb [(1, 5); (2, 5); (2, 6); (2, 5); (3, 5)] 2 5 =
    List.filter (λ p, negb (has_key Nat.ltb 2 p && (p.2 =? 5)%nat)) [(1, 5); (2, 5); (2, 6); (2, 5); (3, 5)].
Proof.
  apply (MultimapErasePair_exact Nat.ltb Nat.eqb); [apply Nat.ltb_irrefl| | |repeat constructor].
  - intros a b c H1%Nat.ltb_lt H2%Nat.ltb_lt. apply Nat.ltb_lt. lia.
  - intros a b H1%Nat.ltb_ge H2%Nat.ltb_ge. lia.
Defined.
