(* ===== verification/Utf8.v ===== *)
(** * UTF-8 and UTF-16: deps/utf8cpp, and its callers in common/Utilities/Util.cpp

    - utf8cpp/utf8/core.h: the decoder of one sequence, [validate_next];
    - utf8cpp/utf8/checked.h: [append], [next], [utf8to16], [utf16to8];
    - Util.cpp: [Utf8toWStr], [WStrToUtf8].

    An iterator over octets (or code units) is the list of those from it to the
    end.  Output iterators are the class [OutputIterator]: an inserter at the
    back of a string, and a bare pointer, through which a write past the end of
    the buffer is a [Crash].  The overload of [Utf8toWStr] that fills a buffer of
    the caller is not modelled: nothing calls it. *)
From Equations Require Import Equations.
From S2P Require Import Prelude.

(** Matching on [x] with the equation that says what it is. *)
Definition inspect {A : Type} (x : A) : {y | x = y} := exist _ x eq_refl.

(** ** core.h *)
Open Scope Z_scope.

Definition LEAD_SURROGATE_MIN : Z := 0xd800.
Definition LEAD_SURROGATE_MAX : Z := 0xdbff.
Definition TRAIL_SURROGATE_MIN : Z := 0xdc00.
Definition TRAIL_SURROGATE_MAX : Z := 0xdfff.
Definition LEAD_OFFSET : Z := 0xd7c0.
Definition SURROGATE_OFFSET : Z := 0xfca02400.
Definition CODE_POINT_MAX : Z := 0x10ffff.

Definition mask8 (oc : Z) : Z := Z.land 0xff oc.
Definition mask16 (oc : Z) : Z := Z.land 0xffff oc.
Definition is_trail (oc : Z) : bool := Z.shiftr (mask8 oc) 6 =? 0x2.
Definition is_lead_surrogate (cp : Z) : bool := (LEAD_SURROGATE_MIN <=? cp) && (cp <=? LEAD_SURROGATE_MAX).
Definition is_trail_surrogate (cp : Z) : bool := (TRAIL_SURROGATE_MIN <=? cp) && (cp <=? TRAIL_SURROGATE_MAX).
Definition is_surrogate (cp : Z) : bool := (LEAD_SURROGATE_MIN <=? cp) && (cp <=? TRAIL_SURROGATE_MAX).
Definition is_code_point_valid (cp : Z) : bool := (cp <=? CODE_POINT_MAX) && negb (is_surrogate cp).

Definition sequence_length (lead_it : Z) : Z :=
  let lead := mask8 lead_it in
  if lead <? 0x80 then 1
  else if Z.shiftr lead 5 =? 0x6 then 2
  else if Z.shiftr lead 4 =? 0xe then 3
  else if Z.shiftr lead 3 =? 0x1e then 4
  else 0.

Definition is_overlong_sequence (cp length : Z) : bool :=
  if cp <? 0x80 then negb (length =? 1)
  else if cp <? 0x800 then negb (length =? 2)
  else if cp <? 0x10000 then negb (length =? 3)
  else false.

Inductive utf_error :=
| UTF8_OK | NOT_ENOUGH_ROOM | INVALID_LEAD | INCOMPLETE_SEQUENCE | OVERLONG_SEQUENCE | INVALID_CODE_POINT.

#[export] Instance utf_error_eq_dec : EqDecision utf_error.
Proof. solve_decision. Defined.

(** [++it]; then an error, or the octet that [it] stands at. *)
Definition increase_safely (it : list Z) : utf_error * list Z :=
  match tl it with
  | [] => (NOT_ENOUGH_ROOM, [])
  | (b :: _) as it => if negb (is_trail b) then (INCOMPLETE_SEQUENCE, it) else (UTF8_OK, it)
  end.

(** [*it], where [it] is not the end. *)
Definition deref (it : list Z) : Z := hd 0 it.

(** The macro: what follows it in the function is [k].  A decoder returns its
    error, the iterator and the code point. *)
Definition decoded : Type := utf_error * list Z * Z.
Definition UTF8_CPP_INCREASE_AND_RETURN_ON_ERROR (it : list Z) (code_point : Z) (k : list Z → decoded) : decoded :=
  let '(ret, it) := increase_safely it in
  if decide (ret = UTF8_OK) then k it else (ret, it, code_point).

Definition get_sequence_1 (it : list Z) (code_point : Z) : decoded :=
  match it with
  | [] => (NOT_ENOUGH_ROOM, it, code_point)
  | b :: _ => (UTF8_OK, it, mask8 b)
  end.

Definition get_sequence_2 (it : list Z) (code_point : Z) : decoded :=
  match it with
  | [] => (NOT_ENOUGH_ROOM, it, code_point)
  | b :: _ =>
      let code_point := mask8 b in
      UTF8_CPP_INCREASE_AND_RETURN_ON_ERROR it code_point (λ it,
      let code_point := wrap_u 32 (Z.land (Z.shiftl code_point 6) 0x7ff + Z.land (deref it) 0x3f) in
      (UTF8_OK, it, code_point))
  end.

Definition get_sequence_3 (it : list Z) (code_point : Z) : decoded :=
  match it with
  | [] => (NOT_ENOUGH_ROOM, it, code_point)
  | b :: _ =>
      let code_point := mask8 b in
      UTF8_CPP_INCREASE_AND_RETURN_ON_ERROR it code_point (λ it,
      let code_point :=
        wrap_u 32 (Z.land (Z.shiftl code_point 12) 0xffff + Z.land (Z.shiftl (mask8 (deref it)) 6) 0xfff) in
      UTF8_CPP_INCREASE_AND_RETURN_ON_ERROR it code_point (λ it,
      let code_point := wrap_u 32 (code_point + Z.land (deref it) 0x3f) in
      (UTF8_OK, it, code_point)))
  end.

Definition get_sequence_4 (it : list Z) (code_point : Z) : decoded :=
  match it with
  | [] => (NOT_ENOUGH_ROOM, it, code_point)
  | b :: _ =>
      let code_point := mask8 b in
      UTF8_CPP_INCREASE_AND_RETURN_ON_ERROR it code_point (λ it,
      let code_point :=
        wrap_u 32 (Z.land (Z.shiftl code_point 18) 0x1fffff + Z.land (Z.shiftl (mask8 (deref it)) 12) 0x3ffff) in
      UTF8_CPP_INCREASE_AND_RETURN_ON_ERROR it code_point (λ it,
      let code_point := wrap_u 32 (code_point + Z.land (Z.shiftl (mask8 (deref it)) 6) 0xfff) in
      UTF8_CPP_INCREASE_AND_RETURN_ON_ERROR it code_point (λ it,
      let code_point := wrap_u 32 (code_point + Z.land (deref it) 0x3f) in
      (UTF8_OK, it, code_point))))
  end.

(** The error, [it] afterwards, and the caller's code point. *)
Definition validate_next (it : list Z) (code_point : Z) : decoded :=
  match it with
  | [] => (NOT_ENOUGH_ROOM, it, code_point)
  | b :: _ =>
      let original_it := it in
      let cp := 0 in
      let length := sequence_length b in
      if length =? 0 then (INVALID_LEAD, it, code_point)
      else
        let '(err, it, cp) :=
          if length =? 1 then get_sequence_1 it cp
          else if length =? 2 then get_sequence_2 it cp
          else if length =? 3 then get_sequence_3 it cp
          else if length =? 4 then get_sequence_4 it cp
          else (UTF8_OK, it, cp) in
        if decide (err = UTF8_OK) then
          if is_code_point_valid cp then
            if negb (is_overlong_sequence cp length) then (UTF8_OK, tl it, cp)
            else (OVERLONG_SEQUENCE, original_it, code_point)
          else (INVALID_CODE_POINT, original_it, code_point)
        else (err, original_it, code_point)
  end.

(** ** checked.h *)

(** The exceptions *)
Inductive utf8_exception :=
| not_enough_room
| invalid_utf8 (u : Z)
| invalid_code_point (cp : Z)
| invalid_utf16 (u : Z).

(** [*result++ = v] *)
Class OutputIterator (O : Type) := put : Z → O → outcome utf8_exception O.

Definition append {O : Type} `{OutputIterator O} (cp : Z) (result : O) : outcome utf8_exception O :=
  if negb (is_code_point_valid cp) then Throw (invalid_code_point cp)
  else if cp <? 0x80 then put (wrap_u 8 cp) result
  else if cp <? 0x800 then
    result ← put (wrap_u 8 (Z.lor (Z.shiftr cp 6) 0xc0)) result;
    put (wrap_u 8 (Z.lor (Z.land cp 0x3f) 0x80)) result
  else if cp <? 0x10000 then
    result ← put (wrap_u 8 (Z.lor (Z.shiftr cp 12) 0xe0)) result;
    result ← put (wrap_u 8 (Z.lor (Z.land (Z.shiftr cp 6) 0x3f) 0x80)) result;
    put (wrap_u 8 (Z.lor (Z.land cp 0x3f) 0x80)) result
  else
    result ← put (wrap_u 8 (Z.lor (Z.shiftr cp 18) 0xf0)) result;
    result ← put (wrap_u 8 (Z.lor (Z.land (Z.shiftr cp 12) 0x3f) 0x80)) result;
    result ← put (wrap_u 8 (Z.lor (Z.land (Z.shiftr cp 6) 0x3f) 0x80)) result;
    put (wrap_u 8 (Z.lor (Z.land cp 0x3f) 0x80)) result.

(** The code point, and [it] afterwards. *)
Definition next (it : list Z) : outcome utf8_exception (Z * list Z) :=
  let cp := 0 in
  let '(err_code, it, cp) := validate_next it cp in
  match err_code with
  | UTF8_OK => Done (cp, it)
  | NOT_ENOUGH_ROOM => Throw not_enough_room
  | INVALID_LEAD | INCOMPLETE_SEQUENCE | OVERLONG_SEQUENCE => Throw (invalid_utf8 (deref it))
  | INVALID_CODE_POINT => Throw (invalid_code_point cp)
  end.

Fixpoint utf16to8 {O : Type} `{OutputIterator O} (start : list Z) (result : O) : outcome utf8_exception O :=
  match start with
  | [] => Done result
  | u :: start =>
      let cp := mask16 u in
      if is_lead_surrogate cp then
        match start with
        | t :: start =>
            let trail_surrogate := mask16 t in
            if is_trail_surrogate trail_surrogate then
              let cp := wrap_u 32 (Z.shiftl cp 10 + trail_surrogate + SURROGATE_OFFSET) in
              result ← append cp result; utf16to8 start result
            else Throw (invalid_utf16 (wrap_u 16 trail_surrogate))
        | [] => Throw (invalid_utf16 (wrap_u 16 cp))
        end
      else if is_trail_surrogate cp then Throw (invalid_utf16 (wrap_u 16 cp))
      else result ← append cp result; utf16to8 start result
  end.

(** [next] moves its iterator forward. *)
Lemma increase_safely_suffix it err it' :
  increase_safely it = (err, it') → it' `suffix_of` it.
Proof.
  unfold increase_safely. intros H. assert (it' = tl it) as ->.
  { destruct (tl it) as [|b l]; [by simplify_eq|]. destruct (negb (is_trail b)); by simplify_eq. }
  destruct it as [|b l]; [done|]. by apply suffix_cons_r.
Qed.

Lemma INCREASE_suffix it0 it cp k :
  it `suffix_of` it0 → (∀ it', it' `suffix_of` it0 → (k it').1.2 `suffix_of` it0) →
  (UTF8_CPP_INCREASE_AND_RETURN_ON_ERROR it cp k).1.2 `suffix_of` it0.
Proof.
  intros Hit Hk. unfold UTF8_CPP_INCREASE_AND_RETURN_ON_ERROR.
  destruct (increase_safely it) as [err it'] eqn:E. apply increase_safely_suffix in E.
  assert (it' `suffix_of` it0) by (by trans it). destruct (decide _); [by apply Hk|done].
Qed.

Lemma validate_next_suffix it cp :
  (validate_next it cp).1.2 `suffix_of` it ∧
  ((validate_next it cp).1.1 = UTF8_OK → (length (validate_next it cp).1.2 < length it)%nat).
Proof.
  destruct it as [|b l]; [done|]. unfold validate_next. destruct (sequence_length b =? 0); [done|].
  set (d := if sequence_length b =? 1 then _ else _).
  assert (d.1.2 `suffix_of` b :: l) as Hd.
  { subst d. unfold get_sequence_1, get_sequence_2, get_sequence_3, get_sequence_4.
    repeat case_match; try done; repeat (apply INCREASE_suffix; [done|intros ? ?]); cbn; assumption. }
  clearbody d. destruct d as [[err it'] c]. cbn in Hd. repeat case_match; cbn; try done.
  split; [destruct it' as [|? it']; [done|]; by apply suffix_cons_l in Hd|].
  apply suffix_length in Hd. destruct it'; cbn in *; lia.
Qed.

Lemma next_shorter it cp it' : next it = Done (cp, it') → (length it' < length it)%nat.
Proof.
  unfold next. pose proof (validate_next_suffix it 0) as [_ H]. intros Hn.
  destruct (validate_next it 0) as [[[] l] c]; simplify_eq. by apply H.
Qed.

Equations? utf8to16 {O : Type} {HO : OutputIterator O} (start : list Z) (result : O) : outcome utf8_exception O
    by wf (length start) lt :=
  utf8to16 [] result := Done result;
  utf8to16 (b :: l) result with inspect (next (b :: l)) => {
    | exist _ (Throw e) _ => Throw e
    | exist _ (Crash w) _ => Crash w
    | exist _ (Done (cp, start)) H =>
        result ← (if 0xffff <? cp then
                    result ← put (wrap_u 16 (Z.shiftr cp 10 + LEAD_OFFSET)) result;
                    put (wrap_u 16 (Z.land cp 0x3ff + TRAIL_SURROGATE_MIN)) result
                  else put (wrap_u 16 cp) result);
        utf8to16 start result }.
Proof. by apply next_shorter in H. Qed.

(** ** Output iterators *)

(** [std::back_inserter(wstr)] *)
#[export] Instance back_inserter : OutputIterator (list Z) := λ v out, Done (out ++ [v]).

(** A pointer into [memory]. *)
Record pointer := mk_pointer { memory : list Z; position : nat }.
#[export] Instance through_pointer : OutputIterator pointer := λ v p,
  if (position p <? length (memory p))%nat
  then Done (mk_pointer (<[position p := v]> (memory p)) (S (position p)))
  else Crash "write past the end of the buffer".

(** ** Util.cpp *)
Definition octets (s : string) : list Z := (λ c, Z.of_nat (nat_of_ascii c)) <$> String.list_ascii_of_string s.
Definition of_octets (l : list Z) : string :=
  String.string_of_list_ascii ((λ o, ascii_of_nat (Z.to_nat o)) <$> l).

(** [Utf8toWStr(std::string_view, std::wstring&)] and
    [WStrToUtf8(std::wstring_view, std::string&)]: the result, and what the
    caller's string holds afterwards. *)
Definition Utf8toWStr (utf8str : string) : outcome Empty_set (bool * list Z) :=
  match utf8to16 (octets utf8str) [] with
  | Done wstr => Done (true, wstr)
  | Throw _ => Done (false, [])
  | Crash w => Crash w
  end.

Definition WStrToUtf8 (wstr : list Z) : outcome Empty_set (bool * string) :=
  let utf8str2 := replicate (4 * length wstr) 0 in
  match (match wstr with
         | [] => Done utf8str2
         | _ => oend ← utf16to8 wstr (mk_pointer utf8str2 0); Done (take (position oend) (memory oend))
         end) with
  | Done utf8str2 => Done (true, of_octets utf8str2)
  | Throw _ => Done (false, EmptyString)
  | Crash w => Crash w
  end.

(** ** The encodings of the Unicode standard *)
Definition code_point (cp : Z) : Prop := 0 <= cp <= 0x10ffff /\ ~ (0xd800 <= cp <= 0xdfff).
Definition octet (b : Z) : Prop := 0 <= b < 256.
Definition unit16 (u : Z) : Prop := 0 <= u < 2 ^ 16.

Definition utf8 (cp : Z) : list Z :=
  if cp <? 0x80 then [cp]
  else if cp <? 0x800 then [0xc0 + cp / 0x40; 0x80 + cp mod 0x40]
  else if cp <? 0x10000 then [0xe0 + cp / 0x1000; 0x80 + (cp / 0x40) mod 0x40; 0x80 + cp mod 0x40]
  else [0xf0 + cp / 0x40000; 0x80 + (cp / 0x1000) mod 0x40; 0x80 + (cp / 0x40) mod 0x40; 0x80 + cp mod 0x40].

Definition utf16 (cp : Z) : list Z :=
  if cp <? 0x10000 then [cp]
  else [0xd800 + (cp - 0x10000) / 0x400; 0xdc00 + (cp - 0x10000) mod 0x400].

(** ** Arithmetic of octets *)
Ltac div_lia := Z.to_euclidean_division_equations; lia.

Lemma land_ones k x : 0 <= k -> Z.land x (2 ^ k - 1) = x mod 2 ^ k.
Proof. intros Hk. rewrite <- Z.land_ones by done. f_equal. rewrite Z.ones_equiv. lia. Qed.

(** A mask of the code becomes a remainder, a shift a product or a quotient. *)
Ltac masks :=
  unfold mask8, mask16;
  repeat match goal with
  | |- context [Z.land 0xff ?x] => rewrite (Z.land_comm 0xff x)
  | |- context [Z.land 0xffff ?x] => rewrite (Z.land_comm 0xffff x)
  end;
  repeat first
    [ rewrite (land_ones 6) by lia | rewrite (land_ones 8) by lia | rewrite (land_ones 10) by lia
    | rewrite (land_ones 11) by lia | rewrite (land_ones 12) by lia | rewrite (land_ones 16) by lia
    | rewrite (land_ones 18) by lia | rewrite (land_ones 21) by lia
    | rewrite Z.shiftr_div_pow2 by lia | rewrite Z.shiftl_mul_pow2 by lia ].

Lemma mask8_octet b : octet b -> mask8 b = b.
Proof. intros Hb. unfold mask8. rewrite Z.land_comm. rewrite (land_ones 8) by lia. by apply Z.mod_small. Qed.

Lemma is_trail_octet b : octet b -> is_trail b = (0x80 <=? b) && (b <? 0xc0).
Proof. intros Hb. unfold is_trail. rewrite mask8_octet by done. masks. unfold octet in Hb. div_lia. Qed.

(** What an octet announces. *)
Definition announced (b : Z) : Z :=
  if b <? 0x80 then 1 else if b <? 0xc0 then 0 else if b <? 0xe0 then 2 else if b <? 0xf0 then 3
  else if b <? 0xf8 then 4 else 0.

Lemma sequence_length_octet b : octet b -> sequence_length b = announced b.
Proof.
  intros Hb. unfold sequence_length, announced. rewrite mask8_octet by done. masks. unfold octet in Hb.
  repeat case_match; div_lia.
Qed.

Lemma is_code_point_valid_spec cp : 0 <= cp -> is_code_point_valid cp = true <-> code_point cp.
Proof.
  intros H. unfold is_code_point_valid, code_point, is_surrogate, CODE_POINT_MAX, LEAD_SURROGATE_MIN,
    TRAIL_SURROGATE_MAX. lia.
Qed.

Lemma lor_add k x c : 0 <= k -> 0 <= x < 2 ^ k -> Z.lor x (c * 2 ^ k) = c * 2 ^ k + x.
Proof.
  intros Hk Hx. pose proof (Z.add_lor_land x (c * 2 ^ k)) as Ha.
  assert (Z.land x (c * 2 ^ k) = 0); [|lia]. apply Z.bits_inj'. intros n Hn. rewrite Z.land_spec, Z.bits_0.
  destruct (decide (n < k)).
  - by rewrite Z.mul_pow2_bits_low, andb_false_r.
  - destruct (decide (x = 0)) as [->|]; [by rewrite Z.bits_0|].
    rewrite (Z.bits_above_log2 x n); [done|lia|]. apply Z.log2_lt_pow2; [lia|].
    apply Z.lt_le_trans with (2 ^ k); [lia|]. apply Z.pow_le_mono_r; lia.
Qed.

(** ** One sequence *)
Definition trailing (t : Z) : bool := (0x80 <=? t) && (t <? 0xc0).

Lemma INCREASE_octets b it cp k :
  Forall octet it →
  UTF8_CPP_INCREASE_AND_RETURN_ON_ERROR (b :: it) cp k =
    match it with
    | [] => (NOT_ENOUGH_ROOM, [], cp)
    | t :: _ => if trailing t then k it else (INCOMPLETE_SEQUENCE, it, cp)
    end.
Proof.
  unfold UTF8_CPP_INCREASE_AND_RETURN_ON_ERROR, increase_safely. cbn.
  intros [|t it' Ht _]; [done|]. rewrite is_trail_octet by done. fold (trailing t). by destruct (trailing t).
Qed.

(** The code points that the decoders compute. *)
Lemma code_point_2 b t :
  0xc0 <= b < 0xe0 → 0x80 <= t < 0xc0 →
  wrap_u 32 (Z.land (Z.shiftl (mask8 b) 6) 0x7ff + Z.land t 0x3f) = (b - 0xc0) * 0x40 + (t - 0x80).
Proof. intros Hb Ht. rewrite mask8_octet by (unfold octet; lia). masks. unfold wrap_u. div_lia. Qed.

Lemma code_point_3 b t1 t2 :
  0xe0 <= b < 0xf0 → 0x80 <= t1 < 0xc0 → 0x80 <= t2 < 0xc0 →
  wrap_u 32 (wrap_u 32 (Z.land (Z.shiftl (mask8 b) 12) 0xffff + Z.land (Z.shiftl (mask8 t1) 6) 0xfff) +
    Z.land t2 0x3f) = (b - 0xe0) * 0x1000 + (t1 - 0x80) * 0x40 + (t2 - 0x80).
Proof. intros Hb H1 H2. rewrite !mask8_octet by (unfold octet; lia). masks. unfold wrap_u. div_lia. Qed.

Lemma code_point_4 b t1 t2 t3 :
  0xf0 <= b < 0xf8 → 0x80 <= t1 < 0xc0 → 0x80 <= t2 < 0xc0 → 0x80 <= t3 < 0xc0 →
  wrap_u 32 (wrap_u 32 (wrap_u 32 (Z.land (Z.shiftl (mask8 b) 18) 0x1fffff +
    Z.land (Z.shiftl (mask8 t1) 12) 0x3ffff) + Z.land (Z.shiftl (mask8 t2) 6) 0xfff) + Z.land t3 0x3f) =
  (b - 0xf0) * 0x40000 + (t1 - 0x80) * 0x1000 + (t2 - 0x80) * 0x40 + (t3 - 0x80).
Proof. intros Hb H1 H2 H3. rewrite !mask8_octet by (unfold octet; lia). masks. unfold wrap_u. div_lia. Qed.

Lemma trailing_spec t : trailing t = true ↔ 0x80 <= t < 0xc0.
Proof. unfold trailing. lia. Qed.

(** The checks that follow the decoding. *)
Definition judge (cp length : Z) (l original : list Z) (c : Z) : decoded :=
  if is_code_point_valid cp then
    if negb (is_overlong_sequence cp length) then (UTF8_OK, l, cp) else (OVERLONG_SEQUENCE, original, c)
  else (INVALID_CODE_POINT, original, c).

Lemma announced_in b n lo hi :
  lo <= b < hi → (n, lo, hi) ∈ [(1, 0, 0x80); (2, 0xc0, 0xe0); (3, 0xe0, 0xf0); (4, 0xf0, 0xf8);
    (0, 0x80, 0xc0); (0, 0xf8, 0x100)] →
  sequence_length b = n.
Proof.
  intros Hb Hn. rewrite sequence_length_octet.
  - unfold announced. repeat (apply elem_of_cons in Hn as [Hn|Hn]; [simplify_eq; repeat case_match; lia|]).
    by apply elem_of_nil in Hn.
  - unfold octet. repeat (apply elem_of_cons in Hn as [Hn|Hn]; [simplify_eq; lia|]). by apply elem_of_nil in Hn.
Qed.

Lemma validate_next_1 b l c : 0 <= b < 0x80 → validate_next (b :: l) c = (UTF8_OK, l, b).
Proof.
  intros Hb. unfold validate_next. rewrite (announced_in b 1 0 0x80) by (done || set_solver). cbn.
  rewrite mask8_octet by (unfold octet; lia).
  rewrite (proj2 (is_code_point_valid_spec b (proj1 Hb))) by (unfold code_point; lia).
  unfold is_overlong_sequence. by rewrite (proj2 (Z.ltb_lt b 0x80)) by lia.
Qed.

Lemma validate_next_2 b l c :
  0xc0 <= b < 0xe0 → Forall octet l →
  validate_next (b :: l) c =
    match l with
    | t :: l' =>
        if trailing t then judge ((b - 0xc0) * 0x40 + (t - 0x80)) 2 l' (b :: l) c
        else (INCOMPLETE_SEQUENCE, b :: l, c)
    | [] => (NOT_ENOUGH_ROOM, b :: l, c)
    end.
Proof.
  intros Hb Hl. unfold validate_next. rewrite (announced_in b 2 0xc0 0xe0) by (done || set_solver). cbn.
  rewrite INCREASE_octets by done. destruct l as [|t l]; [done|].
  destruct (trailing t) eqn:Ht; [|done]. apply trailing_spec in Ht. cbn. by rewrite code_point_2.
Qed.

Lemma validate_next_3 b l c :
  0xe0 <= b < 0xf0 → Forall octet l →
  validate_next (b :: l) c =
    match l with
    | t1 :: l1 =>
        if trailing t1 then
          match l1 with
          | t2 :: l2 =>
              if trailing t2 then judge ((b - 0xe0) * 0x1000 + (t1 - 0x80) * 0x40 + (t2 - 0x80)) 3 l2 (b :: l) c
              else (INCOMPLETE_SEQUENCE, b :: l, c)
          | [] => (NOT_ENOUGH_ROOM, b :: l, c)
          end
        else (INCOMPLETE_SEQUENCE, b :: l, c)
    | [] => (NOT_ENOUGH_ROOM, b :: l, c)
    end.
Proof.
  intros Hb Hl. unfold validate_next. rewrite (announced_in b 3 0xe0 0xf0) by (done || set_solver). cbn.
  rewrite INCREASE_octets by done. destruct Hl as [|t1 l1 _ Hl]; [done|].
  destruct (trailing t1) eqn:Ht1; [|done]. apply trailing_spec in Ht1.
  rewrite INCREASE_octets by done. destruct Hl as [|t2 l2 _ Hl]; [done|].
  destruct (trailing t2) eqn:Ht2; [|done]. apply trailing_spec in Ht2. cbn. by rewrite code_point_3.
Qed.

Lemma validate_next_4 b l c :
  0xf0 <= b < 0xf8 → Forall octet l →
  validate_next (b :: l) c =
    match l with
    | t1 :: l1 =>
        if trailing t1 then
          match l1 with
          | t2 :: l2 =>
              if trailing t2 then
                match l2 with
                | t3 :: l3 =>
                    if trailing t3 then
                      judge ((b - 0xf0) * 0x40000 + (t1 - 0x80) * 0x1000 + (t2 - 0x80) * 0x40 + (t3 - 0x80)) 4
                        l3 (b :: l) c
                    else (INCOMPLETE_SEQUENCE, b :: l, c)
                | [] => (NOT_ENOUGH_ROOM, b :: l, c)
                end
              else (INCOMPLETE_SEQUENCE, b :: l, c)
          | [] => (NOT_ENOUGH_ROOM, b :: l, c)
          end
        else (INCOMPLETE_SEQUENCE, b :: l, c)
    | [] => (NOT_ENOUGH_ROOM, b :: l, c)
    end.
Proof.
  intros Hb Hl. unfold validate_next. rewrite (announced_in b 4 0xf0 0xf8) by (done || set_solver). cbn.
  rewrite INCREASE_octets by done. destruct Hl as [|t1 l1 _ Hl]; [done|].
  destruct (trailing t1) eqn:Ht1; [|done]. apply trailing_spec in Ht1.
  rewrite INCREASE_octets by done. destruct Hl as [|t2 l2 _ Hl]; [done|].
  destruct (trailing t2) eqn:Ht2; [|done]. apply trailing_spec in Ht2.
  rewrite INCREASE_octets by done. destruct Hl as [|t3 l3 _ Hl]; [done|].
  destruct (trailing t3) eqn:Ht3; [|done]. apply trailing_spec in Ht3. cbn. by rewrite code_point_4.
Qed.

Lemma validate_next_0 b l c :
  0x80 <= b < 0xc0 ∨ 0xf8 <= b < 0x100 → validate_next (b :: l) c = (INVALID_LEAD, b :: l, c).
Proof.
  intros [Hb|Hb]; unfold validate_next;
    [rewrite (announced_in b 0 0x80 0xc0) by (done || set_solver)
    |rewrite (announced_in b 0 0xf8 0x100) by (done || set_solver)]; done.
Qed.

Lemma judge_OK cp n l o c l' cp' :
  0 <= cp → judge cp n l o c = (UTF8_OK, l', cp') →
  l' = l ∧ cp' = cp ∧ code_point cp ∧ is_overlong_sequence cp n = false.
Proof.
  unfold judge. intros H0 H. destruct (is_code_point_valid cp) eqn:Hv; [|done].
  destruct (is_overlong_sequence cp n); [done|]. simplify_eq/=. by apply is_code_point_valid_spec in Hv.
Qed.

Lemma judge_code_point cp n l o c :
  code_point cp → is_overlong_sequence cp n = false → judge cp n l o c = (UTF8_OK, l, cp).
Proof.
  intros H Ho. unfold judge. rewrite (proj2 (is_code_point_valid_spec cp (proj1 (proj1 H))) H). by rewrite Ho.
Qed.

(** A sequence was decoded to [cp], and passes the checks. *)
Ltac judged cp :=
  match goal with |- judge ?x _ _ _ _ = _ => replace x with cp by div_lia end;
  apply judge_code_point; [done|unfold is_overlong_sequence; repeat case_match; lia].

(** [validate_next] accepts the sequences of the code points, and no others. *)
Lemma validate_next_utf8 cp l c :
  code_point cp → Forall octet l → validate_next (utf8 cp ++ l) c = (UTF8_OK, l, cp).
Proof.
  intros Hcp Hl. assert (0 <= cp <= 0x10ffff) as H0 by apply Hcp.
  assert (Forall octet (utf8 cp)) as Ho.
  { unfold utf8, octet. repeat case_match; repeat constructor; div_lia. }
  assert (∀ b l', utf8 cp = b :: l' → Forall octet (l' ++ l)) as Ht.
  { intros b l' E. rewrite E in Ho. inversion Ho; subst. by apply Forall_app_2. }
  revert Ht. clear Ho. unfold utf8.
  destruct (Z.ltb_spec cp 0x80); [|destruct (Z.ltb_spec cp 0x800); [|destruct (Z.ltb_spec cp 0x10000)]];
    intros Ht; specialize (Ht _ _ eq_refl); cbn [app] in Ht |- *.
  - apply validate_next_1. lia.
  - rewrite validate_next_2 by (done || div_lia). rewrite (proj2 (trailing_spec _)) by div_lia.
    judged cp.
  - rewrite validate_next_3 by (done || div_lia). rewrite !(proj2 (trailing_spec _)) by div_lia.
    judged cp.
  - rewrite validate_next_4 by (done || div_lia). rewrite !(proj2 (trailing_spec _)) by div_lia.
    judged cp.
Qed.

(** A sequence that passed the checks is the sequence of its code point. *)
Ltac accepted H :=
  repeat case_match; try done;
  repeat match goal with Ht : trailing _ = true |- _ => apply trailing_spec in Ht end;
  let Hcp := fresh "Hcp" in let Hov := fresh "Hov" in
  apply judge_OK in H as (-> & -> & Hcp & Hov); [|lia]; split; [done|];
  destruct Hcp as [Hcp _]; unfold is_overlong_sequence in Hov; unfold utf8;
  repeat case_match; try (exfalso; lia); cbn [app]; repeat f_equal; div_lia.

Lemma validate_next_OK l c l' cp :
  Forall octet l → validate_next l c = (UTF8_OK, l', cp) → code_point cp ∧ l = utf8 cp ++ l'.
Proof.
  intros Hl H. destruct Hl as [|b l Hb Hl]; [done|]. unfold octet in Hb.
  assert (0 <= b < 0x80 ∨ 0xc0 <= b < 0xe0 ∨ 0xe0 <= b < 0xf0 ∨ 0xf0 <= b < 0xf8 ∨
    (0x80 <= b < 0xc0 ∨ 0xf8 <= b < 0x100)) as [Hr|[Hr|[Hr|[Hr|Hr]]]] by lia.
  - rewrite validate_next_1 in H by done. simplify_eq. split; [unfold code_point; lia|].
    unfold utf8. by rewrite (proj2 (Z.ltb_lt cp 0x80)) by lia.
  - rewrite validate_next_2 in H by done. accepted H.
  - rewrite validate_next_3 in H by done. accepted H.
  - rewrite validate_next_4 in H by done. accepted H.
  - rewrite validate_next_0 in H by done. done.
Qed.

(** [validate_next] leaves the code point of the caller alone when it fails. *)
Lemma validate_next_fails l c err l' cp :
  validate_next l c = (err, l', cp) → err ≠ UTF8_OK → l' = l ∧ cp = c.
Proof.
  destruct l as [|b l]; cbn; [by intros [= <- <- <-]|]. destruct (sequence_length b =? 0); [by intros [= <- <- <-]|].
  destruct (if sequence_length b =? 1 then _ else _) as [[e i] p].
  repeat case_match; intros [= <- <- <-]; done.
Qed.

(** An [invalid_code_point] of [next] does not name the code point: it is 0. *)
Lemma next_reports_zero l cp : next l = Throw (invalid_code_point cp) → cp = 0.
Proof.
  unfold next. destruct (validate_next l 0) as [[err l'] c] eqn:E. destruct err; intros [= <-].
  by apply validate_next_fails in E as [_ ->].
Qed.

Lemma next_utf8 cp l : code_point cp → Forall octet l → next (utf8 cp ++ l) = Done (cp, l).
Proof. intros Hcp Hl. unfold next. by rewrite validate_next_utf8. Qed.

(** [next] decodes a sequence, or throws. *)
Lemma next_spec l :
  Forall octet l →
  (∃ cp l', next l = Done (cp, l') ∧ code_point cp ∧ l = utf8 cp ++ l') ∨ (∃ e, next l = Throw e).
Proof.
  intros Hl. unfold next. destruct (validate_next l 0) as [[err l'] cp] eqn:E.
  destruct (decide (err = UTF8_OK)) as [->|]; [|right; destruct err; eauto; done].
  left. apply validate_next_OK in E; [|done]. eauto.
Qed.

(** ** Whole strings *)

Lemma utf8to16_nil {O : Type} {HO : OutputIterator O} (result : O) : utf8to16 [] result = Done result.
Proof. by simp utf8to16. Qed.

(** One turn of the loop. *)
Lemma utf8to16_turn {O : Type} {HO : OutputIterator O} l (result : O) :
  l ≠ [] →
  utf8to16 l result =
    match next l with
    | Done (cp, start) =>
        result ← (if 0xffff <? cp then
                    result ← put (wrap_u 16 (Z.shiftr cp 10 + LEAD_OFFSET)) result;
                    put (wrap_u 16 (Z.land cp 0x3ff + TRAIL_SURROGATE_MIN)) result
                  else put (wrap_u 16 cp) result);
        utf8to16 start result
    | Throw e => Throw e
    | Crash w => Crash w
    end.
Proof.
  destruct l as [|b l]; [done|intros _]. simp utf8to16.
  destruct (inspect (next (b :: l))) as [[[cp start]|e|w] H]; simp utf8to16; by rewrite H.
Qed.

(** [*result++ = v] for each [v] of [l]. *)
Definition puts {O : Type} {HO : OutputIterator O} (l : list Z) (result : O) : outcome utf8_exception O :=
  ofold (λ o v, put v o) l result.

Section Puts.
Context {O : Type} {HO : OutputIterator O}.
Implicit Types o : O.

Lemma puts_app l1 l2 o : puts (l1 ++ l2) o = puts l1 o ≫= puts l2.
Proof. apply ofold_app. Qed.

Lemma puts_1 a o : puts [a] o = put a o.
Proof. unfold puts. cbn. by destruct (put a o). Qed.

Lemma puts_2 a b o : puts [a; b] o = (o ← put a o; put b o).
Proof. change (puts [a; b] o) with (put a o ≫= puts [b]). destruct (put a o); [apply puts_1|done..]. Qed.

Lemma puts_3 a b c o : puts [a; b; c] o = (o ← put a o; o ← put b o; put c o).
Proof. change (puts [a; b; c] o) with (put a o ≫= puts [b; c]). destruct (put a o); [apply puts_2|done..]. Qed.

Lemma puts_4 a b c d o : puts [a; b; c; d] o = (o ← put a o; o ← put b o; o ← put c o; put d o).
Proof. change (puts [a; b; c; d] o) with (put a o ≫= puts [b; c; d]). destruct (put a o); [apply puts_3|done..]. Qed.

Lemma puts_cons a l o : puts (a :: l) o = put a o ≫= puts l.
Proof. done. Qed.

(** An octet with its tag. *)
Lemma tagged k c m x :
  m = c * 2 ^ k → 0 <= k < 8 → 0 <= x < 2 ^ k → 0 <= c → m + x < 256 → wrap_u 8 (Z.lor x m) = m + x.
Proof. intros -> Hk Hx Hc Hs. rewrite lor_add by lia. apply Z.mod_small. lia. Qed.

Lemma append_code_point cp o : code_point cp → append cp o = puts (utf8 cp) o.
Proof.
  intros Hcp. assert (0 <= cp <= 0x10ffff) as Hr by apply Hcp. unfold append.
  rewrite (proj2 (is_code_point_valid_spec cp (proj1 Hr)) Hcp). unfold utf8. cbn [negb].
  destruct (Z.ltb_spec cp 0x80); [|destruct (Z.ltb_spec cp 0x800); [|destruct (Z.ltb_spec cp 0x10000)]];
    rewrite ?puts_1, ?puts_2, ?puts_3, ?puts_4; masks.
  - unfold wrap_u. by rewrite Z.mod_small by lia.
  - by rewrite (tagged 6 3 0xc0), (tagged 6 2 0x80) by div_lia.
  - by rewrite (tagged 5 7 0xe0), !(tagged 6 2 0x80) by div_lia.
  - by rewrite (tagged 4 15 0xf0), !(tagged 6 2 0x80) by div_lia.
Qed.

(** What the loop of [utf8to16] writes for a code point. *)
Lemma write_utf16 cp o :
  code_point cp →
  (if 0xffff <? cp then
     o ← put (wrap_u 16 (Z.shiftr cp 10 + LEAD_OFFSET)) o;
     put (wrap_u 16 (Z.land cp 0x3ff + TRAIL_SURROGATE_MIN)) o
   else put (wrap_u 16 cp) o) = puts (utf16 cp) o.
Proof.
  intros [Hr _]. unfold utf16, LEAD_OFFSET, TRAIL_SURROGATE_MIN, wrap_u. masks.
  destruct (Z.ltb_spec cp 0x10000).
  - rewrite (proj2 (Z.ltb_ge 0xffff cp)) by lia. rewrite puts_1, Z.mod_small by lia. done.
  - rewrite (proj2 (Z.ltb_lt 0xffff cp)) by lia. rewrite puts_2.
    replace (0xd800 + (cp - 0x10000) / 0x400) with ((cp / 2 ^ 10 + 0xd7c0) mod 2 ^ 16) by div_lia.
    replace (0xdc00 + (cp - 0x10000) mod 0x400) with ((cp mod 2 ^ 10 + 0xdc00) mod 2 ^ 16) by div_lia. done.
Qed.
End Puts.

(** The first condition of the goal is [v]. *)
Ltac branch v := match goal with |- context [if ?b then _ else _] => replace b with v by div_lia end.

(** The texts of a list of code points. *)
Definition utf8s (cps : list Z) : list Z := cps ≫= utf8.
Definition utf16s (cps : list Z) : list Z := cps ≫= utf16.

Lemma utf8_octets cp : code_point cp → Forall octet (utf8 cp).
Proof. intros [H _]. unfold utf8, octet. repeat case_match; repeat constructor; div_lia. Qed.

Lemma utf8s_octets cps : Forall code_point cps → Forall octet (utf8s cps).
Proof. induction 1; cbn; [constructor|]. apply Forall_app_2; [by apply utf8_octets|done]. Qed.

Lemma utf16_units cp : code_point cp → Forall unit16 (utf16 cp).
Proof. intros [H _]. unfold utf16, unit16. repeat case_match; repeat constructor; div_lia. Qed.

Lemma utf16s_units cps : Forall code_point cps → Forall unit16 (utf16s cps).
Proof. induction 1; cbn; [constructor|]. apply Forall_app_2; [by apply utf16_units|done]. Qed.

Lemma utf8_nonempty cp l : utf8 cp ++ l ≠ [].
Proof. unfold utf8. repeat case_match; done. Qed.

Section Streams.
Context {O : Type} {HO : OutputIterator O}.
Implicit Types o : O.

Lemma utf8to16_app cps rest o :
  Forall code_point cps → Forall octet rest →
  utf8to16 (utf8s cps ++ rest) o = puts (utf16s cps) o ≫= utf8to16 rest.
Proof.
  intros Hcps Hrest. revert o. induction Hcps as [|cp cps Hcp Hcps IH]; intros o; [done|].
  cbn [utf8s utf16s mbind list_bind]. rewrite <- app_assoc, puts_app. rewrite utf8to16_turn by apply utf8_nonempty.
  rewrite next_utf8 by (done || by apply Forall_app_2; [apply utf8s_octets|]).
  rewrite write_utf16 by done. rewrite outcome_bind_assoc. destruct (puts (utf16 cp) o); [apply IH|done..].
Qed.

(** The units of a surrogate pair give its code point back. *)
Lemma utf16to8_code_point cp l o :
  code_point cp → utf16to8 (utf16 cp ++ l) o = puts (utf8 cp) o ≫= utf16to8 l.
Proof.
  intros Hcp. rewrite <- append_code_point by done. destruct Hcp as [Hr Hs]. unfold utf16.
  destruct (Z.ltb_spec cp 0x10000); cbn [app utf16to8]; masks;
    unfold is_lead_surrogate, is_trail_surrogate, LEAD_SURROGATE_MIN, LEAD_SURROGATE_MAX, TRAIL_SURROGATE_MIN,
      TRAIL_SURROGATE_MAX, SURROGATE_OFFSET, wrap_u.
  - rewrite (Z.mod_small cp) by lia. branch false. by branch false.
  - rewrite !(Z.mod_small (_ + _) (2 ^ 16)) by div_lia.
    branch true. branch true.
    match goal with |- append ?x _ ≫= _ = _ => replace x with cp by div_lia end. done.
Qed.

Lemma utf16to8_app cps rest o :
  Forall code_point cps → utf16to8 (utf16s cps ++ rest) o = puts (utf8s cps) o ≫= utf16to8 rest.
Proof.
  intros Hcps. revert o. induction Hcps as [|cp cps Hcp Hcps IH]; intros o; [done|].
  cbn [utf8s utf16s mbind list_bind]. rewrite <- app_assoc, puts_app, utf16to8_code_point, outcome_bind_assoc by done.
  destruct (puts (utf8 cp) o); [apply IH|done..].
Qed.

(** [utf16to8] decodes a code point, or throws. *)
Lemma utf16to8_first l :
  Forall unit16 l → l ≠ [] →
  (∃ cp l', code_point cp ∧ l = utf16 cp ++ l') ∨ ∃ e, ∀ o, utf16to8 l o = Throw (invalid_utf16 e).
Proof.
  intros Hl Hne. destruct Hl as [|u rest Hu Hrest]; [done|]. cbn [utf16to8].
  assert (∀ v, unit16 v → mask16 v = v) as Hm by (intros v Hv; masks; by apply Z.mod_small).
  rewrite Hm by done. unfold unit16 in Hu.
  unfold is_lead_surrogate, is_trail_surrogate, LEAD_SURROGATE_MIN, LEAD_SURROGATE_MAX, TRAIL_SURROGATE_MIN,
    TRAIL_SURROGATE_MAX.
  destruct ((0xd800 <=? u) && (u <=? 0xdbff)) eqn:Hl.
  - destruct Hrest as [|t rest Ht Hrest]; [eauto|]. rewrite Hm by done.
    destruct ((0xdc00 <=? t) && (t <=? 0xdfff)) eqn:Hr; [|eauto]. left.
    exists (0x10000 + (u - 0xd800) * 0x400 + (t - 0xdc00)), rest. split; [unfold code_point; lia|].
    unfold utf16. branch false. cbn [app]. repeat f_equal; div_lia.
  - destruct ((0xdc00 <=? u) && (u <=? 0xdfff)) eqn:Hr; [eauto|]. left.
    exists u, rest. split; [unfold code_point; lia|]. unfold utf16. by branch true.
Qed.

(** Every text is the text of some code points, and a rest that is refused. *)
Lemma utf8_split l :
  Forall octet l →
  ∃ cps rest, Forall code_point cps ∧ l = utf8s cps ++ rest ∧ Forall octet rest ∧
    (rest = [] ∨ ∃ e, ∀ o : O, utf8to16 rest o = Throw e).
Proof.
  induction l as [l IH] using (induction_ltof1 _ (@length _)). unfold ltof in IH. intros Hl.
  destruct (decide (l = [])) as [->|Hne]; [by exists [], []; eauto|].
  destruct (next_spec l Hl) as [(cp & l' & Hn & Hcp & ->)|[e He]].
  - apply Forall_app in Hl as [_ Hl]. destruct (IH l' (next_shorter _ _ _ Hn) Hl) as (cps & rest & Hcps & -> & Hr).
    exists (cp :: cps), rest. split; [by constructor|]. split; [|done]. cbn. by rewrite <- app_assoc.
  - exists [], l. do 3 (split; [done|]). right. exists e. intros o. by rewrite utf8to16_turn, He.
Qed.

Lemma utf16_split l :
  Forall unit16 l →
  ∃ cps rest, Forall code_point cps ∧ l = utf16s cps ++ rest ∧
    (rest = [] ∨ ∃ e, ∀ o : O, utf16to8 rest o = Throw e).
Proof.
  induction l as [l IH] using (induction_ltof1 _ (@length _)). unfold ltof in IH. intros Hl.
  destruct (decide (l = [])) as [->|Hne]; [by exists [], []; eauto|].
  destruct (utf16to8_first l Hl Hne) as [(cp & l' & Hcp & ->)|[e He]].
  - apply Forall_app in Hl as [_ Hl]. destruct (IH l') as (cps & rest & Hcps & -> & Hr); [|done|].
    { rewrite length_app. unfold utf16. case_match; cbn; lia. }
    exists (cp :: cps), rest. split; [by constructor|]. split; [|done]. cbn. by rewrite <- app_assoc.
  - exists [], l. do 2 (split; [done|]). right. by exists (invalid_utf16 e).
Qed.
End Streams.

(** ** What the output iterators hold *)
Lemma puts_back l o : puts l o = Done (o ++ l).
Proof.
  revert o. induction l as [|a l IH]; intros o; [by rewrite app_nil_r|].
  rewrite puts_cons. cbn. by rewrite IH, <- app_assoc.
Qed.

Lemma put_pointer a pre x free :
  put a (mk_pointer (pre ++ x :: free) (length pre)) = Done (mk_pointer (pre ++ a :: free) (S (length pre))).
Proof.
  unfold put, through_pointer. cbn [position memory].
  rewrite (proj2 (Nat.ltb_lt _ _)) by (rewrite length_app; cbn; lia).
  by rewrite insert_app_r_alt, Nat.sub_diag by done.
Qed.

Lemma puts_pointer l pre free :
  (length l <= length free)%nat →
  puts l (mk_pointer (pre ++ free) (length pre)) =
    Done (mk_pointer (pre ++ l ++ drop (length l) free) (length pre + length l)).
Proof.
  revert pre free. induction l as [|a l IH]; intros pre free Hle.
  { cbn. by rewrite Nat.add_0_r, drop_0. }
  destruct free as [|x free]; cbn in Hle; [lia|]. rewrite puts_cons, put_pointer. cbn [mbind outcome_bind].
  specialize (IH (pre ++ [a]) free). rewrite length_app, Nat.add_1_r in IH. rewrite <- !app_assoc in IH. cbn [app] in IH.
  rewrite IH by lia. cbn. do 2 f_equal. lia.
Qed.

Lemma utf8s_length cps : (length (utf8s cps) <= 4 * length (utf16s cps))%nat.
Proof.
  induction cps as [|cp cps IH]; [done|].
  change (utf8s (cp :: cps)) with (utf8 cp ++ utf8s cps).
  change (utf16s (cp :: cps)) with (utf16 cp ++ utf16s cps). rewrite !length_app.
  assert (length (utf8 cp) <= 4 * length (utf16 cp))%nat; [|lia].
  unfold utf8, utf16. repeat case_match; cbn; lia.
Qed.

Lemma octet_of_nat c : octet (Z.of_nat (nat_of_ascii c)).
Proof. pose proof (nat_ascii_bounded c). unfold octet. lia. Qed.

Lemma octets_are_octets s : Forall octet (octets s).
Proof. apply Forall_fmap, Forall_true. intros c. apply octet_of_nat. Qed.

Lemma of_octets_octets s : of_octets (octets s) = s.
Proof.
  unfold of_octets, octets. rewrite <- list_fmap_compose, (list_fmap_ext _ id), list_fmap_id.
  - apply String.string_of_list_ascii_of_string.
  - intros i c _. cbn. by rewrite Nat2Z.id, ascii_nat_embedding.
Qed.

Lemma octets_of_octets l : Forall octet l → octets (of_octets l) = l.
Proof.
  intros Hl. unfold of_octets, octets. rewrite String.list_ascii_of_string_of_list_ascii, <- list_fmap_compose.
  rewrite <- (list_fmap_id l) at 2. apply Forall_fmap_ext_1. eapply Forall_impl; [exact Hl|].
  intros o Ho. unfold octet in Ho. cbn. rewrite nat_ascii_embedding; lia.
Qed.

(** ** The conversions *)

(** [Utf8toWStr] decodes what is UTF-8 and no more: the code points of the
    text, as UTF-16; on anything else it clears the caller's string. *)
Lemma Utf8toWStr_spec (s : string) (r : bool * list Z) :
  Utf8toWStr s = Done r ↔
    (∃ cps, Forall code_point cps ∧ octets s = utf8s cps ∧ r = (true, utf16s cps)) ∨
    ((∀ cps, Forall code_point cps → octets s ≠ utf8s cps) ∧ r = (false, [])).
Proof.
  assert (∀ cps, Forall code_point cps → octets s = utf8s cps → Utf8toWStr s = Done (true, utf16s cps)) as Hok.
  { intros cps Hcps Hs. unfold Utf8toWStr. rewrite Hs, <- (app_nil_r (utf8s cps)), utf8to16_app, puts_back by done.
    cbn. by rewrite utf8to16_nil. }
  destruct (utf8_split (O := list Z) (octets s) (octets_are_octets s)) as (cps & rest & Hcps & Hs & Hrest & [->|[e He]]).
  - rewrite app_nil_r in Hs. rewrite (Hok _ Hcps Hs). split; [naive_solver|].
    intros [(cps' & Hcps' & Hs' & ->)|[Hno _]]; [|by destruct (Hno cps)].
    by rewrite <- (Hok _ Hcps' Hs'), (Hok _ Hcps Hs).
  - assert (Utf8toWStr s = Done (false, [])) as Hf.
    { unfold Utf8toWStr. rewrite Hs, utf8to16_app, puts_back by done. cbn. by rewrite He. }
    rewrite Hf. split.
    + intros [= <-]. right. split; [|done]. intros cps' Hcps' Hs'. by rewrite (Hok _ Hcps' Hs') in Hf.
    + intros [(cps' & Hcps' & Hs' & ->)|[_ ->]]; [|done]. by rewrite <- Hf, (Hok _ Hcps' Hs').
Qed.

(** [utf16to8] through the pointer that [WStrToUtf8] makes: the buffer is large
    enough for what is written before an exception, too. *)
Lemma utf16to8_buffer cps rest n :
  Forall code_point cps → (4 * length (utf16s cps ++ rest) <= n)%nat →
  ∃ free, utf16to8 (utf16s cps ++ rest) (mk_pointer (replicate n 0) 0) =
    utf16to8 rest (mk_pointer (utf8s cps ++ free) (length (utf8s cps))).
Proof.
  intros Hcps Hn. rewrite length_app in Hn. pose proof (utf8s_length cps) as Hl.
  exists (drop (length (utf8s cps)) (replicate n 0)). rewrite utf16to8_app by done.
  pose proof (puts_pointer (utf8s cps) [] (replicate n 0)) as Hp. cbn in Hp. rewrite Hp; [done|].
  rewrite length_replicate. lia.
Qed.

(** [WStrToUtf8] encodes what is UTF-16 and no more: the code points of the
    text, as UTF-8; on anything else it clears the caller's string.  It never
    writes past the four octets it allocates for each unit. *)
Lemma WStrToUtf8_spec (w : list Z) (r : bool * string) (Hw : Forall unit16 w) :
  WStrToUtf8 w = Done r ↔
    (∃ cps, Forall code_point cps ∧ w = utf16s cps ∧ r = (true, of_octets (utf8s cps))) ∨
    ((∀ cps, Forall code_point cps → w ≠ utf16s cps) ∧ r = (false, EmptyString)).
Proof.
  assert (∀ cps, Forall code_point cps → w = utf16s cps → WStrToUtf8 w = Done (true, of_octets (utf8s cps))) as Hok.
  { intros cps Hcps ->. unfold WStrToUtf8.
    destruct (utf16to8_buffer cps [] (4 * length (utf16s cps)) Hcps) as [free Hf]; [by rewrite app_nil_r|].
    rewrite app_nil_r in Hf. rewrite Hf. cbn [utf16to8].
    destruct cps as [|cp cps]; [done|]. destruct (utf16s (cp :: cps)) eqn:E.
    - cbn in E. unfold utf16 in E. by case_match.
    - cbn [mbind outcome_bind position memory]. by rewrite take_app_length. }
  destruct (utf16_split (O := pointer) w Hw) as (cps & rest & Hcps & Hs & [->|[e He]]).
  - rewrite app_nil_r in Hs. rewrite (Hok _ Hcps Hs). split; [naive_solver|].
    intros [(cps' & Hcps' & Hs' & ->)|[Hno _]]; [|by destruct (Hno cps)].
    by rewrite <- (Hok _ Hcps' Hs'), (Hok _ Hcps Hs).
  - assert (WStrToUtf8 w = Done (false, EmptyString)) as Hf.
    { unfold WStrToUtf8. destruct (utf16to8_buffer cps rest (4 * length w) Hcps) as [free Hf]; [by rewrite Hs|].
      rewrite <- Hs in Hf. rewrite Hf, He. destruct w; [|done]. symmetry in Hs. apply app_nil in Hs as [_ ->].
      by specialize (He (mk_pointer [] 0)). }
    rewrite Hf. split.
    + intros [= <-]. right. split; [|done]. intros cps' Hcps' Hs'. by rewrite (Hok _ Hcps' Hs') in Hf.
    + intros [(cps' & Hcps' & Hs' & ->)|[_ ->]]; [|done]. by rewrite <- Hf, (Hok _ Hcps' Hs').
Qed.

(** The decoder takes a code point off the front of a text if the text begins
    with the one sequence of octets that encodes it, and throws otherwise: no
    overlong sequence, no surrogate and nothing above U+10FFFF passes. *)
Theorem next_exact (l : list Z) (cp : Z) (l' : list Z) (Hl : Forall octet l) :
  next l = Done (cp, l') ↔ code_point cp ∧ l = utf8 cp ++ l'.
Proof.
  split.
  - intros Hn. destruct (next_spec l Hl) as [(cp' & l1 & Hn' & H)|[e He]]; [|congruence].
    rewrite Hn in Hn'. by injection Hn' as -> ->.
  - intros [Hcp ->]. apply next_utf8; [done|]. by apply Forall_app in Hl as [_ Hl].
Qed.

(** C20 The two conversions are inverse to each other: what one makes of a text,
    the other turns back, and what is made of two different texts differs. *)
Theorem Utf8toWStr_WStrToUtf8 (s : string) (w : list Z) (Hw : Forall unit16 w) :
  Utf8toWStr s = Done (true, w) ↔ WStrToUtf8 w = Done (true, s).
Proof.
  split.
  - intros [(cps & Hcps & Hs & [= ->])|[_ [=]]]%Utf8toWStr_spec.
    apply WStrToUtf8_spec; [done|]. left. exists cps. by rewrite <- Hs, of_octets_octets.
  - intros [(cps & Hcps & -> & [= ->])|[_ [=]]]%WStrToUtf8_spec; [|done].
    apply Utf8toWStr_spec. left. exists cps. by rewrite octets_of_octets by by apply utf8s_octets.
Qed.

(** ** Concrete runs *)
Example decode_text : Utf8toWStr "Привет €" = Done (true, [0x41f; 0x440; 0x438; 0x432; 0x435; 0x442; 0x20; 0x20ac]).
Proof. vm_compute. reflexivity. Qed.

(** U+1F409, a pair of surrogates *)
Example decode_dragon : Utf8toWStr (of_octets [0xf0; 0x9f; 0x90; 0x89]) = Done (true, [0xd83d; 0xdc09]).
Proof. vm_compute. reflexivity. Qed.

(** An overlong blank, a truncated sequence and an encoded surrogate *)
Example decode_bad :
  Utf8toWStr (of_octets [0xc0; 0xa0]) = Done (false, []) ∧ Utf8toWStr (of_octets [0xd0]) = Done (false, []) ∧
  Utf8toWStr (of_octets [0xed; 0xa0; 0x80]) = Done (false, []).
Proof. vm_compute. repeat split. Qed.

Lemma next_exact_witness :
  next [0xd0; 0x9f; 0x21] = Done (0x41f, [0x21]) ↔ code_point 0x41f ∧ [0xd0; 0x9f; 0x21] = utf8 0x41f ++ [0x21].
Proof. apply next_exact. unfold octet. repeat constructor; lia. Defined.

Lemma Utf8toWStr_WStrToUtf8_witness :
  Utf8toWStr "Финал" = Done (true, [0x424; 0x438; 0x43d; 0x430; 0x43b]) ↔
  WStrToUtf8 [0x424; 0x438; 0x43d; 0x430; 0x43b] = Done (true, "Финал"%string).
Proof. apply Utf8toWStr_WStrToUtf8. unfold unit16. repeat constructor; lia. Defined.

Close Scope Z_scope.
