(* ===== verification/Substr.v ===== *)
(** * Cutting a text to a number of characters: utility.cpp of deps/dpp

    [utf8len] and [utf8substr], with which the D++ library cuts the texts of an
    embed.  [utf8len] walks over the C string by its own idea of how long a
    sequence is: [char_at] past the terminator is a [Crash].  Sizes are [Z], as
    [size_t]. *)
From Equations Require Import Equations.
From S2P Require Import Prelude Utf8.
Open Scope Z_scope.

Definition npos : Z := 2 ^ 64 - 1.

(** [s[i]] of [str.c_str()]: the octet, 0 at the end. *)
Definition char_at (s : list Z) (i : Z) : option Z :=
  if i =? Z.of_nat (length s) then Some 0 else if i <? 0 then None else s !! Z.to_nat i.

(** [s[i] > 0], where [char] is signed *)
Definition positive (c : Z) : bool := (0 <? c) && (c <? 0x80).

Lemma char_at_in s i c : char_at s i = Some c → 0 <= i <= Z.of_nat (length s).
Proof.
  unfold char_at. destruct (Z.eqb_spec i (Z.of_nat (length s))); [lia|]. destruct (Z.ltb_spec i 0); [done|].
  intros Hl%lookup_lt_Some. lia.
Qed.

Definition sequence (c : Z) : Z :=
  if Z.land 0xF0 c =? 0xE0 then 3 else if Z.land 0xF0 c =? 0xF0 then 4 else 2.

Lemma sequence_bounds c : 2 <= sequence c <= 4.
Proof. unfold sequence. repeat case_match; lia. Qed.

(** The two loops, [true] being the one at the label [ascii]; what follows that
    loop adds to [count].  [goto ascii] increases [i] on its way in. *)
Equations? utf8len_loop (s : list Z) (ascii : bool) (i iBefore count : Z) : outcome Empty_set Z
    by wf (2 * (S (length s) - Z.to_nat i) + if ascii then 1 else 0)%nat lt :=
  utf8len_loop s ascii i iBefore count with inspect (char_at s i) => {
    | exist _ None _ => Crash "read past the end of the string"
    | exist _ (Some c) H with ascii => {
        | true with positive c => {
            | true => utf8len_loop s true (i + 1) iBefore count
            | false => utf8len_loop s false i iBefore (count + (i - iBefore)) }
        | false with c =? 0 => {
            | true => Done count
            | false with positive c => {
                | true => utf8len_loop s true (i + 1) i count
                | false => utf8len_loop s false (i + sequence c) iBefore (count + 1) } } } }.
Proof.
  all: apply char_at_in in H; pose proof (sequence_bounds c); cbv beta iota; lia.
Qed.

Definition utf8len (str : list Z) : outcome Empty_set Z :=
  match char_at str 0 with
  | Some 0 => Done 0
  | _ => utf8len_loop str true 0 0 0
  end.

(** What an octet adds to [i]; [None] is invalid UTF-8. *)
Definition skip (c : Z) : option Z :=
  if c <? 0x80 then Some 0
  else if Z.land c 0xE0 =? 0xC0 then Some 1
  else if Z.land c 0xF0 =? 0xE0 then Some 2
  else if Z.land c 0xF8 =? 0xF0 then Some 3
  else None.

(** The [for] loop: [q], [i], [min] and [max] after it; [Throw] where it returns
    the empty string. *)
Fixpoint utf8substr_loop (fuel : nat) (str : list Z) (start leng q i min max : Z) : outcome unit (Z * Z * Z * Z) :=
  match fuel with
  | O => Crash "out of fuel"
  | S fuel =>
      if negb (i <? Z.of_nat (length str)) then Done (q, i, min, max)
      else
        let min := if q =? start then i else min in
        let max := if (q <=? wrap_u 64 (start + leng)) || (leng =? npos) then i else max in
        match str !! Z.to_nat i ≫= skip with
        | Some k => utf8substr_loop fuel str start leng (q + 1) (i + k + 1) min max
        | None => Throw ()
        end
  end.

Definition utf8substr (str : list Z) (start leng : Z) : outcome Empty_set (list Z) :=
  if leng =? 0 then Done []
  else
    short ← (if start =? 0 then n ← utf8len str; Done (n <=? leng) else Done false);
    if (short : bool) then Done str
    else
      match utf8substr_loop (S (length str)) str start leng 0 0 npos npos with
      | Done (q, i, min, max) =>
          let max := if (q <=? wrap_u 64 (start + leng)) || (leng =? npos) then i else max in
          if (min =? npos) || (max =? npos) then Done []
          else Done (take (Z.to_nat max) (drop (Z.to_nat min) str))
      | Throw _ => Done []
      | Crash w => Crash w
      end.

(** ** Concrete runs *)
Example cut_text : utf8substr (octets "Привет") 0 3 = Done (octets "При").
Proof. vm_compute. reflexivity. Qed.

(** A text that ends in the middle of a sequence: the walk passes the terminator. *)
Lemma utf8len_overruns : utf8len [0xe2] = Crash "read past the end of the string".
Proof. vm_compute. reflexivity. Qed.

(** A text with a zero in it is measured up to there, and so is not cut. *)
Example cut_zero : utf8substr [0x61; 0; 0x62; 0x62] 0 2 = Done [0x61; 0; 0x62; 0x62].
Proof. vm_compute. reflexivity. Qed.

(** ** Texts in UTF-8 *)

(** One turn at each loop. *)
Lemma utf8len_loop_turn s ascii i iBefore count :
  utf8len_loop s ascii i iBefore count =
    match char_at s i with
    | None => Crash "read past the end of the string"
    | Some c =>
        if ascii then
          if positive c then utf8len_loop s true (i + 1) iBefore count
          else utf8len_loop s false i iBefore (count + (i - iBefore))
        else if c =? 0 then Done count
        else if positive c then utf8len_loop s true (i + 1) i count
        else utf8len_loop s false (i + sequence c) iBefore (count + 1)
    end.
Proof.
  rewrite utf8len_loop_equation_1.
  enough (∀ d : {y | char_at s i = y}, utf8len_loop_unfold_clause_1 s ascii i d iBefore count =
    match proj1_sig d with
    | None => _ | Some c => _
    end) as Hd by exact (Hd (inspect (char_at s i))).
  intros [[c|] H]; cbn; [|done]. unfold utf8len_loop_unfold_clause_1_clause_2.
  destruct ascii; unfold utf8len_loop_unfold_clause_1_clause_2_clause_1,
    utf8len_loop_unfold_clause_1_clause_2_clause_2, utf8len_loop_unfold_clause_1_clause_2_clause_2_clause_2.
  - by destruct (positive c).
  - destruct (c =? 0); [done|]. by destruct (positive c).
Qed.

Lemma char_at_middle pre c l : char_at (pre ++ c :: l) (Z.of_nat (length pre)) = Some c.
Proof.
  unfold char_at. rewrite length_app. cbn [length]. rewrite (proj2 (Z.eqb_neq _ _)) by lia.
  rewrite (proj2 (Z.ltb_ge _ 0)) by lia. rewrite Nat2Z.id. by rewrite lookup_app_r, Nat.sub_diag by lia.
Qed.

Lemma char_at_end s : char_at s (Z.of_nat (length s)) = Some 0.
Proof. unfold char_at. by rewrite Z.eqb_refl. Qed.

(** What holds of the 256 octets holds of all of them. *)
Lemma octet_table (P : Z → bool) c : forallb (λ n, P (Z.of_nat n)) (seq 0 256) = true → octet c → P c = true.
Proof.
  intros Ht Hc. rewrite forallb_forall in Ht. unfold octet in Hc. rewrite <- (Z2Nat.id c) by lia.
  apply Ht, in_seq. lia.
Qed.

Lemma sequence_octet c : octet c → sequence c = if c <? 0xe0 then 2 else if c <? 0xf0 then 3 else 4.
Proof.
  intros Hc. apply Z.eqb_eq.
  by apply (octet_table (λ c, sequence c =? if c <? 0xe0 then 2 else if c <? 0xf0 then 3 else 4)).
Qed.

Lemma skip_octet c :
  octet c → c < 0x80 ∨ 0xc0 <= c < 0xf8 →
  skip c = Some (if c <? 0x80 then 0 else if c <? 0xe0 then 1 else if c <? 0xf0 then 2 else 3).
Proof.
  intros Hc Hr.
  assert (match skip c with
          | Some k => k =? (if c <? 0x80 then 0 else if c <? 0xe0 then 1 else if c <? 0xf0 then 2 else 3)
          | None => (0x80 <=? c) && (c <? 0xc0) || (0xf8 <=? c)
          end = true) as Ht.
  { by apply (octet_table (λ c, match skip c with
          | Some k => k =? (if c <? 0x80 then 0 else if c <? 0xe0 then 1 else if c <? 0xf0 then 2 else 3)
          | None => (0x80 <=? c) && (c <? 0xc0) || (0xf8 <=? c)
          end)). }
  destruct (skip c); [by apply Z.eqb_eq in Ht as ->|lia].
Qed.

(** How a sequence begins, and how long it is. *)
Lemma utf8_first cp :
  code_point cp → cp ≠ 0 → ∃ c l, utf8 cp = c :: l ∧ c ≠ 0 ∧ positive c = (cp <? 0x80) ∧
    (if positive c then l = [] else sequence c = Z.of_nat (length (utf8 cp))) ∧ skip c = Some (Z.of_nat (length l)).
Proof.
  intros Hcp H0. pose proof (utf8_octets cp Hcp) as Ho. destruct Hcp as [Hr _]. revert Ho. unfold utf8, positive.
  destruct (Z.ltb_spec cp 0x80); [|destruct (Z.ltb_spec cp 0x800); [|destruct (Z.ltb_spec cp 0x10000)]];
    intros [Hc _]%Forall_cons; eexists _, _; (split; [reflexivity|]); unfold positive;
    rewrite ?sequence_octet, skip_octet by (done || div_lia);
    repeat split; cbn [length];
    repeat (match goal with |- context [Z.ltb ?x ?y] => destruct (Z.ltb_spec x y) end; try div_lia); try done; div_lia.
Qed.

Definition no_zero (cps : list Z) : Prop := Forall (λ cp, cp ≠ 0) cps.

(** [utf8len] counts the code points. *)
Lemma utf8len_loop_counts cps pre i iBefore count :
  Forall code_point cps → no_zero cps → i = Z.of_nat (length pre) →
  utf8len_loop (pre ++ utf8s cps) false i iBefore count = Done (count + Z.of_nat (length cps)) ∧
  utf8len_loop (pre ++ utf8s cps) true i iBefore count = Done (count + (i - iBefore) + Z.of_nat (length cps)).
Proof.
  intros Hcps. revert pre i iBefore count.
  induction Hcps as [|cp cps Hcp Hcps IH]; intros pre i iBefore count Hnz ->.
  - assert (∀ b iB c, utf8len_loop (pre ++ utf8s []) b (Z.of_nat (length pre)) iB c =
      if b then utf8len_loop (pre ++ utf8s []) false (Z.of_nat (length pre)) iB (c + (Z.of_nat (length pre) - iB))
      else Done c) as Hturn.
    { intros b iB c. rewrite app_nil_r, utf8len_loop_turn, char_at_end. by destruct b. }
    rewrite !Hturn. cbn [length]. split; f_equal; lia.
  - apply Forall_cons in Hnz as [Hnz Hz]. destruct (utf8_first cp Hcp Hnz) as (c & l & Hu & Hc & Hp & Hs & _).
    change (utf8s (cp :: cps)) with (utf8 cp ++ utf8s cps). rewrite Hu in *. cbn [app].
    pose proof (utf8len_loop_turn (pre ++ c :: l ++ utf8s cps)) as Hturn.
    specialize (IH (pre ++ c :: l)). rewrite <- app_assoc in IH. cbn [app] in IH. rewrite length_app in IH. cbn [length] in IH.
    assert (utf8len_loop (pre ++ c :: l ++ utf8s cps) false (Z.of_nat (length pre)) iBefore count =
      Done (count + Z.of_nat (S (length cps)))) as Hf.
    { rewrite Hturn, char_at_middle, (proj2 (Z.eqb_neq c 0)) by done. destruct (positive c).
      - subst l. destruct (IH (Z.of_nat (length pre) + 1) (Z.of_nat (length pre)) count Hz) as [_ ->]; [cbn; lia|].
        f_equal. lia.
      - destruct (IH (Z.of_nat (length pre) + sequence c) iBefore (count + 1) Hz) as [-> _].
        + rewrite Hs. cbn [length]. lia.
        + f_equal. lia. }
    split; [exact Hf|]. rewrite Hturn, char_at_middle. destruct (positive c) eqn:Hpc.
    + subst l. destruct (IH (Z.of_nat (length pre) + 1) iBefore count Hz) as [_ ->]; [cbn; lia|].
      f_equal. cbn [length]. lia.
    + clear Hf. rewrite Hturn, char_at_middle, (proj2 (Z.eqb_neq c 0)), Hpc by done.
      destruct (IH (Z.of_nat (length pre) + sequence c) iBefore (count + (Z.of_nat (length pre) - iBefore) + 1) Hz) as [-> _].
      * rewrite Hs. cbn [length]. lia.
      * f_equal. cbn [length]. lia.
Qed.

Lemma utf8len_counts cps :
  Forall code_point cps → no_zero cps → utf8len (utf8s cps) = Done (Z.of_nat (length cps)).
Proof.
  intros Hcps Hnz. pose proof (proj2 (utf8len_loop_counts cps [] 0 0 0 Hcps Hnz eq_refl)) as H. cbn [app] in H.
  unfold utf8len. rewrite H. destruct cps as [|cp cps]; [done|].
  apply Forall_cons in Hcps as [Hcp _]. apply Forall_cons in Hnz as [Hn _].
  destruct (utf8_first cp Hcp Hn) as (c & l & Hu & Hc & _).
  change (utf8s (cp :: cps)) with (utf8 cp ++ utf8s cps). rewrite Hu.
  pose proof (char_at_middle [] c (l ++ utf8s cps)) as E. cbn [app] in E |- *.
  replace (char_at (c :: l ++ utf8s cps) 0) with (Some c) by (symmetry; exact E). by destruct c.
Qed.

(** The loop of [utf8substr], from the code point number [q] on: what follows it
    sets [max] to where the code point number [leng] begins, or to the end. *)
Lemma utf8substr_loop_text cps pre fuel q leng min max :
  Forall code_point cps → no_zero cps → 0 <= q → 0 < leng < npos → (length (utf8s cps) < fuel)%nat →
  let i := Z.of_nat (length pre) in
  ∃ q' i' min' max',
    utf8substr_loop fuel (pre ++ utf8s cps) 0 leng q i min max = Done (q', i', min', max') ∧
    min' = (if (q =? 0) && negb (bool_decide (cps = [])) then i else min) ∧
    (if (q' <=? wrap_u 64 (0 + leng)) || (leng =? npos) then i' else max') =
      if q <=? leng then i + Z.of_nat (length (utf8s (take (Z.to_nat (leng - q)) cps))) else max.
Proof.
  intros Hcps Hnz Hq Hleng. assert (wrap_u 64 (0 + leng) = leng) as Hw.
  { unfold wrap_u, npos in *. rewrite Z.mod_small; lia. }
  assert ((leng =? npos) = false) as Hn by lia. rewrite Hw, Hn. clear Hw.
  revert pre fuel q min max Hq. induction Hcps as [|cp cps Hcp Hcps IH]; intros pre fuel q min max Hq Hf i.
  - destruct fuel as [|fuel]; [cbn in Hf; lia|]. exists q, i, min, max. rewrite app_nil_r. cbn [utf8substr_loop].
    subst i. rewrite (proj2 (Z.ltb_ge _ _)) by lia. cbn. rewrite andb_false_r, take_nil. cbn.
    split; [done|]. split; [done|]. rewrite orb_false_r. case_match; lia.
  - apply Forall_cons in Hnz as [Hc0 Hnz]. destruct (utf8_first cp Hcp Hc0) as (c & l & Hu & _ & _ & _ & Hskip).
    change (utf8s (cp :: cps)) with (utf8 cp ++ utf8s cps) in Hf |- *. rewrite Hu in *. rewrite length_app in Hf.
    destruct fuel as [|fuel]; [lia|]. cbn [utf8substr_loop app length] in *. subst i.
    rewrite (proj2 (Z.ltb_lt _ _)) by (rewrite length_app; cbn; lia). cbn [negb].
    rewrite Nat2Z.id, lookup_app_r, Nat.sub_diag by lia. cbn [lookup list_lookup mbind option_bind]. rewrite Hskip.
    assert (wrap_u 64 (0 + leng) = leng) as -> by (unfold wrap_u, npos in *; rewrite Z.mod_small; lia). rewrite Hn.
    specialize (IH Hnz (pre ++ c :: l) fuel (q + 1) (if q =? 0 then Z.of_nat (length pre) else min)
      (if (q <=? leng) || false then Z.of_nat (length pre) else max)).
    rewrite <- app_assoc, length_app in IH. cbn [app length] in IH. destruct IH as (q' & i' & min' & max' & Hl & Hmin & Hmax);
      [lia|lia|]. exists q', i', min', max'. split; [|split].
    + rewrite <- Hl. f_equal. lia.
    + rewrite Hmin, (proj2 (Z.eqb_neq (q + 1) 0)) by lia. by destruct (q =? 0).
    + rewrite Hmax. destruct (Z.leb_spec q leng); destruct (Z.leb_spec (q + 1) leng); cbn; try lia.
      * replace (Z.to_nat (leng - q)) with (S (Z.to_nat (leng - (q + 1)))) by lia. cbn [take].
        change (utf8s (cp :: ?l)) with (utf8 cp ++ utf8s l). rewrite Hu, length_app. cbn. lia.
      * replace (Z.to_nat (leng - q)) with 0%nat by lia. cbn. lia.
Qed.

(** What D++ keeps of a text in UTF-8 without zeros: its first [leng] code
    points, however many octets they take, and nothing is read past the end. *)
Theorem utf8substr_first (cps : list Z) (leng : Z)
    (Hcps : Forall code_point cps) (Hnz : no_zero cps) (Hleng : 0 <= leng < npos)
    (Hsize : Z.of_nat (length (utf8s cps)) < npos) :
  utf8substr (utf8s cps) 0 leng = Done (utf8s (take (Z.to_nat leng) cps)).
Proof.
  unfold utf8substr. destruct (Z.eqb_spec leng 0) as [->|H0]; [done|]. cbn [Z.eqb].
  rewrite utf8len_counts by done. cbn [mbind outcome_bind].
  destruct (Z.leb_spec (Z.of_nat (length cps)) leng); [by rewrite take_ge by lia|].
  destruct (utf8substr_loop_text cps [] (S (length (utf8s cps))) 0 leng npos npos)
    as (q & i & min & max & Hl & -> & Hmax); [done|done|lia|lia|lia|]. cbn [app length] in Hl, Hmax.
  change (Z.of_nat 0) with 0 in *. rewrite Hl, Hmax. cbn [Z.eqb andb].
  rewrite (proj2 (Z.leb_le 0 leng)), Z.sub_0_r, Z.add_0_l by lia.
  destruct cps as [|cp cps]; [cbn in *; lia|]. rewrite bool_decide_eq_false_2 by done. cbn [negb Z.eqb orb].
  assert (utf8s (cp :: cps) = utf8s (take (Z.to_nat leng) (cp :: cps)) ++ utf8s (drop (Z.to_nat leng) (cp :: cps))) as Hs.
  { unfold utf8s. by rewrite <- bind_app, take_drop. }
  rewrite (proj2 (Z.eqb_neq _ npos)); [|rewrite Hs, length_app in Hsize; lia].
  rewrite Nat2Z.id. cbn [Z.to_nat]. rewrite drop_0. rewrite Hs. by rewrite take_app_length.
Qed.

Lemma utf8substr_first_witness :
  utf8substr (utf8s [0x41f; 0x440; 0x20ac]) 0 2 = Done (utf8s (take (Z.to_nat 2) [0x41f; 0x440; 0x20ac])).
Proof.
  apply utf8substr_first; [unfold code_point|unfold no_zero| |]; [repeat constructor; lia..|unfold npos; lia|].
  vm_compute. reflexivity.
Defined.
Close Scope Z_scope.
