(* ===== verification/Discord.v ===== *)
(** * The bot: server/bot/Discord

    DiscordEmbedMsg, DiscordConfigMgr and DiscordMgr: what the handlers of the
    D++ library do.  The state [Bot] holds the open requests of /check-roles,
    the configuration of the guilds, the table [guild_players] of the database,
    the tasks of the asynchronous queue, the callbacks that wait for a result,
    and what was sent to Discord so far, in order.

    - [event]s are the calls of the library; [step]s also let a worker run a
      task of the queue and let [BotMgr::Update] run a callback.
    - Every step is atomic.  A callback sends its messages in one step: the
      reply of the handler that waits for it comes after them here.
    - Two parameters: [utf8substr], the cut of a text of an embed (Substr.v; the
      theorems hold whatever it keeps), and [ci_eq], the
      collation of the database.
    - The database server is in strict mode, its default: it refuses a row with a
      value that a column of guild_players.sql does not hold ([row_holds]).
    - Identifiers (snowflakes) are integers; times are left out. *)
From S2P Require Import Prelude CppString Convert Utf8.

(** ** DisccordCommon.h: colours *)
Definition Red : Z := 0xdc3545.
Definition Indigo : Z := 0x6610f2.
Definition Yellow : Z := 0xffc107.
Definition Teal : Z := 0x20c997.
Definition Cyan : Z := 0x17a2b8.

(** ** DiscordEmbedMsg *)
Definition WARHEAED_DISCORD_MAX_EMBED_FIELDS : nat := 24.
Definition WARHEAED_DISCORD_MAX_EMBED_FIELDS_NAME : nat := 256.
Definition WARHEAED_DISCORD_MAX_EMBED_FIELDS_VALUE : nat := 1024.

Record EmbedMsg := mk_EmbedMsg {
  em_title : string;
  em_description : string;
  em_color : Z;
  em_fields : list (string * string * bool);
  em_footer : string;
  _fieldsCount : nat }.

Definition new_EmbedMsg : EmbedMsg := mk_EmbedMsg "" "" 0 [] "" 0.

Definition SetColor (color : Z) (m : EmbedMsg) : EmbedMsg :=
  mk_EmbedMsg (em_title m) (em_description m) (Z.land color 0xFFFFFF) (em_fields m) (em_footer m) (_fieldsCount m).

Definition AddDescription (description : string) (m : EmbedMsg) : EmbedMsg :=
  mk_EmbedMsg (em_title m) (em_description m +:+ description) (em_color m) (em_fields m) (em_footer m)
    (_fieldsCount m).

Section Embed.
(** The first characters of a text. *)
Variable utf8substr : string → nat → string.

Definition SetTitle (title : string) (m : EmbedMsg) : EmbedMsg :=
  mk_EmbedMsg (utf8substr title 256) (em_description m) (em_color m) (em_fields m) (em_footer m) (_fieldsCount m).

Definition SetDescription (description : string) (m : EmbedMsg) : EmbedMsg :=
  mk_EmbedMsg (em_title m) (utf8substr description 4096) (em_color m) (em_fields m) (em_footer m) (_fieldsCount m).

Definition SetFooterText (text : string) (m : EmbedMsg) : EmbedMsg :=
  mk_EmbedMsg (em_title m) (em_description m) (em_color m) (em_fields m) (utf8substr text 2048) (_fieldsCount m).

(** [dpp::embed::add_field] *)
Definition dpp_add_field (name value : string) (isInline : bool) (l : list (string * string * bool))
    : list (string * string * bool) :=
  if (length l <? 25)%nat then l ++ [(utf8substr name 256, utf8substr value 1024, isInline)] else l.

(** A field that is skipped still counts. *)
Definition AddEmbedField (name value : string) (m : EmbedMsg) : EmbedMsg :=
  let count := S (_fieldsCount m) in
  let fields :=
    if (WARHEAED_DISCORD_MAX_EMBED_FIELDS <? count)%nat then em_fields m
    else if (WARHEAED_DISCORD_MAX_EMBED_FIELDS_NAME <? String.length name)%nat then em_fields m
    else if (WARHEAED_DISCORD_MAX_EMBED_FIELDS_VALUE <? String.length value)%nat then em_fields m
    else dpp_add_field name value false (em_fields m) in
  mk_EmbedMsg (em_title m) (em_description m) (em_color m) fields (em_footer m) count.
End Embed.

(** ** DiscordConfigMgr *)
Record DiscordGuildConfig := mk_DiscordGuildConfig {
  EnableRoleCheck : bool;
  EnableRoleAdd : bool;
  RoleIdUser : Z;
  RoleIdFriend : Z }.

(** The rows of the query; [None] is a null result. *)
Fixpoint LoadConfig_rows (rows : list (Z * DiscordGuildConfig)) (configs : gmap Z DiscordGuildConfig)
    : gmap Z DiscordGuildConfig :=
  match rows with
  | [] => configs
  | (guildId, config) :: rows =>
      match configs !! guildId with
      | Some _ => LoadConfig_rows rows configs
      | None => LoadConfig_rows rows (<[guildId := config]> configs)
      end
  end.

Definition LoadConfig (result : option (list (Z * DiscordGuildConfig))) (configs : gmap Z DiscordGuildConfig)
    : gmap Z DiscordGuildConfig :=
  match result with None => configs | Some rows => LoadConfig_rows rows configs end.

(** ** NormalizePlayerName *)

(** The result, and the name. *)
Definition NormalizePlayerName (name : string) : outcome Empty_set (bool * string) :=
  if is_empty name then Done (false, name)
  else
    match find_from " "%char name 0 with
    | Some _ => Done (false, name)
    | None =>
        '(ok, tmp) ← Utf8toWStr name;
        if negb ok then Done (false, name)
        else
          let tmp := wstrToLower tmp in
          let tmp := match tmp with [] => [] | c :: tmp => wcharToUpper c :: tmp end in
          WStrToUtf8 tmp
    end.

(** What the callers get: it always returns ([NormalizePlayerName_returns]). *)
Definition normalize (name : string) : bool * string :=
  match NormalizePlayerName name with Done r => r | _ => (false, name) end.

(** ** The table guild_players *)
Record player := mk_player {
  pl_guild : Z;
  pl_user : Z;
  pl_nickname : string;
  pl_ilvl : Z;
  pl_spec : string }.

(** A statement of the asynchronous queue: the six of DiscordDatabase.cpp the
    handlers use. *)
Inductive db_task :=
| SEL_NICKNAMES (id : nat) (guild : Z)
| SEL_NICKNAME (id : nat) (guild : Z) (nickname : string)
| DEL_NICKNAME (guild : Z) (nickname : string)
| INS_NICKNAME (p : player).

(** The columns of guild_players.sql: `nickname` and `game_spec` are varchar(255) of
    utf8mb4 (characters, not bytes), the identifiers bigint, `ilvl` int. *)
Definition varchar_holds (size : nat) (s : string) : bool :=
  match Utf8toWStr s with
  | Done (true, wstr) => Nat.leb (length (List.filter (λ u, negb (is_trail_surrogate u)) wstr)) size
  | _ => false
  end.
Definition bigint_holds (n : Z) : bool := ((- 2 ^ 63 <=? n) && (n <? 2 ^ 63))%Z.
Definition int_holds (n : Z) : bool := ((- 2 ^ 31 <=? n) && (n <? 2 ^ 31))%Z.
Definition row_holds (p : player) : bool :=
  bigint_holds (pl_guild p) && bigint_holds (pl_user p) && varchar_holds 255 (pl_nickname p) &&
  int_holds (pl_ilvl p) && varchar_holds 255 (pl_spec p).

Section Table.
Variable ci_eq : string → string → bool.

Definition same_key (p q : player) : bool :=
  (pl_guild p =? pl_guild q)%Z && (pl_user p =? pl_user q)%Z && ci_eq (pl_nickname p) (pl_nickname q).

Definition sel_nicknames (guild : Z) (t : list player) : list player :=
  List.filter (λ p, (pl_guild p =? guild)%Z) t.
Definition sel_nickname (guild : Z) (nickname : string) (t : list player) : list player :=
  List.filter (λ p, (pl_guild p =? guild)%Z && ci_eq (pl_nickname p) nickname) t.
Definition del_nickname (guild : Z) (nickname : string) (t : list player) : list player :=
  List.filter (λ p, negb ((pl_guild p =? guild)%Z && ci_eq (pl_nickname p) nickname)) t.
(** The primary key is (guild, user, nickname); a row with a value that its column
    does not hold is refused (the server is in strict mode, which is the default). *)
Definition ins_nickname (p : player) (t : list player) : list player :=
  if negb (row_holds p) || existsb (λ q, same_key q p) t then t else t ++ [p].
End Table.

(** ** DiscordMgr *)
Record ConfirmButton := mk_ConfirmButton {
  KeepRoleId : Z;
  DeleteRoleId : Z;
  GuildId : Z;
  Members : list Z }.

(** A member of a guild, with its roles. *)
Definition member : Type := Z * list Z.

Inductive action :=
| Reply (channel : Z) (m : EmbedMsg) (buttons : list string)   (* ephemeral *)
| Send (channel : Z) (m : EmbedMsg)                             (* message_create *)
| Dialog (fields : list string)                                 (* the modal window *)
| MessageDelete (message channel : Z)
| MemberDeleteRole (guild member_ role : Z)
| GetMember (guild user channel role : Z)
| MemberAddRole (guild user role channel : Z).

(** What a callback of the query processor will do with its result. *)
Inductive callback :=
| CbAdd (guild user channel : Z) (nick spec : string) (ilvl : Z)
| CbList (channel : Z)
| CbDel (guild channel : Z) (target : string).

Record Bot := mk_Bot {
  _confirmButtons : gmap Z ConfirmButton;
  _guildConfigs : gmap Z DiscordGuildConfig;
  table : list player;
  queue : list db_task;
  results : gmap nat (list player);     (* answered queries *)
  callbacks : list (nat * callback);
  next_id : nat;
  replies : list (Z * EmbedMsg);                (* of handlers whose promise is set *)
  sent : list action }.

Definition set_buttons (b : gmap Z ConfirmButton) (s : Bot) : Bot :=
  mk_Bot b (_guildConfigs s) (table s) (queue s) (results s) (callbacks s) (next_id s) (replies s) (sent s).
Definition send (a : list action) (s : Bot) : Bot :=
  mk_Bot (_confirmButtons s) (_guildConfigs s) (table s) (queue s) (results s) (callbacks s) (next_id s)
    (replies s) (sent s ++ a).
Definition enqueue (t : db_task) (s : Bot) : Bot :=
  mk_Bot (_confirmButtons s) (_guildConfigs s) (table s) (queue s ++ [t]) (results s) (callbacks s) (next_id s)
    (replies s) (sent s).
(** [waiter->set_value()] *)
Definition set_value (channel : Z) (reply : EmbedMsg) (s : Bot) : Bot :=
  mk_Bot (_confirmButtons s) (_guildConfigs s) (table s) (queue s) (results s) (callbacks s) (next_id s)
    (replies s ++ [(channel, reply)]) (sent s).
(** [GetQueryProcessor().AddCallback(DiscordDatabase.AsyncQuery(stmt)).WithPreparedCallback(…)] *)
Definition async_query (t : nat → db_task) (cb : callback) (s : Bot) : Bot :=
  mk_Bot (_confirmButtons s) (_guildConfigs s) (table s) (queue s ++ [t (next_id s)]) (results s)
    (callbacks s ++ [(next_id s, cb)]) (S (next_id s)) (replies s) (sent s).

(** The confirmations of /check-roles *)
Definition GetConfirmButton (authorId : Z) (s : Bot) : option ConfirmButton := _confirmButtons s !! authorId.
Definition AddConfirmButton (authorId : Z) (c : ConfirmButton) (s : Bot) : Bot :=
  set_buttons (<[authorId := c]> (_confirmButtons s)) s.
Definition DeleteConfirmButton (authorId : Z) (s : Bot) : Bot :=
  set_buttons (delete authorId (_confirmButtons s)) s.

Section Handlers.
Variable utf8substr : string → nat → string.

Abbreviation title := (SetTitle utf8substr).
Abbreviation description := (SetDescription utf8substr).
Abbreviation field := (AddEmbedField utf8substr).

(** [custom_id.starts_with(prefix)] *)
Definition starts_with (s p : string) : bool := String.prefix p s.

(** A reply that only says something. *)
Definition say (channel : Z) (t : string) (color : Z) (text : string) : action :=
  Reply channel (description text (SetColor color (title t new_EmbedMsg))) [].

(** on_button_click *)
Definition on_button_click (custom_id : string) (authorID channelID message_id : Z) (s : Bot) : Bot :=
  let t := "Проверка ролей - Выполнение" in
  let isAuthor := starts_with custom_id (print_Z authorID) in
  let isConfirm := String.eqb custom_id (print_Z authorID +:+ "_Confirm") in
  let isDelete := String.eqb custom_id (print_Z authorID +:+ "_Delete") in
  if negb isAuthor then send [say channelID t Red "Вы не являетесь автором этого запроса"] s
  else if negb isConfirm && negb isDelete then
    send [say channelID t Red "Странная ситуация, не могу понять, куда вы нажали о.о"] s
  else if isDelete then
    send [MessageDelete message_id channelID; say channelID t Indigo "Запрос удалён"] s
  else if negb isConfirm then
    send [say channelID t Red "Странная ситуация (2), не могу понять, куда вы нажали о.о"] s
  else
    match GetConfirmButton authorID s with
    | None => send [say channelID t Red "Не найден запрос на проверку"] s
    | Some confirm =>
        let s := send [say channelID t Indigo "Запрос на сервер дискорда был отправлен"] s in
        let s := send ((λ m, MemberDeleteRole (GuildId confirm) m (DeleteRoleId confirm)) <$> Members confirm) s in
        DeleteConfirmButton authorID s
    end.

(** The loop over the roles of a member. *)
Fixpoint find_roles (keep del : Z) (roles : list Z) (foundKeepRole foundDelRole : bool) : bool * bool :=
  match roles with
  | [] => (foundKeepRole, foundDelRole)
  | r :: roles =>
      if (r =? keep)%Z then find_roles keep del roles true foundDelRole
      else if (r =? del)%Z then find_roles keep del roles foundKeepRole true
      else find_roles keep del roles foundKeepRole foundDelRole
  end.

Definition members_to_clean (keep del : Z) (members : list member) : list Z :=
  (λ m, m.1) <$> List.filter (λ m : member,
    let '(k, d) := find_roles keep del m.2 false false in k && d) members.

(** "{}. <@{}>\n"; the index is a [uint8]. *)
Fixpoint describe_members (index : Z) (members : list Z) (m : EmbedMsg) : EmbedMsg :=
  match members with
  | [] => m
  | id :: members =>
      let index := wrap_u 8 (index + 1) in
      describe_members index members
        (AddDescription (print_Z index +:+ ". <@" +:+ print_Z id +:+ ">" +:+ String (ch 10) "") m)
  end.

Definition role_text (id : Z) : string := "<@&" +:+ print_Z id +:+ "> (" +:+ print_Z id +:+ ")".

(** A pointer that is null prints as 0. *)
Definition no_such_role : string := "Указанной роли не существует: " +:+ role_text 0.

(** CheckRolesHandler; [known] are the roles of the cache, [members] what
    [guild_get_members_sync] returns for [max_users]. *)
Definition CheckRolesHandler (authorId guild channelID targetRoleKeepId targetRoleDeleteId : Z)
    (known : list Z) (members : list member) (s : Bot) : Bot :=
  let t := "Проверка ролей" in
  if negb (bool_decide (targetRoleKeepId ∈ known)) then send [say channelID t Red no_such_role] s
  else if negb (bool_decide (targetRoleDeleteId ∈ known)) then send [say channelID t Red no_such_role] s
  else
    match members with
    | [] => send [say channelID t Red "Пользователи не найдены. Пустой сервер?"] s
    | _ =>
        let found := members_to_clean targetRoleKeepId targetRoleDeleteId members in
        match found with
        | [] => send [say channelID t Red "Пользователи по условию не найдены"] s
        | _ =>
            let m := SetColor Indigo (title t new_EmbedMsg) in
            let m := field "Оставить роль" (role_text targetRoleKeepId) m in
            let m := field "Удалить роль" (role_text targetRoleDeleteId) m in
            let m := describe_members 0 found m in
            let s := AddConfirmButton authorId (mk_ConfirmButton targetRoleKeepId targetRoleDeleteId guild found) s in
            send [Reply channelID m [print_Z authorId +:+ "_Confirm"; print_Z authorId +:+ "_Delete"]] s
        end
    end.

(** GuildAddHandler *)
Definition GuildAddHandler (s : Bot) : Bot := send [Dialog ["nickname"; "gamespec"; "avgilvl"]] s.

(** AddGuildNickName *)
Definition AddGuildNickName (guildId userId channelId : Z) (nickName gameSpec : string) (ilvl : Z) (s : Bot)
    : Bot :=
  let saveNickName := snd (normalize nickName) in
  async_query (λ id, SEL_NICKNAME id guildId saveNickName)
    (CbAdd guildId userId channelId saveNickName gameSpec ilvl) s.

(** on_form_submit *)
Definition on_form_submit (guild user channelId : Z) (nickName gameSpec ilvlStr : string) (s : Bot) : Bot :=
  let t := "Вступление в гильдию" in
  let '(ok, nickName) := normalize nickName in
  if negb ok then
    send [say channelId t Red ("Введённый ник `" +:+ nickName +:+ "` некорректный")] s
  else
    match StringTo int32 ilvlStr with
    | None =>
        send [say channelId t Red ("Введённый уровень предметов `" +:+ ilvlStr +:+ "` некорректный")] s
    | Some avgIlvl =>
        let m := SetColor Cyan (title t new_EmbedMsg) in
        let m := field "Ник в гильдии" nickName m in
        let m := field "Специализация" gameSpec m in
        let m := field "Уровень предметов" ilvlStr m in
        let m := description "Запрос на выдачу роли отправлен" m in
        AddGuildNickName guild user channelId nickName gameSpec avgIlvl (send [Reply channelId m []] s)
    end.

(** GuildGetPlayersHandler, GuildDelHandler: the thread of the event then waits
    for the promise the callback sets. *)
Definition GuildGetPlayersHandler (guild channelId : Z) (s : Bot) : Bot :=
  async_query (λ id, SEL_NICKNAMES id guild) (CbList channelId) s.

Definition GuildDelHandler (guild channelId : Z) (nickname : string) (s : Bot) : Bot :=
  let targetNickname := snd (normalize nickname) in
  async_query (λ id, SEL_NICKNAMES id guild) (CbDel guild channelId targetNickname) s.

(** *** The callbacks *)
Definition player_text (p : player) : string :=
  "Спек: `" +:+ pl_spec p +:+ "`. Илвл: `" +:+ print_Z (pl_ilvl p) +:+ "`".

Definition list_msg : EmbedMsg := SetColor Indigo (title "Участники гильдии" new_EmbedMsg).

(** The loop over the players: the message declared inside the [if] shadows
    [msg] and is gone at the end of its block. *)
Fixpoint list_loop (channel : Z) (rows : list player) (count : Z) (msg : EmbedMsg) (out : list action)
    : EmbedMsg * list action :=
  match rows with
  | [] => (msg, out)
  | p :: rows =>
      let count := wrap_u 8 (count + 1) in
      let out := if (23 <=? count)%Z then out ++ [Send channel msg] else out in
      list_loop channel rows count (field (pl_nickname p) (player_text p) msg) out
  end.

(** The callback of GuildGetPlayersHandler. *)
Definition run_list (channel : Z) (result : list player) (s : Bot) : Bot :=
  let reply := title "Участники гильдии" new_EmbedMsg in
  match result with
  | [] => set_value channel (description "Учаcтники не найдены" (SetColor Red reply)) s
  | _ =>
      let s := set_value channel (field "Количество участников" (print_Z (Z.of_nat (length result)))
                 (SetColor Cyan reply)) s in
      let '(msg, out) := list_loop channel result 0 list_msg [] in
      send (out ++ [Send channel msg]) s
  end.

(** The callback of GuildDelHandler. *)
Definition run_del (guild channel : Z) (target : string) (result : list player) (s : Bot) : Bot :=
  let reply := title "Удаление учатника гильдии" new_EmbedMsg in
  match result with
  | [] => set_value channel (description "Учаcтники не найдены" (SetColor Red reply)) s
  | _ =>
      match List.find (λ p, StringEqualI (pl_nickname p) target) result with
      | Some p =>
          set_value channel (field (pl_nickname p) (player_text p)
            (description "Игрок удалён из базы" (SetColor Yellow reply)))
            (enqueue (DEL_NICKNAME guild (pl_nickname p)) s)
      | None =>
          set_value channel (description ("Игрок `" +:+ target +:+ "` не найден в базе") (SetColor Yellow reply)) s
      end
  end.

(** The callback of AddGuildNickName. *)
Definition run_add (guild user channel : Z) (nick spec : string) (ilvl : Z) (result : list player) (s : Bot) : Bot :=
  let m := title "Вступление в гильдию" new_EmbedMsg in
  match result with
  | _ :: _ =>
      send [Send channel (description ("Персонаж `" +:+ nick +:+ "` уже есть в базе") (SetColor Red m))] s
  | [] =>
      let s := enqueue (INS_NICKNAME (mk_player guild user nick ilvl spec)) s in
      let m := description ("Персонаж `" +:+ nick +:+ "` был добавлен в базу.") (SetColor Indigo m) in
      let s :=
        match _guildConfigs s !! guild with
        | Some config =>
            if EnableRoleAdd config then send [GetMember guild user channel (RoleIdUser config)] s else s
        | None => s
        end in
      send [Send channel m] s
  end.

Definition run_callback (cb : callback) (result : list player) (s : Bot) : Bot :=
  match cb with
  | CbAdd guild user channel nick spec ilvl => run_add guild user channel nick spec ilvl result s
  | CbList channel => run_list channel result s
  | CbDel guild channel target => run_del guild channel target result s
  end.

(** The answers of Discord to [guild_get_member] and [guild_member_add_role];
    the second ones are not looked at. *)
Definition on_get_member (guild user channel role : Z) (roles : option (list Z)) (s : Bot) : Bot :=
  match roles with
  | None => s
  | Some userRoles =>
      if bool_decide (role ∈ userRoles) then s else send [MemberAddRole guild user role channel] s
  end.

Definition on_role_added (user channel : Z) (s : Bot) : Bot :=
  send [Send channel (description ("<@" +:+ print_Z user +:+ "> получил роль участника")
    (SetColor Teal (title "Выдача роли участника гильдии" new_EmbedMsg)))] s.
End Handlers.

(** *** Events, and the steps between them *)
Inductive event :=
| EvSlashAdd
| EvSlashCheckRoles (author guild channel keep del : Z) (known : list Z) (members : list member)
| EvSlashPlayers (guild channel : Z)
| EvSlashDelete (guild channel : Z) (nickname : string)
| EvButton (custom_id : string) (author channel message : Z)
| EvForm (guild user channel : Z) (nickName gameSpec ilvl : string)
| EvGotMember (guild user channel role : Z) (roles : option (list Z))
| EvRoleAdded (user channel : Z)
| EvWorker (k : nat)          (* a worker runs the task at position k of the queue *)
| EvResume (k : nat)          (* a handler whose promise is set replies *)
| EvCallback.                 (* BotMgr::Update: the callbacks whose result is there *)

Section Steps.
Variable utf8substr : string → nat → string.
Variable ci_eq : string → string → bool.

Definition run_task (t : db_task) (s : Bot) : Bot :=
  let set_table tbl := mk_Bot (_confirmButtons s) (_guildConfigs s) tbl (queue s) (results s) (callbacks s)
                         (next_id s) (replies s) (sent s) in
  let set_result id r := mk_Bot (_confirmButtons s) (_guildConfigs s) (table s) (queue s)
                           (<[id := r]> (results s)) (callbacks s) (next_id s) (replies s) (sent s) in
  match t with
  | SEL_NICKNAMES id guild => set_result id (sel_nicknames guild (table s))
  | SEL_NICKNAME id guild nickname => set_result id (sel_nickname ci_eq guild nickname (table s))
  | DEL_NICKNAME guild nickname => set_table (del_nickname ci_eq guild nickname (table s))
  | INS_NICKNAME p => set_table (ins_nickname ci_eq p (table s))
  end.

Definition remove_task (k : nat) (s : Bot) : Bot :=
  mk_Bot (_confirmButtons s) (_guildConfigs s) (table s) (take k (queue s) ++ drop (S k) (queue s)) (results s)
    (callbacks s) (next_id s) (replies s) (sent s).

Definition remove_reply (k : nat) (s : Bot) : Bot :=
  mk_Bot (_confirmButtons s) (_guildConfigs s) (table s) (queue s) (results s) (callbacks s) (next_id s)
    (take k (replies s) ++ drop (S k) (replies s)) (sent s).

Definition set_callbacks (l : list (nat * callback)) (s : Bot) : Bot :=
  mk_Bot (_confirmButtons s) (_guildConfigs s) (table s) (queue s) (results s) l (next_id s) (replies s) (sent s).

(** [ProcessReadyCallbacks]: the callbacks whose result is there run in order,
    the others are kept, in order. *)
Fixpoint process_callbacks (l : list (nat * callback)) (kept : list (nat * callback)) (s : Bot) : Bot :=
  match l with
  | [] => set_callbacks (kept ++ callbacks s) s
  | (id, cb) :: l =>
      match results s !! id with
      | Some r => process_callbacks l kept (run_callback utf8substr cb r s)
      | None => process_callbacks l (kept ++ [(id, cb)]) s
      end
  end.

Definition step (e : event) (s : Bot) : Bot :=
  match e with
  | EvSlashAdd => GuildAddHandler s
  | EvSlashCheckRoles author guild channel keep del known members =>
      CheckRolesHandler utf8substr author guild channel keep del known members s
  | EvSlashPlayers guild channel => GuildGetPlayersHandler guild channel s
  | EvSlashDelete guild channel nickname => GuildDelHandler guild channel nickname s
  | EvButton custom_id author channel message => on_button_click utf8substr custom_id author channel message s
  | EvForm guild user channel nickName gameSpec ilvl =>
      on_form_submit utf8substr guild user channel nickName gameSpec ilvl s
  | EvGotMember guild user channel role roles => on_get_member guild user channel role roles s
  | EvRoleAdded user channel => on_role_added utf8substr user channel s
  | EvWorker k => match queue s !! k with Some t => run_task t (remove_task k s) | None => s end
  | EvResume k => match replies s !! k with Some (channel, m) => send [Reply channel m []] (remove_reply k s) | None => s end
  | EvCallback => process_callbacks (callbacks s) [] (set_callbacks [] s)
  end.

Definition run (es : list event) (s : Bot) : Bot := foldl (λ s e, step e s) s es.
End Steps.

(** ** The removal of roles

    What the handlers promise of it: /check-roles opens a request, the button
    of its author confirms it. *)

(** The request an event opens, if it does. *)
Definition opens (author : Z) (e : event) : option ConfirmButton :=
  match e with
  | EvSlashCheckRoles a guild _ keep del known members =>
      if bool_decide (a = author ∧ keep ∈ known ∧ del ∈ known) then
        match members_to_clean keep del members with
        | [] => None
        | found => Some (mk_ConfirmButton keep del guild found)
        end
      else None
  | _ => None
  end.

(** The author presses the button that confirms. *)
Definition confirms (author : Z) (e : event) : bool :=
  match e with
  | EvButton custom_id a _ _ => (a =? author)%Z && String.eqb custom_id (print_Z author +:+ "_Confirm")
  | _ => false
  end.

Definition role_deletion (a : action) : option (Z * Z * Z) :=
  match a with MemberDeleteRole g m r => Some (g, m, r) | _ => None end.

Definition request_deletions (c : ConfirmButton) : list (Z * Z * Z) :=
  (λ m, (GuildId c, m, DeleteRoleId c)) <$> Members c.

Lemma find_roles_spec keep del roles k d :
  find_roles keep del roles k d =
    (k || bool_decide (keep ∈ roles), d || bool_decide (del ≠ keep ∧ del ∈ roles)).
Proof.
  revert k d. induction roles as [|r roles IH]; intros k d; cbn.
  { rewrite !bool_decide_eq_false_2 by (rewrite elem_of_nil; tauto). by rewrite !orb_false_r. }
  destruct (Z.eqb_spec r keep) as [->|Hk]; [|destruct (Z.eqb_spec r del) as [->|Hd]]; rewrite IH; f_equal.
  - rewrite (bool_decide_eq_true_2 (keep ∈ keep :: _)) by (by left). by rewrite orb_true_r.
  - f_equal. apply bool_decide_ext. rewrite elem_of_cons. naive_solver.
  - f_equal. apply bool_decide_ext. rewrite elem_of_cons. naive_solver.
  - rewrite (bool_decide_eq_true_2 (del ≠ keep ∧ del ∈ del :: _)) by (split; [done|by left]). by rewrite orb_true_r.
  - f_equal. apply bool_decide_ext. rewrite elem_of_cons. naive_solver.
  - f_equal. apply bool_decide_ext. rewrite elem_of_cons. naive_solver.
Qed.

Lemma elem_of_members_to_clean keep del members m :
  m ∈ members_to_clean keep del members →
  del ≠ keep ∧ ∃ roles, (m, roles) ∈ members ∧ keep ∈ roles ∧ del ∈ roles.
Proof.
  unfold members_to_clean. intros ([m' roles] & -> & Hin)%list_elem_of_fmap.
  apply list_elem_of_In, filter_In in Hin as [Hin Hf].
  rewrite find_roles_spec in Hf. cbn in Hf.
  apply andb_true_iff in Hf as [Hk%bool_decide_eq_true_1 [Hne Hd]%bool_decide_eq_true_1].
  split; [done|]. exists roles. by apply list_elem_of_In in Hin.
Qed.

Lemma starts_with_app s t : starts_with (s +:+ t) s = true.
Proof.
  unfold starts_with. induction s as [|c s IH]; [by destruct t|]. cbn. by destruct (ascii_dec c c).
Qed.

Lemma confirm_not_delete s : String.eqb (s +:+ "_Confirm") (s +:+ "_Delete") = false.
Proof. apply String.eqb_neq. by intros ?%(inj (String.append s)). Qed.

Section Removal.
Variable utf8substr : string → nat → string.
Variable ci_eq : string → string → bool.

Abbreviation step := (step utf8substr ci_eq).
Abbreviation run := (run utf8substr ci_eq).

(** What of the state the removal of roles depends on. *)
Definition desk (s : Bot) : gmap Z ConfirmButton * list (Z * Z * Z) :=
  (_confirmButtons s, omap role_deletion (sent s)).

Lemma desk_send a s : omap role_deletion a = [] → desk (send a s) = desk s.
Proof. intros Ha. unfold desk, send. cbn. by rewrite omap_app, Ha, app_nil_r. Qed.

Lemma list_loop_quiet channel rows count msg out :
  omap role_deletion out = [] →
  omap role_deletion (list_loop utf8substr channel rows count msg out).2 = [].
Proof.
  revert count msg out. induction rows as [|p rows IH]; intros count msg out Hout; [done|].
  cbn. apply IH. destruct (_ <=? _)%Z; [|done]. by rewrite omap_app, Hout.
Qed.

Lemma run_callback_quiet cb r s : desk (run_callback utf8substr cb r s) = desk s.
Proof.
  destruct cb as [guild user channel nick spec ilvl|channel|guild channel target]; cbn.
  - unfold run_add. destruct r as [|p r]; [|by apply desk_send].
    destruct (_guildConfigs _ !! guild) as [c|]; [|by rewrite desk_send].
    destruct (EnableRoleAdd c); by rewrite !desk_send.
  - unfold run_list. destruct r as [|p r]; [done|].
    destruct (list_loop utf8substr channel (p :: r) 0 (list_msg utf8substr) []) as [msg out] eqn:E.
    rewrite desk_send; [done|].
    rewrite omap_app. pose proof (list_loop_quiet channel (p :: r) 0 (list_msg utf8substr) [] eq_refl) as Ho.
    rewrite E in Ho. cbn in Ho. by rewrite Ho.
  - unfold run_del. destruct r as [|p r]; [done|]. by destruct (List.find _ _).
Qed.

Lemma process_callbacks_quiet l kept s : desk (process_callbacks utf8substr l kept s) = desk s.
Proof.
  revert kept s. induction l as [|[id cb] l IH]; intros kept s; [done|]. cbn.
  destruct (results s !! id); rewrite IH; [|done]. apply run_callback_quiet.
Qed.

Lemma desk_say channel t color text s : desk (send [say utf8substr channel t color text] s) = desk s.
Proof. by apply desk_send. Qed.

(** A step opens the requests and sends the removals the event asks for. *)
Lemma step_desk e s :
  match e with
  | EvSlashCheckRoles author _ _ _ _ _ _ =>
      desk (step e s) =
        (match opens author e with
         | Some c => <[author := c]> (_confirmButtons s)
         | None => _confirmButtons s
         end, omap role_deletion (sent s))
  | EvButton _ author _ _ =>
      desk (step e s) =
        match (if confirms author e then _confirmButtons s !! author else None) with
        | Some c => (delete author (_confirmButtons s), omap role_deletion (sent s) ++ request_deletions c)
        | None => desk s
        end
  | _ => desk (step e s) = desk s
  end.
Proof.
  destruct e; try done.
  - by apply desk_send.
  - cbn. unfold CheckRolesHandler.
    destruct (decide (keep ∈ known)) as [Hk|Hk];
      [rewrite (bool_decide_eq_true_2 _ Hk)|rewrite (bool_decide_eq_false_2 _ Hk)]; cbn;
      [|rewrite bool_decide_eq_false_2 by tauto; apply desk_say].
    destruct (decide (del ∈ known)) as [Hd|Hd];
      [rewrite (bool_decide_eq_true_2 _ Hd)|rewrite (bool_decide_eq_false_2 _ Hd)]; cbn;
      [|rewrite bool_decide_eq_false_2 by tauto; apply desk_say].
    rewrite bool_decide_eq_true_2 by done.
    destruct members as [|m members]; [apply desk_say|].
    destruct (members_to_clean keep del (m :: members)) as [|f found]; [apply desk_say|].
    by rewrite desk_send.
  - cbn. unfold on_button_click. rewrite Z.eqb_refl. cbn.
    destruct (String.eqb_spec custom_id (print_Z author +:+ "_Confirm")) as [->|Hc].
    + rewrite starts_with_app, confirm_not_delete. cbn. unfold GetConfirmButton.
      destruct (_confirmButtons s !! author) as [c|]; [|apply desk_say].
      unfold desk, DeleteConfirmButton, request_deletions. cbn. f_equal.
      rewrite !omap_app. cbn. rewrite app_nil_r. f_equal.
      induction (Members c) as [|x l IH]; [done|]. cbn. by rewrite IH.
    + destruct (starts_with _ _); [|apply desk_say]. cbn.
      destruct (String.eqb custom_id _); [|apply desk_say]. by apply desk_send.
  - cbn. unfold on_form_submit. destruct (normalize _) as [[] nick]; cbn; [|apply desk_say].
    case_match; [|apply desk_say]. by apply desk_send.
  - cbn. unfold on_get_member. destruct roles as [roles|]; [|done].
    destruct (bool_decide _); [done|]. by apply desk_send.
  - cbn. by apply desk_send.
  - cbn. destruct (queue s !! k) as [t|]; [|done]. by destruct t.
  - cbn. destruct (replies s !! k) as [[channel m]|]; [|done]. by rewrite desk_send.
  - cbn. rewrite process_callbacks_quiet. done.
Qed.

(** [c] was opened by an event of [es], and its author did nothing since. *)
Definition pending (es : list event) (author : Z) (c : ConfirmButton) : Prop :=
  ∃ pre check mid, es = pre ++ check :: mid ∧ opens author check = Some c ∧
    Forall (λ e, opens author e = None ∧ confirms author e = false) mid.

Lemma pending_snoc es e author c :
  pending es author c → opens author e = None → confirms author e = false → pending (es ++ [e]) author c.
Proof.
  intros (pre & check & mid & -> & Ho & Hm) He Hc. exists pre, check, (mid ++ [e]).
  rewrite <- app_assoc. split; [done|]. split; [done|]. apply Forall_app. by repeat constructor.
Qed.

Lemma run_snoc es e s : run (es ++ [e]) s = step e (run es s).
Proof. unfold Discord.run. by rewrite foldl_app. Qed.

Lemma open_requests_pending es s author c :
  _confirmButtons s = ∅ → _confirmButtons (run es s) !! author = Some c → pending es author c.
Proof.
  intros Hs. revert author c. induction es as [|e es IH] using rev_ind; intros author c.
  { cbn. by rewrite Hs. }
  rewrite run_snoc. pose proof (step_desk e (run es s)) as Hd. intros Hb.
  assert (∀ a, opens a e = None → confirms a e = false →
    _confirmButtons (run es s) !! a = Some c → pending (es ++ [e]) a c) as Hkeep
    by (intros; by apply pending_snoc; [apply IH| |]).
  assert (_confirmButtons (step e (run es s)) = (desk (step e (run es s))).1) as Hfst by done.
  destruct e; try (apply Hkeep; [done..|]; by rewrite Hfst, Hd in Hb); rewrite Hfst, Hd in Hb.
  - set (e := EvSlashCheckRoles _ _ _ _ _ _ _) in *. cbn [fst] in Hb.
    destruct (decide (author0 = author)) as [->|Hne].
    + destruct (opens author e) as [c'|] eqn:Ho; [|by apply Hkeep].
      rewrite lookup_insert_eq in Hb. simplify_eq. by exists es, e, [].
    + apply Hkeep; [by cbn; rewrite bool_decide_eq_false_2 by naive_solver|done|].
      destruct (opens author0 e); [|done]. by rewrite lookup_insert_ne in Hb.
  - set (e := EvButton _ _ _ _) in *.
    destruct (confirms author0 e) eqn:Hc; [|].
    + destruct (_confirmButtons (run es s) !! author0) as [c'|] eqn:Ha; cbn [fst desk] in Hb.
      * apply lookup_delete_Some in Hb as [Hne Hb]. apply Hkeep; [done| |done].
        cbn. by rewrite (proj2 (Z.eqb_neq author0 author)).
      * apply Hkeep; [done| |done]. cbn. destruct (Z.eqb_spec author0 author); [congruence|done].
    + apply Hkeep; [done| |done]. cbn. destruct (Z.eqb_spec author0 author) as [->|]; [|done].
      cbn. cbn in Hc. by rewrite Z.eqb_refl in Hc.
Qed.

(** C16 The bot takes a role away only on request: whatever the members of the
    guilds click and send, and in whatever order the tasks and callbacks run,
    each removal of a role was confirmed by the author of a /check-roles
    command that found, on that member, both the role to keep and the role to
    remove, two different roles of the cache; and between the command and the
    confirmation the author neither opened nor confirmed another request. *)
Theorem role_removal_is_confirmed (es : list event) (s : Bot) (guild m role : Z)
    (Hbuttons : _confirmButtons s = ∅) (Hsent : sent s = [])
    (Hin : MemberDeleteRole guild m role ∈ sent (run es s)) :
  ∃ pre mid post author channel keep known members roles c custom_id channel' message,
    let check := EvSlashCheckRoles author guild channel keep role known members in
    let confirm := EvButton custom_id author channel' message in
    es = pre ++ check :: mid ++ confirm :: post ∧
    opens author check = Some c ∧
    Forall (λ e, opens author e = None ∧ confirms author e = false) mid ∧
    custom_id = print_Z author +:+ "_Confirm" ∧
    (m, roles) ∈ members ∧ keep ∈ roles ∧ role ∈ roles ∧
    keep ≠ role ∧ keep ∈ known ∧ role ∈ known.
Proof.
  assert ((guild, m, role) ∈ omap role_deletion (sent (run es s))) as Hin'.
  { apply list_elem_of_omap. by eexists. }
  clear Hin. induction es as [|e es IH] using rev_ind.
  { cbn in Hin'. rewrite Hsent in Hin'. by apply elem_of_nil in Hin'. }
  rewrite run_snoc in Hin'. pose proof (step_desk e (run es s)) as Hd.
  assert (omap role_deletion (sent (step e (run es s))) = (desk (step e (run es s))).2) as Hsnd by done.
  rewrite Hsnd in Hin'.
  assert ((guild, m, role) ∈ omap role_deletion (sent (run es s)) → ∃ pre mid post author channel keep known
    members roles c custom_id channel' message,
    let check := EvSlashCheckRoles author guild channel keep role known members in
    let confirm := EvButton custom_id author channel' message in
    es ++ [e] = pre ++ check :: mid ++ confirm :: post ∧ opens author check = Some c ∧
    Forall (λ e, opens author e = None ∧ confirms author e = false) mid ∧
    custom_id = print_Z author +:+ "_Confirm" ∧ (m, roles) ∈ members ∧ keep ∈ roles ∧ role ∈ roles ∧
    keep ≠ role ∧ keep ∈ known ∧ role ∈ known) as Hold.
  { intros Hi. destruct (IH Hi) as (pre & mid & post & au & chn & keep & kn & mem & ro & c & cu & ch' & me & He & H).
    exists pre, mid, (post ++ [e]), au, chn, keep, kn, mem, ro, c, cu, ch', me. split; [|exact H].
    rewrite He, <- app_assoc. cbn. by rewrite <- app_assoc. }
  clear IH. destruct e; try (by rewrite Hd in Hin'; apply Hold); rewrite Hd in Hin'; clear Hd Hsnd.
  destruct (confirms author (EvButton custom_id author channel message)) eqn:Hc; [|by apply Hold].
  destruct (_confirmButtons (run es s) !! author) as [c|] eqn:Hb; [|by apply Hold].
  cbn [snd] in Hin'. apply elem_of_app in Hin' as [Hin'|Hin']; [by apply Hold|]. clear Hold.
  cbn in Hc. rewrite Z.eqb_refl in Hc. apply String.eqb_eq in Hc as ->.
  apply list_elem_of_fmap in Hin' as (m' & Heq & Hm). simplify_eq.
  pose proof (open_requests_pending es s author c Hbuttons Hb) as (pre & check & mid & -> & Ho & Hmid).
  destruct check as [|author' g ch keep del known members| | | | | | | | |]; try done.
  cbn in Ho. case_bool_decide as Hg; [|done]. destruct Hg as (-> & Hk & Hd).
  destruct (members_to_clean keep del members) as [|f found] eqn:Hf; [done|]. simplify_eq. cbn in *.
  destruct (elem_of_members_to_clean keep del members m') as (Hne & roles & Hmem & Hkr & Hdr); [by rewrite Hf|].
  exists pre, mid, [], author, ch, keep, known, members, roles, (mk_ConfirmButton keep del g (f :: found)),
    (print_Z author +:+ "_Confirm"), channel, message.
  cbn zeta. rewrite <- app_assoc. split; [done|]. split; [|done].
  cbn. rewrite bool_decide_eq_true_2 by done. by rewrite Hf.
Qed.
End Removal.

(** ** The names of players *)

(** The case mappings touch small characters only. *)
Lemma wcharToLower_bounded u : wcharToLower u ≠ u → (0 ≤ u < 0x2000 ∧ 0 ≤ wcharToLower u < 0x2000)%Z.
Proof.
  unfold wcharToLower. intros H. repeat (split_match; [unfold wrap_u in *; rewrite ?Z.mod_small in * by lia; lia|]). done.
Qed.

Lemma wcharToLower_blank u : wcharToLower u = 0x20%Z ↔ u = 0x20%Z.
Proof.
  split; [|by intros ->]. unfold wcharToLower.
  repeat (split_match; [unfold wrap_u; rewrite ?Z.mod_small by lia; lia|]). done.
Qed.

Lemma wcharToUpper_blank u : wcharToUpper u = 0x20%Z ↔ u = 0x20%Z.
Proof.
  split; [|by intros ->]. unfold wcharToUpper.
  repeat (split_match; [unfold wrap_u; rewrite ?Z.mod_small by lia; lia|]). done.
Qed.

Lemma wcharToUpper_bounded u : wcharToUpper u ≠ u → (97 ≤ u < 0x452 ∧ 0 ≤ wcharToUpper u < 0x2000)%Z.
Proof.
  unfold wcharToUpper. intros H. repeat (split_match; [unfold wrap_u in *; rewrite ?Z.mod_small in * by lia; lia|]). done.
Qed.

Lemma wcharToUpper_of_lower u : wcharToUpper (wcharToLower (wcharToUpper u)) = wcharToUpper u.
Proof.
  destruct (decide (wcharToUpper u = u)) as [He|Hne].
  - rewrite He. destruct (decide (wcharToLower u = u)) as [->|Hl]; [done|].
    by apply wcharToLower_table in Hl as [-> _].
  - apply wcharToUpper_bounded in Hne as [Hr _].
    assert (forallb (λ n, let u := Z.of_nat n in
      Z.eqb (wcharToUpper (wcharToLower (wcharToUpper u))) (wcharToUpper u)) (seq 97 (0x452 - 97)) = true) as Ht
      by (vm_compute; reflexivity).
    rewrite forallb_forall in Ht. specialize (Ht (Z.to_nat u)). rewrite Z2Nat.id in Ht by lia.
    apply Z.eqb_eq, Ht, in_seq. lia.
Qed.

(** A name in lower case, its first character in upper case: as code units, or
    as code points. *)
Definition capitalize (w : list Z) : list Z :=
  match wstrToLower w with [] => [] | c :: w => wcharToUpper c :: w end.

Lemma wcharToLower_idemp u : wcharToLower (wcharToLower u) = wcharToLower u.
Proof.
  destruct (decide (wcharToLower u = u)) as [He|Hne]; [by rewrite !He|]. by apply wcharToLower_table.
Qed.

Lemma capitalize_idemp w : capitalize (capitalize w) = capitalize w.
Proof.
  destruct w as [|c w]; [done|]. unfold capitalize. cbn. f_equal.
  - destruct (decide (wcharToUpper (wcharToLower c) = wcharToLower c)) as [He|Hne].
    + by rewrite He, wcharToLower_idemp.
    + apply wcharToUpper_of_lower.
  - rewrite <- list_fmap_compose. apply list_fmap_ext. intros i x _. apply wcharToLower_idemp.
Qed.

Lemma capitalize_blank w : 0x20%Z ∈ capitalize w ↔ 0x20%Z ∈ w.
Proof.
  destruct w as [|c w]; [done|]. unfold capitalize. cbn. rewrite !elem_of_cons, list_elem_of_fmap.
  split.
  - intros [H|(u & H & Hu)]; [left|right].
    + symmetry in H. by rewrite wcharToUpper_blank, wcharToLower_blank in H.
    + symmetry in H. rewrite wcharToLower_blank in H. by rewrite <- H.
  - intros [<-|H]; [by left|right]. by exists 0x20%Z.
Qed.

Lemma find_from_blank s : find_from " "%char s 0 = None ↔ no_char " " s = true.
Proof. split; [apply find_from_None|apply no_char_find]. Qed.

(** The case mappings work on the units of a text as on its code points. *)
Lemma case_code_point (f : Z → Z) cp :
  (∀ u, f u ≠ u → (0 ≤ u < 0x2000 ∧ 0 ≤ f u < 0x2000)%Z) → code_point cp →
  code_point (f cp) ∧ f <$> utf16 cp = utf16 (f cp) ∧ ∃ u l, utf16 cp = u :: l ∧ utf16 (f cp) = f u :: l.
Proof.
  intros Hf Hcp. assert (∀ u, (0x2000 ≤ u)%Z → f u = u) as Hid.
  { intros u Hu. destruct (decide (f u = u)) as [|Hne%Hf]; [done|lia]. }
  assert (code_point (f cp) ∧ ((cp <? 0x10000) = (f cp <? 0x10000))%Z) as [Hcp' Hs].
  { destruct (decide (f cp = cp)) as [->|Hne%Hf]; [done|]. unfold code_point. lia. }
  split; [done|]. destruct Hcp as [Hr _]. unfold utf16. rewrite <- Hs.
  destruct (Z.ltb_spec cp 0x10000); [split; [done|]; by eexists _, _|].
  rewrite (Hid cp) by lia. cbn. rewrite !Hid by (Z.to_euclidean_division_equations; lia).
  split; [done|]. do 2 eexists. split; [done|].
  by rewrite Hid by (Z.to_euclidean_division_equations; lia).
Qed.

Lemma lower_code_points cps :
  Forall code_point cps → Forall code_point (wstrToLower cps) ∧ wstrToLower (utf16s cps) = utf16s (wstrToLower cps).
Proof.
  assert (∀ u, wcharToLower u ≠ u → (0 ≤ u < 0x2000 ∧ 0 ≤ wcharToLower u < 0x2000)%Z) as Hl by apply wcharToLower_bounded.
  induction 1 as [|cp cps Hcp Hcps [IH1 IH2]]; [done|].
  destruct (case_code_point wcharToLower cp Hl Hcp) as (H1 & H2 & _). split; [by constructor|].
  change (utf16s (cp :: cps)) with (utf16 cp ++ utf16s cps).
  change (utf16s (wstrToLower (cp :: cps))) with (utf16 (wcharToLower cp) ++ utf16s (wstrToLower cps)).
  rewrite <- IH2, <- H2. unfold wstrToLower. apply fmap_app.
Qed.

Lemma capitalize_code_points cps :
  Forall code_point cps → Forall code_point (capitalize cps) ∧ capitalize (utf16s cps) = utf16s (capitalize cps).
Proof.
  intros Hcps. destruct (lower_code_points cps Hcps) as [Hl Hu]. unfold capitalize. rewrite Hu.
  destruct Hl as [|cp l Hcp Hl]; [done|].
  assert (∀ u, wcharToUpper u ≠ u → (0 ≤ u < 0x2000 ∧ 0 ≤ wcharToUpper u < 0x2000)%Z) as Hs.
  { intros u Hne%wcharToUpper_bounded. lia. }
  destruct (case_code_point wcharToUpper cp Hs Hcp) as (H1 & _ & u & r & Hr & Hr'). split; [by constructor|].
  cbn. by rewrite Hr, Hr'.
Qed.

(** A blank of the text is a blank of its code points. *)
Lemma no_char_octets s : no_char " " s = true ↔ 0x20%Z ∉ octets s.
Proof.
  unfold octets. induction s as [|c s IH]; cbn; [split; [by intros _ ?%elem_of_nil|done]|].
  rewrite not_elem_of_cons, andb_true_iff, IH, negb_true_iff, Ascii.eqb_neq. split; intros [H1 H2]; (split; [|done]).
  - intros E. destruct H1. rewrite <- (ascii_nat_embedding c). by replace (nat_of_ascii c) with 32 by lia.
  - by intros ->.
Qed.

Lemma blank_utf8s cps : Forall code_point cps → 0x20%Z ∈ utf8s cps ↔ 0x20%Z ∈ cps.
Proof.
  induction 1 as [|cp cps [Hr _] _ IH]; [done|]. change (utf8s (cp :: cps)) with (utf8 cp ++ utf8s cps).
  rewrite elem_of_app, elem_of_cons, IH. apply or_iff_compat_r.
  unfold utf8. repeat (split_match; [rewrite ?elem_of_cons, elem_of_nil; Z.to_euclidean_division_equations; lia|]).
  rewrite ?elem_of_cons, elem_of_nil. Z.to_euclidean_division_equations; lia.
Qed.

(** The names that [NormalizePlayerName] takes: not empty, UTF-8, no blanks. *)
Lemma normalize_text name cps :
  name ≠ "" → no_char " " name = true → Forall code_point cps → octets name = utf8s cps →
  NormalizePlayerName name = Done (true, of_octets (utf8s (capitalize cps))).
Proof.
  intros Hne Hb Hcps Hs. unfold NormalizePlayerName. rewrite (proj2 (find_from_blank name) Hb).
  destruct name as [|c name]; [done|]. cbn [is_empty].
  rewrite (proj2 (Utf8toWStr_spec _ (true, utf16s cps))) by eauto. cbn [mbind outcome_bind negb].
  change (WStrToUtf8 (capitalize (utf16s cps)) = Done (true, of_octets (utf8s (capitalize cps)))).
  destruct (capitalize_code_points cps Hcps) as [Hc ->].
  apply WStrToUtf8_spec; [by apply utf16s_units|]. eauto.
Qed.

Lemma NormalizePlayerName_cases name :
  NormalizePlayerName name = Done (false, name) ∨
  ∃ cps, name ≠ "" ∧ no_char " " name = true ∧ Forall code_point cps ∧ octets name = utf8s cps ∧
    NormalizePlayerName name = Done (true, of_octets (utf8s (capitalize cps))).
Proof.
  destruct (decide (name = "")) as [->|Hne]; [by left|].
  destruct (no_char " " name) eqn:Hb.
  - destruct (utf8_split (O := list Z) (octets name) (octets_are_octets name))
      as (cps & rest & Hcps & Hs & Hrest & [->|[e He]]).
    + right. exists cps. rewrite app_nil_r in Hs. do 4 (split; [done|]). by apply normalize_text.
    + left. unfold NormalizePlayerName. rewrite (proj2 (find_from_blank name) Hb).
      destruct (is_empty name) eqn:E; [by destruct name|]. unfold Utf8toWStr.
      rewrite Hs, utf8to16_app, puts_back by done. cbn. by rewrite He.
  - left. unfold NormalizePlayerName. destruct (is_empty name); [done|].
    destruct (find_from " "%char name 0) eqn:Hf; [done|]. apply find_from_blank in Hf. congruence.
Qed.

Lemma NormalizePlayerName_returns name : NormalizePlayerName name = Done (normalize name).
Proof. unfold normalize. destruct (NormalizePlayerName_cases name) as [->|(cps & _ & _ & _ & _ & ->)]; done. Qed.

Lemma normalize_idempotent name name' : normalize name = (true, name') → normalize name' = (true, name').
Proof.
  intros H. pose proof (NormalizePlayerName_returns name) as Hr. rewrite H in Hr.
  destruct (NormalizePlayerName_cases name) as [E|(cps & Hne & Hb & Hcps & Hs & E)]; [congruence|].
  rewrite Hr in E. injection E as ->. destruct (capitalize_code_points cps Hcps) as [Hc _].
  set (l := utf8s (capitalize cps)). assert (octets (of_octets l) = l) as Hl.
  { by apply octets_of_octets, utf8s_octets. }
  assert (NormalizePlayerName (of_octets l) = Done (true, of_octets (utf8s (capitalize (capitalize cps))))) as Hn.
  { apply normalize_text; [| |done|done].
    - intros E. assert (capitalize cps = []) as Ec.
      { destruct (capitalize cps) as [|c r] eqn:Ec; [done|]. assert (l = []) as El by (by rewrite <- Hl, E).
        subst l. by apply utf8_nonempty in El. }
      destruct cps as [|c r]; [|done]. by destruct name.
    - apply no_char_octets. rewrite Hl. unfold l. rewrite blank_utf8s, capitalize_blank, <- blank_utf8s by done.
      rewrite <- Hs. by apply no_char_octets. }
  rewrite capitalize_idemp in Hn. unfold normalize. by rewrite Hn.
Qed.

(** ** The list of the players *)
Section PlayersList.
Variable utf8substr : string → nat → string.

(** The message once the loop has seen [rows]: what the code means to be a page
    of 24 players is the beginning of the list. *)
Definition shown (p : player) : string * string * bool :=
  (utf8substr (pl_nickname p) 256, utf8substr (player_text p) 1024, false).
Definition page (rows : list player) : EmbedMsg :=
  mk_EmbedMsg (utf8substr "Участники гильдии" 256) "" Indigo (shown <$> take 24 rows) "" (length rows).
Definition fits (p : player) : Prop :=
  String.length (pl_nickname p) ≤ 256 ∧ String.length (player_text p) ≤ 1024.

Lemma page_add rows p :
  fits p → AddEmbedField utf8substr (pl_nickname p) (player_text p) (page rows) = page (rows ++ [p]).
Proof.
  intros [Hn Ht]. unfold AddEmbedField, page. cbn [_fieldsCount em_title em_description em_color em_fields em_footer].
  rewrite length_app. cbn [List.length]. rewrite Nat.add_1_r. f_equal.
  unfold WARHEAED_DISCORD_MAX_EMBED_FIELDS, WARHEAED_DISCORD_MAX_EMBED_FIELDS_NAME,
    WARHEAED_DISCORD_MAX_EMBED_FIELDS_VALUE.
  destruct (Nat.ltb_spec 24 (S (length rows))).
  - by rewrite take_app_le by lia.
  - rewrite (proj2 (Nat.ltb_ge 256 _)), (proj2 (Nat.ltb_ge 1024 _)) by done.
    unfold dpp_add_field. rewrite !take_ge by (rewrite ?length_app; cbn; lia).
    rewrite length_fmap, (proj2 (Nat.ltb_lt _ 25)) by lia. by rewrite fmap_app.
Qed.

Lemma list_loop_pages channel rows seen out :
  Forall fits rows →
  list_loop utf8substr channel rows (wrap_u 8 (Z.of_nat (length seen))) (page seen) out =
    (page (seen ++ rows),
     out ++ ((λ k, Send channel (page (take k (seen ++ rows)))) <$>
       List.filter (λ k, 23 <=? Z.of_nat (S k) mod 256)%Z (seq (length seen) (length rows)))).
Proof.
  intros Hfit. revert seen out. induction Hfit as [|p rows Hp Hrows IH]; intros seen out; cbn.
  { by rewrite !app_nil_r. }
  assert (wrap_u 8 (wrap_u 8 (Z.of_nat (length seen)) + 1) = wrap_u 8 (Z.of_nat (length (seen ++ [p])))) as Hc.
  { unfold wrap_u. rewrite length_app. cbn. rewrite Nat2Z.inj_add. by rewrite Zplus_mod_idemp_l. }
  rewrite page_add by done. rewrite Hc, IH. rewrite <- app_assoc. cbn [app]. f_equal.
  rewrite length_app, Nat.add_1_r. unfold wrap_u. change (2 ^ 8)%Z with 256%Z.
  destruct (23 <=? Z.of_nat (S (length seen)) mod 256)%Z; cbn [fmap list_fmap]; [|done].
  rewrite take_app_length, <- app_assoc. done.
Qed.
End PlayersList.

(** What /guild-players-list sends for [n] players: a message once the
    counter, a [uint8], stands at 23 or more, that is for each player from the
    23rd on (and none while it restarts after 255), and one at the end.  All of
    them are beginnings of one message, which takes 24 players: no player after
    the 24th is in any of them, although the handler replies with the number of
    all players. *)
Theorem players_list_shows_24 (utf8substr : string → nat → string) (channel : Z) (rows : list player) (s : Bot)
    (Hrows : rows ≠ []) (Hfit : Forall fits rows) :
  let out := ((λ k, Send channel (page utf8substr (take k rows))) <$>
               List.filter (λ k, 23 <=? Z.of_nat (S k) mod 256)%Z (seq 0 (length rows)))
             ++ [Send channel (page utf8substr rows)] in
  sent (run_list utf8substr channel rows s) = sent s ++ out ∧
  replies (run_list utf8substr channel rows s) = replies s ++
    [(channel, AddEmbedField utf8substr "Количество участников" (print_Z (Z.of_nat (length rows)))
       (SetColor Cyan (SetTitle utf8substr "Участники гильдии" new_EmbedMsg)))] ∧
  (∀ m, Send channel m ∈ out → em_fields m `prefix_of` (shown utf8substr <$> take 24 rows)).
Proof.
  intros out. pose proof (list_loop_pages utf8substr channel rows [] [] Hfit) as Hl.
  cbn [app List.length] in Hl. change (wrap_u 8 (Z.of_nat 0)) with 0%Z in Hl.
  change (page utf8substr []) with (list_msg utf8substr) in Hl.
  unfold run_list. destruct rows as [|p rows]; [done|]. rewrite Hl. split; [done|]. split; [done|].
  intros m [Hm|Hm]%elem_of_app.
  - apply list_elem_of_fmap in Hm as (k & [= ->] & _). unfold page. cbn [em_fields]. rewrite take_take.
    destruct (decide (24 ≤ k)) as [Hk|Hk].
    + by rewrite Nat.min_l.
    + rewrite Nat.min_r by lia. exists (shown utf8substr <$> take (24 - k) (drop k (p :: rows))).
      rewrite <- fmap_app, take_take_drop. do 2 f_equal. lia.
  - apply list_elem_of_singleton in Hm as [= ->]. done.
Qed.

(** ** From a form to the table, and back *)
Section Membership.
Variable utf8substr : string → nat → string.
Variable ci_eq : string → string → bool.

Abbreviation run := (run utf8substr ci_eq).

(** Nothing is under way. *)
Definition quiet (s : Bot) : Prop := queue s = [] ∧ callbacks s = [].

(** A statement goes through the queue, its callback runs, and what that
    executes goes through the queue. *)
Definition served : list event := [EvWorker 0; EvCallback; EvWorker 0].

Lemma run_cons e es s : run (e :: es) s = run es (step utf8substr ci_eq e s).
Proof. done. Qed.

(** What the database does with the rows of a request. *)
Definition answer (t : db_task) (tbl : list player) : list player :=
  match t with
  | SEL_NICKNAMES _ guild => sel_nicknames guild tbl
  | SEL_NICKNAME _ guild nickname => sel_nickname ci_eq guild nickname tbl
  | _ => []
  end.
Definition apply_task (t : db_task) (tbl : list player) : list player :=
  match t with
  | DEL_NICKNAME guild nickname => del_nickname ci_eq guild nickname tbl
  | INS_NICKNAME p => ins_nickname ci_eq p tbl
  | _ => tbl
  end.
(** The statement a callback executes. *)
Definition follow_up (cb : callback) (r : list player) : option db_task :=
  match cb with
  | CbAdd guild user _ nick spec ilvl =>
      match r with [] => Some (INS_NICKNAME (mk_player guild user nick ilvl spec)) | _ => None end
  | CbList _ => None
  | CbDel guild _ target =>
      (λ p, DEL_NICKNAME guild (pl_nickname p)) <$> List.find (λ p, StringEqualI (pl_nickname p) target) r
  end.

Lemma run_callback_database cb r s :
  let s' := run_callback utf8substr cb r s in
  table s' = table s ∧ callbacks s' = callbacks s ∧ results s' = results s ∧ next_id s' = next_id s ∧
  queue s' = queue s ++ option_list (follow_up cb r).
Proof.
  destruct cb as [guild user channel nick spec ilvl|channel|guild channel target]; cbn.
  - unfold run_add. destruct r as [|p r]; cbn; rewrite ?app_nil_r; [|done].
    destruct (_guildConfigs _ !! guild) as [c|]; [|done]. by destruct (EnableRoleAdd c).
  - unfold run_list. destruct r as [|p r]; cbn; rewrite ?app_nil_r; [done|].
    by destruct (list_loop _ _ _ _ _ _).
  - unfold run_del. destruct r as [|p r]; cbn; rewrite ?app_nil_r; [done|].
    destruct (StringEqualI (pl_nickname p) target); [done|].
    destruct (List.find _ r); cbn; by rewrite ?app_nil_r.
Qed.

Lemma find_app_none {A : Type} (f : A → bool) l k :
  (∀ x, x ∈ l → f x = false) → List.find f (l ++ k) = List.find f k.
Proof.
  induction l as [|x l IH]; intros Hf; [done|]. cbn. rewrite (Hf x) by (by left).
  apply IH. intros y Hy. apply Hf. by right.
Qed.

(** A request that finds nothing under way is served in three steps. *)
Lemma run_served t cb s :
  quiet s →
  (∀ id, run_task ci_eq (t id) (remove_task 0 (async_query t cb s)) =
    mk_Bot (_confirmButtons s) (_guildConfigs s) (table s) [] (<[id := answer (t id) (table s)]> (results s))
      [(next_id s, cb)] (S (next_id s)) (replies s) (sent s)) →
  let s' := run served (async_query t cb s) in
  quiet s' ∧
  table s' = from_option (λ f, apply_task f (table s)) (table s) (follow_up cb (answer (t (next_id s)) (table s))).
Proof.
  intros [Hq Hc] Hrun. unfold served. rewrite !run_cons. cbn [step].
  assert (queue (async_query t cb s) = [t (next_id s)]) as -> by (cbn; by rewrite Hq).
  cbn [lookup list_lookup]. rewrite Hrun. cbn [callbacks set_callbacks process_callbacks results].
  rewrite lookup_insert_eq. set (r := answer _ _). cbn [app].
  match goal with |- context [run_callback _ cb r ?s0] => set (s1 := s0) end.
  pose proof (run_callback_database cb r s1) as (Htb & Hcb & Hre & Hid & Hqu). cbn in Htb, Hcb, Hre, Hid, Hqu.
  cbn [queue set_callbacks]. rewrite Hqu. destruct (follow_up cb r) as [f|] eqn:Hf; cbn.
  - assert (∀ tbl, apply_task f tbl = match f with
      | DEL_NICKNAME g n => del_nickname ci_eq g n tbl | INS_NICKNAME p => ins_nickname ci_eq p tbl
      | _ => tbl end) as Ha by (by intros; destruct f).
    destruct f; cbn; unfold quiet; cbn; rewrite ?Hqu, ?Hcb, ?Htb; done.
  - unfold quiet. cbn. by rewrite Hqu, Hcb, Htb.
Qed.

Lemma select_name_runs guild nick cb s id :
  quiet s →
  run_task ci_eq (SEL_NICKNAME id guild nick) (remove_task 0 (async_query (λ id, SEL_NICKNAME id guild nick) cb s)) =
    mk_Bot (_confirmButtons s) (_guildConfigs s) (table s) []
      (<[id := sel_nickname ci_eq guild nick (table s)]> (results s))
      [(next_id s, cb)] (S (next_id s)) (replies s) (sent s).
Proof. intros [Hq Hc]. cbn. by rewrite Hq, Hc. Qed.

Lemma select_names_runs guild cb s id :
  quiet s →
  run_task ci_eq (SEL_NICKNAMES id guild) (remove_task 0 (async_query (λ id, SEL_NICKNAMES id guild) cb s)) =
    mk_Bot (_confirmButtons s) (_guildConfigs s) (table s) [] (<[id := sel_nicknames guild (table s)]> (results s))
      [(next_id s, cb)] (S (next_id s)) (replies s) (sent s).
Proof. intros [Hq Hc]. cbn. by rewrite Hq, Hc. Qed.

(** The form of [on_form_submit], filled in with a valid name. *)
Lemma form_served guild user channel nick nick' spec ilvl n s :
  quiet s → normalize nick = (true, nick') →
  normalize nick' = (true, nick') → StringTo int32 ilvl = Some n →
  let s' := run (EvForm guild user channel nick spec ilvl :: served) s in
  quiet s' ∧
  table s' = match sel_nickname ci_eq guild nick' (table s) with
             | [] => ins_nickname ci_eq (mk_player guild user nick' n spec) (table s)
             | _ => table s
             end.
Proof.
  intros Hs Hn Hn' Hi. rewrite run_cons. cbn [step]. unfold on_form_submit. rewrite Hn. cbn [negb]. rewrite Hi.
  unfold AddGuildNickName. rewrite Hn'. cbn [snd].
  match goal with |- context [async_query _ _ ?s0] => set (s0' := s0) end.
  assert (quiet s0') as Hs0 by exact Hs.
  destruct (run_served (λ id, SEL_NICKNAME id guild nick') (CbAdd guild user channel nick' spec n) s0' Hs0)
    as [Hq Ht]; [intros id; exact (select_name_runs _ _ _ s0' id Hs0)|].
  split; [exact Hq|]. rewrite Ht. change (table s0') with (table s). cbn.
  by destruct (sel_nickname ci_eq guild nick' (table s)).
Qed.

Lemma delete_served guild channel nick nick' s :
  quiet s → snd (normalize nick) = nick' →
  let s' := run (EvSlashDelete guild channel nick :: served) s in
  quiet s' ∧
  table s' = match List.find (λ p, StringEqualI (pl_nickname p) nick') (sel_nicknames guild (table s)) with
             | Some p => del_nickname ci_eq guild (pl_nickname p) (table s)
             | None => table s
             end.
Proof.
  intros Hs Hn. rewrite run_cons. cbn [step]. unfold GuildDelHandler. rewrite Hn.
  destruct (run_served (λ id, SEL_NICKNAMES id guild) (CbDel guild channel nick') s Hs)
    as [Hq Ht]; [intros id; exact (select_names_runs _ _ s id Hs)|].
  split; [exact Hq|]. rewrite Ht. cbn. by destruct (List.find _ _).
Qed.

Lemma filter_none {A : Type} (f : A → bool) l : (∀ x, x ∈ l → f x = false) → List.filter f l = [].
Proof.
  induction l as [|x l IH]; intros Hf; [done|]. cbn. rewrite (Hf x) by (by left).
  apply IH. intros y Hy. apply Hf. by right.
Qed.

Lemma filter_all {A : Type} (f : A → bool) l : (∀ x, x ∈ l → f x = true) → List.filter f l = l.
Proof.
  induction l as [|x l IH]; intros Hf; [done|]. cbn. rewrite (Hf x) by (by left). f_equal.
  apply IH. intros y Hy. apply Hf. by right.
Qed.

Lemma filter_nil_inv {A : Type} (f : A → bool) l x : List.filter f l = [] → x ∈ l → f x = false.
Proof.
  intros Hf Hx. destruct (f x) eqn:E; [|done]. apply list_elem_of_In in Hx.
  pose proof (proj2 (filter_In f x l) (conj Hx E)) as Hin. by rewrite Hf in Hin.
Qed.

(** C30 A member joins and leaves.  With nothing under way, a submitted form with
    a valid name, whose values are ones that the columns hold (a name and a
    specialisation of at most 255 characters; the dialog does not see to it), once
    its query, its callback and its insertion have run, appends exactly the row of
    the form to the table, when no row of that guild has that name (under the
    collation of the database), and leaves the table alone otherwise; and a
    /guild-delete of the name as it was typed then takes the table back, row for
    row. *)
Theorem join_then_leave
    (Hci : ∀ a b, StringEqualI a b = true → ci_eq a b = true)
    (guild user channel : Z) (nick nick' spec ilvl : string) (n : Z) (s : Bot)
    (Hs : quiet s) (Hn : normalize nick = (true, nick'))
    (Hi : StringTo int32 ilvl = Some n)
    (Hrow : row_holds (mk_player guild user nick' n spec) = true) :
  let joined := run (EvForm guild user channel nick spec ilvl :: served) s in
  let left := run (EvSlashDelete guild channel nick :: served) joined in
  quiet joined ∧ quiet left ∧
  match sel_nickname ci_eq guild nick' (table s) with
  | [] => table joined = table s ++ [mk_player guild user nick' n spec] ∧ table left = table s
  | _ => table joined = table s
  end.
Proof.
  intros joined left.
  pose proof (normalize_idempotent nick nick' Hn) as Hn'.
  destruct (form_served guild user channel nick nick' spec ilvl n s Hs Hn Hn' Hi) as [Hqj Htj].
  fold joined in Hqj, Htj. split; [exact Hqj|].
  destruct (delete_served guild channel nick nick' joined Hqj) as [Hql Htl]; [by rewrite Hn|].
  fold left in Hql, Htl. split; [exact Hql|].
  destruct (sel_nickname ci_eq guild nick' (table s)) as [|q l] eqn:Hsel; [|done].
  assert (∀ q, q ∈ table s → (pl_guild q =? guild)%Z && ci_eq (pl_nickname q) nick' = false) as Hfresh
    by (intros q Hq; exact (filter_nil_inv _ _ _ Hsel Hq)).
  assert (StringEqualI nick' nick' = true) as Hrefl.
  { clear. induction nick' as [|c t IH]; [done|]. cbn. by rewrite Ascii.eqb_refl. }
  assert (table joined = table s ++ [mk_player guild user nick' n spec]) as Hj.
  { rewrite Htj. unfold ins_nickname. rewrite Hrow. cbn [negb orb]. destruct (existsb _ _) eqn:E; [|done]. exfalso.
    apply existsb_exists in E as (q & Hq & Hk). apply list_elem_of_In, Hfresh in Hq.
    unfold same_key in Hk. cbn in Hk. rewrite andb_true_iff, andb_true_iff in Hk. destruct Hk as [[Hg _] Hk].
    by rewrite Hg, Hk in Hq. }
  split; [exact Hj|]. rewrite Htl, Hj. unfold sel_nicknames, del_nickname. rewrite !List.filter_app. cbn.
  rewrite Z.eqb_refl. rewrite find_app_none.
  - cbn. rewrite Hrefl. cbn. rewrite List.filter_app. cbn. rewrite filter_all.
    + rewrite Z.eqb_refl, Hci by done. by rewrite app_nil_r.
    + intros q Hq. by rewrite Hfresh.
  - intros q Hq. apply list_elem_of_In, filter_In in Hq as [Hq Hg]. apply list_elem_of_In, Hfresh in Hq.
    rewrite Hg in Hq. cbn in Hq |- *.
    destruct (StringEqualI (pl_nickname q) nick') eqn:E; [|done]. by rewrite (Hci _ _ E) in Hq.
Qed.
End Membership.

(** ** Concrete runs *)

Definition cut (s : string) (n : nat) : string := String.substring 0 n s.
Definition empty_bot : Bot := mk_Bot ∅ ∅ [] [] ∅ [] 0 [] [].

Example normalize_works : normalize "wInFiDo" = (true, "Winfido") ∧ normalize "фИНАЛ" = (true, "Финал").
Proof. vm_compute. split; reflexivity. Qed.

Example normalize_rejects_blanks : normalize "two words" = (false, "two words").
Proof. reflexivity. Qed.

(** Two members ask for one name at the same time: both queries find nothing,
    and the primary key, which holds the user, takes both rows. *)
Example two_forms_one_name :
  let es := [EvForm 1 10 2 "bob" "mage" "400"; EvForm 1 11 2 "Bob" "monk" "410"; EvWorker 0; EvWorker 0;
             EvCallback; EvWorker 0; EvWorker 0] in
  pl_nickname <$> table (run cut StringEqualI es empty_bot) = ["Bob"; "Bob"].
Proof. vm_compute. reflexivity. Qed.

Lemma role_removal_is_confirmed_witness :
  ∃ pre mid post author channel keep known members roles c custom_id channel' message,
    let check := EvSlashCheckRoles author 1 channel keep 20 known members in
    let confirm := EvButton custom_id author channel' message in
    [EvSlashCheckRoles 7 1 2 10 20 [10; 20]%Z [(5, [20; 10]%Z); (6, [20]%Z)]; EvSlashAdd;
     EvButton "7_Confirm" 7 2 3]%Z = pre ++ check :: mid ++ confirm :: post ∧
    opens author check = Some c ∧
    Forall (λ e, opens author e = None ∧ confirms author e = false) mid ∧
    custom_id = print_Z author +:+ "_Confirm" ∧
    (5%Z, roles) ∈ members ∧ keep ∈ roles ∧ 20%Z ∈ roles ∧
    keep ≠ 20%Z ∧ keep ∈ known ∧ 20%Z ∈ known.
Proof.
  apply (role_removal_is_confirmed cut StringEqualI _ empty_bot); [reflexivity..|].
  apply list_elem_of_lookup_2 with 3. vm_compute. reflexivity.
Defined.

Definition crowd : list player :=
  (λ k, mk_player 1 (Z.of_nat k) ("P" +:+ print_Z (Z.of_nat k)) 400 "mage") <$> seq 0 30.

Lemma players_list_shows_24_witness :
  List.length (sent (run_list cut 2 crowd empty_bot)) = 9 ∧
  (∀ m, Send 2 m ∈ ((λ k, Send 2 (page cut (take k crowd))) <$>
               List.filter (λ k, 23 <=? Z.of_nat (S k) mod 256)%Z (seq 0 (length crowd)))
             ++ [Send 2 (page cut crowd)] → em_fields m `prefix_of` (shown cut <$> take 24 crowd)).
Proof.
  split; [vm_compute; reflexivity|].
  apply (players_list_shows_24 cut 2 crowd empty_bot); [discriminate|].
  apply (bool_decide_eq_true_1 (Forall (λ p, String.length (pl_nickname p) ≤ 256 ∧
    String.length (player_text p) ≤ 1024) crowd)). vm_compute. reflexivity.
Defined.

Lemma join_then_leave_witness :
  let es := EvForm 1 10 2 "bOB" "mage" "400" :: served in
  let joined := run cut StringEqualI es empty_bot in
  let left := run cut StringEqualI (EvSlashDelete 1 2 "bOB" :: served) joined in
  quiet joined ∧ quiet left ∧ table joined = [mk_player 1 10 "Bob" 400 "mage"] ∧ table left = [].
Proof.
  apply (join_then_leave cut StringEqualI (λ a b H, H) 1 10 2 "bOB" "Bob" "mage"
    "400" 400 empty_bot); [split; reflexivity|vm_compute; reflexivity|vm_compute; reflexivity|vm_compute; reflexivity].
Defined.

(** The dialog takes a text of any length: the member is told that the name was
    added, and the table refuses the row. *)
Definition long_spec : string := String.string_of_list_ascii (repeat "s"%char 256).
Example long_spec_is_not_added :
  let s := run cut StringEqualI (EvForm 1 10 2 "bOB" long_spec "400" :: served) empty_bot in
  table s = [] ∧ (match last (sent s) with Some (Send _ m) => em_description m | _ => "" end) = "Персонаж `Bob` был добавлен в базу.".
Proof. vm_compute. split; reflexivity. Qed.
