(* ===== verification/Commands.v ===== *)
(** * The commands of the bot: DiscordMgr::ConfigureCommands

    What the bot registers with Discord, and how what Discord sends reaches the
    handlers of Discord.v: the slash commands with their options, the dispatch
    on the name of a command, the values the handlers take out of an
    interaction, the dialog of /guild-add and the form that comes back.  A value
    of another type than the handler asks for is the exception
    bad_variant_access, which nothing catches.

    - The parts of D++ the code builds its commands with are modelled from
      deps/dpp: [slashcommand], [command_option], [component],
      [interaction_modal_response], [get_parameter].
    - Discord is what it documents: an interaction fits the command it was
      registered for ([sent_for]), [guild_get_members_sync] returns at most as
      many members as it was asked for, or throws [rest_exception] when the request
      failed, a form has the shape of its dialog. *)
From S2P Require Import Prelude CppString Convert Utf8 Substr Discord.

Inductive cpp_exception := bad_variant_access | logic_exception | rest_exception.
Abbreviation result := (outcome cpp_exception).

(** [utility::utf8substr(text, 0, n)] *)
Definition cut_text (text : string) (n : Z) : result string :=
  match utf8substr (octets text) 0 n with
  | Done l => Done (of_octets l)
  | Throw e => match e with end
  | Crash w => Crash w
  end.

(** ** dpp/appcommand.h, slashcommand.cpp *)
Inductive command_option_type :=
| co_sub_command | co_sub_command_group | co_string | co_integer | co_boolean | co_user | co_channel | co_role
| co_mentionable | co_number | co_attachment.
#[export] Instance command_option_type_eq_dec : EqDecision command_option_type.
Proof. solve_decision. Defined.

Inductive command_value :=
| monostate | v_string (s : string) | v_int64 (z : Z) | v_bool (b : bool) | v_snowflake (id : Z).

Record command_option := mk_command_option {
  co_type : command_option_type;
  co_name : string;
  co_description : string;
  co_required : bool;
  co_min : option Z;
  co_max : option Z }.

Definition new_option (t : command_option_type) (n d : string) (r : bool) : command_option :=
  mk_command_option t n d r None None.
Definition set_min_value (v : Z) (o : command_option) : command_option :=
  mk_command_option (co_type o) (co_name o) (co_description o) (co_required o) (Some v) (co_max o).
Definition set_max_value (v : Z) (o : command_option) : command_option :=
  mk_command_option (co_type o) (co_name o) (co_description o) (co_required o) (co_min o) (Some v).
(** Lengths are kept where values are. *)
Definition set_max_length : Z → command_option → command_option := set_max_value.

Record slashcommand := mk_slashcommand {
  sc_name : string;
  sc_description : string;
  sc_options : list command_option;
  default_member_permissions : Z }.

Definition p_use_application_commands : Z := 0x80000000.

Definition new_slashcommand (name description : string) : result slashcommand :=
  name ← cut_text name 32;
  description ← cut_text description 100;
  Done (mk_slashcommand (lower name) description [] p_use_application_commands).
Definition add_option (o : command_option) (c : slashcommand) : slashcommand :=
  mk_slashcommand (sc_name c) (sc_description c) (sc_options c ++ [o]) (default_member_permissions c).
Definition set_default_permissions (defaults : Z) (c : slashcommand) : slashcommand :=
  mk_slashcommand (sc_name c) (sc_description c) (sc_options c) defaults.

(** ** ConfigureCommands *)
Definition commands : result (list slashcommand) :=
  guildAddCommand ← new_slashcommand "guild-add" "Вступить в гильдию и получить роль участника";
  guildDelCommand ← new_slashcommand "guild-delete" "Удалить участника";
  guildCheck ← new_slashcommand "guild-players-list" "Получить список участников";
  checkRolesCommand ← new_slashcommand "check-roles" "Проверить роли участников (25 человек максимум)";
  let nickname := new_option co_string "nickname" "Ник в игре" true in
  let nickname := set_max_length 2 nickname in
  let nickname := set_max_length 15 nickname in
  let guildDelCommand := add_option nickname guildDelCommand in
  let roleOptionKeep := new_option co_role "role_keep" "Роль, которую нужно оставить" true in
  let roleOptionDelete :=
    new_option co_role "role_del" "Роль, которую нужно удалить, если есть та, которую нужно оставить" true in
  let maxUsers :=
    new_option co_integer "max_users" "Максимальное количество пользователей для удаления роли" true in
  let maxUsers := set_max_value 20 (set_min_value 1 maxUsers) in
  let checkRolesCommand := add_option maxUsers (add_option roleOptionDelete (add_option roleOptionKeep checkRolesCommand)) in
  let guildCheck := set_default_permissions 0 guildCheck in
  let checkRolesCommand := set_default_permissions 0 checkRolesCommand in
  let guildDelCommand := set_default_permissions 0 guildDelCommand in
  Done [guildAddCommand; guildDelCommand; guildCheck; checkRolesCommand].

(** The callback of [current_user_get_guilds]: the calls of
    [guild_command_create]; [None] is an answer with an error. *)
Definition create_commands (commands : list slashcommand) (guilds : option (list Z)) : list (slashcommand * Z) :=
  match guilds with
  | None => []
  | Some guilds => guilds ≫= λ id, (λ c, (c, id)) <$> commands
  end.

(** ** Interactions *)

(** An option as it was filled in. *)
Inductive data_option := mk_data_option {
  do_name : string;
  do_type : command_option_type;
  do_value : command_value;
  do_options : list data_option }.

Record interaction := mk_interaction {
  command_name : string;
  data_options : list data_option;
  guild_id : Z;
  channel_id : Z;
  user_id : Z }.

Definition is_parameter (name : string) (o : data_option) : bool :=
  bool_decide (do_type o ≠ co_sub_command ∧ do_type o ≠ co_sub_command_group) && String.eqb (do_name o) name.

Definition sub_options (l : list data_option) : list data_option := flat_map do_options l.

(** On the first level, else on the second, else on the third. *)
Definition get_parameter (name : string) (i : interaction) : command_value :=
  match List.find (is_parameter name) (data_options i) with
  | Some o => do_value o
  | None =>
      match List.find (is_parameter name) (sub_options (data_options i)) with
      | Some o => do_value o
      | None =>
          match List.find (is_parameter name) (sub_options (sub_options (data_options i))) with
          | Some o => do_value o
          | None => monostate
          end
      end
  end.

(** [std::get<T>(value)] *)
Definition get_string (v : command_value) : result string :=
  match v with v_string s => Done s | _ => Throw bad_variant_access end.
Definition get_int64 (v : command_value) : result Z :=
  match v with v_int64 z => Done z | _ => Throw bad_variant_access end.
Definition get_snowflake (v : command_value) : result Z :=
  match v with v_snowflake id => Done id | _ => Throw bad_variant_access end.

Section Receive.
(** The roles of the cache; [guild_get_members_sync(guild, limit, 0)]. *)
Variable known : list Z.
Variable guild_get_members_sync : Z → Z → result (list member).

(** What CheckRolesHandler takes out of an interaction, and when: a role that is
    not there ends it before the next value is read (the event then holds
    nothing in its place, and the handler looks at nothing there).  The limit is
    a [uint16]. *)
Definition check_roles_event (i : interaction) : result event :=
  keep ← get_snowflake (get_parameter "role_keep" i);
  if negb (bool_decide (keep ∈ known)) then
    Done (EvSlashCheckRoles (user_id i) (guild_id i) (channel_id i) keep 0 known [])
  else
    del ← get_snowflake (get_parameter "role_del" i);
    if negb (bool_decide (del ∈ known)) then
      Done (EvSlashCheckRoles (user_id i) (guild_id i) (channel_id i) keep del known [])
    else
      maxUsersCheck ← get_int64 (get_parameter "max_users" i);
      members ← guild_get_members_sync (guild_id i) (wrap_u 16 maxUsersCheck);
      Done (EvSlashCheckRoles (user_id i) (guild_id i) (channel_id i) keep del known members).

(** on_slashcommand: [None] where no handler is called. *)
Definition on_slashcommand (i : interaction) : result (option event) :=
  let commandName := command_name i in
  if String.eqb commandName "guild-add" then Done (Some EvSlashAdd)
  else if String.eqb commandName "check-roles" then e ← check_roles_event i; Done (Some e)
  else if String.eqb commandName "guild-players-list" then Done (Some (EvSlashPlayers (guild_id i) (channel_id i)))
  else if String.eqb commandName "guild-delete" then
    nickname ← get_string (get_parameter "nickname" i);
    Done (Some (EvSlashDelete (guild_id i) (channel_id i) nickname))
  else Done None.
End Receive.

(** ** The dialog of GuildAddHandler: dpp/message.cpp *)
Inductive component_type := cot_action_row | cot_button | cot_selectmenu | cot_text.
Inductive text_style_type := text_short | text_paragraph.

Record component := mk_component {
  c_type : component_type;
  c_label : string;
  c_custom_id : string;
  c_text_style : text_style_type }.

Definition new_component : component := mk_component cot_action_row "" "" text_short.

Definition set_type (t : component_type) (c : component) : result component :=
  label ← match t with
          | cot_text | cot_button => cut_text (c_label c) 80
          | cot_selectmenu => cut_text (c_label c) 100
          | cot_action_row => Done (c_label c)
          end;
  Done (mk_component t label (c_custom_id c) (c_text_style c)).

(** A component without a type becomes a button. *)
Definition or_button (c : component) : result component :=
  match c_type c with cot_action_row => set_type cot_button c | _ => Done c end.

Definition set_label (l : string) (c : component) : result component :=
  c ← or_button c;
  label ← match c_type c with
          | cot_text | cot_button => cut_text l 80
          | cot_selectmenu => cut_text l 100
          | cot_action_row => Done l
          end;
  Done (mk_component (c_type c) label (c_custom_id c) (c_text_style c)).

Definition set_id (id : string) (c : component) : result component :=
  c ← or_button c;
  id ← cut_text id 100;
  Done (mk_component (c_type c) (c_label c) id (c_text_style c)).

Definition set_text_style (ts : text_style_type) (c : component) : result component :=
  c ← set_type cot_text c;
  Done (mk_component (c_type c) (c_label c) (c_custom_id c) ts).

(** interaction_modal_response *)
Record modal := mk_modal { m_custom_id : string; m_title : string; current_row : nat; m_components : list (list component) }.

Definition new_modal (custom_id title : string) : result modal :=
  title ← cut_text title 45; Done (mk_modal custom_id title 0 [[]]).
Definition add_component (c : component) (m : modal) : result modal :=
  match m_components m !! current_row m with
  | Some row => Done (mk_modal (m_custom_id m) (m_title m) (current_row m) (<[current_row m := row ++ [c]]> (m_components m)))
  | None => Crash "no such row"
  end.
Definition add_row (m : modal) : result modal :=
  if (length (m_components m) <? 5)%nat
  then Done (mk_modal (m_custom_id m) (m_title m) (S (current_row m)) (m_components m ++ [[]]))
  else Throw logic_exception.

Definition text_input (label id : string) : result component :=
  c ← set_label label new_component;
  c ← set_id id c;
  c ← set_type cot_text c;
  set_text_style text_short c.

(** GuildAddHandler *)
Definition add_modal : result modal :=
  modal ← new_modal "addModal" "Вступить в гильдию";
  nickName ← text_input "Ник" "nickname";
  modal ← add_component nickName modal;
  modal ← add_row modal;
  className ← text_input "Специализация" "gamespec";
  modal ← add_component className modal;
  modal ← add_row modal;
  ilvl ← text_input "Средний уровень предметов" "avgilvl";
  add_component ilvl modal.

(** A form: the values of its components, row by row. *)
Definition form := list (list command_value).

(** [event.components[i].components[0].value] *)
Definition form_value (f : form) (i : nat) : result command_value :=
  match f !! i ≫= head with Some v => Done v | None => Crash "no such component" end.

(** on_form_submit, as far as it reads the form. *)
Definition form_event (guild user channel : Z) (f : form) : result event :=
  nickName ← form_value f 0 ≫= get_string;
  gameSpec ← form_value f 1 ≫= get_string;
  ilvlStr ← form_value f 2 ≫= get_string;
  Done (EvForm guild user channel nickName gameSpec ilvlStr).

(** ** Concrete values *)
Definition registered : list slashcommand :=
  Eval vm_compute in match commands with Done l => l | _ => [] end.

Lemma commands_registered : commands = Done registered.
Proof. vm_compute. reflexivity. Qed.

Definition dialog : modal :=
  Eval vm_compute in match add_modal with Done m => m | _ => mk_modal "" "" 0 [] end.

Lemma dialog_shown : add_modal = Done dialog.
Proof. vm_compute. reflexivity. Qed.

(** The dialog has three rows of one text input. *)
Lemma dialog_rows :
  m_components dialog =
    [[mk_component cot_text "Ник" "nickname" text_short];
     [mk_component cot_text "Специализация" "gamespec" text_short];
     [mk_component cot_text "Средний уровень предметов" "avgilvl" text_short]].
Proof. reflexivity. Qed.

(** ** What Discord sends *)

(** A value that Discord takes for an option. *)
Definition value_for (o : command_option) (v : command_value) : Prop :=
  match co_type o with
  | co_string => ∃ s, v = v_string s
  | co_integer => ∃ z, v = v_int64 z ∧ (default z (co_min o) ≤ z ≤ default z (co_max o))%Z
  | co_boolean => ∃ b, v = v_bool b
  | co_user | co_channel | co_role | co_mentionable | co_attachment => ∃ id, v = v_snowflake id
  | co_sub_command | co_sub_command_group | co_number => True
  end.

(** An interaction for a command: every option is one of the command, and the
    required ones are filled in. *)
Record sent_for (c : slashcommand) (i : interaction) : Prop := {
  sent_name : command_name i = sc_name c;
  sent_options : ∀ d, d ∈ data_options i → ∃ o, o ∈ sc_options c ∧ do_name d = co_name o ∧ do_type d = co_type o ∧
    value_for o (do_value d);
  sent_required : ∀ o, o ∈ sc_options c → co_required o = true →
    ∃ d, d ∈ data_options i ∧ do_name d = co_name o }.

(** The handlers get the value of a required option. *)
Lemma required_parameter c i o :
  sent_for c i → o ∈ sc_options c → co_required o = true →
  (∀ o', o' ∈ sc_options c → co_name o' = co_name o → o' = o) →
  co_type o ≠ co_sub_command → co_type o ≠ co_sub_command_group →
  value_for o (get_parameter (co_name o) i).
Proof.
  intros Hi Ho Hr Huniq Ht1 Ht2. destruct (sent_required _ _ Hi o Ho Hr) as (d & Hd & Hn).
  assert (∀ d, d ∈ data_options i → do_name d = co_name o → do_type d = co_type o ∧ value_for o (do_value d)) as Hval.
  { intros d' Hd' Hn'. destruct (sent_options _ _ Hi d' Hd') as (o' & Ho' & Hno & Hto & Hv).
    assert (o' = o) as -> by (apply Huniq; congruence). done. }
  unfold get_parameter. destruct (List.find (is_parameter (co_name o)) (data_options i)) as [d'|] eqn:E.
  - apply List.find_some in E as [Hin Hp]. apply list_elem_of_In in Hin.
    apply andb_true_iff in Hp as [_ Hp%String.eqb_eq]. by apply Hval.
  - pose proof (List.find_none _ _ E d (proj1 (list_elem_of_In _ _) Hd)) as Hp. exfalso.
    destruct (Hval d Hd Hn) as [Ht _]. unfold is_parameter in Hp.
    rewrite bool_decide_eq_true_2, Hn, String.eqb_refl in Hp by (by rewrite Ht). done.
Qed.

(** What the handler of a command is called with. *)
Definition served (known : list Z) (i : interaction) (e : event) : Prop :=
  match e with
  | EvSlashAdd => command_name i = "guild-add"
  | EvSlashPlayers guild channel =>
      command_name i = "guild-players-list" ∧ guild = guild_id i ∧ channel = channel_id i
  | EvSlashDelete guild channel nickname =>
      command_name i = "guild-delete" ∧ guild = guild_id i ∧ channel = channel_id i ∧
      get_parameter "nickname" i = v_string nickname
  | EvSlashCheckRoles author guild channel keep del roles members =>
      command_name i = "check-roles" ∧ author = user_id i ∧ guild = guild_id i ∧ channel = channel_id i ∧
      roles = known ∧ get_parameter "role_keep" i = v_snowflake keep ∧
      (keep ∈ known → get_parameter "role_del" i = v_snowflake del) ∧ length members ≤ 20
  | _ => False
  end.

(** The options of a registered command are required, and have names of their own. *)
Lemma registered_options :
  Forall (λ c, Forall (λ o, co_required o = true ∧ co_type o ≠ co_sub_command ∧ co_type o ≠ co_sub_command_group ∧
    Forall (λ o', co_name o' = co_name o → o' = o) (sc_options c)) (sc_options c)) registered.
Proof. unfold registered. repeat constructor; done. Qed.

Lemma registered_parameter c i o :
  c ∈ registered → sent_for c i → o ∈ sc_options c → value_for o (get_parameter (co_name o) i).
Proof.
  intros Hc Hi Ho. pose proof registered_options as H. rewrite Forall_forall in H.
  specialize (H c Hc). rewrite Forall_forall in H. destruct (H o Ho) as (Hr & H1 & H2 & Hu).
  apply (required_parameter c i o); [done..| |done|done]. rewrite Forall_forall in Hu. intros o' Ho'. by apply Hu.
Qed.

Section Served.
Variable known : list Z.
Variable guild_get_members_sync : Z → Z → result (list member).

Definition members_or_failure : Prop := ∀ guild limit, (1 ≤ limit ≤ 1000)%Z →
  guild_get_members_sync guild limit = Throw rest_exception ∨
  ∃ ms, guild_get_members_sync guild limit = Done ms ∧ (Z.of_nat (length ms) ≤ limit)%Z.

Hypothesis Hmembers : members_or_failure.

(** The members could not be asked for. *)
Definition request_failed (i : interaction) : Prop :=
  command_name i = "check-roles" ∧ ∃ limit, (1 ≤ limit ≤ 20)%Z ∧ guild_get_members_sync (guild_id i) limit = Throw rest_exception.

Lemma check_roles_served i keep del n :
  command_name i = "check-roles" → get_parameter "role_keep" i = v_snowflake keep →
  get_parameter "role_del" i = v_snowflake del → get_parameter "max_users" i = v_int64 n → (1 ≤ n ≤ 20)%Z →
  (∃ e, check_roles_event known guild_get_members_sync i = Done e ∧ served known i e) ∨
  check_roles_event known guild_get_members_sync i = Throw rest_exception ∧ request_failed i.
Proof.
  intros Hn Hk Hd Hm Hr. unfold check_roles_event. rewrite Hk, Hd, Hm. cbn.
  destruct (bool_decide (keep ∈ known)) eqn:Ek; cbn.
  2: { apply bool_decide_eq_false in Ek. left. eexists. split; [done|]. cbn. repeat split; try done; lia. }
  destruct (bool_decide (del ∈ known)); cbn.
  2: { left. eexists. split; [done|]. cbn. repeat split; try done; lia. }
  assert (wrap_u 16 n = n) as -> by (apply Z.mod_small; lia).
  destruct (Hmembers (guild_id i) n) as [Ht|(ms & -> & Hl)]; [lia| |].
  { right. rewrite Ht. split; [done|]. split; [done|]. by exists n. }
  left. cbn. eexists. split; [done|]. cbn.
  repeat split; try done; lia.
Qed.
End Served.

(** C24 Every command the bot registers is one it serves: the name reaches its
    handler, every value the handler asks for is there and has the type it asks
    for, and /check-roles looks at 20 members at most.  No interaction that fits a
    registered command ends in an exception, but for the one of the library with
    which [guild_get_members_sync] reports that the request of /check-roles for
    the members failed; the handler does not catch that one.  Other commands are
    ignored. *)
Theorem commands_are_served (known : list Z) (guild_get_members_sync : Z → Z → result (list member)) (i : interaction)
    (Hmembers : members_or_failure guild_get_members_sync) :
  (∀ c, c ∈ registered → sent_for c i →
     (∃ e, on_slashcommand known guild_get_members_sync i = Done (Some e) ∧ served known i e) ∨
     on_slashcommand known guild_get_members_sync i = Throw rest_exception ∧ request_failed guild_get_members_sync i) ∧
  (command_name i ∉ sc_name <$> registered → on_slashcommand known guild_get_members_sync i = Done None).
Proof.
  split.
  - intros c Hc Hi. pose proof (λ o, registered_parameter c i o Hc Hi) as Hpar.
    pose proof (sent_name _ _ Hi) as Hn. unfold on_slashcommand. rewrite Hn. clear Hi.
    unfold registered in Hc. repeat (apply elem_of_cons in Hc as [->|Hc]); [..|by apply elem_of_nil in Hc];
      cbn in Hn, Hpar |- *.
    + left. by eexists.
    + destruct (Hpar _ (list_elem_of_here _ _)) as [nick Hv]. cbn in Hv. rewrite Hv. left. by eexists.
    + left. by eexists.
    + destruct (Hpar _ (list_elem_of_here _ _)) as [keep Hk].
      destruct (Hpar _ (list_elem_of_further _ _ _ (list_elem_of_here _ _))) as [del Hd].
      destruct (Hpar _ (list_elem_of_further _ _ _ (list_elem_of_further _ _ _ (list_elem_of_here _ _)))) as (n & Hm & Hr).
      destruct (check_roles_served known _ Hmembers i keep del n Hn Hk Hd Hm Hr) as [(e & -> & He)|[-> Hf]];
        cbn; [left; by exists e|by right].
  - unfold registered, on_slashcommand. cbn. intros Hno. repeat (rewrite not_elem_of_cons in Hno; destruct Hno as [? Hno]).
    by repeat match goal with |- context [String.eqb ?a ?b] => destruct (String.eqb_spec a b); [congruence|] end.
Qed.

(** *** The form *)

(** A form that was filled in for a dialog: a text in each of its components. *)
Definition filled_in (m : modal) (f : form) : Prop :=
  Forall2 (Forall2 (λ _ v, ∃ s, v = v_string s)) (m_components m) f.

(** The handler of the form finds the three texts of the dialog, in its order. *)
Theorem form_matches_dialog (guild user channel : Z) (f : form) (Hf : filled_in dialog f) :
  ∃ nickname gamespec avgilvl,
    f = [[v_string nickname]; [v_string gamespec]; [v_string avgilvl]] ∧
    form_event guild user channel f = Done (EvForm guild user channel nickname gamespec avgilvl).
Proof.
  unfold filled_in in Hf. cbn in Hf.
  repeat match goal with
  | H : Forall2 _ (_ :: _) _ |- _ => apply Forall2_cons_inv_l in H as (? & ? & ? & ? & ->)
  | H : Forall2 _ [] _ |- _ => apply Forall2_nil_inv_l in H as ->
  | H : ∃ s, _ = v_string s |- _ => destruct H as [? ->]
  end.
  by eexists _, _, _.
Qed.

(** *** The list of /check-roles *)
Definition newline : string := String (ch 10) "".
Definition line (k : nat) (id : Z) : string := print_Z (Z.of_nat k) +:+ ". <@" +:+ print_Z id +:+ ">" +:+ newline.
Definition numbered (k : nat) (members : list Z) : string := foldr String.append "" (imap (λ j id, line (k + j) id) members).

Lemma numbered_cons k id members : numbered k (id :: members) = line k id +:+ numbered (S k) members.
Proof.
  unfold numbered. rewrite imap_cons. cbn [foldr]. rewrite Nat.add_0_r. f_equal. f_equal.
  apply imap_ext. intros j x _. cbn. f_equal. lia.
Qed.

(** The index does not wrap around. *)
Lemma describe_members_numbers k members m :
  k + length members < 256 →
  let m' := describe_members (Z.of_nat k) members m in
  em_description m' = em_description m +:+ numbered (S k) members ∧ em_fields m' = em_fields m.
Proof.
  revert k m. induction members as [|id members IH]; intros k m Hk; cbn [describe_members length] in *.
  - split; [|done]. unfold numbered. cbn. by rewrite str_app_nil_r.
  - assert (wrap_u 8 (Z.of_nat k + 1) = Z.of_nat (S k)) as ->.
    { unfold wrap_u. rewrite Z.mod_small; lia. }
    destruct (IH (S k) (AddDescription (line (S k) id) m)) as [Hd Hf]; [lia|].
    cbn [em_description em_fields AddDescription] in Hd, Hf.
    split; [|exact Hf]. rewrite numbered_cons, <- (str_app_assoc (em_description m)). exact Hd.
Qed.

Lemma print_Z_digits z D : (0 ≤ z < 10 ^ Z.of_nat D)%Z → 1 ≤ D → String.length (print_Z z) ≤ D.
Proof.
  intros Hz HD. unfold print_Z, print_nat. destruct (Z.ltb_spec z 0); [lia|].
  pose proof (print_digits_length (S (Z.to_nat (Z.log2 z))) z EmptyString D) as Hp. cbn in Hp |- *. lia.
Qed.

Lemma numbered_length k members :
  k + length members ≤ 1000 → Forall (λ id, 0 ≤ id < 2 ^ 64)%Z members →
  String.length (numbered k members) ≤ 29 * length members.
Proof.
  intros Hk Hids. revert k Hk. induction Hids as [|id members Hid Hids IH]; intros k Hk; [done|].
  rewrite numbered_cons, str_length_app. cbn [length] in *. specialize (IH (S k)).
  assert (String.length (line k id) ≤ 29); [|lia].
  unfold line. rewrite !str_length_app.
  pose proof (print_Z_digits (Z.of_nat k) 3). pose proof (print_Z_digits id 20). cbn. lia.
Qed.

Lemma members_to_clean_length keep del members : length (members_to_clean keep del members) ≤ length members.
Proof. unfold members_to_clean. rewrite length_fmap. apply List.filter_length_le. Qed.

(** What /check-roles shows of the at most 20 members it looks at fits into the
    description of an embed (4096 characters): one line for each member whose
    role would go, numbered from 1, and the two fields with the roles. *)
Theorem check_roles_reply_fits (utf8substr : string → nat → string) (author guild channel keep del : Z) (known : list Z)
    (members : list member) (s : Bot)
    (Hlen : length members ≤ 20) (Hids : Forall (λ m : member, 0 ≤ m.1 < 2 ^ 64)%Z members)
    (Hkeep : keep ∈ known) (Hdel : del ∈ known) (Hfound : members_to_clean keep del members ≠ []) :
  ∃ m, sent (CheckRolesHandler utf8substr author guild channel keep del known members s) =
         sent s ++ [Reply channel m [print_Z author +:+ "_Confirm"; print_Z author +:+ "_Delete"]] ∧
       em_description m = numbered 1 (members_to_clean keep del members) ∧
       String.length (em_description m) ≤ 4096.
Proof.
  unfold CheckRolesHandler. rewrite !bool_decide_eq_true_2 by done. cbn [negb].
  pose proof (members_to_clean_length keep del members) as Hl.
  destruct members as [|mb members]; [done|]. set (found := members_to_clean keep del (mb :: members)) in *.
  assert (Forall (λ id, 0 ≤ id < 2 ^ 64)%Z found) as Hf.
  { apply Forall_forall. intros id (_ & roles & Hin & _)%elem_of_members_to_clean.
    rewrite Forall_forall in Hids. apply (Hids _ Hin). }
  destruct found as [|id found]; [done|]. cbn [send sent AddConfirmButton set_buttons]. eexists. split; [done|].
  match goal with |- em_description (describe_members _ _ ?m) = _ ∧ _ =>
    destruct (describe_members_numbers 0 (id :: found) m) as [Hd _]; [cbn in *; lia|] end.
  change (Z.of_nat 0) with 0%Z in Hd. rewrite Hd.
  pose proof (numbered_length 1 (id :: found)) as Hnl. cbn [String.append em_description AddEmbedField SetColor SetTitle] in *.
  split; [done|]. specialize (Hnl ltac:(cbn in *; lia) Hf). cbn in *. lia.
Qed.

(** ** Concrete runs *)
Definition sample_check : interaction :=
  mk_interaction "check-roles"
    [mk_data_option "max_users" co_integer (v_int64 5) []; mk_data_option "role_keep" co_role (v_snowflake 10) [];
     mk_data_option "role_del" co_role (v_snowflake 20) []] 1 2 7.

Definition sample_members (guild limit : Z) : result (list member) :=
  Done (take (Z.to_nat limit) [(5, [20; 10]); (6, [20]); (8, [10; 20])]%Z).

Example sample_event :
  on_slashcommand [10; 20]%Z sample_members sample_check =
    Done (Some (EvSlashCheckRoles 7 1 2 10 20 [10; 20] [(5, [20; 10]); (6, [20]); (8, [10; 20])]))%Z.
Proof. reflexivity. Qed.

(** The request for the members fails: the exception of the library leaves the
    handler. *)
Example failed_request :
  on_slashcommand [10; 20]%Z (λ _ _, Throw rest_exception) sample_check = Throw rest_exception.
Proof. reflexivity. Qed.

(** Without its option, the handler of /guild-delete throws. *)
Example missing_option :
  on_slashcommand [] sample_members (mk_interaction "guild-delete" [] 1 2 7) = Throw bad_variant_access.
Proof. reflexivity. Qed.

Lemma commands_are_served_witness :
  ∃ e, on_slashcommand [10; 20]%Z sample_members sample_check = Done (Some e) ∧ served [10; 20]%Z sample_check e.
Proof.
  destruct (commands_are_served [10; 20]%Z sample_members sample_check) as [H _].
  - intros guild limit Hl. right. unfold sample_members. eexists. split; [reflexivity|].
    rewrite length_take. lia.
  - refine (match H (mk_slashcommand "check-roles" "Проверить роли участников (25 человек максимум)"
      [new_option co_role "role_keep" "Роль, которую нужно оставить" true;
       new_option co_role "role_del" "Роль, которую нужно удалить, если есть та, которую нужно оставить" true;
       set_max_value 20 (set_min_value 1 (new_option co_integer "max_users"
         "Максимальное количество пользователей для удаления роли" true))] 0) _ _ with
      | or_introl served_ => served_ | or_intror failed => _ end).
    + apply list_elem_of_lookup_2 with 3. reflexivity.
    + split; [reflexivity| |].
      * intros d Hd. repeat (apply elem_of_cons in Hd as [->|Hd]); [..|by apply elem_of_nil in Hd].
        -- eexists. split; [apply list_elem_of_lookup_2 with 2; reflexivity|]. repeat split. exists 5%Z. repeat split; cbn; lia.
        -- eexists. split; [apply list_elem_of_lookup_2 with 0; reflexivity|]. repeat split. by exists 10%Z.
        -- eexists. split; [apply list_elem_of_lookup_2 with 1; reflexivity|]. repeat split. by exists 20%Z.
      * intros o Ho _. repeat (apply elem_of_cons in Ho as [->|Ho]); [..|by apply elem_of_nil in Ho].
        -- eexists. split; [apply list_elem_of_lookup_2 with 1; reflexivity|reflexivity].
        -- eexists. split; [apply list_elem_of_lookup_2 with 2; reflexivity|reflexivity].
        -- eexists. split; [apply list_elem_of_lookup_2 with 0; reflexivity|reflexivity].
    + exfalso. destruct failed as [Ht _]. vm_compute in Ht. discriminate Ht.
Defined.

Lemma form_matches_dialog_witness :
  form_event 1 7 2 [[v_string "bob"]; [v_string "mage"]; [v_string "400"]] = Done (EvForm 1 7 2 "bob" "mage" "400").
Proof.
  destruct (form_matches_dialog 1 7 2 [[v_string "bob"]; [v_string "mage"]; [v_string "400"]]) as (a & b & c & H & Hf).
  - unfold filled_in. repeat constructor; by eexists.
  - injection H as <- <- <-. exact Hf.
Defined.

Lemma check_roles_reply_fits_witness :
  ∃ m, sent (CheckRolesHandler cut 7 1 2 10 20 [10; 20]%Z [(5, [20; 10]); (6, [20]); (8, [10; 20])]%Z empty_bot) =
         [Reply 2 m ["7_Confirm"; "7_Delete"]] ∧
       em_description m = numbered 1 [5; 8]%Z ∧ String.length (em_description m) ≤ 4096.
Proof.
  apply (check_roles_reply_fits cut 7 1 2 10 20 [10; 20]%Z [(5, [20; 10]); (6, [20]); (8, [10; 20])]%Z empty_bot).
  - cbn. lia.
  - repeat constructor; cbn; lia.
  - by left.
  - right. by left.
  - discriminate.
Defined.
