(* ===== verification/BotStart.v ===== *)
(** * The start of the bot: DiscordMgr::Start and the events of D++

    [Start] makes the cluster of D++, attaches the listeners of the log, starts
    the shards, asks for the guilds, and attaches the listeners of the commands;
    from the start of the shards on, the threads of D++ deliver events.  The two
    are composed here: a [move] is the next call of [Start], or an event.

    - Of D++: the routers of events (event_router.h), the dispatch of interactions
      to them (events/interaction_create.cpp) and [cluster::start].
    - What Discord answers is an argument: to the request for the gateway, to the
      two requests for the guilds.
    - A message of the log of D++ becomes a call of the program's log ([Log.v] has
      what becomes of that). *)
From S2P Require Import Prelude CppString Convert LogChannels Utf8 Substr Discord Commands.

(** ** event_router.h *)

(** The listeners the bot attaches. *)
Inductive listener := OnReady | OnLog | OnSlashcommand | OnButtonClick | OnFormSubmit.
#[export] Instance listener_eq_dec : EqDecision listener.
Proof. solve_decision. Defined.

Record event_router := mk_event_router {
  next_handle : nat;
  dispatch_container : list (nat * listener) }.   (* a std::map: by handle *)

Definition new_router : event_router := mk_event_router 1 [].
Definition attach (func : listener) (r : event_router) : event_router :=
  mk_event_router (S (next_handle r)) (dispatch_container r ++ [(next_handle r, func)]).
Definition detach (handle : nat) (r : event_router) : bool * event_router :=
  (bool_decide (handle ∈ (dispatch_container r).*1),
   mk_event_router (next_handle r) (filter (λ x, x.1 ≠ handle) (dispatch_container r))).
Definition empty_router (r : event_router) : bool := bool_decide (dispatch_container r = []).

(** [call]: the listeners that are called; [cancels]: one that cancels the event. *)
Fixpoint call_listeners (cancels : listener → bool) (l : list (nat * listener)) : list listener :=
  match l with
  | [] => []
  | (_, func) :: l => func :: if cancels func then [] else call_listeners cancels l
  end.
Definition call (r : event_router) : list listener := call_listeners (λ _, false) (dispatch_container r).

(** ** The events of the cluster *)
Inductive router :=
| on_ready | on_log | on_slashcommand_event | on_user_context_menu | on_message_context_menu | on_interaction_create
| on_form_submit | on_autocomplete | on_button_click | on_select_click.
#[export] Instance router_eq_dec : EqDecision router.
Proof. solve_decision. Defined.

(** ** events/interaction_create.cpp *)
Inductive contextmenu_type := ctxm_none | ctxm_chat_input | ctxm_user | ctxm_message.
#[export] Instance contextmenu_type_eq_dec : EqDecision contextmenu_type.
Proof. solve_decision. Defined.
(** The types of a component: a button, one of the five menus, or another. *)
Inductive clicked := a_button | a_menu | another_component.
Inductive interaction_type :=
| it_ping
| it_application_command (type : contextmenu_type) (resolved : bool)   (* whether its target is known *)
| it_component_button (type : clicked)
| it_autocomplete
| it_modal_submit.

(** [interaction_create::handle]: which listeners are called, through which router. *)
Definition fire (rs : router → event_router) (r : router) : list (router * listener) := pair r <$> call (rs r).
Definition handle (rs : router → event_router) (i : interaction_type) : list (router * listener) :=
  let attached r := negb (empty_router (rs r)) in
  match i with
  | it_application_command type resolved =>
      (if bool_decide (type = ctxm_message) && attached on_message_context_menu
       then if resolved then fire rs on_message_context_menu else []
       else if bool_decide (type = ctxm_user) && attached on_user_context_menu
       then if resolved then fire rs on_user_context_menu else []
       else if bool_decide (type = ctxm_chat_input) && attached on_slashcommand_event
       then fire rs on_slashcommand_event
       else [])
      ++ (if attached on_interaction_create then fire rs on_interaction_create else [])
  | it_modal_submit => if attached on_form_submit then fire rs on_form_submit else []
  | it_autocomplete => if attached on_autocomplete then fire rs on_autocomplete else []
  | it_component_button a_button => if attached on_button_click then fire rs on_button_click else []
  | it_component_button a_menu => if attached on_select_click then fire rs on_select_click else []
  | it_component_button another_component | it_ping => []
  end.

(** ** cluster::start *)
Record gateway := mk_gateway {
  g_shards : Z;
  session_start_remaining : Z;
  session_start_max_concurrency : Z }.

Inductive start_exception :=
| invalid_token_exception
| rest_error (what : string)
| connection_exception (what : string).

(** The loop that waits for the shards to settle; [all_ready k]: what the [k]-th
    look at the shards finds.  [None]: out of fuel. *)
Fixpoint settle (fuel : nat) (all_ready : nat → bool) (k : nat) : option nat :=
  match fuel with
  | O => None
  | S fuel => if all_ready k then settle fuel all_ready (S k) else Some (S k)
  end.

(** The loop over the shards; [look]: how often they were looked at. *)
Fixpoint start_shards (fuel : nat) (all_ready : nat → bool) (concurrency : Z) (s n look : nat) (started : list nat)
    : option (list nat) :=
  match n with
  | O => Some started
  | S n =>
      let started := started ++ [s] in
      if ((Z.of_nat s + 1) mod concurrency =? 0)%Z && (1 <? concurrency)%Z then
        look ← settle fuel all_ready look;
        start_shards fuel all_ready concurrency (S s) n look started
      else start_shards fuel all_ready concurrency (S s) n look started
  end.

(** The shards it has tried to start. *)
Definition cluster_start (fuel : nat) (all_ready : nat → bool) (answer : string + gateway)
    : outcome start_exception (option (list nat)) :=
  match answer with
  | inl what => Throw (if String.eqb what "401: Unauthorized" then invalid_token_exception else rest_error what)
  | inr g =>
      if (session_start_remaining g <? g_shards g)%Z then
        Throw (connection_exception "Discord indicates you cannot start enough sessions to boot this cluster!")
      else if (g_shards g =? 0)%Z then Throw (connection_exception "Auto Shard: Cannot determine number of shards.")
      else if (session_start_max_concurrency g =? 0)%Z then Crash "modulo by zero"
      else Done (start_shards fuel all_ready (session_start_max_concurrency g) 0 (Z.to_nat (g_shards g)) 0 [])
  end.

(** ** DiscordMgr *)
Inductive loglevel := ll_trace | ll_debug | ll_info | ll_warning | ll_error | ll_critical | ll_other.

(** The listener of [on_log]. *)
Definition log_level (severity : loglevel) : option LogLevel :=
  match severity with
  | ll_trace => Some LogLevel.Trace
  | ll_debug => Some LogLevel.Debug
  | ll_info => Some LogLevel.Info
  | ll_warning => Some LogLevel.Warning
  | ll_error => Some LogLevel.Error
  | ll_critical => Some LogLevel.Critical
  | ll_other => None
  end.

(** Where [Start] is. *)
Inductive start_pc :=
| NotStarted
| LogsConfigured
| ShardsStarted
| GuildsChecked
| Attaching (rest : list (router * listener))
| Started.

(** A message of [message_create]: its channel and its content or its embed. *)
Inductive outgoing := Content (channel : Z) (content : string) | Embed (channel : Z) (embed : EmbedMsg).

Record bot := mk_bot {
  pc : start_pc;
  routers : router → event_router;
  asked : bool;                                     (* current_user_get_guilds has no answer yet *)
  dispatched : list (start_pc * interaction_type * list (router * listener));
  created : list (slashcommand * Z);                (* guild_command_create *)
  logged : list (LogLevel * string) }.

Definition new_bot : bot := mk_bot NotStarted (λ _, new_router) false [] [] [].
Definition with_pc (p : start_pc) (b : bot) : bot :=
  mk_bot p (routers b) (asked b) (dispatched b) (created b) (logged b).
Definition listen (r : router) (l : listener) (b : bot) : bot :=
  mk_bot (pc b) (λ r', if decide (r' = r) then attach l (routers b r) else routers b r') (asked b) (dispatched b)
    (created b) (logged b).
Definition log_out (level : LogLevel) (text : string) (b : bot) : bot :=
  mk_bot (pc b) (routers b) (asked b) (dispatched b) (created b) (logged b ++ [(level, text)]).

Definition ConfigureLogs (b : bot) : bot := listen on_log OnLog (listen on_ready OnReady b).

(** What [Start] meets. *)
Record answers := mk_answers {
  a_fuel : nat;
  a_ready : nat → bool;
  a_gateway : string + gateway;
  a_guilds : option (list Z) }.             (* None: rest_exception *)

(** [CheckGuild] *)
Definition CheckGuild (guilds : option (list Z)) (b : bot) : outcome start_exception bot :=
  match guilds with
  | None => Throw (rest_error "current_user_get_guilds")
  | Some [] => Crash "ABORT"
  | Some _ => Done (with_pc GuildsChecked b)
  end.

(** The next call of [Start]. *)
Definition start_step (a : answers) (b : bot) : outcome start_exception bot :=
  match pc b with
  | NotStarted => Done (with_pc LogsConfigured (ConfigureLogs b))
  | LogsConfigured =>
      started ← cluster_start (a_fuel a) (a_ready a) (a_gateway a);
      match started with
      | Some _ => Done (with_pc ShardsStarted b)
      | None => Done b
      end
  | ShardsStarted => CheckGuild (a_guilds a) b
  | GuildsChecked =>
      Done (mk_bot (Attaching [(on_slashcommand_event, OnSlashcommand); (on_button_click, OnButtonClick); (on_form_submit, OnFormSubmit)])
        (routers b) true (dispatched b) (created b) (logged b))
  | Attaching ((r, l) :: rest) => Done (with_pc (Attaching rest) (listen r l b))
  | Attaching [] => Done (with_pc Started b)
  | Started => Done b
  end.

(** Whether the shards run. *)
Definition running (p : start_pc) : bool :=
  match p with NotStarted | LogsConfigured => false | _ => true end.

(** An interaction arrives. *)
Definition receive (i : interaction_type) (b : bot) : bot :=
  if running (pc b) then
    mk_bot (pc b) (routers b) (asked b) (dispatched b ++ [(pc b, i, handle (routers b) i)]) (created b) (logged b)
  else b.

(** The answer to [current_user_get_guilds]: [create_commands] *)
Definition guilds_arrive (cmds : list slashcommand) (guilds : option (list Z)) (b : bot) : bot :=
  if asked b then
    mk_bot (pc b) (routers b) false (dispatched b) (created b ++ create_commands cmds guilds) (logged b)
  else b.

(** [cluster::log] *)
Definition cluster_log (severity : loglevel) (text : string) (b : bot) : bot :=
  if empty_router (routers b on_log) then b
  else match log_level severity with
       | Some level => log_out level ("DiscordBot: " +:+ text) b
       | None => b
       end.

Inductive move :=
| Boot
| Receive (i : interaction_type)
| GuildsArrive (guilds : option (list Z))
| LibraryLog (severity : loglevel) (text : string).

Section Start.
Context (a : answers) (cmds : list slashcommand).

Definition make_move (m : move) (b : bot) : outcome start_exception bot :=
  match m with
  | Boot => start_step a b
  | Receive i => Done (receive i b)
  | GuildsArrive guilds => Done (guilds_arrive cmds guilds b)
  | LibraryLog severity text => Done (cluster_log severity text b)
  end.
Fixpoint make_moves (ms : list move) (b : bot) : outcome start_exception bot :=
  match ms with [] => Done b | m :: ms => b ← make_move m b; make_moves ms b end.
End Start.

(** [SendDefaultMessage] and [SendEmbedMessage]; [started]: there is a cluster. *)
Definition SendDefaultMessage (started : bool) (message : string) (channelID : Z) : list outgoing :=
  if started then [Content channelID message] else [].
Definition SendEmbedMessage (started : bool) (embed : EmbedMsg) (channelID : Z) : list outgoing :=
  if started then [Embed channelID embed] else [].

(** ** Lemmas *)

(** *** The listeners of each stage *)
Definition the_commands : list (router * listener) :=
  [(on_slashcommand_event, OnSlashcommand); (on_button_click, OnButtonClick); (on_form_submit, OnFormSubmit)].

(** The stages [Start] goes through. *)
Definition stage (p : start_pc) : Prop :=
  match p with Attaching rest => ∃ n, n ≤ 3 ∧ rest = drop n the_commands | _ => True end.

Definition attached (p : start_pc) (r : router) : list listener :=
  match p with
  | NotStarted => []
  | Attaching rest => if decide (r ∈ rest.*1) then [] else
      match r with on_ready => [OnReady] | on_log => [OnLog] | _ => omap (λ x, if decide (x.1 = r) then Some x.2 else None) the_commands end
  | Started =>
      match r with on_ready => [OnReady] | on_log => [OnLog] | _ => omap (λ x, if decide (x.1 = r) then Some x.2 else None) the_commands end
  | _ => match r with on_ready => [OnReady] | on_log => [OnLog] | _ => [] end
  end.

Definition router_of (l : list listener) : event_router := foldl (λ r func, attach func r) new_router l.

Lemma handle_ext rs rs' i : (∀ r, rs r = rs' r) → handle rs i = handle rs' i.
Proof. intros H. unfold handle, fire. by rewrite !H. Qed.

(** What an interaction is for. *)
Definition listener_for (i : interaction_type) : list (router * listener) :=
  match i with
  | it_application_command ctxm_chat_input _ => [(on_slashcommand_event, OnSlashcommand)]
  | it_component_button a_button => [(on_button_click, OnButtonClick)]
  | it_modal_submit => [(on_form_submit, OnFormSubmit)]
  | _ => []
  end.

Lemma handle_started i : handle (λ r, router_of (attached Started r)) i = listener_for i.
Proof. by destruct i as [|[] []|[]| |]. Qed.

Lemma handle_stage p i : stage p → running p = true →
  handle (λ r, router_of (attached p r)) i = listener_for i ∨ handle (λ r, router_of (attached p r)) i = [].
Proof.
  intros Hp Hr. destruct p as [| | | |rest|]; try done.
  - right. by destruct i as [|[] []|[]| |].
  - right. by destruct i as [|[] []|[]| |].
  - destruct Hp as (n & Hn & ->). do 4 (destruct n as [|n]; [destruct i as [|[] []|[]| |]; vm_compute; auto|]). lia.
  - left. apply handle_started.
Qed.

Record bot_ok (cmds : list slashcommand) (b : bot) : Prop := {
  ok_stage : stage (pc b);
  ok_routers : ∀ r, routers b r = router_of (attached (pc b) r);
  ok_dispatched : ∀ p i calls, (p, i, calls) ∈ dispatched b →
    (calls = listener_for i ∨ calls = []) ∧ (p = Started → calls = listener_for i);
  ok_created :
    match pc b with
    | Attaching _ | Started => asked b = true ∧ created b = [] ∨
        asked b = false ∧ ∃ guilds, created b = create_commands cmds guilds
    | _ => asked b = false ∧ created b = []
    end }.

(** One more listener is attached. *)
Lemma attached_next n r l rest r' : n ≤ 3 → (r, l) :: rest = drop n the_commands →
  rest = drop (S n) the_commands ∧
  (if decide (r' = r) then attach l (router_of (attached (Attaching ((r, l) :: rest)) r))
   else router_of (attached (Attaching ((r, l) :: rest)) r')) = router_of (attached (Attaching rest) r').
Proof.
  intros Hn Hrest. do 4 (destruct n as [|n]; [cbn in Hrest; first [done|injection Hrest as -> -> ->; split; [done|by destruct r']]|]). lia.
Qed.

Lemma bot_ok_attach cmds b r l rest : bot_ok cmds b → pc b = Attaching ((r, l) :: rest) →
  bot_ok cmds (with_pc (Attaching rest) (listen r l b)).
Proof.
  intros [Hst Hr Hd Hc] Hpc. rewrite Hpc in *. destruct Hst as (n & Hn & Hrest).
  assert (n < 3) as Hlt by (assert (n ≠ 3) by (intros ->; done); lia).
  split; cbn; [|intros r'|done|done].
  - destruct (attached_next n r l rest r Hn Hrest) as [-> _]. exists (S n). split; [lia|done].
  - rewrite !Hr. by apply (attached_next n).
Qed.

Lemma bot_ok_move a cmds m b b' : bot_ok cmds b → make_move a cmds m b = Done b' → bot_ok cmds b'.
Proof.
  intros Hok H. pose proof Hok as [Hst Hr Hd Hc]. destruct m as [|i|guilds|severity text]; cbn [make_move] in H.
  - unfold start_step in H. destruct (pc b) as [| | | |[|[r l] rest]|] eqn:Hpc.
    + injection H as <-. split; try done. intros r. cbn. rewrite !Hr. by destruct r.
    + apply outcome_bind_Done in H as ([started|] & _ & H); injection H as <-; split; try done; cbn; by rewrite Hpc.
    + unfold CheckGuild in H. destruct (a_guilds a) as [[|]|]; try done. injection H as <-. by split.
    + injection H as <-. split; try done; cbn.
      * exists 0. split; [lia|done].
      * intros r. rewrite Hr. by destruct r.
      * left. by destruct Hc as [_ ->].
    + injection H as <-. by split.
    + injection H as <-. by apply bot_ok_attach.
    + injection H as <-. split; try done; by rewrite Hpc.
  - injection H as <-. unfold receive. destruct (running (pc b)) eqn:Hrun; [|by split]. split; try done. cbn.
    intros p i' calls [Hin|Hin]%elem_of_app; [by apply Hd|]. apply list_elem_of_singleton in Hin. injection Hin as -> -> ->.
    rewrite (handle_ext _ _ i Hr). split.
    + destruct (handle_stage (pc b) i Hst Hrun); auto.
    + intros ->. apply handle_started.
  - injection H as <-. unfold guilds_arrive. destruct (asked b) eqn:Ha; [|exact Hok]. split; try done. cbn.
    destruct (pc b); try by destruct Hc. all: destruct Hc as [[_ ->]|[? _]]; [|done]; right; split; [done|]; by exists guilds.
  - injection H as <-. unfold cluster_log. destruct (empty_router _), (log_level severity); by split.
Qed.

Lemma bot_ok_moves a cmds ms b b' : bot_ok cmds b → make_moves a cmds ms b = Done b' → bot_ok cmds b'.
Proof.
  revert b. induction ms as [|m ms IH]; intros b Hok H; cbn in H; [by injection H as <-|].
  apply outcome_bind_Done in H as (b1 & H1 & H). eapply IH; [|done]. by eapply bot_ok_move.
Qed.

Lemma new_bot_ok cmds : bot_ok cmds new_bot.
Proof. split; try done. intros p i calls Hin. by apply not_elem_of_nil in Hin. Qed.

(** *** cluster::start *)
Lemma start_shards_all fuel all_ready s n look started :
  start_shards fuel all_ready 1 s n look started = Some (started ++ seq s n).
Proof.
  revert s started. induction n as [|n IH]; intros s started; cbn [start_shards seq]; [by rewrite app_nil_r|].
  replace (1 <? 1)%Z with false by done. rewrite andb_false_r, IH, <- app_assoc. done.
Qed.

Lemma settle_ready fuel k : settle fuel (λ _, true) k = None.
Proof. revert k. induction fuel; intros k; cbn; auto. Qed.

(** With shards started one by one, [start] ends with all of them started. *)
Theorem cluster_start_one_by_one (fuel : nat) (all_ready : nat → bool) (g : gateway) :
  (0 < g_shards g <= session_start_remaining g)%Z → session_start_max_concurrency g = 1%Z →
  cluster_start fuel all_ready (inr g) = Done (Some (seq 0 (Z.to_nat (g_shards g)))).
Proof.
  intros Hg Hc. unfold cluster_start. rewrite Hc. destruct (Z.ltb_spec (session_start_remaining g) (g_shards g)); [lia|].
  destruct (Z.eqb_spec (g_shards g) 0); [lia|]. cbn. by rewrite start_shards_all.
Qed.

(** With several at a time, the loop that lets them settle goes on while all of
    them are ready: [start] never ends once they are. *)
Theorem cluster_start_settles_never (fuel : nat) (g : gateway) :
  (session_start_max_concurrency g <= g_shards g <= session_start_remaining g)%Z →
  (1 < session_start_max_concurrency g)%Z →
  cluster_start fuel (λ _, true) (inr g) = Done None.
Proof.
  intros Hg Hc. unfold cluster_start. destruct (Z.ltb_spec (session_start_remaining g) (g_shards g)); [lia|].
  destruct (Z.eqb_spec (g_shards g) 0); [lia|]. destruct (Z.eqb_spec (session_start_max_concurrency g) 0); [lia|]. f_equal.
  assert (∀ m s look started, (Z.of_nat s < session_start_max_concurrency g <= Z.of_nat s + Z.of_nat m)%Z →
    start_shards fuel (λ _, true) (session_start_max_concurrency g) s m look started = None) as Hloop; [|apply Hloop; lia].
  induction m as [|m IH]; intros s look started Hs; [lia|]. cbn [start_shards].
  destruct (decide (Z.of_nat s + 1 = session_start_max_concurrency g)%Z) as [->|Hne].
  - rewrite Z.mod_same by lia. destruct (Z.ltb_spec 1 (session_start_max_concurrency g)); [|lia]. cbn. by rewrite settle_ready.
  - rewrite Z.mod_small by lia. destruct (Z.eqb_spec (Z.of_nat s + 1) 0); [lia|]. cbn. apply IH. lia.
Qed.

(** ** Properties *)

(** Interactions reach the listener they are for.  However the calls of Start,
    the interactions, the answers of Discord and the log of D++ interleave: an
    interaction is dispatched to the one listener of its kind, once, or to none;
    from the end of Start on it always reaches its listener (a slash command the
    one of the commands, a button and a form theirs), and the commands are
    created in the guilds Discord names at most once. *)
Theorem interactions_are_dispatched (a : answers) (cmds : list slashcommand) (ms : list move) (b : bot)
    (Hrun : make_moves a cmds ms new_bot = Done b) :
  (∀ p i calls, (p, i, calls) ∈ dispatched b →
    (calls = listener_for i ∨ calls = []) ∧ (p = Started → calls = listener_for i)) ∧
  (created b = [] ∨ ∃ guilds, created b = create_commands cmds guilds) ∧
  (pc b = Started → asked b = false → ∃ guilds, created b = create_commands cmds guilds).
Proof.
  destruct (bot_ok_moves a cmds ms _ _ (new_bot_ok cmds) Hrun) as [_ _ Hd Hc]. split; [done|].
  destruct (pc b); try (split; [left; apply Hc|done]).
  all: destruct Hc as [[Ha ->]|[Ha Hg]]; split; eauto; intros; congruence.
Qed.

(** ** Concrete runs *)
Definition ex_answers : answers := mk_answers 1 (λ _, false) (inr (mk_gateway 1 1000 1)) (Some [77%Z]).
Definition ex_cmds : list slashcommand := match commands with Done l => l | _ => [] end.
Definition a_slashcommand : interaction_type := it_application_command ctxm_chat_input false.
Definition ex_starting : list move :=
  [Boot; Boot; Receive a_slashcommand; Boot; Boot; GuildsArrive (Some [77%Z]); Boot; Receive a_slashcommand; Boot; Boot; Boot;
   Receive it_modal_submit].
Definition ex_started : bot := match make_moves ex_answers ex_cmds ex_starting new_bot with Done b => b | _ => new_bot end.

Lemma interactions_are_dispatched_witness :
  pc ex_started = Started ∧ length (created ex_started) = 4 ∧
  ∀ i calls, (Started, i, calls) ∈ dispatched ex_started → calls = listener_for i.
Proof.
  assert (make_moves ex_answers ex_cmds ex_starting new_bot = Done ex_started) as Hrun by (vm_compute; reflexivity).
  destruct (interactions_are_dispatched ex_answers ex_cmds ex_starting ex_started Hrun) as [Hd _].
  split; [vm_compute; reflexivity|]. split; [vm_compute; reflexivity|]. intros i calls Hin. by apply (Hd Started i calls).
Defined.

(** A command that arrives before the listeners are attached reaches none. *)
Example early_command_is_lost :
  dispatched ex_started =
    [(ShardsStarted, a_slashcommand, []);
     (Attaching [(on_button_click, OnButtonClick); (on_form_submit, OnFormSubmit)], a_slashcommand, [(on_slashcommand_event, OnSlashcommand)]);
     (Started, it_modal_submit, [(on_form_submit, OnFormSubmit)])].
Proof. vm_compute. reflexivity. Qed.

Lemma cluster_start_one_by_one_witness :
  cluster_start 1 (λ _, false) (inr (mk_gateway 2 1000 1)) = Done (Some [0; 1]).
Proof. apply (cluster_start_one_by_one 1 (λ _, false) (mk_gateway 2 1000 1)); [cbn; lia|reflexivity]. Defined.

Lemma cluster_start_settles_never_witness :
  cluster_start 100 (λ _, true) (inr (mk_gateway 16 1000 16)) = Done None.
Proof. apply (cluster_start_settles_never 100 (mk_gateway 16 1000 16)); cbn; lia. Defined.
