(* ===== verification/MPSCQueue.v ===== *)
(** * The lock-free queue: common/Threading/MPSCQueue.h

    Any number of producers and one consumer, as machines over one memory.  A
    step is one access to shared memory; accesses by a pointer to a node that
    is not there end in [Crash].  [NonIntrusive] is MPSCQueueNonIntrusive; the
    intrusive variant has its own file.

    - Allocation returns any address that is free, so a deleted node may come
      back.
    - The memory order is sequential consistency. *)
From S2P Require Import Prelude.

(** ** What a queue promises

    An entry is the value and whether its [Enqueue] has linked it; [Dequeue]
    takes the first entry if it is linked and fails otherwise. *)
Record fifo (V : Type) := mk_fifo {
  f_queue : list (V * bool);
  f_inputs : list V;             (* in the order of the exchanges *)
  f_results : list (option V) }. (* what the calls of Dequeue returned *)
Arguments mk_fifo {V}.
Arguments f_queue {V}.
Arguments f_inputs {V}.
Arguments f_results {V}.

Inductive fifo_step {V : Type} : relation (fifo V) :=
| fifo_enqueue q i r v : fifo_step (mk_fifo q i r) (mk_fifo (q ++ [(v, false)]) (i ++ [v]) r)
| fifo_link q1 q2 i r v : fifo_step (mk_fifo (q1 ++ (v, false) :: q2) i r) (mk_fifo (q1 ++ (v, true) :: q2) i r)
| fifo_dequeue q i r v : fifo_step (mk_fifo ((v, true) :: q) i r) (mk_fifo q i (r ++ [Some v]))
| fifo_empty q i r : (∀ v q', q ≠ (v, true) :: q') → fifo_step (mk_fifo q i r) (mk_fifo q i (r ++ [None])).

Lemma fifo_order {V : Type} (a b : fifo V) :
  rtc fifo_step a b →
  omap id (f_results a) ++ (f_queue a).*1 = f_inputs a → omap id (f_results b) ++ (f_queue b).*1 = f_inputs b.
Proof.
  intros H. eapply (rtc_preserves fifo_step (λ a, omap id (f_results a) ++ (f_queue a).*1 = f_inputs a)); [|exact H].
  clear. intros a b [q i r v|q1 q2 i r v|q i r v|q i r Hq]; cbn; rewrite ?omap_app, ?fmap_app; cbn.
  - intros <-. by rewrite app_assoc.
  - done.
  - by rewrite <- app_assoc.
  - by rewrite app_nil_r.
Qed.

(** Where a thread stands in [Enqueue]: before it, with its node, and with the
    node that was the head. *)
Inductive producer := PIdle | PNode (node : nat) | PLink (prevHead node : nat).

Definition producer_nodes (x : producer) : list nat := match x with PNode n => [n] | _ => [] end.

Lemma elem_of_concat_producers (l : list producer) n :
  n ∈ concat (producer_nodes <$> l) ↔ ∃ p, l !! p = Some (PNode n).
Proof.
  rewrite list_elem_of_In, in_concat. setoid_rewrite <- list_elem_of_In.
  setoid_rewrite list_elem_of_fmap. split.
  - intros (k & (x & -> & Hx) & Hn). apply list_elem_of_lookup in Hx as [p Hp].
    destruct x; cbn in Hn; rewrite ?elem_of_nil, ?list_elem_of_singleton in Hn; [done|subst; eauto|done].
  - intros [p Hp]. exists [n]. split; [|by left]. exists (PNode n). split; [done|]. by eapply list_elem_of_lookup_2.
Qed.

Lemma no_producer_nodes n : concat (producer_nodes <$> replicate n PIdle) = [].
Proof. induction n as [|n IH]; [done|]. cbn. by rewrite IH. Qed.

(** ** MPSCQueueNonIntrusive *)
Module NonIntrusive.
Section Queue.
Context {V : Type}.

Record Node := mk_Node { Data : option V; Next : option nat }.

(** Where the consumer stands in [Dequeue]: before it, with a next node, and
    before [delete tail]. *)
Inductive consumer := CIdle | CTake (tail next : nat) | CDelete (tail : nat).

Record MPSCQueue := mk_MPSCQueue {
  heap : gmap nat Node;
  _head : nat;
  _tail : nat;
  producers : list producer;
  consumer_ : consumer;
  results : list (option V) }.

(** The constructor, for [n] producers. *)
Definition new_MPSCQueue (front n : nat) : MPSCQueue :=
  mk_MPSCQueue {[front := mk_Node None None]} front front (replicate n PIdle) CIdle [].

Inductive event :=
| ENew (p l : nat) (input : V)    (* new Node(input), at address l *)
| EExchange (p : nat)             (* _head.exchange(node) *)
| ELink (p : nat)                 (* prevHead->Next.store(node) *)
| EDequeue                        (* _tail.load(), tail->Next.load() *)
| ETake                           (* next->Data, _tail.store(next) *)
| EDelete.                        (* delete tail *)

Definition set_producer (p : nat) (x : producer) (s : MPSCQueue) : MPSCQueue :=
  mk_MPSCQueue (heap s) (_head s) (_tail s) (<[p := x]> (producers s)) (consumer_ s) (results s).
Definition set_heap (h : gmap nat Node) (s : MPSCQueue) : MPSCQueue :=
  mk_MPSCQueue h (_head s) (_tail s) (producers s) (consumer_ s) (results s).

(** One step; an event that is not the next access of its thread does nothing. *)
Definition step (s : MPSCQueue) (e : event) : outcome Empty_set MPSCQueue :=
  match e with
  | ENew p l input =>
      match producers s !! p, heap s !! l with
      | Some PIdle, None => Done (set_producer p (PNode l) (set_heap (<[l := mk_Node (Some input) None]> (heap s)) s))
      | _, _ => Done s
      end
  | EExchange p =>
      match producers s !! p with
      | Some (PNode node) =>
          Done (set_producer p (PLink (_head s) node)
            (mk_MPSCQueue (heap s) node (_tail s) (producers s) (consumer_ s) (results s)))
      | _ => Done s
      end
  | ELink p =>
      match producers s !! p with
      | Some (PLink prevHead node) =>
          match heap s !! prevHead with
          | Some nd => Done (set_producer p PIdle (set_heap (<[prevHead := mk_Node (Data nd) (Some node)]> (heap s)) s))
          | None => Crash "prevHead->Next of a deleted node"
          end
      | _ => Done s
      end
  | EDequeue =>
      match consumer_ s with
      | CIdle =>
          match heap s !! _tail s with
          | Some nd =>
              match Next nd with
              | None => Done (mk_MPSCQueue (heap s) (_head s) (_tail s) (producers s) CIdle (results s ++ [None]))
              | Some next =>
                  Done (mk_MPSCQueue (heap s) (_head s) (_tail s) (producers s) (CTake (_tail s) next) (results s))
              end
          | None => Crash "tail->Next of a deleted node"
          end
      | _ => Done s
      end
  | ETake =>
      match consumer_ s with
      | CTake tail next =>
          match heap s !! next with
          | Some nd =>
              Done (mk_MPSCQueue (heap s) (_head s) next (producers s) (CDelete tail) (results s ++ [Data nd]))
          | None => Crash "next->Data of a deleted node"
          end
      | _ => Done s
      end
  | EDelete =>
      match consumer_ s with
      | CDelete tail =>
          match heap s !! tail with
          | Some _ => Done (mk_MPSCQueue (delete tail (heap s)) (_head s) (_tail s) (producers s) CIdle (results s))
          | None => Crash "delete of a deleted node"
          end
      | _ => Done s
      end
  end.

Definition run (s : MPSCQueue) (es : list event) : outcome Empty_set MPSCQueue := ofold step es s.

(** [Enqueue] and [Dequeue] with no other thread in between. *)
Definition Enqueue (p l : nat) (input : V) (s : MPSCQueue) : outcome Empty_set MPSCQueue :=
  run s [ENew p l input; EExchange p; ELink p].
Definition Dequeue (s : MPSCQueue) : outcome Empty_set MPSCQueue := run s [EDequeue; ETake; EDelete].

(** The destructor: the loop, which deletes what it dequeues, then the front
    node.  Fuel: one call per entry, and the last. *)
Fixpoint destroy_loop (fuel : nat) (s : MPSCQueue) : outcome Empty_set MPSCQueue :=
  match fuel with
  | O => Crash "out of fuel"
  | S fuel =>
      s ← Dequeue s;
      match last (results s) with Some (Some _) => destroy_loop fuel s | _ => Done s end
  end.
Definition destroy (fuel : nat) (s : MPSCQueue) : outcome Empty_set MPSCQueue :=
  s ← destroy_loop fuel s;
  match heap s !! _head s with
  | Some _ => Done (set_heap (delete (_head s) (heap s)) s)
  | None => Crash "delete of a deleted node"
  end.

(** *** The list of nodes *)
Inductive seg (h : gmap nat Node) : nat → list (V * bool) → list nat → Prop :=
| seg_nil a d : h !! a = Some (mk_Node d None) → seg h a [] []
| seg_cons a d (b : bool) n nx v q L :
    h !! a = Some (mk_Node d (if b then Some n else None)) → h !! n = Some (mk_Node (Some v) nx) →
    seg h n q L → seg h a ((v, b) :: q) (n :: L).

Lemma seg_agree h h' a q L :
  seg h a q L → (∀ n, n ∈ a :: L → h' !! n = h !! n) → seg h' a q L.
Proof.
  induction 1 as [a d Ha|a d b n nx v q L Ha Hn Hs IH]; intros Hag.
  - apply seg_nil with d. rewrite Hag; [done|by left].
  - apply seg_cons with d nx; [rewrite Hag; [done|by left]|rewrite Hag; [done|right; by left]|].
    apply IH. intros m Hm. apply Hag. by right.
Qed.

Lemma seg_in_heap h a q L n : seg h a q L → n ∈ a :: L → is_Some (h !! n).
Proof.
  induction 1 as [a d Ha|a d b m nx v q L Ha Hn Hs IH]; intros [->|Hm]%elem_of_cons; eauto.
  by apply elem_of_nil in Hm.
Qed.

Lemma seg_last h a q L e : seg h a q L → last (a :: L) = Some e → ∃ d, h !! e = Some (mk_Node d None).
Proof.
  induction 1 as [a d Ha|a d b n nx v q L Ha Hn Hs IH]; intros He.
  - cbn in He. simplify_eq. eauto.
  - apply IH. by rewrite last_cons_cons in He.
Qed.

(** The exchange puts a node behind the last one. *)
Lemma seg_snoc h a q L n v : seg h a q L → h !! n = Some (mk_Node (Some v) None) →
  seg h a (q ++ [(v, false)]) (L ++ [n]).
Proof.
  intros Hs Hn. induction Hs as [a d Ha|a d b m nx w q L Ha Hm Hs IH]; cbn.
  - by eapply seg_cons; [exact Ha|exact Hn|eapply seg_nil].
  - by eapply seg_cons.
Qed.

(** The store links two neighbours. *)
Lemma seg_link h t q L l1 a b l2 d :
  seg h t q L → NoDup (t :: L) → t :: L = l1 ++ a :: b :: l2 → h !! a = Some (mk_Node d None) →
  ∃ q1 v q2, q = q1 ++ (v, false) :: q2 ∧
    seg (<[a := mk_Node d (Some b)]> h) t (q1 ++ (v, true) :: q2) L.
Proof.
  intros Hs. revert l1. induction Hs as [t dt Ht|t dt c n nx v q L Ht Hn Hs IH]; intros l1 Hnd Heq Ha.
  { destruct l1 as [|x [|y l1]]; simplify_eq/=. }
  pose proof (NoDup_cons_1_1 _ _ Hnd) as Htn. pose proof (NoDup_cons_1_2 _ _ Hnd) as Hnd'.
  destruct l1 as [|x l1]; cbn in Heq.
  - injection Heq as -> -> ->. rewrite Ha in Ht. injection Ht as -> Hc. destruct c; [done|]. exists [], v, q. split; [done|]. cbn.
    eapply seg_cons; [by rewrite lookup_insert_eq| |].
    + rewrite lookup_insert_ne; [done|]. intros ->. apply Htn. by left.
    + eapply seg_agree; [exact Hs|]. intros m Hm. apply lookup_insert_ne. by intros ->.
  - injection Heq as -> Heq. destruct (IH l1 Hnd' Heq Ha) as (q1 & w & q2 & -> & Hseg).
    exists ((v, c) :: q1), w, q2. split; [done|]. cbn.
    assert (x ≠ a) as Hta.
    { intros ->. apply Htn. rewrite Heq. apply elem_of_app. right. by left. }
    destruct (decide (n = a)) as [->|Hna].
    + rewrite Hn in Ha. simplify_eq. apply seg_cons with dt (Some b); [by rewrite lookup_insert_ne| |done].
      by rewrite lookup_insert_eq.
    + apply seg_cons with dt nx; [by rewrite lookup_insert_ne|by rewrite lookup_insert_ne|done].
Qed.

(** *** The invariant *)
Definition consumer_nodes (c : consumer) : list nat := match c with CDelete t => [t] | _ => [] end.
(** Every node: of the list, of a producer, of the consumer. *)
Definition nodes (L : list nat) (s : MPSCQueue) : list nat :=
  (_tail s :: L) ++ concat (producer_nodes <$> producers s) ++ consumer_nodes (consumer_ s).

(** [p] has to link [a] to [b]. *)
Definition linking (L : list nat) (s : MPSCQueue) (a b : nat) : Prop :=
  (∃ l1 l2, _tail s :: L = l1 ++ a :: b :: l2) ∧ ∃ d, heap s !! a = Some (mk_Node d None).

Record inv (L : list nat) (q : list (V * bool)) (s : MPSCQueue) : Prop := {
  inv_seg : seg (heap s) (_tail s) q L;
  inv_head : last (_tail s :: L) = Some (_head s);
  inv_nodup : NoDup (nodes L s);
  inv_heap : ∀ n, is_Some (heap s !! n) → n ∈ nodes L s;
  inv_consumer_node : ∀ t, consumer_ s = CDelete t → is_Some (heap s !! t);
  inv_new : ∀ p n, producers s !! p = Some (PNode n) → ∃ v, heap s !! n = Some (mk_Node (Some v) None);
  inv_link : ∀ p a b, producers s !! p = Some (PLink a b) → linking L s a b;
  inv_links : ∀ p p' a b b', producers s !! p = Some (PLink a b) → producers s !! p' = Some (PLink a b') → p = p';
  inv_pending : ∀ a b l1 l2 d, _tail s :: L = l1 ++ a :: b :: l2 → heap s !! a = Some (mk_Node d None) →
    ∃ p, producers s !! p = Some (PLink a b);
  inv_take : ∀ t n, consumer_ s = CTake t n → t = _tail s ∧ ∃ d, heap s !! t = Some (mk_Node d (Some n)) }.

Lemma inv_new_queue front n : inv [] [] (new_MPSCQueue front n).
Proof.
  assert (∀ p x, (replicate n PIdle : list producer) !! p = Some x → x = PIdle) as Hidle
    by (by intros p x [-> _]%lookup_replicate_1).
  split; cbn; try done.
  - eapply seg_nil. by rewrite lookup_singleton_eq.
  - unfold nodes. cbn. rewrite no_producer_nodes. apply NoDup_singleton.
  - intros m [x Hx]. apply lookup_singleton_Some in Hx as [-> _]. by left.
  - by intros p m ?%Hidle.
  - by intros p a b ?%Hidle.
  - by intros p p' a b b' ?%Hidle.
  - intros a b l1 l2 d Heq _. by destruct l1 as [|x [|y l1]].
Qed.

(** *** The steps keep it *)
Lemma nodes_in_heap L q s n : inv L q s → n ∈ nodes L s → is_Some (heap s !! n).
Proof.
  intros Hi [Hn|[Hn|Hn]%elem_of_app]%elem_of_app.
  - by eapply seg_in_heap; [apply (inv_seg _ _ _ Hi)|].
  - apply elem_of_concat_producers in Hn as [p Hp]. destruct (inv_new _ _ _ Hi p n Hp) as [v ->]. eauto.
  - destruct (consumer_ s) eqn:Hc; cbn in Hn; rewrite ?elem_of_nil, ?list_elem_of_singleton in Hn; try done.
    subst. by apply (inv_consumer_node _ _ _ Hi).
Qed.

Lemma nodes_producer L s p x y :
  producers s !! p = Some x →
  nodes L (set_producer p y s) ++ producer_nodes x ≡ₚ nodes L s ++ producer_nodes y.
Proof.
  intros Hp. unfold nodes. cbn [set_producer producers consumer_ _tail].
  rewrite <- !app_assoc. apply Permutation_app_head.
  rewrite !(Permutation_app_comm (consumer_nodes _) (producer_nodes _)), !app_assoc.
  apply Permutation_app_tail. by apply concat_map_insert.
Qed.

Lemma nodes_list L s n : n ∈ _tail s :: L → n ∈ nodes L s.
Proof. intros Hn. apply elem_of_app. by left. Qed.
Lemma nodes_of_producer L s p n : producers s !! p = Some (PNode n) → n ∈ nodes L s.
Proof. intros Hp. apply elem_of_app. right. apply elem_of_app. left. apply elem_of_concat_producers. eauto. Qed.

Lemma NoDup_list L s : NoDup (nodes L s) → NoDup (_tail s :: L).
Proof. intros H. by apply NoDup_app in H as [H _]. Qed.

Lemma last_not_before (l l1 l2 : list nat) a b :
  NoDup l → last l = Some a → l = l1 ++ a :: b :: l2 → False.
Proof.
  intros Hnd Hl ->. apply NoDup_app in Hnd as (_ & _ & Hnd). apply NoDup_cons_1_1 in Hnd.
  rewrite last_app in Hl. rewrite last_cons_cons in Hl. destruct (last (b :: l2)) as [z|] eqn:E.
  - simplify_eq. apply Hnd. apply last_Some in E as [k ->]. apply elem_of_app. right. by left.
  - by apply last_None in E.
Qed.

Lemma inv_ENew L q s p l input :
  inv L q s → producers s !! p = Some PIdle → heap s !! l = None →
  inv L q (set_producer p (PNode l) (set_heap (<[l := mk_Node (Some input) None]> (heap s)) s)).
Proof.
  intros Hi Hp Hl.
  assert (∀ n, n ∈ nodes L s → n ≠ l) as Hne.
  { intros n Hn ->. apply (nodes_in_heap _ _ _ _ Hi) in Hn. rewrite Hl in Hn. by destruct Hn. }
  assert (nodes L (set_producer p (PNode l) (set_heap (<[l := mk_Node (Some input) None]> (heap s)) s))
    ≡ₚ l :: nodes L s) as Hnodes.
  { change (nodes L (set_producer p (PNode l) s) ≡ₚ l :: nodes L s).
    pose proof (nodes_producer L s p PIdle (PNode l) Hp) as H. cbn in H. rewrite app_nil_r in H.
    rewrite H. symmetry. apply Permutation_cons_append. }
  pose proof (list_lookup_insert_Some (producers s) p (PNode l)) as Hlook.
  split; cbn [heap _tail _head producers consumer_ set_producer set_heap].
  - eapply seg_agree; [apply (inv_seg _ _ _ Hi)|]. intros n Hn. apply lookup_insert_ne, not_eq_sym, Hne, nodes_list, Hn.
  - apply (inv_head _ _ _ Hi).
  - rewrite Hnodes. apply NoDup_cons. split; [intros Hin; by apply (Hne l)|apply (inv_nodup _ _ _ Hi)].
  - intros n [x Hx]. rewrite Hnodes. apply lookup_insert_Some in Hx as [[<- _]|[_ Hx]]; [by left|].
    right. apply (inv_heap _ _ _ Hi). eauto.
  - intros t Ht. destruct (inv_consumer_node _ _ _ Hi t Ht) as [x Hx].
    exists x. rewrite lookup_insert_ne; [done|]. by intros ->; rewrite Hl in Hx.
  - intros p' n Hn. apply Hlook in Hn as [(-> & Hn & _)|[_ Hn]].
    + simplify_eq. exists input. by rewrite lookup_insert_eq.
    + rewrite lookup_insert_ne by (apply not_eq_sym, Hne; by eapply nodes_of_producer).
      by apply (inv_new _ _ _ Hi p').
  - intros p' a b Ha. apply Hlook in Ha as [(_ & Ha & _)|[_ Ha]]; [done|].
    destruct (inv_link _ _ _ Hi p' a b Ha) as [Hs [d Hd]]. split; [exact Hs|]. exists d. cbn.
    rewrite lookup_insert_ne; [done|]. by intros ->; rewrite Hl in Hd.
  - intros p1 p2 a b b' H1 H2. apply Hlook in H1 as [(_ & H1 & _)|[_ H1]]; [done|].
    apply Hlook in H2 as [(_ & H2 & _)|[_ H2]]; [done|]. by eapply (inv_links _ _ _ Hi).
  - intros a b l1 l2 d Heq Ha. assert (a ≠ l) as Hal.
    { apply Hne, nodes_list. rewrite Heq. apply elem_of_app. right. by left. }
    rewrite lookup_insert_ne in Ha by done. destruct (inv_pending _ _ _ Hi a b l1 l2 d Heq Ha) as [p' Hp'].
    exists p'. rewrite list_lookup_insert_ne; [done|]. intros ->. by rewrite Hp in Hp'.
  - intros t n Ht. destruct (inv_take _ _ _ Hi t n Ht) as [-> [d Hd]]. split; [done|]. exists d.
    rewrite lookup_insert_ne; [done|]. by intros ->; rewrite Hl in Hd.
Qed.

Lemma inv_EExchange L q s p n :
  inv L q s → producers s !! p = Some (PNode n) →
  ∃ v, heap s !! n = Some (mk_Node (Some v) None) ∧ inv (L ++ [n]) (q ++ [(v, false)])
    (set_producer p (PLink (_head s) n)
       (mk_MPSCQueue (heap s) n (_tail s) (producers s) (consumer_ s) (results s))).
Proof.
  intros Hi Hp. destruct (inv_new _ _ _ Hi p n Hp) as [v Hv]. exists v. split; [exact Hv|].
  pose proof (list_lookup_insert_Some (producers s) p (PLink (_head s) n)) as Hlook.
  assert (nodes (L ++ [n]) (set_producer p (PLink (_head s) n)
       (mk_MPSCQueue (heap s) n (_tail s) (producers s) (consumer_ s) (results s))) ≡ₚ nodes L s) as Hnodes.
  { pose proof (nodes_producer L s p (PNode n) (PLink (_head s) n) Hp) as H. cbn in H. rewrite app_nil_r in H.
    rewrite <- H. unfold nodes. cbn. apply Permutation_skip. rewrite <- !app_assoc. apply Permutation_app_head.
    rewrite (app_assoc _ (consumer_nodes _) [n]). apply Permutation_app_comm. }
  destruct (seg_last _ _ _ _ _ (inv_seg _ _ _ Hi) (inv_head _ _ _ Hi)) as [dh Hdh].
  destruct (proj1 (last_Some _ _) (inv_head _ _ _ Hi)) as [pre Hpre].
  split; cbn [heap _tail _head producers consumer_ set_producer set_heap].
  - by apply seg_snoc; [apply (inv_seg _ _ _ Hi)|].
  - by rewrite app_comm_cons, last_snoc.
  - rewrite Hnodes. apply (inv_nodup _ _ _ Hi).
  - intros m Hm. rewrite Hnodes. by apply (inv_heap _ _ _ Hi).
  - apply (inv_consumer_node _ _ _ Hi).
  - intros p' m Hm. apply Hlook in Hm as [(_ & Hm & _)|[_ Hm]]; [done|]. by apply (inv_new _ _ _ Hi p').
  - intros p' a b Ha. apply Hlook in Ha as [(_ & Ha & _)|[_ Ha]].
    + simplify_eq. split; [|eauto]. exists pre, []. cbn. by rewrite app_comm_cons, Hpre, <- app_assoc.
    + destruct (inv_link _ _ _ Hi p' a b Ha) as [(l1 & l2 & Heq) Hd]. split; [|exact Hd].
      exists l1, (l2 ++ [n]). cbn. by rewrite app_comm_cons, Heq, <- app_assoc.
  - assert (∀ p' b, producers s !! p' = Some (PLink (_head s) b) → False) as Hno.
    { intros p' b Ha. destruct (inv_link _ _ _ Hi p' _ b Ha) as [(l1 & l2 & Heq) _].
      by apply (last_not_before _ _ _ _ _ (NoDup_list L s (inv_nodup _ _ _ Hi)) (inv_head _ _ _ Hi) Heq). }
    intros p1 p2 a b b' H1 H2. apply Hlook in H1 as [(<- & H1 & _)|[_ H1]];
      apply Hlook in H2 as [(<- & H2 & _)|[_ H2]]; simplify_eq; try done.
    + by destruct (Hno p2 b').
    + by destruct (Hno p1 b).
    + by eapply (inv_links _ _ _ Hi).
  - intros a b l1 l2 d Heq Ha. destruct l2 as [|z l2 _] using rev_ind.
    + rewrite app_comm_cons, Hpre, <- app_assoc in Heq. change (l1 ++ [a; b]) with (l1 ++ [a] ++ [b]) in Heq.
      rewrite !app_assoc in Heq. apply app_inj_tail in Heq as [Heq <-]. apply app_inj_tail in Heq as [_ <-].
      exists p. by eapply list_lookup_insert_eq, lookup_lt_Some.
    + rewrite app_comm_cons in Heq. change (a :: b :: l2 ++ [z]) with ((a :: b :: l2) ++ [z]) in Heq.
      rewrite app_assoc in Heq. apply app_inj_tail in Heq as [Heq _].
      destruct (inv_pending _ _ _ Hi a b l1 l2 d Heq Ha) as [p' Hp']. exists p'.
      rewrite list_lookup_insert_ne; [done|]. intros ->. by rewrite Hp in Hp'.
  - apply (inv_take _ _ _ Hi).
Qed.

Lemma linking_in_list L s a b : linking L s a b → a ∈ _tail s :: L.
Proof. intros [(l1 & l2 & ->) _]. apply elem_of_app. right. by left. Qed.

(** What belongs to the list belongs to nobody else. *)
Lemma list_not_producer L s p n a :
  NoDup (nodes L s) → a ∈ _tail s :: L → producers s !! p = Some (PNode n) → n ≠ a.
Proof.
  intros (_ & Hd & _)%NoDup_app Ha Hn ->. apply (Hd a Ha), elem_of_app. left.
  apply elem_of_concat_producers. eauto.
Qed.

Lemma inv_ELink L q s p a b nd :
  inv L q s → producers s !! p = Some (PLink a b) → heap s !! a = Some nd →
  ∃ q1 v q2, q = q1 ++ (v, false) :: q2 ∧
    inv L (q1 ++ (v, true) :: q2) (set_producer p PIdle (set_heap (<[a := mk_Node (Data nd) (Some b)]> (heap s)) s)).
Proof.
  intros Hi Hp Hnd. pose proof (inv_link _ _ _ Hi p a b Hp) as Hl.
  pose proof (linking_in_list _ _ _ _ Hl) as Hal. destruct Hl as [(l1 & l2 & Heq) [d Hd]].
  rewrite Hnd in Hd. injection Hd as ->. cbn [Data].
  destruct (seg_link _ _ _ _ _ _ _ _ _ (inv_seg _ _ _ Hi) (NoDup_list _ _ (inv_nodup _ _ _ Hi)) Heq Hnd)
    as (q1 & v & q2 & -> & Hseg).
  exists q1, v, q2. split; [done|].
  pose proof (list_lookup_insert_Some (producers s) p PIdle) as Hlook.
  assert (nodes L (set_producer p PIdle (set_heap (<[a := mk_Node d (Some b)]> (heap s)) s)) ≡ₚ nodes L s) as Hnodes.
  { pose proof (nodes_producer L s p (PLink a b) PIdle Hp) as H. cbn in H. by rewrite !app_nil_r in H. }
  split; cbn [heap _tail _head producers consumer_ set_producer set_heap].
  - exact Hseg.
  - apply (inv_head _ _ _ Hi).
  - rewrite Hnodes. apply (inv_nodup _ _ _ Hi).
  - intros n [x Hx]. rewrite Hnodes. apply (inv_heap _ _ _ Hi).
    apply lookup_insert_Some in Hx as [[<- _]|[_ Hx]]; eauto.
  - intros t Ht. destruct (inv_consumer_node _ _ _ Hi t Ht). apply lookup_insert_is_Some'. eauto.
  - intros p' n Hn. apply Hlook in Hn as [(_ & Hn & _)|[_ Hn]]; [done|].
    rewrite lookup_insert_ne; [by apply (inv_new _ _ _ Hi p')|].
    apply not_eq_sym. by eapply list_not_producer; [apply (inv_nodup _ _ _ Hi)| |].
  - intros p' a' b' Ha. apply Hlook in Ha as [(_ & Ha & _)|[Hpp Ha]]; [done|].
    destruct (inv_link _ _ _ Hi p' a' b' Ha) as [Hs [d' Hd']]. split; [exact Hs|]. exists d'. cbn.
    rewrite lookup_insert_ne; [done|]. intros ->. by apply Hpp, (inv_links _ _ _ Hi p p' a' b b').
  - intros p1 p2 x y y' H1 H2. apply Hlook in H1 as [(_ & H1 & _)|[_ H1]]; [done|].
    apply Hlook in H2 as [(_ & H2 & _)|[_ H2]]; [done|]. by eapply (inv_links _ _ _ Hi).
  - intros a' b' k1 k2 d' Heq' Ha'. apply lookup_insert_Some in Ha' as [[_ Ha']|[Hne Ha']]; [done|].
    destruct (inv_pending _ _ _ Hi a' b' k1 k2 d' Heq' Ha') as [p' Hp'].
    exists p'. rewrite list_lookup_insert_ne; [done|]. intros <-. rewrite Hp in Hp'. by simplify_eq.
  - intros t n Ht. destruct (inv_take _ _ _ Hi t n Ht) as [-> [d' Hd']]. split; [done|]. exists d'.
    rewrite lookup_insert_ne; [done|]. intros ->. congruence.
Qed.

Lemma inv_EDequeue L q s nd next :
  inv L q s → consumer_ s = CIdle → heap s !! _tail s = Some nd → Next nd = Some next →
  inv L q (mk_MPSCQueue (heap s) (_head s) (_tail s) (producers s) (CTake (_tail s) next) (results s)).
Proof.
  intros Hi Hc Hnd Hn. destruct Hi. unfold nodes in *. rewrite Hc in *. split; try done.
  cbn. intros t n [= <- <-]. split; [done|]. destruct nd. cbn in Hn. subst. eauto.
Qed.

Lemma inv_ETake L q s t n :
  inv L q s → consumer_ s = CTake t n →
  ∃ v q' L' nx, q = (v, true) :: q' ∧ heap s !! n = Some (mk_Node (Some v) nx) ∧
    inv L' q' (mk_MPSCQueue (heap s) (_head s) n (producers s) (CDelete t) (results s ++ [Some v])).
Proof.
  intros Hi Hc. destruct (inv_take _ _ _ Hi t n Hc) as [-> [d Hd]].
  pose proof (inv_seg _ _ _ Hi) as Hseg. inversion Hseg as [a d' Ha|a d' b m nx v q' L' Ha Hm Hs]; simplify_eq.
  destruct b; simplify_eq. exists v, q', L', nx. split; [done|]. split; [done|].
  assert (nodes L' (mk_MPSCQueue (heap s) (_head s) n (producers s) (CDelete (_tail s)) (results s ++ [Some v]))
    ≡ₚ nodes (n :: L') s) as Hnodes.
  { unfold nodes. cbn. rewrite Hc. cbn. rewrite app_nil_r, (app_assoc L'). rewrite (Permutation_app_comm _ [_]).
    cbn. by rewrite Permutation_swap. }
  split; cbn [heap _tail _head producers consumer_].
  - exact Hs.
  - rewrite <- (inv_head _ _ _ Hi). by rewrite last_cons_cons.
  - rewrite Hnodes. apply (inv_nodup _ _ _ Hi).
  - intros k Hk. rewrite Hnodes. by apply (inv_heap _ _ _ Hi).
  - intros t [= <-]. rewrite Hd. eauto.
  - apply (inv_new _ _ _ Hi).
  - intros p a b Hp. destruct (inv_link _ _ _ Hi p a b Hp) as [([|x l1] & l2 & Heq) [da Hda]]; simplify_eq/=.
    split; [|exists da; done]. by exists l1, l2.
  - apply (inv_links _ _ _ Hi).
  - intros a b l1 l2 da Heq Ha'. apply (inv_pending _ _ _ Hi a b (_tail s :: l1) l2 da); [|done].
    cbn. by rewrite Heq.
  - done.
Qed.

Lemma inv_EDelete L q s t :
  inv L q s → consumer_ s = CDelete t →
  inv L q (mk_MPSCQueue (delete t (heap s)) (_head s) (_tail s) (producers s) CIdle (results s)).
Proof.
  intros Hi Hc. pose proof (inv_nodup _ _ _ Hi) as Hnd.
  assert (nodes L s = nodes L (mk_MPSCQueue (delete t (heap s)) (_head s) (_tail s) (producers s) CIdle (results s))
    ++ [t]) as Hnodes.
  { unfold nodes. cbn [_tail producers consumer_]. rewrite Hc. cbn. by rewrite app_nil_r, app_assoc. }
  rewrite Hnodes in Hnd. apply NoDup_app in Hnd as (Hnd & Hdis & _).
  match type of Hnodes with _ = nodes L ?x ++ _ => set (s' := x) in * end.
  assert (∀ n, n ∈ nodes L s' → n ≠ t) as Hne by (intros n Hn ->; by apply (Hdis t Hn), list_elem_of_singleton).
  assert (∀ n, n ∈ nodes L s' → heap s' !! n = heap s !! n) as Hsame
    by (intros n Hn; apply lookup_delete_ne, not_eq_sym, Hne, Hn).
  split; cbn [_head _tail producers consumer_].
  - eapply seg_agree; [apply (inv_seg _ _ _ Hi)|]. intros n Hn. by apply Hsame, nodes_list.
  - apply (inv_head _ _ _ Hi).
  - exact Hnd.
  - intros n [x Hx]. change (delete t (heap s) !! n = Some x) in Hx. apply lookup_delete_Some in Hx as [Htn Hx]. pose proof (inv_heap _ _ _ Hi n ltac:(eauto)) as Hin.
    rewrite Hnodes in Hin. apply elem_of_app in Hin as [Hin|Hin]; [done|]. by apply list_elem_of_singleton in Hin.
  - done.
  - intros p n Hp. rewrite Hsame by (by eapply nodes_of_producer). by apply (inv_new _ _ _ Hi p).
  - intros p a b Hp. pose proof (inv_link _ _ _ Hi p a b Hp) as Hl. pose proof (linking_in_list _ _ _ _ Hl) as Hin.
    destruct Hl as [Hs [d Hd]]. split; [exact Hs|]. exists d. by rewrite Hsame by (by apply nodes_list).
  - apply (inv_links _ _ _ Hi).
  - intros a b l1 l2 d Heq Ha. apply (inv_pending _ _ _ Hi a b l1 l2 d Heq).
    change (delete t (heap s) !! a = Some (mk_Node d None)) in Ha. by apply lookup_delete_Some in Ha as [_ Ha].
  - done.
Qed.

(** *** The queue is a FIFO *)

(** The values in the order of the exchanges. *)
Definition exchanged (s : MPSCQueue) (e : event) : list V :=
  match e with
  | EExchange p =>
      match producers s !! p with
      | Some (PNode node) => option_list (heap s !! node ≫= Data)
      | _ => []
      end
  | _ => []
  end.
Fixpoint exchanges (s : MPSCQueue) (es : list event) : list V :=
  match es with
  | [] => []
  | e :: es => exchanged s e ++ match step s e with Done s => exchanges s es | _ => [] end
  end.

Lemma step_simulates L q i s e :
  inv L q s →
  ∃ s' L' q', step s e = Done s' ∧ inv L' q' s' ∧
    rtc fifo_step (mk_fifo q i (results s)) (mk_fifo q' (i ++ exchanged s e) (results s')).
Proof.
  intros Hi. destruct e as [p l input|p|p| | |]; cbn [step exchanged]; rewrite ?app_nil_r.
  - destruct (producers s !! p) as [[]|] eqn:Hp; [|by exists s, L, q..].
    destruct (heap s !! l) eqn:Hl; [by exists s, L, q|].
    eexists _, L, q. split; [done|]. split; [by apply inv_ENew|done].
  - destruct (producers s !! p) as [[|n|]|] eqn:Hp; rewrite ?app_nil_r; [by exists s, L, q| |by exists s, L, q..].
    destruct (inv_EExchange L q s p n Hi Hp) as (v & Hv & Hi'). eexists _, _, _. split; [done|].
    split; [exact Hi'|]. rewrite Hv. apply rtc_once, fifo_enqueue.
  - destruct (producers s !! p) as [[| |a b]|] eqn:Hp; [by exists s, L, q..| |by exists s, L, q].
    destruct (inv_link _ _ _ Hi p a b Hp) as [_ [d Hd]]. rewrite Hd.
    destruct (inv_ELink L q s p a b _ Hi Hp Hd) as (q1 & v & q2 & -> & Hi').
    eexists _, L, _. split; [done|]. split; [exact Hi'|]. apply rtc_once, fifo_link.
  - destruct (consumer_ s) eqn:Hc; [|by exists s, L, q..].
    pose proof (inv_seg _ _ _ Hi) as Hseg.
    destruct (seg_in_heap _ _ _ _ (_tail s) Hseg ltac:(by left)) as [nd Hnd]. rewrite Hnd.
    destruct (Next nd) as [next|] eqn:Hn.
    + eexists _, L, q. split; [done|]. split; [by eapply inv_EDequeue|done].
    + eexists _, L, q. split; [done|]. split.
      * destruct Hi. unfold nodes in *. rewrite Hc in *. by split.
      * apply rtc_once, fifo_empty. intros v q' ->. inversion Hseg; by simplify_eq.
  - destruct (consumer_ s) as [|t n|] eqn:Hc; [by exists s, L, q| |by exists s, L, q].
    destruct (inv_ETake L q s t n Hi Hc) as (v & q' & L' & nx & -> & Hv & Hi'). rewrite Hv.
    eexists _, L', q'. split; [done|]. split; [exact Hi'|]. apply rtc_once, fifo_dequeue.
  - destruct (consumer_ s) as [| |t] eqn:Hc; [by exists s, L, q..|].
    destruct (inv_consumer_node _ _ _ Hi t Hc) as [nd ->].
    eexists _, L, q. split; [done|]. split; [by apply inv_EDelete|done].
Qed.

Lemma run_simulates L q i s es :
  inv L q s →
  ∃ s' L' q', run s es = Done s' ∧ inv L' q' s' ∧
    rtc fifo_step (mk_fifo q i (results s)) (mk_fifo q' (i ++ exchanges s es) (results s')).
Proof.
  revert L q i s. induction es as [|e es IH]; intros L q i s Hi; cbn.
  { rewrite app_nil_r. by exists s, L, q. }
  destruct (step_simulates L q i s e Hi) as (s1 & L1 & q1 & He & Hi1 & Hr1). rewrite He. cbn.
  destruct (IH L1 q1 (i ++ exchanged s e) s1 Hi1) as (s' & L' & q' & Hes & Hi' & Hr').
  exists s', L', q'. rewrite app_assoc. split; [exact Hes|]. split; [exact Hi'|]. by etrans.
Qed.

(** C35 MPSCQueueNonIntrusive refines a FIFO queue: however the accesses of any
    number of producers interleave with those of the consumer, and whichever
    free addresses the allocator chooses, no access is to a deleted node and
    every step is a step of the queue of entries or leaves it alone, an
    [Enqueue] taking effect at its exchange.  So the values the consumer has got
    are, in order, the first ones exchanged, and the rest is still in the queue;
    a [Dequeue] fails only when the first entry is missing or not linked. *)
Theorem nonintrusive_refines_fifo (front n : nat) (es : list event) :
  ∃ s a, run (new_MPSCQueue front n) es = Done s ∧ rtc fifo_step (mk_fifo [] [] []) a ∧
    f_results a = results s ∧ f_inputs a = exchanges (new_MPSCQueue front n) es ∧
    omap id (results s) ++ (f_queue a).*1 = exchanges (new_MPSCQueue front n) es.
Proof.
  destruct (run_simulates [] [] [] _ es (inv_new_queue front n)) as (s & L & q & Hrun & _ & Hr).
  exists s, (mk_fifo q (exchanges (new_MPSCQueue front n) es) (results s)). split; [exact Hrun|].
  split; [exact Hr|]. split; [done|]. split; [done|]. exact (fifo_order _ _ Hr eq_refl).
Qed.

(** *** The destructor *)
Definition idle (s : MPSCQueue) : Prop := (∀ p x, producers s !! p = Some x → x = PIdle) ∧ consumer_ s = CIdle.

(** Nothing is left half done once the threads are outside the queue. *)
Lemma idle_first_linked L v b q s : inv L ((v, b) :: q) s → idle s → b = true.
Proof.
  intros Hi [Hp _]. destruct b; [done|exfalso]. pose proof (inv_seg _ _ _ Hi) as Hseg.
  inversion Hseg as [|a d b m nx w q' L' Ha Hm Hs]; simplify_eq.
  destruct (inv_pending _ _ _ Hi (_tail s) m [] L' d eq_refl Ha) as [p Hlink]. by apply Hp in Hlink.
Qed.

Lemma Dequeue_idle L q s :
  inv L q s → idle s →
  match q with
  | [] => Dequeue s = Done (mk_MPSCQueue (heap s) (_head s) (_tail s) (producers s) CIdle (results s ++ [None]))
  | (v, _) :: q => ∃ s' L', Dequeue s = Done s' ∧ inv L' q s' ∧ idle s' ∧ results s' = results s ++ [Some v]
  end.
Proof.
  intros Hi Hidle. pose proof (proj2 Hidle) as Hc. unfold Dequeue, run. cbn [ofold step]. rewrite Hc.
  pose proof (inv_seg _ _ _ Hi) as Hseg.
  inversion Hseg as [a d Ha Ht Hq HL|a d b m nx v q' L' Ha Hm Hs Ht Hq HL]; subst; rewrite Ha; [done|].
  pose proof (idle_first_linked _ _ _ _ _ Hi Hidle) as ->. cbn [Next].
  pose proof (inv_EDequeue _ _ _ _ _ Hi Hc Ha eq_refl) as Hi1.
  destruct (inv_ETake _ _ _ _ _ Hi1 eq_refl) as (v' & q1 & L1 & nx' & Heq & Hm' & Hi2). cbn in Heq, Hm', Hi2.
  injection Heq as -> <-. cbn. rewrite Hm. cbn. rewrite Ha. cbn in *. simplify_eq.
  eexists _, L1. split; [done|]. split; [exact (inv_EDelete _ _ _ _ Hi2 eq_refl)|]. split; [|done].
  split; [apply Hidle|done].
Qed.

Lemma destroy_loop_empties L q s fuel :
  inv L q s → idle s → length q < fuel →
  ∃ s' , destroy_loop fuel s = Done s' ∧ inv [] [] s' ∧ idle s' ∧
    results s' = results s ++ (Some <$> q.*1) ++ [None].
Proof.
  revert L q s. induction fuel as [|fuel IH]; intros L q s Hi Hidle Hf; [lia|]. cbn [destroy_loop].
  pose proof (Dequeue_idle L q s Hi Hidle) as Hd. destruct q as [|[v b] q].
  - rewrite Hd. cbn. rewrite last_snoc. eexists. split; [done|]. split; [|split; [by split; [apply Hidle|]|done]].
    pose proof (inv_seg _ _ _ Hi) as Hseg. inversion Hseg; subst.
    destruct Hi. destruct Hidle as [_ Hc]. unfold nodes in *. rewrite Hc in *. by split.
  - destruct Hd as (s1 & L1 & -> & Hi1 & Hidle1 & Hr). cbn. rewrite Hr, last_snoc.
    destruct (IH L1 q s1 Hi1 Hidle1) as (s' & -> & Hi' & Hidle' & Hr'); [cbn in Hf; lia|].
    exists s'. split; [done|]. split; [done|]. split; [done|]. by rewrite Hr', Hr, <- app_assoc.
Qed.

Lemma exchanges_length s es : length (exchanges s es) ≤ length es.
Proof.
  revert s. induction es as [|e es IH]; intros s; cbn; [done|]. rewrite length_app.
  assert (length (exchanged s e) ≤ 1).
  { destruct e; cbn; try lia. destruct (producers s !! p) as [[]|]; cbn; try lia.
    destruct (heap s !! node ≫= Data); cbn; lia. }
  destruct (step s e); cbn; [specialize (IH a); lia|lia..].
Qed.

(** The destructor leaves nothing behind: called when no thread is inside
    the queue, whatever happened before, it returns, it frees every node, and
    the values the consumer got together with those the destructor deletes are
    all the values that were exchanged, once each and in order. *)
Theorem destructor_frees_everything (front n : nat) (es : list event) (s : MPSCQueue)
    (Hrun : run (new_MPSCQueue front n) es = Done s) (Hidle : idle s) :
  ∃ s', destroy (S (length es)) s = Done s' ∧ heap s' = ∅ ∧
    omap id (results s') = exchanges (new_MPSCQueue front n) es.
Proof.
  destruct (run_simulates [] [] [] _ es (inv_new_queue front n)) as (s1 & L & q & Hrun' & Hi & Hr).
  rewrite Hrun in Hrun'. injection Hrun' as <-. pose proof (fifo_order _ _ Hr eq_refl) as Ho. cbn in Ho.
  assert (length q < S (length es)) as Hlen.
  { pose proof (exchanges_length (new_MPSCQueue front n) es) as Hl. rewrite <- Ho, length_app, length_fmap in Hl. lia. }
  destruct (destroy_loop_empties L q s _ Hi Hidle Hlen) as (s' & Hd & Hi' & [Hp' Hc'] & Hr').
  unfold destroy. rewrite Hd. cbn. pose proof (inv_head _ _ _ Hi') as Hh. cbn in Hh. injection Hh as Hh.
  destruct (nodes_in_heap _ _ _ (_head s') Hi') as [nd Hnd]; [apply nodes_list; rewrite Hh; by left|].
  rewrite Hnd. eexists. split; [done|]. split.
  - cbn. apply map_empty. intros m. apply eq_None_not_Some. intros [x Hx].
    apply lookup_delete_Some in Hx as [Hne Hx]. pose proof (inv_heap _ _ _ Hi' m ltac:(eauto)) as Hm.
    apply elem_of_app in Hm as [Hm|[Hm|Hm]%elem_of_app].
    + apply list_elem_of_singleton in Hm. congruence.
    + apply elem_of_concat_producers in Hm as [p Hp]. by apply Hp' in Hp.
    + rewrite Hc' in Hm. by apply elem_of_nil in Hm.
  - cbn. rewrite Hr', !omap_app. cbn. rewrite app_nil_r, <- Ho. f_equal. clear.
    induction q as [|[v b] q IH]; [done|]. cbn. by rewrite IH.
Qed.
End Queue.
End NonIntrusive.

(** ** Concrete runs *)
Example two_producers_interleave :
  let es := [NonIntrusive.ENew 0 1 10; NonIntrusive.ENew 1 2 20; NonIntrusive.EExchange 1;
             NonIntrusive.EExchange 0; NonIntrusive.ELink 0; NonIntrusive.EDequeue; NonIntrusive.ELink 1;
             NonIntrusive.EDequeue; NonIntrusive.ETake; NonIntrusive.EDelete] in
  match NonIntrusive.run (NonIntrusive.new_MPSCQueue 0 2) es with
  | Done s => NonIntrusive.results s = [None; Some 20] ∧ NonIntrusive.heap s !! 0 = None
  | _ => False
  end.
Proof. vm_compute. done. Qed.

Lemma destructor_frees_everything_witness :
  let es := [NonIntrusive.ENew 0 1 10; NonIntrusive.ENew 1 2 20; NonIntrusive.EExchange 1;
             NonIntrusive.EExchange 0; NonIntrusive.ELink 0; NonIntrusive.ELink 1] in
  ∃ s s', NonIntrusive.run (NonIntrusive.new_MPSCQueue 0 2) es = Done s ∧
    NonIntrusive.destroy (S (length es)) s = Done s' ∧ NonIntrusive.heap s' = ∅ ∧
    omap id (NonIntrusive.results s') = [20; 10].
Proof.
  intros es. eexists.
  destruct (NonIntrusive.destructor_frees_everything (V := nat) 0 2 es _ eq_refl) as (s' & Hd & Hh & Hr).
  { split; [|reflexivity]. intros [|[|p]] x Hx; vm_compute in Hx; congruence. }
  exists s'. split; [reflexivity|]. split; [exact Hd|]. split; [exact Hh|]. rewrite Hr. reflexivity.
Defined.
