(* ===== verification/IntrusiveQueue.v ===== *)
(** * The intrusive lock-free queue: common/Threading/MPSCQueue.h

    MPSCQueueIntrusive keeps its link inside the entries, so an entry is its
    node: an address.  [links] holds the link of every node the queue may touch;
    an access to another one ends in [Crash].  A node belongs to the queue from
    the first store of its [Enqueue] until [Dequeue] returns it; from then on
    the caller may delete it or enqueue it again.  A step is one access to
    shared memory, under sequential consistency; [_tail] is the consumer's
    alone, and its loads and stores ride with the neighbouring access. *)
From S2P Require Import Prelude.
From S2P Require Import MPSCQueue.

(** ** What the queue promises

    Unlike [fifo_step], a [Dequeue] may fail although the first entry is linked,
    but not without an excuse: since the call began the queue was empty, or an
    [Enqueue] was at work, at least once. *)
Record busy_fifo (V : Type) := mk_busy_fifo {
  b_queue : list (V * bool);
  b_inputs : list V;
  b_results : list (option V);
  b_excuse : bool }.
Arguments mk_busy_fifo {V}.
Arguments b_queue {V}.
Arguments b_inputs {V}.
Arguments b_results {V}.
Arguments b_excuse {V}.

Definition excused {V : Type} (q : list (V * bool)) : bool :=
  match q with [] => true | _ => existsb (λ e, negb e.2) q end.

Inductive busy_step {V : Type} : relation (busy_fifo V) :=
| busy_enqueue q i r x v :
    busy_step (mk_busy_fifo q i r x) (mk_busy_fifo (q ++ [(v, false)]) (i ++ [v]) r true)
| busy_link q1 q2 i r x v :
    busy_step (mk_busy_fifo (q1 ++ (v, false) :: q2) i r x) (mk_busy_fifo (q1 ++ (v, true) :: q2) i r x)
| busy_call q i r x : busy_step (mk_busy_fifo q i r x) (mk_busy_fifo q i r (excused q))
| busy_dequeue q i r x v :
    busy_step (mk_busy_fifo ((v, true) :: q) i r x) (mk_busy_fifo q i (r ++ [Some v]) x)
| busy_fail q i r : busy_step (mk_busy_fifo q i r true) (mk_busy_fifo q i (r ++ [None]) true).

Lemma busy_order {V : Type} (a b : busy_fifo V) :
  rtc busy_step a b →
  omap id (b_results a) ++ (b_queue a).*1 = b_inputs a → omap id (b_results b) ++ (b_queue b).*1 = b_inputs b.
Proof.
  intros H. eapply (rtc_preserves busy_step (λ a, omap id (b_results a) ++ (b_queue a).*1 = b_inputs a)); [|exact H].
  clear. intros a b [q i r x v|q1 q2 i r x v|q i r x|q i r x v|q i r]; cbn; rewrite ?omap_app, ?fmap_app; cbn;
    try done.
  - intros <-. by rewrite app_assoc.
  - by rewrite <- app_assoc.
  - by rewrite app_nil_r.
Qed.

Module Intrusive.
Section Queue.
Variable _dummyPtr : nat.

(** Where the consumer stands in [Dequeue], with its local [tail]. *)
Inductive consumer :=
| CIdle                          (* before it *)
| CSkip (tail : nat)             (* past the dummy, before the second load of a link *)
| CHead (tail : nat)             (* the link was null; before the load of _head *)
| CDummy (tail : nat)            (* Enqueue(_dummyPtr), before its first store *)
| CExchange (tail : nat)
| CLink (tail prevHead : nat)
| CLast (tail : nat).            (* before the last load of the link *)

Record MPSCQueue := mk_MPSCQueue {
  links : gmap nat (option nat);
  _head : nat;
  _tail : nat;
  producers : list producer;
  consumer_ : consumer;
  results : list (option nat) }.

(** The constructor, for [n] producers. *)
Definition new_MPSCQueue (n : nat) : MPSCQueue :=
  mk_MPSCQueue {[_dummyPtr := None]} _dummyPtr _dummyPtr (replicate n PIdle) CIdle [].

Inductive event :=
| EStore (p input : nat)         (* (input->*IntrusiveLink).store(nullptr) *)
| EExchange (p : nat)            (* _head.exchange(input) *)
| ELink (p : nat)                (* (prevHead->*IntrusiveLink).store(input) *)
| EConsume.                      (* the next access of Dequeue *)

Definition set_producer (p : nat) (x : producer) (s : MPSCQueue) : MPSCQueue :=
  mk_MPSCQueue (links s) (_head s) (_tail s) (<[p := x]> (producers s)) (consumer_ s) (results s).
Definition set_links (l : gmap nat (option nat)) (s : MPSCQueue) : MPSCQueue :=
  mk_MPSCQueue l (_head s) (_tail s) (producers s) (consumer_ s) (results s).
Definition set_head (h : nat) (s : MPSCQueue) : MPSCQueue :=
  mk_MPSCQueue (links s) h (_tail s) (producers s) (consumer_ s) (results s).
Definition set_tail (t : nat) (s : MPSCQueue) : MPSCQueue :=
  mk_MPSCQueue (links s) (_head s) t (producers s) (consumer_ s) (results s).
Definition set_consumer (c : consumer) (s : MPSCQueue) : MPSCQueue :=
  mk_MPSCQueue (links s) (_head s) (_tail s) (producers s) c (results s).
Definition add_result (r : option nat) (s : MPSCQueue) : MPSCQueue :=
  mk_MPSCQueue (links s) (_head s) (_tail s) (producers s) CIdle (results s ++ [r]).

(** [return false]; and [_tail.store(next); result = tail; return true], after
    which the node is the caller's. *)
Definition gives_up (s : MPSCQueue) : MPSCQueue := add_result None s.
Definition take (tail next : nat) (s : MPSCQueue) : MPSCQueue :=
  add_result (Some tail) (set_links (delete tail (links s)) (set_tail next s)).

Definition load (node : nat) (s : MPSCQueue) : outcome Empty_set (option nat) :=
  match links s !! node with Some next => Done next | None => Crash "link of a node of the caller" end.
Definition store (node : nat) (next : option nat) (s : MPSCQueue) : outcome Empty_set MPSCQueue :=
  _ ← load node s; Done (set_links (<[node := next]> (links s)) s).

(** [if (next) ...; T* head = ...] *)
Definition got_next (tail : nat) (next : option nat) (s : MPSCQueue) : MPSCQueue :=
  match next with Some next => take tail next s | None => set_consumer (CHead tail) s end.

(** The next access of [Dequeue]. *)
Definition consume (s : MPSCQueue) : outcome Empty_set MPSCQueue :=
  match consumer_ s with
  | CIdle =>
      next ← load (_tail s) s;
      if Nat.eqb (_tail s) _dummyPtr then
        match next with
        | None => Done (gives_up s)
        | Some next => Done (set_consumer (CSkip next) (set_tail next s))
        end
      else Done (got_next (_tail s) next s)
  | CSkip tail => next ← load tail s; Done (got_next tail next s)
  | CHead tail => if Nat.eqb tail (_head s) then Done (set_consumer (CDummy tail) s) else Done (gives_up s)
  | CDummy tail => s ← store _dummyPtr None s; Done (set_consumer (CExchange tail) s)
  | CExchange tail => Done (set_consumer (CLink tail (_head s)) (set_head _dummyPtr s))
  | CLink tail prevHead => s ← store prevHead (Some _dummyPtr) s; Done (set_consumer (CLast tail) s)
  | CLast tail =>
      next ← load tail s;
      match next with Some next => Done (take tail next s) | None => Done (gives_up s) end
  end.

(** One step; an event that is not the next access of its thread does nothing,
    and a producer hands over a node the queue does not have. *)
Definition step (s : MPSCQueue) (e : event) : outcome Empty_set MPSCQueue :=
  match e with
  | EStore p input =>
      match producers s !! p, links s !! input with
      | Some PIdle, None => Done (set_producer p (PNode input) (set_links (<[input := None]> (links s)) s))
      | _, _ => Done s
      end
  | EExchange p =>
      match producers s !! p with
      | Some (PNode input) => Done (set_producer p (PLink (_head s) input) (set_head input s))
      | _ => Done s
      end
  | ELink p =>
      match producers s !! p with
      | Some (PLink prevHead input) =>
          s ← store prevHead (Some input) s; Done (set_producer p PIdle s)
      | _ => Done s
      end
  | EConsume => consume s
  end.

Definition run (s : MPSCQueue) (es : list event) : outcome Empty_set MPSCQueue := ofold step es s.

(** [Dequeue] with no other thread in between. *)
Fixpoint finish (fuel : nat) (s : MPSCQueue) : outcome Empty_set MPSCQueue :=
  match consumer_ s with
  | CIdle => Done s
  | _ => match fuel with O => Crash "out of fuel" | S fuel => s ← consume s; finish fuel s end
  end.
Definition Dequeue (s : MPSCQueue) : outcome Empty_set MPSCQueue := s ← consume s; finish 6 s.

(** The destructor.  Fuel: one call per entry, and the last. *)
Fixpoint destroy (fuel : nat) (s : MPSCQueue) : outcome Empty_set MPSCQueue :=
  match fuel with
  | O => Crash "out of fuel"
  | S fuel =>
      s ← Dequeue s;
      match last (results s) with Some (Some _) => destroy fuel s | _ => Done s end
  end.

(** *** Neighbours in the list *)
Fixpoint adj (L : list nat) (a b : nat) : Prop :=
  match L with
  | x :: ((y :: _) as L') => (x = a ∧ y = b) ∨ adj L' a b
  | _ => False
  end.

Lemma adj_cons x L a b : adj (x :: L) a b ↔ (x = a ∧ head L = Some b) ∨ adj L a b.
Proof.
  destruct L as [|y L]; [cbn; naive_solver|].
  change (adj (x :: y :: L) a b) with ((x = a ∧ y = b) ∨ adj (y :: L) a b). cbn [head].
  split; (intros [[-> H]|H]; [left|by right]); (split; [done|congruence]).
Qed.

Lemma adj_left L a b : adj L a b → a ∈ L.
Proof.
  induction L as [|x L IH]; [done|]. rewrite adj_cons. intros [[-> _]|H]; [by left|right; by apply IH].
Qed.
Lemma adj_right L a b : adj L a b → b ∈ L.
Proof.
  induction L as [|x L IH]; [done|]. rewrite adj_cons. intros [[_ H]|H]; right; [|by apply IH].
  destruct L; cbn in H; simplify_eq. by left.
Qed.

Lemma adj_fun L a b b' : NoDup L → adj L a b → adj L a b' → b = b'.
Proof.
  induction L as [|x L IH]; [done|]. rewrite !adj_cons. intros [Hx Hnd]%NoDup_cons [[-> H]|H] [[E H']|H'].
  - congruence.
  - by apply adj_left in H'.
  - subst. by apply adj_left in H.
  - by apply IH.
Qed.

Lemma adj_inj L a a' b : NoDup L → adj L a b → adj L a' b → a = a'.
Proof.
  induction L as [|x L IH]; [done|]. rewrite !adj_cons.
  assert (∀ c, NoDup (x :: L) → head L = Some b → adj L c b → False) as Hno.
  { intros c [_ Hnd]%NoDup_cons Hh Hc. destruct L as [|y L]; [done|]. cbn in Hh. simplify_eq.
    apply adj_cons in Hc as [[_ Hc]|Hc]; apply NoDup_cons in Hnd as [Hy _]; [|by apply adj_right in Hc].
    destruct L; cbn in Hc; simplify_eq. apply Hy. by left. }
  intros Hnd [[-> H]|H] [[E H']|H'].
  - done.
  - by destruct (Hno a').
  - by destruct (Hno a).
  - apply NoDup_cons in Hnd as [_ Hnd]. by apply IH.
Qed.

Lemma adj_snoc L n a b : adj (L ++ [n]) a b ↔ adj L a b ∨ (last L = Some a ∧ b = n).
Proof.
  induction L as [|x L IH]; [cbn; naive_solver|]. cbn [app]. rewrite !adj_cons, IH.
  destruct L as [|y L]; cbn; [naive_solver|]. naive_solver.
Qed.

Lemma adj_not_last L a b : NoDup L → last L = Some a → adj L a b → False.
Proof.
  induction L as [|x L IH]; [done|]. rewrite adj_cons. intros [Hx Hnd]%NoDup_cons Hl [[-> H]|H].
  - destruct L as [|y L]; [done|]. rewrite last_cons_cons in Hl. apply Hx. by apply last_Some_elem_of in Hl.
  - destruct L as [|y L]; [done|]. rewrite last_cons_cons in Hl. by apply IH.
Qed.

(** *** The entries of a list of nodes *)
Definition linked (h : gmap nat (option nat)) (n : nat) : bool :=
  match h !! n with Some (Some _) => true | _ => false end.

(** [b] tells whether the first node of the list is linked. *)
Fixpoint entries (h : gmap nat (option nat)) (b : bool) (L : list nat) : list (nat * bool) :=
  match L with
  | [] => []
  | n :: L => (if Nat.eqb n _dummyPtr then [] else [(n, b)]) ++ entries h (linked h n) L
  end.

Lemma entries_agree h h' b L : (∀ n, n ∈ L → linked h' n = linked h n) → entries h' b L = entries h b L.
Proof.
  revert b. induction L as [|n L IH]; intros b Hag; [done|]. cbn. rewrite Hag by by left.
  rewrite IH; [done|]. intros m Hm. apply Hag. by right.
Qed.

Lemma entries_snoc h b L n :
  L ≠ [] → entries h b (L ++ [n]) =
    entries h b L ++ (if Nat.eqb n _dummyPtr then [] else [(n, match last L with Some e => linked h e | None => b end)]).
Proof.
  revert b. induction L as [|m L IH]; intros b Hne; [done|]. cbn [app entries].
  destruct L as [|k L]; [cbn; by rewrite !app_nil_r|].
  rewrite IH by done. rewrite last_cons_cons, <- app_assoc.
  destruct (last (k :: L)) eqn:E; [done|by apply last_None in E].
Qed.

(** Linking two neighbours links the entry of the second. *)
Lemma entries_link h b0 L a b :
  NoDup L → adj L a b → linked h a = false →
  entries (<[a := Some b]> h) b0 L = entries h b0 L ∧ b = _dummyPtr ∨
  b ≠ _dummyPtr ∧ ∃ q1 q2, entries h b0 L = q1 ++ (b, false) :: q2 ∧
    entries (<[a := Some b]> h) b0 L = q1 ++ (b, true) :: q2.
Proof.
  intros Hnd Hadj Ha. revert b0 Hnd Hadj. induction L as [|x L IH]; intros b0 Hnd Hadj; [done|].
  apply NoDup_cons in Hnd as [Hx Hnd]. apply adj_cons in Hadj as [[-> Hh]|Hadj]; cbn [entries].
  - destruct L as [|y L]; [done|]. cbn in Hh. injection Hh as ->. cbn [entries].
    assert (linked (<[a := Some b]> h) a = true) as -> by (unfold linked; by rewrite lookup_insert_eq). rewrite Ha.
    assert (∀ n, n ∈ b :: L → linked (<[a := Some b]> h) n = linked h n) as Hag.
    { intros n Hn. unfold linked. rewrite lookup_insert_ne; [done|]. by intros ->. }
    rewrite Hag by by left. rewrite (entries_agree h) by (intros n Hn; apply Hag; by right).
    destruct (Nat.eqb_spec b _dummyPtr) as [->|Hb]; [by left|right]. split; [done|].
    eexists _, _. by split.
  - assert (linked (<[a := Some b]> h) x = linked h x) as ->.
    { unfold linked. rewrite lookup_insert_ne; [done|]. intros ->. by apply adj_left in Hadj. }
    destruct (IH (linked h x) Hnd Hadj) as [[-> ->]|(Hb & q1 & q2 & -> & ->)]; [by left|right].
    split; [done|]. exists ((if Nat.eqb x _dummyPtr then [] else [(x, b0)]) ++ q1), q2. by rewrite <- !app_assoc.
Qed.

Lemma entries_unlinked h b0 L a b :
  adj L a b → linked h a = false → b ≠ _dummyPtr → (b, false) ∈ entries h b0 L.
Proof.
  intros Hadj Ha Hb. revert b0 Hadj. induction L as [|x L IH]; intros b0 Hadj; [done|].
  apply adj_cons in Hadj as [[-> Hh]|Hadj]; cbn [entries]; apply elem_of_app; right; [|by apply IH].
  destruct L as [|y L]; [done|]. cbn in Hh. injection Hh as ->. cbn [entries]. rewrite Ha.
  destruct (Nat.eqb_spec b _dummyPtr); [done|]. by left.
Qed.

(** *** The invariant *)

(** The nodes of producers that have not exchanged them yet. *)
Definition owned (s : MPSCQueue) : list nat := concat (producer_nodes <$> producers s).

(** Somebody has to link [a] to [b]. *)
Definition pending (s : MPSCQueue) (a b : nat) : Prop :=
  (∃ p, producers s !! p = Some (PLink a b)) ∨ (b = _dummyPtr ∧ ∃ t, consumer_ s = CLink t a).

Definition consumer_ok (L : list nat) (s : MPSCQueue) : Prop :=
  match consumer_ s with
  | CIdle => True
  | CSkip t | CDummy t => t = _tail s ∧ _dummyPtr ∉ L
  | CExchange t => t = _tail s ∧ (_dummyPtr ∉ L) ∧ links s !! _dummyPtr = Some None
  | CHead t | CLink t _ | CLast t => t = _tail s ∧ t ≠ _dummyPtr
  end.

(** What makes a call of [Dequeue] fail, if it will. *)
Definition reason (s : MPSCQueue) (excuse : bool) : Prop :=
  match consumer_ s with
  | CHead t | CDummy t | CExchange t => _head s = t ∨ excuse = true
  | CLink t prevHead => prevHead = t ∨ excuse = true
  | CLast t => linked (links s) t = true ∨ excuse = true
  | _ => True
  end.

Record inv (L : list nat) (excuse : bool) (s : MPSCQueue) : Prop := {
  inv_tail : head L = Some (_tail s);
  inv_head : last L = Some (_head s);
  inv_nodup : NoDup (L ++ owned s);
  inv_dummy : _dummyPtr ∉ owned s;
  inv_links : ∀ n, is_Some (links s !! n) ↔ n = _dummyPtr ∨ n ∈ L ++ owned s;
  inv_new : ∀ n, n ∈ owned s → links s !! n = Some None;
  inv_last : links s !! _head s = Some None;
  inv_adj : ∀ a b, adj L a b → links s !! a = Some (Some b) ∨ (links s !! a = Some None ∧ pending s a b);
  inv_pending : ∀ a b, pending s a b → adj L a b ∧ links s !! a = Some None;
  inv_once : ∀ p p' a b, producers s !! p = Some (PLink a b) → producers s !! p' = Some (PLink a b) → p = p';
  inv_not_dummy : ∀ p a b, producers s !! p = Some (PLink a b) → b ≠ _dummyPtr;
  inv_consumer : consumer_ok L s;
  inv_reason : reason s excuse;
  inv_excuse : consumer_ s ≠ CIdle → ∀ n, (n, false) ∈ entries (links s) true L → excuse = true }.

Lemma inv_initial n : inv [_dummyPtr] false (new_MPSCQueue n).
Proof.
  assert (∀ p x, (replicate n PIdle : list producer) !! p = Some x → x = PIdle) as Hidle
    by (by intros p x [-> _]%lookup_replicate_1).
  assert (owned (new_MPSCQueue n) = []) as Ho by apply no_producer_nodes.
  split; cbn [new_MPSCQueue links _tail _head producers consumer_]; rewrite ?Ho; try done.
  - apply NoDup_singleton.
  - apply not_elem_of_nil.
  - intros m. rewrite app_nil_r, list_elem_of_singleton. split.
    + intros [x Hx]. apply lookup_singleton_Some in Hx as [-> _]. by left.
    + intros [-> | ->]; rewrite lookup_singleton_eq; eauto.
  - intros m Hm. by apply elem_of_nil in Hm.
  - apply lookup_singleton_eq.
  - intros a b [[p Hp%Hidle]|[_ [t Ht]]]; done.
  - by intros p p' a b ?%Hidle.
  - by intros p a b ?%Hidle.
Qed.

Lemma listed_NoDup L x s : inv L x s → NoDup L.
Proof. intros Hi. by apply inv_nodup, NoDup_app in Hi as [? _]. Qed.

Lemma list_has_link L x s n : inv L x s → n ∈ L → is_Some (links s !! n).
Proof. intros Hi Hn. apply (inv_links _ _ _ Hi). right. apply elem_of_app. by left. Qed.

Lemma dummy_has_link L x s : inv L x s → is_Some (links s !! _dummyPtr).
Proof. intros Hi. apply (inv_links _ _ _ Hi). by left. Qed.

Lemma owned_not_listed L x s n : inv L x s → n ∈ owned s → n ∉ L.
Proof. intros Hi Ho Hn. apply inv_nodup, NoDup_app in Hi as (_ & Hd & _). by apply (Hd n). Qed.

Lemma tail_in_list L x s : inv L x s → _tail s ∈ L.
Proof. intros Hi. pose proof (inv_tail _ _ _ Hi) as Ht. destruct L; cbn in Ht; simplify_eq. by left. Qed.

Lemma head_in_list L x s : inv L x s → _head s ∈ L.
Proof. intros Hi. apply last_Some_elem_of, (inv_head _ _ _ Hi). Qed.

Lemma owned_producer s p x y :
  producers s !! p = Some x → owned (set_producer p y s) ++ producer_nodes x ≡ₚ owned s ++ producer_nodes y.
Proof. apply concat_map_insert. Qed.

Lemma inv_bounded L x s a b : inv L x s → linked (links s) a = false → adj L a b → links s !! a = Some None.
Proof.
  intros Hi Ha Hadj. destruct (inv_adj _ _ _ Hi a b Hadj) as [H|[H _]]; [|done].
  unfold linked in Ha. by rewrite H in Ha.
Qed.

(** A producer's first store. *)
Lemma inv_EStore L x s p n :
  inv L x s → producers s !! p = Some PIdle → links s !! n = None →
  let s' := set_producer p (PNode n) (set_links (<[n := None]> (links s)) s) in
  inv L x s' ∧ entries (links s') true L = entries (links s) true L.
Proof.
  intros Hi Hp Hn s'.
  assert (owned s' ≡ₚ n :: owned s) as Ho.
  { pose proof (owned_producer s p PIdle (PNode n) Hp) as H. cbn in H. rewrite app_nil_r in H.
    rewrite Permutation_cons_append. exact H. }
  assert (n ≠ _dummyPtr) as Hnd by (intros ->; destruct (dummy_has_link _ _ _ Hi); congruence).
  assert (n ∉ L ++ owned s) as Hnew.
  { intros Hin. destruct (proj2 (inv_links _ _ _ Hi n)) as [y Hy]; [by right|congruence]. }
  assert (∀ m y, links s !! m = Some y → links s' !! m = Some y) as Hold.
  { intros m y Hm. cbn. rewrite lookup_insert_ne; [done|]. intros ->. congruence. }
  pose proof (list_lookup_insert_Some (producers s) p (PNode n)) as Hlook.
  assert (∀ a b, pending s' a b ↔ pending s a b) as Hpend.
  { intros a b. unfold pending. cbn. split; intros [[p' Hp']|H]; [left; exists p'|by right|left; exists p'|by right].
    - by apply Hlook in Hp' as [(_ & Hp' & _)|[_ Hp']].
    - rewrite list_lookup_insert_ne; [done|]. intros ->. congruence. }
  assert (∀ m, m ∈ L → linked (links s') m = linked (links s) m) as Hlinked.
  { intros m Hm. unfold linked. destruct (list_has_link _ _ _ _ Hi Hm) as [y Hy]. by rewrite Hy, (Hold m y Hy). }
  split; [|by apply entries_agree]. split; try apply Hi.
  - rewrite Ho. rewrite <- Permutation_middle. apply NoDup_cons. split; [done|apply Hi].
  - rewrite Ho. intros [?|?]%elem_of_cons; [congruence|by apply (inv_dummy _ _ _ Hi)].
  - intros m. rewrite Ho, <- Permutation_middle, elem_of_cons. cbn. rewrite lookup_insert_is_Some, (inv_links _ _ _ Hi).
    destruct (decide (n = m)); naive_solver.
  - intros m. rewrite Ho. intros [->|Hm]%elem_of_cons; [apply lookup_insert_eq|]. by apply Hold, (inv_new _ _ _ Hi).
  - apply Hold, (inv_last _ _ _ Hi).
  - intros a b Hadj. rewrite Hpend. destruct (inv_adj _ _ _ Hi a b Hadj) as [H|[H1 H2]]; [left|right]; auto.
  - intros a b Hpe%Hpend. destruct (inv_pending _ _ _ Hi a b Hpe). auto.
  - intros p1 p2 a b H1 H2. apply Hlook in H1 as [(_ & H1 & _)|[_ H1]]; [done|].
    apply Hlook in H2 as [(_ & H2 & _)|[_ H2]]; [done|]. by eapply (inv_once _ _ _ Hi).
  - intros p' a b Hp'. apply Hlook in Hp' as [(_ & Hp' & _)|[_ Hp']]; [done|]. by eapply (inv_not_dummy _ _ _ Hi).
  - pose proof (inv_consumer _ _ _ Hi) as Hc. unfold consumer_ok in *. cbn.
    destruct (consumer_ s); try done. destruct Hc as (? & ? & ?). repeat split; auto.
  - pose proof (inv_reason _ _ _ Hi) as Hr. pose proof (inv_consumer _ _ _ Hi) as Hc. unfold reason, consumer_ok in *. cbn.
    destruct (consumer_ s); try done. destruct Hc as [-> _].
    change (linked (links s') (_tail s) = true ∨ x = true). rewrite Hlinked; [done|by eapply tail_in_list].
  - intros Hc m. rewrite (entries_agree _ _ _ _ Hlinked). by apply (inv_excuse _ _ _ Hi).
Qed.

Lemma head_append (L : list nat) n t : head L = Some t → head (L ++ [n]) = Some t.
Proof. by destruct L. Qed.

Lemma inv_nonempty L x s : inv L x s → L ≠ [].
Proof. intros Hi ->. by apply inv_tail in Hi. Qed.

Lemma head_unlinked L x s : inv L x s → linked (links s) (_head s) = false.
Proof. intros Hi. unfold linked. by rewrite (inv_last _ _ _ Hi). Qed.

(** Nobody has to link the last node. *)
Lemma head_not_pending L x s b : inv L x s → ¬ pending s (_head s) b.
Proof.
  intros Hi Hp. destruct (inv_pending _ _ _ Hi _ _ Hp) as [Hadj _].
  eapply adj_not_last; [by eapply listed_NoDup|by apply (inv_head _ _ _ Hi)|exact Hadj].
Qed.

(** A producer's exchange: the entry is in the queue. *)
Lemma inv_producer_exchange L x s p n :
  inv L x s → producers s !! p = Some (PNode n) →
  let s' := set_producer p (PLink (_head s) n) (set_head n s) in
  inv (L ++ [n]) true s' ∧ entries (links s') true (L ++ [n]) = entries (links s) true L ++ [(n, false)].
Proof.
  intros Hi Hp s'. pose proof (list_lookup_insert_Some (producers s) p (PLink (_head s) n)) as Hlook.
  assert (n ∈ owned s) as Hn by (apply elem_of_concat_producers; eauto).
  assert (owned s ≡ₚ n :: owned s') as Ho.
  { pose proof (owned_producer s p (PNode n) (PLink (_head s) n) Hp) as H. cbn in H. rewrite app_nil_r in H.
    rewrite Permutation_cons_append. symmetry. exact H. }
  assert (n ≠ _dummyPtr) as Hnd by (intros ->; by apply (inv_dummy _ _ _ Hi)).
  assert (∀ a b, pending s' a b ↔ pending s a b ∨ (a = _head s ∧ b = n)) as Hpend.
  { intros a b. unfold pending. cbn. split.
    - intros [[p' Hp']|H]; [|by left; right]. apply Hlook in Hp' as [(_ & Hp' & _)|[_ Hp']]; [right|left; left; eauto].
      by simplify_eq.
    - intros [[[p' Hp']|H]|[-> ->]]; [left; exists p'|by right|left; exists p].
      + rewrite list_lookup_insert_ne; [done|]. intros ->. congruence.
      + by eapply list_lookup_insert_eq, lookup_lt_Some. }
  assert ((L ++ [n]) ++ owned s' ≡ₚ L ++ owned s) as Hnodes by (by rewrite <- app_assoc, Ho).
  split.
  2: { rewrite entries_snoc by (by eapply inv_nonempty). rewrite (inv_head _ _ _ Hi). cbn [links s' set_producer set_head].
    rewrite (head_unlinked _ _ _ Hi). by rewrite (proj2 (Nat.eqb_neq n _dummyPtr) Hnd). }
  split; try apply Hi.
  - apply head_append, Hi.
  - apply last_snoc.
  - rewrite Hnodes. apply Hi.
  - intros Hd. apply (inv_dummy _ _ _ Hi). rewrite Ho. by right.
  - intros m. rewrite Hnodes. apply Hi.
  - intros m Hm. apply (inv_new _ _ _ Hi). rewrite Ho. by right.
  - exact Hn.
  - intros a b. rewrite adj_snoc, Hpend, (inv_head _ _ _ Hi). intros [Hadj|[[= <-] ->]].
    + destruct (inv_adj _ _ _ Hi a b Hadj) as [?|[? ?]]; [by left|right; auto].
    + right. split; [apply (inv_last _ _ _ Hi)|by right].
  - intros a b. rewrite adj_snoc, Hpend. intros [Hpe|[-> ->]].
    + destruct (inv_pending _ _ _ Hi a b Hpe). auto.
    + split; [|apply (inv_last _ _ _ Hi)]. right. split; [apply Hi|done].
  - intros p1 p2 a b H1 H2. apply Hlook in H1 as [(<- & H1 & _)|[_ H1]];
      apply Hlook in H2 as [(<- & H2 & _)|[_ H2]]; simplify_eq; try done.
    + exfalso. eapply head_not_pending; [exact Hi|left; eauto].
    + exfalso. eapply head_not_pending; [exact Hi|left; eauto].
    + by eapply (inv_once _ _ _ Hi).
  - intros p' a b Hp'. apply Hlook in Hp' as [(_ & Hp' & _)|[_ Hp']]; [congruence|]. by eapply (inv_not_dummy _ _ _ Hi).
  - pose proof (inv_consumer _ _ _ Hi) as Hc. unfold consumer_ok in *. cbn.
    assert (_dummyPtr ∉ L → _dummyPtr ∉ L ++ [n]) as Hd.
    { intros Hd [Hin|Hin]%elem_of_app; [done|]. apply list_elem_of_singleton in Hin. congruence. }
    destruct (consumer_ s); naive_solver.
  - unfold reason. cbn. destruct (consumer_ s); auto.
  - done.
Qed.

(** A store of the second half of an [Enqueue]: it links two neighbours. *)
Lemma entries_store L x s a b :
  inv L x s → pending s a b →
  entries (<[a := Some b]> (links s)) true L = entries (links s) true L ∧ b = _dummyPtr ∨
  b ≠ _dummyPtr ∧ ∃ q1 q2, entries (links s) true L = q1 ++ (b, false) :: q2 ∧
    entries (<[a := Some b]> (links s)) true L = q1 ++ (b, true) :: q2.
Proof.
  intros Hi Hp. destruct (inv_pending _ _ _ Hi a b Hp) as [Hadj Ha].
  apply entries_link; [by eapply listed_NoDup|done|]. unfold linked. by rewrite Ha.
Qed.

Lemma entries_fewer L x s a b n :
  inv L x s → pending s a b → (n, false) ∈ entries (<[a := Some b]> (links s)) true L →
  (n, false) ∈ entries (links s) true L.
Proof.
  intros Hi Hp. destruct (entries_store L x s a b Hi Hp) as [[-> _]|(_ & q1 & q2 & -> & ->)]; [done|].
  rewrite !elem_of_app, !elem_of_cons. intros [?|[[=]|?]]; auto.
Qed.

(** What the store does to the links of the other nodes. *)
Lemma stored_links L x s a b :
  inv L x s → pending s a b → let h := <[a := Some b]> (links s) in
  (∀ n, is_Some (h !! n) ↔ n = _dummyPtr ∨ n ∈ L ++ owned s) ∧
  (∀ n, n ∈ owned s → h !! n = Some None) ∧ h !! _head s = Some None ∧ a ≠ _head s ∧ a ∈ L.
Proof.
  intros Hi Hp h. destruct (inv_pending _ _ _ Hi a b Hp) as [Hadj Ha]. unfold h.
  assert (a ∈ L) as HaL by (by eapply adj_left).
  assert (a ≠ _head s) as Hah by (intros ->; exact (head_not_pending _ _ _ _ Hi Hp)).
  split; [|split; [|split; [|done]]].
  - intros n. rewrite lookup_insert_is_Some, (inv_links _ _ _ Hi). split; [|destruct (decide (a = n)); naive_solver].
    intros [->|[_ H]]; [right; apply elem_of_app; by left|done].
  - intros n Hn. rewrite lookup_insert_ne; [by apply (inv_new _ _ _ Hi)|].
    intros ->. exact (owned_not_listed _ _ _ _ Hi Hn HaL).
  - rewrite lookup_insert_ne by done. exact (inv_last _ _ _ Hi).
Qed.

Lemma inv_store L x s s' a b :
  inv L x s → pending s a b → links s' = <[a := Some b]> (links s) →
  _head s' = _head s → _tail s' = _tail s → owned s' ≡ₚ owned s →
  (∀ c d, pending s' c d ↔ pending s c d ∧ c ≠ a) →
  (∀ p c d, producers s' !! p = Some (PLink c d) → producers s !! p = Some (PLink c d)) →
  consumer_ok L s' → reason s' x → (consumer_ s' ≠ CIdle → consumer_ s ≠ CIdle) → inv L x s'.
Proof.
  intros Hi Hp Hl Hh Ht Ho Hpend Hprod Hc Hr Hidle.
  destruct (stored_links L x s a b Hi Hp) as (Hall & Hnew & Hlast & Hah & HaL).
  destruct (inv_pending _ _ _ Hi a b Hp) as [Hadj Ha].
  split; rewrite ?Hh, ?Ht, ?Hl.
  - apply (inv_tail _ _ _ Hi).
  - apply (inv_head _ _ _ Hi).
  - rewrite Ho. apply (inv_nodup _ _ _ Hi).
  - rewrite Ho. apply (inv_dummy _ _ _ Hi).
  - intros n. rewrite Ho. apply Hall.
  - intros n. rewrite Ho. apply Hnew.
  - exact Hlast.
  - intros c d Hcd. rewrite Hpend. destruct (decide (a = c)) as [<-|Hne].
    + left. rewrite lookup_insert_eq. do 2 f_equal. eapply adj_fun; [by eapply listed_NoDup|exact Hadj|exact Hcd].
    + rewrite lookup_insert_ne by done. destruct (inv_adj _ _ _ Hi c d Hcd) as [?|[? ?]]; auto.
  - intros c d [Hcd Hne]%Hpend. destruct (inv_pending _ _ _ Hi c d Hcd). by rewrite lookup_insert_ne.
  - intros p p' c d H1%Hprod H2%Hprod. by eapply (inv_once _ _ _ Hi).
  - intros p c d H1%Hprod. by eapply (inv_not_dummy _ _ _ Hi).
  - done.
  - done.
  - intros Hne n Hn. apply (inv_excuse _ _ _ Hi (Hidle Hne) n). by eapply entries_fewer.
Qed.

(** A producer's second store. *)
Lemma inv_producer_link L x s p a b :
  inv L x s → producers s !! p = Some (PLink a b) →
  inv L x (set_producer p PIdle (set_links (<[a := Some b]> (links s)) s)).
Proof.
  intros Hi Hp. pose proof (list_lookup_insert_Some (producers s) p PIdle) as Hlook.
  assert (pending s a b) as Hpe by (left; eauto).
  destruct (inv_pending _ _ _ Hi a b Hpe) as [Hadj Ha].
  assert (∀ c d, pending s c d → c = a → d = b) as Hfun.
  { intros c d [Hcd _]%(inv_pending _ _ _ Hi) ->. symmetry. eapply adj_fun; [by eapply listed_NoDup|done..]. }
  eapply (inv_store L x s _ a b Hi Hpe); try done.
  - pose proof (owned_producer s p (PLink a b) PIdle Hp) as H. cbn in H. rewrite !app_nil_r in H. exact H.
  - intros c d. split.
    + intros [[p' Hp']|[-> [t Hc]]].
      * apply Hlook in Hp' as [(_ & Hp' & _)|[Hne Hp']]; [done|]. split; [left; eauto|]. intros ->.
        rewrite (Hfun a d) in Hp' by (done || (left; eauto)). by apply Hne, (inv_once _ _ _ Hi p p' a b).
      * split; [right; eauto|]. intros ->. apply (inv_not_dummy _ _ _ Hi p a b Hp). symmetry. apply (Hfun a); [right; eauto|done].
    + intros [[[p' Hp']|H] Hne]; [left; exists p'|by right]. cbn. rewrite list_lookup_insert_ne; [done|].
      intros ->. congruence.
  - intros p' c d [(_ & H & _)|[_ H]]%Hlook; done.
  - pose proof (inv_consumer _ _ _ Hi) as Hc. unfold consumer_ok in *. cbn. destruct (consumer_ s); try done.
    destruct Hc as (? & Hd & ?). repeat split; [done..|]. rewrite lookup_insert_ne; [done|].
    intros ->. apply Hd. by eapply adj_left.
  - pose proof (inv_reason _ _ _ Hi) as Hr. unfold reason in *. cbn. destruct (consumer_ s); try done.
    destruct Hr as [Hr|Hr]; [left|by right]. unfold linked in *. destruct (decide (a = tail)) as [->|Hne].
    + by rewrite lookup_insert_eq.
    + by rewrite lookup_insert_ne.
Qed.

(** The consumer links the dummy node. *)
Lemma inv_consumer_link L x s t a :
  inv L x s → consumer_ s = CLink t a →
  inv L x (set_consumer (CLast t) (set_links (<[a := Some _dummyPtr]> (links s)) s)).
Proof.
  intros Hi Hc. assert (pending s a _dummyPtr) as Hpe by (right; eauto).
  destruct (inv_pending _ _ _ Hi _ _ Hpe) as [Hadj Ha].
  eapply (inv_store L x s _ a _dummyPtr Hi Hpe); try done.
  - intros c d. split.
    + intros [[p' Hp']|[-> [t' Hc']]]; [|done]. split; [left; eauto|]. intros ->.
      apply (inv_not_dummy _ _ _ Hi p' a d Hp'). eapply adj_fun; [by eapply listed_NoDup| |exact Hadj].
      apply (inv_pending _ _ _ Hi). left; eauto.
    + intros [[[p' Hp']|[-> [t' Hc']]] Hne]; [left; eauto|]. rewrite Hc in Hc'. congruence.
  - pose proof (inv_consumer _ _ _ Hi) as Hk. unfold consumer_ok in *. by rewrite Hc in Hk.
  - pose proof (inv_reason _ _ _ Hi) as Hr. unfold reason in *. rewrite Hc in Hr. cbn.
    destruct Hr as [->|Hr]; [left|by right]. unfold linked. by rewrite lookup_insert_eq.
  - by rewrite Hc.
Qed.

(** *** The consumer's steps *)
Definition not_linking (c : consumer) : Prop := match c with CLink _ _ => False | _ => True end.

(** A step that touches no shared memory. *)
Lemma inv_set_consumer L x x' s s' :
  inv L x s → links s' = links s → _head s' = _head s → _tail s' = _tail s → producers s' = producers s →
  not_linking (consumer_ s) → not_linking (consumer_ s') → consumer_ok L s' → reason s' x' →
  (consumer_ s' ≠ CIdle → ∀ n, (n, false) ∈ entries (links s) true L → x' = true) → inv L x' s'.
Proof.
  intros Hi Hl Hh Ht Hp Hn1 Hn2 Hc Hr He.
  assert (∀ a b, pending s' a b ↔ pending s a b) as Hpend.
  { intros a b. unfold pending. rewrite Hp.
    split; (intros [?|[_ [t Ht']]]; [by left|]); [rewrite Ht' in Hn2|rewrite Ht' in Hn1]; done. }
  assert (owned s' = owned s) as Ho by (unfold owned; by rewrite Hp).
  destruct Hi. split; rewrite ?Hl, ?Hh, ?Ht, ?Hp, ?Ho; try done.
  - intros a b Hab. rewrite Hpend. auto.
  - intros a b Hab%Hpend. auto.
Qed.

(** The first node leaves the list. *)
Lemma next_in_list t L x s n :
  inv (t :: L) x s → links s !! t = Some (Some n) → ∃ L', L = n :: L'.
Proof.
  intros Hi Ht. destruct L as [|m L].
  - pose proof (inv_head _ _ _ Hi) as Hh. cbn in Hh. injection Hh as Hh.
    pose proof (inv_last _ _ _ Hi) as Hl. rewrite <- Hh in Hl. congruence.
  - exists L. f_equal. destruct (inv_adj _ _ _ Hi t m) as [H|[H _]]; [by left|congruence..].
Qed.

Lemma inv_behead t L x x' s s' n :
  inv (t :: L) x s → links s !! t = Some (Some n) →
  (∀ m, m ≠ t → links s' !! m = links s !! m) → (is_Some (links s' !! t) ↔ t = _dummyPtr) →
  _head s' = _head s → _tail s' = n → producers s' = producers s →
  not_linking (consumer_ s) → not_linking (consumer_ s') → consumer_ok L s' → reason s' x' →
  (consumer_ s' ≠ CIdle → ∀ m, (m, false) ∈ entries (links s') true L → x' = true) → inv L x' s'.
Proof.
  intros Hi Ht Hl Hlt Hh Htl Hp Hn1 Hn2 Hc Hr He.
  destruct (next_in_list _ _ _ _ _ Hi Ht) as [L' ->].
  pose proof (inv_nodup _ _ _ Hi) as Hnd. cbn [app] in Hnd. apply NoDup_cons in Hnd as [Hnt Hnd].
  assert (owned s' = owned s) as Ho by (unfold owned; by rewrite Hp).
  assert (∀ a b, pending s' a b ↔ pending s a b) as Hpend.
  { intros a b. unfold pending. rewrite Hp.
    split; (intros [?|[_ [k Hk]]]; [by left|]); [rewrite Hk in Hn2|rewrite Hk in Hn1]; done. }
  assert (∀ m, m ∈ (n :: L') ++ owned s → links s' !! m = links s !! m) as Hsame
    by (intros m Hm; apply Hl; by intros ->).
  assert (∀ a b, adj (n :: L') a b → links s' !! a = links s !! a) as Hadj.
  { intros a b Hab%adj_left. apply Hsame, elem_of_app. by left. }
  split; rewrite ?Hh, ?Htl, ?Ho, ?Hp; try done.
  - rewrite <- (inv_head _ _ _ Hi). symmetry. apply last_cons_cons.
  - apply (inv_dummy _ _ _ Hi).
  - intros m. destruct (decide (m = t)) as [->|Hm]; [rewrite Hlt; naive_solver|].
    rewrite Hl, (inv_links _ _ _ Hi) by done. cbn [app]. rewrite (elem_of_cons _ m t). naive_solver.
  - intros m Hm. rewrite Hsame by (apply elem_of_app; by right). by apply (inv_new _ _ _ Hi).
  - rewrite Hl; [apply (inv_last _ _ _ Hi)|]. intros Hht. pose proof (inv_last _ _ _ Hi). congruence.
  - intros a b Hab. rewrite (Hadj a b Hab), Hpend. apply (inv_adj _ _ _ Hi). by right.
  - intros a b Hab%Hpend. destruct (inv_pending _ _ _ Hi a b Hab) as [[[<- _]|H] Ha]; [congruence|].
    by rewrite (Hadj a b H).
  - apply (inv_once _ _ _ Hi).
  - apply (inv_not_dummy _ _ _ Hi).
Qed.

Lemma tail_first L x s : inv L x s → ∃ L', L = _tail s :: L'.
Proof. intros Hi. pose proof (inv_tail _ _ _ Hi) as Ht. destruct L as [|t L]; cbn in Ht; simplify_eq. eauto. Qed.

(** [Dequeue] returns the first entry. *)
Lemma inv_take L x s n :
  inv L x s → _tail s ≠ _dummyPtr → links s !! _tail s = Some (Some n) → not_linking (consumer_ s) →
  let s' := take (_tail s) n s in
  ∃ L', inv L' x s' ∧ entries (links s) true L = (_tail s, true) :: entries (links s') true L'.
Proof.
  intros Hi Hd Ht Hnl s'. destruct (tail_first _ _ _ Hi) as [L' ->]. exists L'. split.
  - apply (inv_behead (_tail s) L' x x s s' n Hi); try done; cbn.
    + intros m Hm. by apply lookup_delete_ne.
    + rewrite lookup_delete_eq. split; [by intros []|done].
  - cbn [entries]. rewrite (proj2 (Nat.eqb_neq _ _) Hd). cbn. f_equal. unfold linked at 1. rewrite Ht.
    symmetry. apply entries_agree. intros m Hm. unfold linked. rewrite lookup_delete_ne; [done|].
    intros <-. pose proof (listed_NoDup _ _ _ Hi) as Hnd. by apply NoDup_cons in Hnd as [? _].
Qed.

Lemma excused_unlinked {V : Type} (q : list (V * bool)) v : (v, false) ∈ q → excused q = true.
Proof.
  intros Hv. destruct q as [|e q]; [done|]. apply existsb_exists. exists (v, false). split; [|done].
  by apply list_elem_of_In.
Qed.

(** It steps over the dummy node. *)
Lemma inv_skip L x s n :
  inv L x s → consumer_ s = CIdle → _tail s = _dummyPtr → links s !! _tail s = Some (Some n) →
  let s' := set_consumer (CSkip n) (set_tail n s) in
  ∃ L', inv L' (excused (entries (links s) true L)) s' ∧ entries (links s) true L = entries (links s') true L'.
Proof.
  intros Hi Hc Hd Ht s'. destruct (tail_first _ _ _ Hi) as [L' ->]. exists L'.
  assert (entries (links s) true (_tail s :: L') = entries (links s) true L') as He.
  { cbn [entries]. rewrite Hd, Nat.eqb_refl. unfold linked at 1. by rewrite <- Hd, Ht. }
  split; [|done]. apply (inv_behead (_tail s) L' x _ s s' n Hi); try done.
  - by rewrite Hc.
  - cbn. split; [done|]. rewrite <- Hd. pose proof (listed_NoDup _ _ _ Hi) as Hnd. by apply NoDup_cons in Hnd as [? _].
  - intros _ m Hm. rewrite He. by eapply excused_unlinked.
Qed.

(** The two other shared accesses of its [Enqueue(_dummyPtr)]. *)
Lemma inv_dummy_store L x s t :
  inv L x s → consumer_ s = CDummy t →
  let s' := set_consumer (CExchange t) (set_links (<[_dummyPtr := None]> (links s)) s) in
  inv L x s' ∧ entries (links s') true L = entries (links s) true L.
Proof.
  intros Hi Hc s'. pose proof (inv_consumer _ _ _ Hi) as Hk. unfold consumer_ok in Hk. rewrite Hc in Hk.
  destruct Hk as [Ht Hd].
  assert (∀ m, m ∈ L ++ owned s → links s' !! m = links s !! m) as Hsame.
  { intros m Hm. cbn. rewrite lookup_insert_ne; [done|]. intros <-.
    apply elem_of_app in Hm as [Hm|Hm]; [done|by apply (inv_dummy _ _ _ Hi)]. }
  assert (∀ m, m ∈ L → links s' !! m = links s !! m) as HsameL by (intros m Hm; apply Hsame, elem_of_app; by left).
  assert (∀ m, m ∈ L → linked (links s') m = linked (links s) m) as Hlk by (intros m Hm; unfold linked; by rewrite HsameL).
  assert (∀ a b, pending s' a b ↔ pending s a b) as Hpend.
  { intros a b. unfold pending. cbn. split; (intros [?|[_ [k Hk]]]; [by left|]); [done|congruence]. }
  split; [|by apply entries_agree]. split.
  - apply (inv_tail _ _ _ Hi).
  - apply (inv_head _ _ _ Hi).
  - apply (inv_nodup _ _ _ Hi).
  - apply (inv_dummy _ _ _ Hi).
  - intros m. cbn. rewrite lookup_insert_is_Some, (inv_links _ _ _ Hi). destruct (decide (_dummyPtr = m)); naive_solver.
  - intros m Hm. rewrite Hsame by (apply elem_of_app; by right). by apply (inv_new _ _ _ Hi).
  - rewrite HsameL; [apply (inv_last _ _ _ Hi)|exact (head_in_list _ _ _ Hi)].
  - intros a b Hab. rewrite Hpend, HsameL by (by eapply adj_left). by apply (inv_adj _ _ _ Hi).
  - intros a b Hab%Hpend. destruct (inv_pending _ _ _ Hi a b Hab) as [H ?].
    by rewrite HsameL by (by eapply adj_left).
  - apply (inv_once _ _ _ Hi).
  - apply (inv_not_dummy _ _ _ Hi).
  - cbn. repeat split; [done..|apply lookup_insert_eq].
  - pose proof (inv_reason _ _ _ Hi) as Hr. unfold reason in *. by rewrite Hc in Hr.
  - intros _ m. rewrite (entries_agree _ _ _ _ Hlk). apply (inv_excuse _ _ _ Hi). by rewrite Hc.
Qed.

Lemma inv_dummy_exchange L x s t :
  inv L x s → consumer_ s = CExchange t →
  let s' := set_consumer (CLink t (_head s)) (set_head _dummyPtr s) in
  inv (L ++ [_dummyPtr]) x s' ∧ entries (links s') true (L ++ [_dummyPtr]) = entries (links s) true L.
Proof.
  intros Hi Hc s'. pose proof (inv_consumer _ _ _ Hi) as Hk. unfold consumer_ok in Hk. rewrite Hc in Hk.
  destruct Hk as (Ht & Hd & Hdl).
  assert (entries (links s') true (L ++ [_dummyPtr]) = entries (links s) true L) as He.
  { rewrite entries_snoc by (by eapply inv_nonempty). by rewrite Nat.eqb_refl, app_nil_r. }
  assert (∀ a b, pending s' a b ↔ pending s a b ∨ (a = _head s ∧ b = _dummyPtr)) as Hpend.
  { intros a b. unfold pending. cbn. split.
    - intros [H|[-> [k [= <- <-]]]]; [by left; left|by right].
    - intros [[H|[-> [k Hk]]]|[-> ->]]; [by left|congruence|right; eauto]. }
  assert (_dummyPtr ≠ t) as Hdt by (intros ->; apply Hd; rewrite Ht; by eapply tail_in_list).
  split; [|exact He]. split.
  - apply head_append, (inv_tail _ _ _ Hi).
  - apply last_snoc.
  - change (owned s') with (owned s). rewrite <- app_assoc, (Permutation_app_comm [_]), app_assoc, <- Permutation_cons_append.
    apply NoDup_cons. split; [|apply (inv_nodup _ _ _ Hi)]. intros [?|?]%elem_of_app; [done|by apply (inv_dummy _ _ _ Hi)].
  - apply (inv_dummy _ _ _ Hi).
  - intros m. change (owned s') with (owned s). change (links s') with (links s). rewrite (inv_links _ _ _ Hi), !elem_of_app, list_elem_of_singleton. naive_solver.
  - apply (inv_new _ _ _ Hi).
  - exact Hdl.
  - intros a b. rewrite adj_snoc, Hpend, (inv_head _ _ _ Hi). intros [Hadj|[[= <-] ->]].
    + destruct (inv_adj _ _ _ Hi a b Hadj) as [?|[? ?]]; [by left|right; auto].
    + right. split; [apply (inv_last _ _ _ Hi)|by right].
  - intros a b. rewrite adj_snoc, Hpend. intros [Hpe|[-> ->]].
    + destruct (inv_pending _ _ _ Hi a b Hpe). auto.
    + split; [|apply (inv_last _ _ _ Hi)]. right. split; [apply (inv_head _ _ _ Hi)|done].
  - apply (inv_once _ _ _ Hi).
  - apply (inv_not_dummy _ _ _ Hi).
  - cbn. split; [done|congruence].
  - pose proof (inv_reason _ _ _ Hi) as Hr. unfold reason in *. by rewrite Hc in Hr.
  - intros _ m. rewrite He. apply (inv_excuse _ _ _ Hi). by rewrite Hc.
Qed.

(** A first node without a link is the last one, or an [Enqueue] is at work. *)
Lemma stuck L x s :
  inv L x s → not_linking (consumer_ s) → links s !! _tail s = Some None →
  _head s = _tail s ∨ ∃ y, (y, false) ∈ entries (links s) true L.
Proof.
  intros Hi Hnl Ht. destruct (tail_first _ _ _ Hi) as [[|y L'] ->]; [left|right; exists y].
  - pose proof (inv_head _ _ _ Hi) as Hh. cbn in Hh. congruence.
  - assert (adj (_tail s :: y :: L') (_tail s) y) as Hadj by by left.
    apply (entries_unlinked _ _ _ _ _ Hadj); [unfold linked; by rewrite Ht|].
    destruct (inv_adj _ _ _ Hi _ _ Hadj) as [H|[_ [[p Hp]|[_ [k Hk]]]]]; [congruence| |by rewrite Hk in Hnl].
    by apply (inv_not_dummy _ _ _ Hi p (_tail s) y).
Qed.

Lemma single L x s : inv L x s → _head s = _tail s → L = [_tail s].
Proof.
  intros Hi Hht. destruct (tail_first _ _ _ Hi) as [[|y L'] ->]; [done|exfalso].
  pose proof (listed_NoDup _ _ _ Hi) as Hnd. apply NoDup_cons in Hnd as [Hn _]. apply Hn.
  pose proof (inv_head _ _ _ Hi) as Hh. rewrite last_cons_cons, Hht in Hh. by apply last_Some_elem_of in Hh.
Qed.

Lemma stuck_excused L x s :
  inv L x s → consumer_ s = CIdle → links s !! _tail s = Some None →
  (_head s = _tail s ∧ _tail s ≠ _dummyPtr) ∨ excused (entries (links s) true L) = true.
Proof.
  intros Hi Hc Ht. destruct (stuck L x s Hi) as [Hh|[y Hy]]; [by rewrite Hc|done| |].
  - destruct (decide (_tail s = _dummyPtr)) as [Hd|Hd]; [right|by left].
    rewrite (single _ _ _ Hi Hh). cbn. by rewrite Hd, Nat.eqb_refl.
  - right. by eapply excused_unlinked.
Qed.

Lemma inv_gives_up L x s : inv L x s → not_linking (consumer_ s) → inv L true (gives_up s).
Proof. intros Hi Hn. apply (inv_set_consumer L x true s _ Hi); done. Qed.

(** *** The simulation *)
(** The queue of [busy_step] behind the list of nodes. *)
Definition abstract (L i : list nat) (x : bool) (s : MPSCQueue) : busy_fifo nat :=
  mk_busy_fifo (entries (links s) true L) i (results s) x.

(** How many accesses a call has left, at most. *)
Definition rank (c : consumer) : nat :=
  match c with
  | CIdle => 7 | CSkip _ => 6 | CHead _ => 5 | CDummy _ => 4 | CExchange _ => 3 | CLink _ _ => 2 | CLast _ => 1
  end.

(** An access of a call: the call goes on, returns the first entry, or gives up
    with an excuse. *)
Definition advances (L : list nat) (x : bool) (s : MPSCQueue) (o : outcome Empty_set MPSCQueue) : Prop :=
  ∃ s' L', o = Done s' ∧ inv L' x s' ∧ producers s' = producers s ∧
    ((entries (links s) true L = entries (links s') true L' ∧ results s' = results s ∧
        consumer_ s' ≠ CIdle ∧ rank (consumer_ s') < rank (consumer_ s)) ∨
     (consumer_ s' = CIdle ∧ ∃ v, entries (links s) true L = (v, true) :: entries (links s') true L' ∧
        results s' = results s ++ [Some v]) ∨
     (consumer_ s' = CIdle ∧ x = true ∧ entries (links s) true L = entries (links s') true L' ∧
        results s' = results s ++ [None])).

Lemma advances_on L L' x s s' :
  inv L' x s' → entries (links s') true L' = entries (links s) true L → results s' = results s →
  producers s' = producers s → consumer_ s' ≠ CIdle → rank (consumer_ s') < rank (consumer_ s) →
  advances L x s (Done s').
Proof. intros Hi He Hr Hp Hc Hk. exists s', L'. split; [done|]. split; [done|]. split; [done|]. left. auto. Qed.

Lemma advances_fail L s : inv L true s → not_linking (consumer_ s) → advances L true s (Done (gives_up s)).
Proof.
  intros Hi Hn. exists (gives_up s), L. split; [done|]. split; [by eapply inv_gives_up|]. split; [done|].
  right. right. done.
Qed.

Lemma advances_take L x s n :
  inv L x s → _tail s ≠ _dummyPtr → links s !! _tail s = Some (Some n) → not_linking (consumer_ s) →
  advances L x s (Done (take (_tail s) n s)).
Proof.
  intros Hi Hd Ht Hn. destruct (inv_take L x s n Hi Hd Ht Hn) as (L' & Hi' & He).
  exists (take (_tail s) n s), L'. split; [done|]. split; [done|]. split; [done|]. right. left. split; [done|]. by exists (_tail s).
Qed.

(** The first access of a call. *)
Lemma call_advances L x s :
  inv L x s → consumer_ s = CIdle →
  let x' := excused (entries (links s) true L) in inv L x' s ∧ advances L x' s (consume s).
Proof.
  intros Hi Hc x'. assert (inv L x' s) as Hi'.
  { apply (inv_set_consumer L x x' s s Hi); rewrite ?Hc; try done;
      unfold consumer_ok, reason; by rewrite Hc. }
  split; [done|]. unfold consume. rewrite Hc. unfold load.
  destruct (list_has_link L x s (_tail s) Hi) as [[n|] Ht]; [by eapply tail_in_list| |];
    rewrite Ht; cbn [mbind outcome_bind]; destruct (Nat.eqb_spec (_tail s) _dummyPtr) as [Hd|Hd].
  - destruct (inv_skip L x' s n Hi' Hc Hd Ht) as (L' & Hi1 & He).
    eapply advances_on; [exact Hi1|done..|]. rewrite Hc. cbn. lia.
  - apply advances_take; [done..|]. by rewrite Hc.
  - destruct (stuck_excused L x s Hi Hc Ht) as [[_ ?]|Hx]; [done|]. fold x' in Hx. rewrite Hx in Hi' |- *.
    apply advances_fail; [done|]. by rewrite Hc.
  - apply (advances_on L L); try done; [|rewrite Hc; cbn; lia].
    apply (inv_set_consumer L x' x' s); rewrite ?Hc; try done.
    + cbn. by destruct (stuck_excused L x s Hi Hc Ht) as [[? _]|Hx]; [left|right].
    + intros _ m. apply excused_unlinked.
Qed.

(** The others. *)
Lemma consume_advances L x s : inv L x s → consumer_ s ≠ CIdle → advances L x s (consume s).
Proof.
  intros Hi Hne. pose proof (inv_consumer _ _ _ Hi) as Hk. pose proof (inv_reason _ _ _ Hi) as Hr.
  pose proof (inv_excuse _ _ _ Hi Hne) as Hx. pose proof (tail_in_list _ _ _ Hi) as Htl.
  destruct (list_has_link L x s (_tail s) Hi Htl) as [next Ht].
  unfold consume, consumer_ok, reason, load in *.
  destruct (consumer_ s) as [|t|t|t|t|t a|t] eqn:Hc; [done|..].
  - destruct Hk as [-> Hd]. rewrite Ht. cbn [mbind outcome_bind]. destruct next as [n|]; cbn [got_next].
    + apply advances_take; [done|by intros <-|done|by rewrite Hc].
    + apply (advances_on L L); try done; [|rewrite Hc; cbn; lia].
      apply (inv_set_consumer L x x s); rewrite ?Hc; try done.
      * split; [done|]. by intros <-.
      * cbn. destruct (stuck L x s Hi) as [?|[y Hy]]; [by rewrite Hc|done|by left|right; eauto].
  - destruct Hk as [-> Hd]. destruct (Nat.eqb_spec (_tail s) (_head s)) as [Hh|Hh].
    + apply (advances_on L L); try done; [|rewrite Hc; cbn; lia].
      apply (inv_set_consumer L x x s); rewrite ?Hc; try done.
      split; [done|]. rewrite (single _ _ _ Hi (eq_sym Hh)). intros ?%list_elem_of_singleton. congruence.
    + destruct Hr as [Hr| ->]; [congruence|]. apply advances_fail; [done|]. by rewrite Hc.
  - destruct (inv_dummy_store L x s t Hi Hc) as [Hi' He]. unfold store, load.
    destruct (dummy_has_link _ _ _ Hi) as [y Hy]. rewrite Hy.
    apply (advances_on L L); try done. rewrite Hc. cbn. lia.
  - destruct (inv_dummy_exchange L x s t Hi Hc) as [Hi' He].
    eapply advances_on; [exact Hi'|done..|]. rewrite Hc. cbn. lia.
  - assert (pending s a _dummyPtr) as Hpe by (right; eauto). pose proof (inv_consumer_link L x s t a Hi Hc) as Hi'.
    unfold store, load. destruct (inv_pending _ _ _ Hi _ _ Hpe) as [_ ->]. cbn [mbind outcome_bind].
    apply (advances_on L L); try done; [|rewrite Hc; cbn; lia].
    by destruct (entries_store L x s a _ Hi Hpe) as [[? _]|[? _]].
  - destruct Hk as [-> Hd]. rewrite Ht. cbn [mbind outcome_bind]. destruct next as [n|].
    + apply advances_take; [done..|by rewrite Hc].
    + unfold linked in Hr. rewrite Ht in Hr. destruct Hr as [?| ->]; [done|].
      apply advances_fail; [done|]. by rewrite Hc.
Qed.

Lemma advances_simulates L i x s o :
  advances L x s o →
  ∃ s' L', o = Done s' ∧ inv L' x s' ∧ rtc busy_step (abstract L i x s) (abstract L' i x s').
Proof.
  intros (s' & L' & Ho & Hi & _ & Hcase). exists s', L'. split; [done|]. split; [done|]. unfold abstract.
  destruct Hcase as [(-> & -> & _)|[(_ & v & -> & ->)|(_ & -> & -> & ->)]];
    [done|apply rtc_once, busy_dequeue|apply rtc_once, busy_fail].
Qed.

Lemma consume_simulates L i x s :
  inv L x s →
  ∃ s' L' x', consume s = Done s' ∧ inv L' x' s' ∧ rtc busy_step (abstract L i x s) (abstract L' i x' s').
Proof.
  intros Hi. assert (consumer_ s = CIdle ∨ consumer_ s ≠ CIdle) as [Hc|Hc] by (destruct (consumer_ s); auto).
  - destruct (call_advances L x s Hi Hc) as [_ Ha].
    destruct (advances_simulates L i _ s _ Ha) as (s' & L' & ? & ? & ?).
    exists s', L', (excused (entries (links s) true L)). split; [done|]. split; [done|].
    etrans; [apply rtc_once, busy_call|done].
  - destruct (advances_simulates L i _ s _ (consume_advances L x s Hi Hc)) as (s' & L' & ? & ? & ?).
    by exists s', L', x.
Qed.

(** The nodes in the order of the producers' exchanges. *)
Definition exchanged (s : MPSCQueue) (e : event) : list nat :=
  match e with
  | EExchange p => match producers s !! p with Some x => producer_nodes x | None => [] end
  | _ => []
  end.
Fixpoint exchanges (s : MPSCQueue) (es : list event) : list nat :=
  match es with
  | [] => []
  | e :: es => exchanged s e ++ match step s e with Done s => exchanges s es | _ => [] end
  end.

Lemma step_is_busy L i x s e :
  inv L x s →
  ∃ s' L' x', step s e = Done s' ∧ inv L' x' s' ∧
    rtc busy_step (abstract L i x s) (abstract L' (i ++ exchanged s e) x' s').
Proof.
  intros Hi. destruct e as [p n|p|p|]; cbn [step exchanged]; rewrite ?app_nil_r; [| | |by apply consume_simulates].
  - destruct (producers s !! p) as [[]|] eqn:Hp; [|by exists s, L, x..].
    destruct (links s !! n) eqn:Hn; [by exists s, L, x|].
    destruct (inv_EStore L x s p n Hi Hp Hn) as [Hi' He]. eexists _, L, x. split; [done|].
    split; [exact Hi'|]. unfold abstract. by rewrite He.
  - destruct (producers s !! p) as [[|n|]|] eqn:Hp; cbn [producer_nodes]; rewrite ?app_nil_r;
      [by exists s, L, x| |by exists s, L, x..].
    destruct (inv_producer_exchange L x s p n Hi Hp) as [Hi' He]. eexists _, _, _. split; [done|].
    split; [exact Hi'|]. unfold abstract. rewrite He. apply rtc_once, busy_enqueue.
  - destruct (producers s !! p) as [[| |a b]|] eqn:Hp; [by exists s, L, x..| |by exists s, L, x].
    assert (pending s a b) as Hpe by (left; eauto). pose proof (inv_producer_link L x s p a b Hi Hp) as Hi'.
    unfold store, load. destruct (inv_pending _ _ _ Hi _ _ Hpe) as [_ ->]. cbn [mbind outcome_bind].
    eexists _, L, x. split; [done|]. split; [exact Hi'|]. unfold abstract.
    cbn [links results set_producer set_links].
    destruct (entries_store L x s a b Hi Hpe) as [[-> _]|(_ & q1 & q2 & -> & ->)]; [done|apply rtc_once, busy_link].
Qed.

Lemma run_is_busy L i x s es :
  inv L x s →
  ∃ s' L' x', run s es = Done s' ∧ inv L' x' s' ∧
    rtc busy_step (abstract L i x s) (abstract L' (i ++ exchanges s es) x' s').
Proof.
  revert L i x s. induction es as [|e es IH]; intros L i x s Hi; cbn.
  { rewrite app_nil_r. by exists s, L, x. }
  destruct (step_is_busy L i x s e Hi) as (s1 & L1 & x1 & He & Hi1 & Hr1). rewrite He. cbn.
  destruct (IH L1 (i ++ exchanged s e) x1 s1 Hi1) as (s' & L' & x' & Hes & Hi' & Hr').
  exists s', L', x'. rewrite app_assoc. split; [exact Hes|]. split; [exact Hi'|]. by etrans.
Qed.

Lemma new_refines n es :
  ∃ s L x, run (new_MPSCQueue n) es = Done s ∧ inv L x s ∧
    rtc busy_step (mk_busy_fifo [] [] [] false) (abstract L (exchanges (new_MPSCQueue n) es) x s) ∧
    omap id (results s) ++ (entries (links s) true L).*1 = exchanges (new_MPSCQueue n) es.
Proof.
  destruct (run_is_busy [_dummyPtr] [] false _ es (inv_initial n)) as (s & L & x & Hrun & Hi & Hr).
  assert (abstract [_dummyPtr] [] false (new_MPSCQueue n) = mk_busy_fifo [] [] [] false) as Ha
    by (unfold abstract; cbn; by rewrite Nat.eqb_refl).
  rewrite Ha in Hr. exists s, L, x. split; [done|]. split; [done|]. split; [done|].
  exact (busy_order _ _ Hr eq_refl).
Qed.

Lemma run_no_dummy L x s es : inv L x s → _dummyPtr ∉ exchanges s es.
Proof.
  revert L x s. induction es as [|e es IH]; intros L x s Hi; cbn [exchanges]; [apply not_elem_of_nil|].
  rewrite elem_of_app. intros [Hd|Hd].
  - destruct e; cbn in Hd; try by apply elem_of_nil in Hd.
    destruct (producers s !! p) as [y|] eqn:Hp; [|by apply elem_of_nil in Hd].
    apply (inv_dummy _ _ _ Hi), elem_of_concat_producers. exists p. rewrite Hp.
    destruct y; cbn in Hd; try by apply elem_of_nil in Hd. apply list_elem_of_singleton in Hd. congruence.
  - destruct (step_is_busy L [] x s e Hi) as (s1 & L1 & x1 & Hs & Hi1 & _). rewrite Hs in Hd.
    by apply (IH L1 x1 s1).
Qed.

(** *** Calls with no producer inside *)
Definition idle (s : MPSCQueue) : Prop :=
  (∀ p x, producers s !! p = Some x → x = PIdle) ∧ consumer_ s = CIdle.

Lemma unlinked_adj h L n b0 :
  (n, false) ∈ entries h b0 L → (b0 = false ∧ head L = Some n) ∨ ∃ a, adj L a n ∧ linked h a = false.
Proof.
  revert b0. induction L as [|m L IH]; intros b0; cbn [entries]; [by intros ?%elem_of_nil|].
  intros [Hn|Hn]%elem_of_app.
  - left. destruct (Nat.eqb m _dummyPtr); [by apply elem_of_nil in Hn|]. apply list_elem_of_singleton in Hn.
    by injection Hn as -> <-.
  - right. destruct (IH _ Hn) as [[Hm Hh]|(a & Ha & Hl)].
    + exists m. split; [|done]. apply adj_cons. by left.
    + exists a. split; [|done]. apply adj_cons. by right.
Qed.

(** Nothing is left half done once the threads are outside the queue. *)
Lemma idle_linked L x s : inv L x s → idle s → excused (entries (links s) true L) = true → entries (links s) true L = [].
Proof.
  intros Hi [Hp Hc] Hx. assert (∀ n, (n, false) ∉ entries (links s) true L) as Hno.
  { intros n Hn. destruct (unlinked_adj _ _ _ _ Hn) as [[? _]|(a & Hadj & Hl)]; [done|].
    destruct (inv_adj _ _ _ Hi a n Hadj) as [H|[_ [[p Hpe]|[_ [t Ht]]]]].
    - unfold linked in Hl. by rewrite H in Hl.
    - by apply Hp in Hpe.
    - congruence. }
  destruct (entries (links s) true L) as [|e q]; [done|exfalso].
  apply existsb_exists in Hx as ([n []] & Hin & Hb); [done|]. apply (Hno n). by apply list_elem_of_In.
Qed.

(** What a call returns: the first entry, or nothing if the queue is empty or
    the excuse [x] is there. *)
Definition returned (x : bool) (L : list nat) (s : MPSCQueue) (L' : list nat) (s' : MPSCQueue) : Prop :=
  consumer_ s' = CIdle ∧ producers s' = producers s ∧
  ((∃ v, entries (links s) true L = (v, true) :: entries (links s') true L' ∧ results s' = results s ++ [Some v]) ∨
   (x = true ∧ entries (links s) true L = entries (links s') true L' ∧ results s' = results s ++ [None])).

Lemma finish_idle fuel s : consumer_ s = CIdle → finish fuel s = Done s.
Proof. intros Hc. destruct fuel; cbn; by rewrite Hc. Qed.

Lemma finish_returns fuel L x s :
  inv L x s → consumer_ s ≠ CIdle → rank (consumer_ s) ≤ fuel →
  ∃ s' L', finish fuel s = Done s' ∧ inv L' x s' ∧ returned x L s L' s'.
Proof.
  revert L s. induction fuel as [|fuel IH]; intros L s Hi Hne Hf; [destruct (consumer_ s); cbn in Hf; lia|].
  assert (finish (S fuel) s = (s ← consume s; finish fuel s)) as -> by (cbn; by destruct (consumer_ s)).
  destruct (consume_advances L x s Hi Hne) as (s1 & L1 & -> & Hi1 & Hp1 & Hcase). cbn [mbind outcome_bind].
  destruct Hcase as [(He & Hr & Hne1 & Hk)|Hcase].
  - destruct (IH L1 s1 Hi1 Hne1) as (s' & L' & Hfin & Hi' & Hc' & Hp' & Hret); [lia|].
    exists s', L'. split; [done|]. split; [done|]. unfold returned. rewrite He, <- Hr, <- Hp1. done.
  - assert (consumer_ s1 = CIdle) as Hc1 by (by destruct Hcase as [[? _]|[? _]]).
    exists s1, L1. split; [by apply finish_idle|]. split; [done|]. split; [done|]. split; [done|].
    destruct Hcase as [[_ ?]|[_ ?]]; [by left|by right].
Qed.

(** [Dequeue] is wait-free: seven accesses at most. *)
Lemma Dequeue_returns L x s :
  inv L x s → consumer_ s = CIdle → let x' := excused (entries (links s) true L) in
  ∃ s' L', Dequeue s = Done s' ∧ inv L' x' s' ∧ returned x' L s L' s'.
Proof.
  intros Hi Hc x'. destruct (call_advances L x s Hi Hc) as [_ (s1 & L1 & Hs1 & Hi1 & Hp1 & Hcase)]. fold x' in Hi1.
  unfold Dequeue. rewrite Hs1. cbn [mbind outcome_bind]. destruct Hcase as [(He & Hr & Hne1 & Hk)|Hcase].
  - destruct (finish_returns 6 L1 x' s1 Hi1 Hne1) as (s' & L' & Hfin & Hi' & Hc' & Hp' & Hret);
      [rewrite Hc in Hk; cbn in Hk; lia|].
    exists s', L'. split; [done|]. split; [done|]. unfold returned. rewrite He, <- Hr, <- Hp1. done.
  - assert (consumer_ s1 = CIdle) as Hc1 by (by destruct Hcase as [[? _]|[? _]]).
    exists s1, L1. split; [by apply finish_idle|]. split; [done|]. split; [done|]. split; [done|].
    destruct Hcase as [[_ ?]|[_ ?]]; [by left|by right].
Qed.

Lemma destroy_empties fuel L x s :
  inv L x s → idle s → length (entries (links s) true L) < fuel →
  ∃ s' L' x', destroy fuel s = Done s' ∧ inv L' x' s' ∧ idle s' ∧ entries (links s') true L' = [] ∧
    omap id (results s') = omap id (results s) ++ (entries (links s) true L).*1.
Proof.
  revert L x s. induction fuel as [|fuel IH]; intros L x s Hi Hidle Hf; [lia|]. cbn [destroy].
  destruct (Dequeue_returns L x s Hi (proj2 Hidle)) as (s1 & L1 & -> & Hi1 & Hc1 & Hp1 & Hret).
  assert (idle s1) as Hidle1 by (split; [rewrite Hp1; apply Hidle|done]). cbn [mbind outcome_bind].
  destruct Hret as [(v & He & Hr)|(Hx & He & Hr)]; rewrite Hr, last_snoc.
  - rewrite He in Hf |- *. cbn in Hf.
    destruct (IH L1 _ s1 Hi1 Hidle1) as (s' & L' & x' & -> & Hi' & Hidle' & He' & Hres); [lia|].
    exists s', L', x'. repeat (split; [done|]). rewrite Hres, Hr, omap_app. cbn. by rewrite <- app_assoc.
  - pose proof (idle_linked L x s Hi Hidle Hx) as Hnil. rewrite Hnil in He |- *.
    eexists s1, L1, _. split; [done|]. split; [exact Hi1|]. split; [done|]. split; [done|].
    rewrite Hr, omap_app. cbn. by rewrite app_nil_r.
Qed.

Lemma entries_nil h b L : entries h b L = [] → ∀ n, n ∈ L → n = _dummyPtr.
Proof.
  revert b. induction L as [|m L IH]; intros b He n Hn; [by apply elem_of_nil in Hn|]. cbn in He.
  apply app_eq_nil in He as [Hm He]. destruct (Nat.eqb_spec m _dummyPtr); [|done].
  apply elem_of_cons in Hn as [->|Hn]; [done|by eapply IH].
Qed.

Lemma exchanged_count s es : length (exchanges s es) ≤ length es.
Proof.
  revert s. induction es as [|e es IH]; intros s; cbn; [done|]. rewrite length_app.
  assert (length (exchanged s e) ≤ 1).
  { destruct e; cbn; try lia. destruct (producers s !! p) as [[]|]; cbn; lia. }
  destruct (step s e); cbn; [specialize (IH a); lia|lia..].
Qed.

(** *** Properties *)

(** C37 MPSCQueueIntrusive refines a FIFO queue whose [Dequeue] may fail with an
    excuse: however the accesses of any number of producers interleave with
    those of the consumer, no access is to a node that was returned, the nodes
    the consumer has got are, in order, the first ones exchanged, the rest is
    still in the queue, and a [Dequeue] fails only if at some time since it
    began the queue was empty or an [Enqueue] had not linked its node.  The
    dummy node, which goes in and out of the list, is never returned. *)
Theorem intrusive_refines_fifo (n : nat) (es : list event) :
  ∃ s a, run (new_MPSCQueue n) es = Done s ∧ rtc busy_step (mk_busy_fifo [] [] [] false) a ∧
    b_results a = results s ∧ b_inputs a = exchanges (new_MPSCQueue n) es ∧
    omap id (results s) ++ (b_queue a).*1 = exchanges (new_MPSCQueue n) es ∧
    _dummyPtr ∉ exchanges (new_MPSCQueue n) es.
Proof.
  destruct (new_refines n es) as (s & L & x & Hrun & Hi & Hr & Ho).
  exists s, (abstract L (exchanges (new_MPSCQueue n) es) x s). repeat (split; [done|]).
  apply run_no_dummy with [_dummyPtr] false. apply inv_initial.
Qed.

(** The destructor hands back everything: called when no thread is inside the
    queue, whatever happened before, it returns, the nodes the consumer got
    together with those it deletes are all the nodes that were exchanged, once
    each and in order, and the queue holds no node but its own dummy. *)
Theorem intrusive_destructor (n : nat) (es : list event) (s : MPSCQueue)
    (Hrun : run (new_MPSCQueue n) es = Done s) (Hidle : idle s) :
  ∃ s', destroy (S (length es)) s = Done s' ∧ omap id (results s') = exchanges (new_MPSCQueue n) es ∧
    ∀ m, is_Some (links s' !! m) ↔ m = _dummyPtr.
Proof.
  destruct (new_refines n es) as (s1 & L & x & Hrun' & Hi & _ & Ho).
  rewrite Hrun in Hrun'. injection Hrun' as <-.
  assert (length (entries (links s) true L) < S (length es)) as Hlen.
  { pose proof (exchanged_count (new_MPSCQueue n) es) as Hl. rewrite <- Ho, length_app, length_fmap in Hl. lia. }
  destruct (destroy_empties _ L x s Hi Hidle Hlen) as (s' & L' & x' & Hd & Hi' & [Hp' _] & He' & Hres).
  exists s'. split; [done|]. split; [by rewrite Hres|]. intros m. rewrite (inv_links _ _ _ Hi'). split; [|by left].
  intros [->|[Hm|Hm]%elem_of_app]; [done|by eapply entries_nil|].
  apply elem_of_concat_producers in Hm as [p Hp]. by apply Hp' in Hp.
Qed.
End Queue.
End Intrusive.

(** ** Concrete runs *)

(** The dummy node goes back in while a producer is on its way: the call gives
    up, and the next one gets the entry. *)
Example dequeue_gives_up :
  let es := [Intrusive.EStore 0 1; Intrusive.EExchange 0; Intrusive.ELink 0;
             Intrusive.EConsume; Intrusive.EConsume; Intrusive.EConsume; Intrusive.EStore 1 2; Intrusive.EConsume;
             Intrusive.EExchange 1; Intrusive.EConsume; Intrusive.EConsume; Intrusive.EConsume; Intrusive.ELink 1;
             Intrusive.EConsume; Intrusive.EConsume] in
  match Intrusive.run 0 (Intrusive.new_MPSCQueue 0 2) es with
  | Done s => Intrusive.results s = [None; Some 1; Some 2]
  | _ => False
  end.
Proof. vm_compute. done. Qed.

Lemma intrusive_destructor_witness :
  let es := [Intrusive.EStore 0 1; Intrusive.EStore 1 2; Intrusive.EExchange 1;
             Intrusive.EExchange 0; Intrusive.ELink 0; Intrusive.ELink 1] in
  ∃ s s', Intrusive.run 0 (Intrusive.new_MPSCQueue 0 2) es = Done s ∧
    Intrusive.destroy 0 (S (length es)) s = Done s' ∧ omap id (Intrusive.results s') = [2; 1].
Proof.
  intros es. let o := eval vm_compute in (Intrusive.run 0 (Intrusive.new_MPSCQueue 0 2) es) in
    match o with Done ?s => exists s end.
  match goal with |- ∃ s', Intrusive.run _ _ _ = Done ?s ∧ _ =>
    destruct (Intrusive.intrusive_destructor 0 2 es s eq_refl) as (s' & Hd & Hr & _) end.
  { split; [|reflexivity]. intros [|[|p]] x Hx; vm_compute in Hx; congruence. }
  exists s'. split; [reflexivity|]. split; [exact Hd|]. rewrite Hr. reflexivity.
Defined.
