(* ===== verification/DBUpdater.v ===== *)
(** * The database updater: server/database/Updater/DBUpdater.cpp

    Creating a database, filling an empty one, and bringing one up to date with
    the fetcher of [Fetcher].

    - The server is an interface [Server]: which tables there are, and what
      the statements of the fetcher do; the mysql client is [run_mysql], from
      its path, its arguments and the file create_table.sql to its exit code.
    - The state [updater] holds the database, the path DBUpdaterUtil has
      corrected, and the temporary file.
    - The log and the progress bar are not modelled; the platform is Linux. *)
From S2P Require Import Prelude CppString Convert Config Connection Fetcher.

(** What of [DatabaseWorkerPool] the updater uses. *)
Record updater_pool := mk_updater_pool {
  GetPoolName : string;
  GetType : Z;
  GetConnectionInfo : MySQLConnectionInfo;
  GetPathToExtraFile : string }.

Class Server (DB : Type) := {
  show_tables_like : string → DB → bool;         (* a result that is not null *)
  show_tables : DB → option nat;                 (* its rows *)
  direct_execute : stmt → DB → DB;
  select_updates : DB → option (list update_row);
  select_includes : DB → option (list (string * string)) }.

Definition SQL_BASE_DIR : string := "/data/sql/base/".

Definition GetConfigEntry (pool : updater_pool) : string := "Updates." +:+ GetPoolName pool.
Definition GetTableName (pool : updater_pool) : string := GetPoolName pool.
Definition GetDBModuleName (pool : updater_pool) : string := "db_" +:+ lower (GetPoolName pool) +:+ "/".
Definition IsEnabled (pool : updater_pool) (updateMask : Z) : bool :=
  negb (Z.land updateMask (GetType pool) =? 0)%Z.

(** The arguments of the mysql client; [mysql8]: built for MySQL 8 or later. *)
Definition connection_args (port_or_socket : string) (digit : bool) : list string :=
  if negb digit then ["-P0"; "--protocol=SOCKET"; "-S" +:+ port_or_socket] else ["-P" +:+ port_or_socket].

Definition client_args (mysql8 : bool) (extra host user port_or_socket : string) (digit : bool)
    (database ssl path : string) : list string :=
  ["--defaults-extra-file=" +:+ extra; "-h" +:+ host; "-u" +:+ user]
  ++ connection_args port_or_socket digit
  ++ ["--default-character-set=utf8mb4"; "--max-allowed-packet=1GB"]
  ++ (if String.eqb ssl "ssl" then [if mysql8 then "--ssl-mode=REQUIRED" else "--ssl"] else [])
  ++ ["-e"; "BEGIN; SOURCE " +:+ path +:+ "; COMMIT;"]
  ++ (if is_empty database then [] else [database]).

Section DBUpdater.
Context {DB : Type} `{Server DB} (m : machine) (cfg : ConfigState).
(** The machine: the files, the search in PATH, absolute paths, the entries of
    a directory, the revision built in, and the client. *)
Context (is_regular_file : string → bool) (SearchExecutableInPath : string → string)
  (absolute : string → string) (directory_iterator : string → list string)
  (revision_source_dir revision_mysql : string) (mysql8 : bool)
  (run_mysql : string → list string → option string → DB → Z * DB).

Record updater := mk_updater {
  up_db : DB;
  corrected_path : string;
  temp_file : option string }.

Abbreviation UP := (SM string updater).

Definition set_db (db : DB) (u : updater) : updater := mk_updater db (corrected_path u) (temp_file u).
Definition set_temp (t : option string) (u : updater) : updater := mk_updater (up_db u) (corrected_path u) t.

(** *** DBUpdaterUtil *)
Definition GetSourceDirectory : string :=
  GetStringWithDefaultValueFromFunction "SourceDirectory" revision_source_dir cfg.

Definition GetCorrectedMySQLExecutable (u : updater) : string :=
  if negb (is_empty (corrected_path u)) then corrected_path u
  else GetStringWithDefaultValueFromFunction "MySQLExecutable" revision_mysql cfg.

Definition CheckExecutable : UP bool :=
  u ← get_state;
  if negb (is_regular_file (GetCorrectedMySQLExecutable u)) then
    let exe := SearchExecutableInPath "mysql" in
    if negb (is_empty exe) && is_regular_file exe then
      _ ← modify_state (λ u, mk_updater (up_db u) (absolute exe) (temp_file u));
      mret true
    else mret false
  else mret true.

Definition GetBaseFilesDirectory (pool : updater_pool) : string :=
  GetSourceDirectory +:+ SQL_BASE_DIR +:+ GetDBModuleName pool.

(** *** ApplyFile: the long one, and the one for the database of the pool.
    [port_or_socket] is a [string_view]: it has no first character when it is
    empty. *)
Definition ApplyFile_with (pool : updater_pool) (host user port_or_socket database ssl path : string) : UP unit :=
  match port_or_socket with
  | EmptyString => abort "port_or_socket[0] of an empty view"
  | String c _ =>
      u ← get_state;
      let args := client_args mysql8 (GetPathToExtraFile pool) host user port_or_socket (isdigit c) database ssl path in
      let '(ret, db) := run_mysql (GetCorrectedMySQLExecutable u) args (temp_file u) (up_db u) in
      _ ← modify_state (set_db db);
      if negb (ret =? 0)%Z then throw "update failed" else mret ()
  end.

Definition ApplyFile (pool : updater_pool) (path : string) : UP unit :=
  let info := GetConnectionInfo pool in
  ApplyFile_with pool (Host info) (User info) (PortOrSocket info) (Database info) (SSL info) path.

(** *** Create; [answer] is the line of the standard input, [opens] whether the
    temporary file can be written. *)
Definition create_statement (database : string) : string :=
  "CREATE DATABASE `" +:+ database +:+ "` DEFAULT CHARACTER SET UTF8MB4 COLLATE utf8mb4_general_ci;"
  +:+ String newline (String newline "").

Definition Create (pool : updater_pool) (answer : string) (opens : bool) : UP bool :=
  if negb (is_empty answer) && negb (String.eqb (String.substring 0 1 answer) "y") then mret false
  else if negb opens then mret false
  else
    let info := GetConnectionInfo pool in
    _ ← modify_state (set_temp (Some (create_statement (Database info))));
    ok ← try_catch
      (_ ← ApplyFile_with pool (Host info) (User info) (PortOrSocket info) "" (SSL info) "create_table.sql"; mret true)
      (λ _, mret false);
    _ ← modify_state (set_temp None);
    mret ok.

(** *** Update *)
Definition CheckUpdateTable (pool : updater_pool) (tableName : string) : UP bool :=
  u ← get_state;
  if negb (show_tables_like tableName (up_db u)) then
    try_catch
      (_ ← ApplyFile pool (GetBaseFilesDirectory pool +:+ tableName +:+ ".sql"); mret true)
      (λ _, mret false)
  else mret true.

(** The closures [Update] hands to the fetcher. *)
#[local] Instance updater_db (pool : updater_pool) : UpdateDB updater := {
  db_apply s u := set_db (direct_execute s (up_db u)) u;
  db_applyFile path u :=
    match ApplyFile pool path u with
    | (Done _, u) => Done u
    | (Throw e, _) => Throw e
    | (Crash w, _) => Crash w
    end;
  db_updates u := select_updates (up_db u);
  db_includes u := select_includes (up_db u) }.

Section Update.
Context (order : gmap string AppliedFileEntry → list (string * AppliedFileEntry)) (speed : string → Z).

Definition run_fetcher (pool : updater_pool) (setDirectories : option (list string)) (modulesList : string)
    (u : updater) : outcome string UpdateResult * @update_state updater :=
  Fetcher.Update (H := updater_db pool) m cfg order speed
    (mk_UpdateFetcher GetSourceDirectory (GetDBModuleName pool) setDirectories modulesList)
    (mk_update_state u ∅ 0 []).

(** The overload with a list of modules hands the fetcher no directories; the
    other one, which only differs in that and in the log, follows. *)
Definition Update (pool : updater_pool) (setDirectories : option (list string)) (modulesList : string) : UP bool :=
  found ← CheckExecutable;
  if negb found then mret false
  else if negb (is_directory m GetSourceDirectory) then mret false
  else
    ok ← CheckUpdateTable pool "updates";
    if negb ok then mret false
    else
      ok ← CheckUpdateTable pool "updates_include";
      if negb ok then mret false
      else
        u ← get_state;
        match run_fetcher pool setDirectories modulesList u with
        | (Done _, us) => _ ← modify_state (λ _, us_db us); mret true
        | (Throw _, us) => _ ← modify_state (λ _, us_db us); mret false
        | (Crash w, us) => _ ← modify_state (λ _, us_db us); abort w
        end.

Definition Update_directories (pool : updater_pool) (setDirectories : option (list string)) : UP bool :=
  Update pool setDirectories "".
End Update.

(** *** Populate *)
Definition sql_files (dirPath : string) : list string :=
  List.filter (λ p, String.eqb (path_extension p) ".sql") (directory_iterator dirPath).

Fixpoint Populate_loop (pool : updater_pool) (paths : list string) : UP bool :=
  match paths with
  | [] => mret true
  | path :: paths =>
      if negb (String.eqb (path_extension path) ".sql") then Populate_loop pool paths
      else
        ok ← try_catch (_ ← ApplyFile pool path; mret true) (λ _, mret false);
        if negb ok then mret false else Populate_loop pool paths
  end.

(** [result && (result->GetRowCount() > 0)] *)
Definition has_tables (db : DB) : bool :=
  match show_tables db with Some rows => (0 <? rows)%nat | None => false end.

Definition Populate (pool : updater_pool) : UP bool :=
  u ← get_state;
  if has_tables (up_db u) then mret true
  else
    found ← CheckExecutable;
    if negb found then mret false
    else
      let dirPath := GetBaseFilesDirectory pool in
      if is_empty dirPath then mret false
      else if negb (is_directory m dirPath) then mret false
      else if (length (sql_files dirPath) =? 0)%nat then mret false
      else Populate_loop pool (directory_iterator dirPath).

(** ** Lemmas *)
Lemma CheckExecutable_Done u :
  ∃ u', CheckExecutable u =
    (Done (is_regular_file (GetCorrectedMySQLExecutable u) ||
           negb (is_empty (SearchExecutableInPath "mysql")) && is_regular_file (SearchExecutableInPath "mysql")), u') ∧
    up_db u' = up_db u ∧ temp_file u' = temp_file u.
Proof.
  unfold CheckExecutable. sm_unfold. destruct (is_regular_file (GetCorrectedMySQLExecutable u)); cbn; [by eexists|].
  destruct (negb (is_empty _) && _); by eexists.
Qed.

(** [ApplyFile] only changes the database. *)
Lemma ApplyFile_with_cases pool host user port database ssl path u :
  port ≠ "" →
  let args := client_args mysql8 (GetPathToExtraFile pool) host user port
    match port with String c _ => isdigit c | _ => false end database ssl path in
  let '(ret, db) := run_mysql (GetCorrectedMySQLExecutable u) args (temp_file u) (up_db u) in
  ApplyFile_with pool host user port database ssl path u =
    ((if (ret =? 0)%Z then Done () else Throw "update failed"), set_db db u).
Proof.
  intros Hp. destruct port as [|c port]; [done|]. cbn zeta. unfold ApplyFile_with. sm_unfold.
  destruct (run_mysql _ _ _ _) as [ret db]. by destruct (ret =? 0)%Z.
Qed.

Lemma ApplyFile_outcome pool path u :
  PortOrSocket (GetConnectionInfo pool) ≠ "" →
  ∃ db, ApplyFile pool path u = (Done (), set_db db u) ∨ ApplyFile pool path u = (Throw "update failed", set_db db u).
Proof.
  intros Hp. unfold ApplyFile.
  pose proof (ApplyFile_with_cases pool (Host (GetConnectionInfo pool)) (User (GetConnectionInfo pool))
    (PortOrSocket (GetConnectionInfo pool)) (Database (GetConnectionInfo pool)) (SSL (GetConnectionInfo pool))
    path u Hp) as Hc. cbn zeta in Hc. destruct (run_mysql _ _ _ _) as [ret db]. exists db. rewrite Hc.
  destruct (ret =? 0)%Z; auto.
Qed.

(** [try { ApplyFile(…); } catch (UpdateException&) { return false; }] *)
Lemma try_ApplyFile pool path u :
  PortOrSocket (GetConnectionInfo pool) ≠ "" →
  ∃ b db, try_catch (_ ← ApplyFile pool path; mret true) (λ _ : string, mret false) u = (Done b, set_db db u) ∧
    ApplyFile pool path u = ((if b then Done () else Throw "update failed"), set_db db u).
Proof.
  intros Hp. destruct (ApplyFile_outcome pool path u Hp) as (db & [E|E]);
    [exists true, db|exists false, db]; sm_unfold; by rewrite E.
Qed.

Lemma CheckUpdateTable_cases pool t u :
  PortOrSocket (GetConnectionInfo pool) ≠ "" →
  (show_tables_like t (up_db u) = true ∧ CheckUpdateTable pool t u = (Done true, u)) ∨
  (show_tables_like t (up_db u) = false ∧ ∃ b db,
     CheckUpdateTable pool t u = (Done b, set_db db u) ∧
     ApplyFile pool (GetBaseFilesDirectory pool +:+ t +:+ ".sql") u =
       ((if b then Done () else Throw "update failed"), set_db db u)).
Proof.
  intros Hp.
  assert (CheckUpdateTable pool t u =
    if show_tables_like t (up_db u) then (Done true, u)
    else try_catch (_ ← ApplyFile pool (GetBaseFilesDirectory pool +:+ t +:+ ".sql"); mret true)
           (λ _ : string, mret false) u) as Hc
    by (unfold CheckUpdateTable; cbv [mbind SM_bind get_state]; by destruct (show_tables_like t (up_db u))).
  destruct (show_tables_like t (up_db u)); [by left|right]. split; [done|]. rewrite Hc.
  destruct (try_ApplyFile pool (GetBaseFilesDirectory pool +:+ t +:+ ".sql") u Hp) as (b & db & E1 & E2).
  exists b, db. split; [exact E1|exact E2].
Qed.

(** The base files updates.sql and updates_include.sql create their tables and
    leave the other tables there. *)
Definition base_files_create (pool : updater_pool) : Prop :=
  ∀ t u u', t ∈ ["updates"; "updates_include"] → ApplyFile pool (GetBaseFilesDirectory pool +:+ t +:+ ".sql") u = (Done (), u') →
    show_tables_like t (up_db u') = true ∧
    ∀ t', show_tables_like t' (up_db u) = true → show_tables_like t' (up_db u') = true.

Lemma CheckUpdateTable_ensures pool t u :
  PortOrSocket (GetConnectionInfo pool) ≠ "" → base_files_create pool → t ∈ ["updates"; "updates_include"] →
  ∃ b u', CheckUpdateTable pool t u = (Done b, u') ∧
    (show_tables_like t (up_db u) = true → b = true ∧ u' = u) ∧
    (b = true → show_tables_like t (up_db u') = true ∧
       ∀ t', show_tables_like t' (up_db u) = true → show_tables_like t' (up_db u') = true).
Proof.
  intros Hp Hbase Hin. destruct (CheckUpdateTable_cases pool t u Hp) as [[Ht E]|(Ht & b & db & E & Ea)].
  - exists true, u. auto.
  - exists b, (set_db db u). split; [exact E|]. split; [congruence|]. intros ->. by apply Hbase in Ea.
Qed.

(** The rest of [Update], once the client and the source directory are there. *)
Definition Update_rest (order : gmap string AppliedFileEntry → list (string * AppliedFileEntry))
    (speed : string → Z) (pool : updater_pool) (setDirectories : option (list string)) (modulesList : string)
    : UP bool :=
  ok ← CheckUpdateTable pool "updates";
  if negb ok then mret false
  else
    ok ← CheckUpdateTable pool "updates_include";
    if negb ok then mret false
    else
      u ← get_state;
      match run_fetcher order speed pool setDirectories modulesList u with
      | (Done _, us) => _ ← modify_state (λ _, us_db us); mret true
      | (Throw _, us) => _ ← modify_state (λ _, us_db us); mret false
      | (Crash w, us) => _ ← modify_state (λ _, us_db us); abort w
      end.

Lemma Update_rest_eq order speed pool setDirectories modulesList u :
  Update_rest order speed pool setDirectories modulesList u =
    match CheckUpdateTable pool "updates" u with
    | (Done false, u1) => (Done false, u1)
    | (Done true, u1) =>
        match CheckUpdateTable pool "updates_include" u1 with
        | (Done false, u2) => (Done false, u2)
        | (Done true, u2) =>
            match run_fetcher order speed pool setDirectories modulesList u2 with
            | (Done _, us) => (Done true, us_db us)
            | (Throw _, us) => (Done false, us_db us)
            | (Crash w, us) => (Crash w, us_db us)
            end
        | (Throw e, u2) => (Throw e, u2)
        | (Crash w, u2) => (Crash w, u2)
        end
    | (Throw e, u1) => (Throw e, u1)
    | (Crash w, u1) => (Crash w, u1)
    end.
Proof.
  unfold Update_rest. cbv [mbind SM_bind get_state].
  destruct (CheckUpdateTable pool "updates" u) as [[[]|e|w] u1]; try done. cbn [negb].
  destruct (CheckUpdateTable pool "updates_include" u1) as [[[]|e|w] u2]; try done. cbn [negb].
  by destruct (run_fetcher _ _ _ _ _ u2) as [[r|e|w] us].
Qed.

Lemma Update_rest_cases order speed pool setDirectories modulesList u :
  PortOrSocket (GetConnectionInfo pool) ≠ "" → base_files_create pool →
  let fetch := run_fetcher order speed pool setDirectories modulesList in
  (∃ u1, show_tables_like "updates" (up_db u1) = true ∧ show_tables_like "updates_include" (up_db u1) = true ∧
    (show_tables_like "updates" (up_db u) = true → show_tables_like "updates_include" (up_db u) = true → u1 = u) ∧
    Update_rest order speed pool setDirectories modulesList u =
      match fetch u1 with
      | (Done _, us) => (Done true, us_db us)
      | (Throw _, us) => (Done false, us_db us)
      | (Crash w, us) => (Crash w, us_db us)
      end) ∨
  (∃ t u1 u', t ∈ ["updates"; "updates_include"] ∧ show_tables_like t (up_db u1) = false ∧
    ApplyFile pool (GetBaseFilesDirectory pool +:+ t +:+ ".sql") u1 = (Throw "update failed", u') ∧
    Update_rest order speed pool setDirectories modulesList u = (Done false, u')).
Proof.
  intros Hp Hbase fetch. rewrite Update_rest_eq.
  destruct (CheckUpdateTable_ensures pool "updates" u Hp Hbase ltac:(by left)) as (b1 & u1 & E1 & Hsame1 & Hok1). rewrite E1.
  destruct b1; cbn [negb].
  2: { right. destruct (CheckUpdateTable_cases pool "updates" u Hp) as [[_ E]|(Ht & b & db & E & Ea)];
         rewrite E1 in E; simplify_eq. exists "updates", u, (set_db db u). split; [by left|]. split; [done|]. by split. }
  destruct (Hok1 eq_refl) as [Ht1 _].
  destruct (CheckUpdateTable_ensures pool "updates_include" u1 Hp Hbase ltac:(right; by left)) as (b2 & u2 & E2 & Hsame2 & Hok2). rewrite E2.
  destruct b2; cbn [negb].
  2: { right. destruct (CheckUpdateTable_cases pool "updates_include" u1 Hp) as [[_ E]|(Ht & b & db & E & Ea)];
         rewrite E2 in E; simplify_eq. exists "updates_include", u1, (set_db db u1). split; [right; by left|]. split; [done|]. by split. }
  destruct (Hok2 eq_refl) as [Ht2 Hkeep]. left. exists u2. split; [by apply Hkeep|]. split; [done|]. split.
  - intros Ha Hb. destruct (Hsame1 Ha) as [_ ->]. by destruct (Hsame2 Hb) as [_ ->].
  - done.
Qed.

(** [DBUpdater::Update] hands the fetcher a database that has its two tables:
    it returns true only when the fetcher finished on a state with the tables
    updates and updates_include, which it took from the base files only if one
    of them was missing; it returns false, and lets no exception out, when the
    mysql client or the source directory is missing (the database then being
    untouched), when the client fails on a base file, or when the fetcher
    throws; and it aborts only where the fetcher does. *)
Theorem Update_prepares_tables (order : gmap string AppliedFileEntry → list (string * AppliedFileEntry))
    (speed : string → Z) (pool : updater_pool) (setDirectories : option (list string)) (modulesList : string)
    (u : updater) (Hport : PortOrSocket (GetConnectionInfo pool) ≠ "") (Hbase : base_files_create pool) :
  let fetch := run_fetcher order speed pool setDirectories modulesList in
  let ready u1 := show_tables_like "updates" (up_db u1) = true ∧ show_tables_like "updates_include" (up_db u1) = true ∧
    (show_tables_like "updates" (up_db u) = true → show_tables_like "updates_include" (up_db u) = true →
     up_db u1 = up_db u) in
  match Update order speed pool setDirectories modulesList u with
  | (Done true, u') => ∃ u1 r us, ready u1 ∧ fetch u1 = (Done r, us) ∧ u' = us_db us
  | (Done false, u') =>
      (∃ u1 e us, ready u1 ∧ fetch u1 = (Throw e, us) ∧ u' = us_db us) ∨
      ((is_regular_file (GetCorrectedMySQLExecutable u) = false ∨ is_directory m GetSourceDirectory = false) ∧
       up_db u' = up_db u) ∨
      (∃ t u1, t ∈ ["updates"; "updates_include"] ∧ show_tables_like t (up_db u1) = false ∧
         ApplyFile pool (GetBaseFilesDirectory pool +:+ t +:+ ".sql") u1 = (Throw "update failed", u'))
  | (Throw _, _) => False
  | (Crash w, _) => ∃ u1 us, ready u1 ∧ fetch u1 = (Crash w, us)
  end.
Proof.
  intros fetch ready. destruct (CheckExecutable_Done u) as (u0 & Hc & Hdb & _).
  assert (Update order speed pool setDirectories modulesList u = match CheckExecutable u with
    | (Done found, u0) =>
        if negb found then (Done false, u0) else if negb (is_directory m GetSourceDirectory) then (Done false, u0)
        else Update_rest order speed pool setDirectories modulesList u0
    | (Throw e, u0) => (Throw e, u0)
    | (Crash w, u0) => (Crash w, u0)
    end) as ->.
  { unfold Update. unfold mbind at 1, SM_bind at 1. destruct (CheckExecutable u) as [[[]|e|w] u']; try done.
    cbn [negb]. by destruct (is_directory m GetSourceDirectory). }
  rewrite Hc. clear Hc.
  destruct (is_regular_file (GetCorrectedMySQLExecutable u)) eqn:Hexe; cbn [orb];
    [|destruct (negb (is_empty (SearchExecutableInPath "mysql")) && _); [|right; left; auto]].
  all: cbn [negb]; destruct (is_directory m GetSourceDirectory) eqn:Hdir; cbn [negb]; [|right; left; auto].
  all: destruct (Update_rest_cases order speed pool setDirectories modulesList u0 Hport Hbase)
      as [(u1 & H1 & H2 & H3 & ->)|(t & u1 & u' & Ht & Hl & Ha & ->)]; [|right; right; by exists t, u1];
    assert (ready u1) as Hr by (split; [done|]; split; [done|]; rewrite <- Hdb; intros; by rewrite H3);
    fold fetch; destruct (fetch u1) as [[r|e|w] us] eqn:Ef;
    [by exists u1, r, us|left; by exists u1, e, us|by exists u1, us].
Qed.

(** [DBUpdater::Create] creates the database only on consent (an empty line
    or one that begins with y) and when its temporary file can be written; then
    it runs the client once, without a database argument, on a file that holds
    the CREATE DATABASE statement, reports what the client's exit code says,
    catches the exception of a failure, and removes the file in both cases.
    Otherwise it changes nothing. *)
Theorem Create_asks_and_cleans_up (pool : updater_pool) (answer : string) (opens : bool) (u : updater)
    (Hport : PortOrSocket (GetConnectionInfo pool) ≠ "") :
  let info := GetConnectionInfo pool in
  let consent := is_empty answer || String.eqb (String.substring 0 1 answer) "y" in
  let args := client_args mysql8 (GetPathToExtraFile pool) (Host info) (User info) (PortOrSocket info)
    match PortOrSocket info with String c _ => isdigit c | _ => false end "" (SSL info) "create_table.sql" in
  let '(ret, db) :=
    run_mysql (GetCorrectedMySQLExecutable u) args (Some (create_statement (Database info))) (up_db u) in
  Create pool answer opens u =
    if consent && opens then (Done (ret =? 0)%Z, mk_updater db (corrected_path u) None) else (Done false, u).
Proof.
  intros info consent args.
  pose proof (ApplyFile_with_cases pool (Host info) (User info) (PortOrSocket info) "" (SSL info) "create_table.sql"
    (set_temp (Some (create_statement (Database info))) u) Hport) as Hc.
  fold args in Hc. cbn zeta in Hc. cbn [set_temp temp_file up_db] in Hc.
  change (GetCorrectedMySQLExecutable (set_temp _ u)) with (GetCorrectedMySQLExecutable u) in Hc.
  destruct (run_mysql _ args _ _) as [ret db] eqn:E.
  unfold Create. fold info. subst consent. rewrite <- negb_orb.
  destruct (is_empty answer || _); cbn [negb andb]; [|done].
  destruct opens; cbn [negb]; [|done].
  sm_unfold. change (@set_temp (Some (create_statement (Database info))) u) with
    (set_temp (Some (create_statement (Database info))) u) in Hc.
  rewrite Hc. by destruct (ret =? 0)%Z.
Qed.

Lemma Populate_loop_cases pool paths u :
  PortOrSocket (GetConnectionInfo pool) ≠ "" →
  let files := List.filter (λ p, String.eqb (path_extension p) ".sql") paths in
  Populate_loop pool paths u = (Done true, snd (for_each (ApplyFile pool) files u)) ∧
    fst (for_each (ApplyFile pool) files u) = Done () ∨
  ∃ n f u1 u', files !! n = Some f ∧ for_each (ApplyFile pool) (take n files) u = (Done (), u1) ∧
    ApplyFile pool f u1 = (Throw "update failed", u') ∧ Populate_loop pool paths u = (Done false, u').
Proof.
  intros Hp. revert u. induction paths as [|path paths IH]; intros u; [by left|]. cbn zeta in *.
  cbn [Populate_loop List.filter]. destruct (String.eqb (path_extension path) ".sql"); cbn [negb]; [|apply IH].
  destruct (try_ApplyFile pool path u Hp) as (b & db & E1 & E2).
  rewrite (SM_bind_Done _ _ _ _ _ E1). cbn [for_each take]. destruct b; cbn [negb].
  - rewrite (SM_bind_Done (ApplyFile pool path) _ u () (set_db db u) E2).
    destruct (IH (set_db db u)) as [Hd|(n & f & u1 & u' & Hn & Hu1 & Hf & Hr)]; [by left|right].
    exists (S n), f, u1, u'. split; [exact Hn|]. split; [|by split].
    cbn [take for_each]. by rewrite (SM_bind_Done (ApplyFile pool path) _ u () (set_db db u) E2).
  - right. by exists 0, path, u, (set_db db u).
Qed.

(** [DBUpdater::Populate] fills a database exactly when it has no table: then
    the SQL files of the pool's base directory are applied in the order the
    directory lists them, each one once, all of them when it returns true, and
    up to the first on which the client fails when that is why it returns
    false; no exception leaves it.  Without the client, the directory or such
    a file it returns false and leaves the database alone. *)
Theorem Populate_in_order (pool : updater_pool) (u : updater)
    (Hport : PortOrSocket (GetConnectionInfo pool) ≠ "") :
  let files := sql_files (GetBaseFilesDirectory pool) in
  if has_tables (up_db u)
  then Populate pool u = (Done true, u)
  else
    ∃ u0, up_db u0 = up_db u ∧
    (Populate pool u = (Done false, u0) ∧
       (is_regular_file (GetCorrectedMySQLExecutable u) = false ∨
        is_directory m (GetBaseFilesDirectory pool) = false ∨ files = []) ∨
     Populate pool u = (Done true, snd (for_each (ApplyFile pool) files u0)) ∧
       fst (for_each (ApplyFile pool) files u0) = Done () ∨
     ∃ n f u1 u', files !! n = Some f ∧ for_each (ApplyFile pool) (take n files) u0 = (Done (), u1) ∧
       ApplyFile pool f u1 = (Throw "update failed", u') ∧ Populate pool u = (Done false, u')).
Proof.
  intros files. destruct (CheckExecutable_Done u) as (u0 & Hc & Hdb & _).
  assert (Populate pool u =
    if has_tables (up_db u) then (Done true, u)
    else match CheckExecutable u with
    | (Done found, u0) =>
        if negb found then (Done false, u0)
        else if is_empty (GetBaseFilesDirectory pool) then (Done false, u0)
        else if negb (is_directory m (GetBaseFilesDirectory pool)) then (Done false, u0)
        else if (length files =? 0)%nat then (Done false, u0)
        else Populate_loop pool (directory_iterator (GetBaseFilesDirectory pool)) u0
    | (Throw e, u0) => (Throw e, u0)
    | (Crash w, u0) => (Crash w, u0)
    end) as HP.
  { clear Hc. unfold Populate. cbv [mbind SM_bind get_state]. destruct (has_tables (up_db u)); [done|].
    destruct (CheckExecutable u) as [[[]|e|w] u']; try done. cbn [negb]. cbv zeta. fold files.
    destruct (is_empty _); [done|]. destruct (negb _); [done|]. by destruct (_ =? 0)%nat. }
  destruct (has_tables (up_db u)); [exact HP|]. exists u0. split; [exact Hdb|]. rewrite HP, Hc. clear HP Hc.
  destruct (is_regular_file (GetCorrectedMySQLExecutable u)) eqn:Hexe; cbn [orb];
    [|destruct (negb (is_empty (SearchExecutableInPath "mysql")) && _); [|left; auto]].
  all: cbn [negb].
  all: destruct (is_empty (GetBaseFilesDirectory pool)) eqn:He;
    [exfalso; unfold GetBaseFilesDirectory in He; by destruct GetSourceDirectory|].
  all: destruct (is_directory m (GetBaseFilesDirectory pool)); cbn [negb]; [|left; auto].
  all: destruct (Nat.eqb_spec (length files) 0) as [Hl|_]; [left; split; [done|right; right; by destruct files]|right].
  all: by apply Populate_loop_cases.
Qed.
End DBUpdater.

(** ** Concrete runs *)

(** A server whose databases are lists of tables, and a client that creates the
    table a file is named after. *)
Module Toy.
Definition server : Server (list string) := {|
  show_tables_like t db := bool_decide (t ∈ db);
  show_tables db := Some (length db);
  direct_execute _ db := db;
  select_updates _ := None;
  select_includes _ := Some [("$/data/sql/updates/db_discord", "RELEASED")] |}.
Definition stem (path : string) : string :=
  let name := path_filename path in String.substring 0 (String.length name - 4) name.
(** The path in "BEGIN; SOURCE path; COMMIT;". *)
Definition source_of (args : list string) : string :=
  match List.find (String.prefix "BEGIN; SOURCE ") args with
  | Some a => String.substring 14 (String.length a - 23) a
  | None => ""
  end.
Definition client (exe : string) (args : list string) (temp : option string) (db : list string) : Z * list string :=
  if String.eqb (stem (source_of args)) "broken" then (1%Z, db) else (0%Z, db ++ [stem (source_of args)]).
Definition host : machine := mk_machine (λ _, true) (λ _, []) (λ _, None) (λ _, []).
Definition pool : updater_pool :=
  mk_updater_pool "Discord" 1 (mk_MySQLConnectionInfo "bot" "secret" "discord" "localhost" "3306" "ssl") "/tmp/x.cnf".
Definition start (db : list string) : @updater (list string) := mk_updater db "" None.
End Toy.
#[local] Existing Instance Toy.server.

Example client_args_ex :
  client_args true "/tmp/x.cnf" "localhost" "bot" "3306" true "discord" "ssl" "a.sql" =
    ["--defaults-extra-file=/tmp/x.cnf"; "-hlocalhost"; "-ubot"; "-P3306"; "--default-character-set=utf8mb4";
     "--max-allowed-packet=1GB"; "--ssl-mode=REQUIRED"; "-e"; "BEGIN; SOURCE a.sql; COMMIT;"; "discord"].
Proof. reflexivity. Qed.

Lemma Update_prepares_tables_witness :
  let run := Update Toy.host initial_state (λ _, true) (λ s, s) (λ s, s) "/src" "/usr/bin/mysql" true Toy.client
    map_to_list (λ _, 0%Z) Toy.pool None "" in
  run (Toy.start []) = (Done true, Toy.start ["updates"; "updates_include"]) ∧
  ∃ u1 r us,
    (show_tables_like "updates" (up_db u1) = true ∧ show_tables_like "updates_include" (up_db u1) = true ∧
     (show_tables_like "updates" (up_db (Toy.start [])) = true →
      show_tables_like "updates_include" (up_db (Toy.start [])) = true → up_db u1 = up_db (Toy.start []))) ∧
    run_fetcher Toy.host initial_state "/src" "/usr/bin/mysql" true Toy.client map_to_list (λ _, 0%Z) Toy.pool None ""
      u1 = (Done r, us) ∧ Toy.start ["updates"; "updates_include"] = us_db us.
Proof.
  intros run.
  assert (run (Toy.start []) = (Done true, Toy.start ["updates"; "updates_include"])) as Hrun by (vm_compute; reflexivity).
  split; [exact Hrun|].
  pose proof (Update_prepares_tables Toy.host initial_state (λ _, true) (λ s, s) (λ s, s) "/src" "/usr/bin/mysql" true
    Toy.client map_to_list (λ _, 0%Z) Toy.pool None "" (Toy.start [])) as H.
  cbv zeta in H. fold run in H. rewrite Hrun in H. apply H; [discriminate|]. clear.
  intros t [db cp tf] u' Ht Ha. apply elem_of_cons in Ht as [->|Ht%list_elem_of_singleton]; [|subst t].
  all: cbn in Ha; injection Ha as <-; cbn;
    split; [by apply bool_decide_eq_true_2, elem_of_app; right; left|];
    intros t'; rewrite !bool_decide_eq_true; intros; apply elem_of_app; by left.
Defined.

Lemma Create_asks_and_cleans_up_witness :
  let create := Create initial_state "/usr/bin/mysql" true Toy.client Toy.pool in
  PortOrSocket (GetConnectionInfo Toy.pool) ≠ "" ∧
  create "yes" true (Toy.start []) = (Done true, Toy.start ["create_table"]) ∧
  create "Y" true (Toy.start []) = (Done false, Toy.start []).
Proof.
  split; [discriminate|]. split.
  - apply (Create_asks_and_cleans_up initial_state "/usr/bin/mysql" true Toy.client Toy.pool "yes" true (Toy.start [])).
    discriminate.
  - apply (Create_asks_and_cleans_up initial_state "/usr/bin/mysql" true Toy.client Toy.pool "Y" true (Toy.start [])).
    discriminate.
Defined.

Lemma Populate_in_order_witness :
  let dir := ["/src/data/sql/base/db_discord/a.sql"; "/src/readme.md"; "/src/data/sql/base/db_discord/broken.sql";
              "/src/data/sql/base/db_discord/b.sql"] in
  let populate := Populate Toy.host initial_state (λ _, true) (λ s, s) (λ s, s) (λ _, dir) "/src" "/usr/bin/mysql"
    true Toy.client Toy.pool in
  populate (Toy.start []) = (Done false, Toy.start ["a"]) ∧ populate (Toy.start ["t"]) = (Done true, Toy.start ["t"]).
Proof.
  split; [vm_compute; reflexivity|].
  refine (Populate_in_order Toy.host initial_state (λ _, true) (λ s, s) (λ s, s)
    (λ _, ["/src/data/sql/base/db_discord/a.sql"; "/src/readme.md"; "/src/data/sql/base/db_discord/broken.sql";
           "/src/data/sql/base/db_discord/b.sql"]) "/src" "/usr/bin/mysql" true Toy.client Toy.pool (Toy.start ["t"]) _).
  discriminate.
Defined.
