(* ===== verification/ExtraFile.v ===== *)
(** * The file with the password: server/database/Database/DatabaseWorkerPool.cpp

    The mysql client that applies the update files gets the password of a pool
    from an option file, which [SetConnectionInfo] makes ([MakeExtraFile]) before
    the pool is opened; the directory comes from [CreateDirIfNeed] of
    common/Utilities/FileUtil.cpp.  The disk is the directories and the files by
    their paths; what the user may create is an argument. *)
From S2P Require Import Prelude CppString Connection Fetcher.

Record disk := mk_disk { d_dirs : gset string; d_files : gmap string string }.

Definition path_exists (path : string) (d : disk) : bool :=
  bool_decide (path ∈ d_dirs d) || bool_decide (is_Some (d_files d !! path)).

(** What a pool knows of its connection. *)
Record pool_config := mk_pool_config {
  _poolName : string;
  _connectionInfo : MySQLConnectionInfo;
  _pathToExtraFile : string }.

Section Disk.
Variables can_create can_write : string → bool.
Variable config_path : string.

(** [create_directory] makes one directory, or throws, which is [false] here. *)
Definition CreateDirIfNeed (path : string) (d : disk) : bool * disk :=
  if is_empty path then (true, d)
  else if bool_decide (path ∈ d_dirs d) then (true, d)
  else if path_exists path d then (false, d)
  else if can_create path then (true, mk_disk ({[path]} ∪ d_dirs d) (d_files d))
  else (false, d).

Definition nl : string := String (ch 10) "".

Definition extra_file_text (info : MySQLConnectionInfo) : string :=
  "[client]" +:+ nl +:+ "password = " +:+ String (ch 34) (Password info +:+ String (ch 34) nl).

Definition extra_dir : string := path_append config_path "DB".
Definition extra_path (poolName : string) : string := path_append extra_dir (poolName +:+ "Config.cnf").

Definition MakeExtraFile (p : pool_config) (d : disk) : outcome Empty_set (pool_config * disk) :=
  let '(made, d) := CreateDirIfNeed extra_dir d in
  _ ← assert made "Warhead::File::CreateDirIfNeed(extraFile.generic_string())";
  let extraFile := extra_path (_poolName p) in
  let p := mk_pool_config (_poolName p) (_connectionInfo p) extraFile in
  if path_exists extraFile d then Done (p, d)
  else if can_write extraFile
  then Done (p, mk_disk (d_dirs d) (<[extraFile := extra_file_text (_connectionInfo p)]> (d_files d)))
  else Crash "Failed to create extra file".

Definition SetConnectionInfo (infoString : string) (p : pool_config) (d : disk)
    : outcome Empty_set (pool_config * disk) :=
  MakeExtraFile (mk_pool_config (_poolName p) (MySQLConnectionInfo_new infoString) (_pathToExtraFile p)) d.

(** The pools of one start after another, with the strings of the configuration. *)
Fixpoint starts (infos : list (string * string)) (d : disk) : outcome Empty_set (list pool_config * disk) :=
  match infos with
  | [] => Done ([], d)
  | (name, infoString) :: infos =>
      '(p, d) ← SetConnectionInfo infoString (mk_pool_config name empty_info "") d;
      '(ps, d) ← starts infos d;
      Done (p :: ps, d)
  end.

(** ** Lemmas *)
Lemma CreateDirIfNeed_files path d : d_files (CreateDirIfNeed path d).2 = d_files d.
Proof. unfold CreateDirIfNeed. by repeat case_match. Qed.

Lemma path_exists_file path d s : d_files d !! path = Some s → path_exists path d = true.
Proof.
  intros H. unfold path_exists. rewrite (bool_decide_true (is_Some _)) by (rewrite H; eauto). apply orb_true_r.
Qed.

Lemma app_string_length (s1 s2 : string) : String.length (s1 +:+ s2) = String.length s1 + String.length s2.
Proof. induction s1 as [|c s1 IH]; cbn; [done|]. by rewrite IH. Qed.

Lemma path_append_longer p q : q ≠ "" → String.length p < String.length (path_append p q).
Proof.
  intros Hq. assert (0 < String.length q) by (destruct q; [done|cbn; lia]). unfold path_append.
  destruct (is_empty p) eqn:Hp; [destruct p; [cbn; lia|done]|].
  case_match; rewrite !app_string_length; cbn; lia.
Qed.

Lemma extra_path_not_dir name : extra_path name ≠ extra_dir.
Proof.
  intros H. apply (f_equal String.length) in H. unfold extra_path in H.
  pose proof (path_append_longer extra_dir (name +:+ "Config.cnf")) as Hl. rewrite H in Hl.
  assert (name +:+ "Config.cnf" ≠ "") as Hn by (by destruct name). specialize (Hl Hn). lia.
Qed.

Lemma path_append_inj p q1 q2 : path_append p q1 = path_append p q2 → q1 = q2.
Proof.
  unfold path_append. destruct (is_empty p); [done|].
  destruct (match at_ p _ with Some c => _ | None => false end); intros H.
  - by apply (inj (String.append p)) in H.
  - apply (inj (String.append p)) in H. by injection H.
Qed.

Lemma app_string_inv_tail (a b c : string) : a +:+ c = b +:+ c → a = b.
Proof.
  revert b. induction a as [|x a IH]; intros [|y b] H; try done.
  - apply (f_equal String.length) in H. cbn in H. rewrite app_string_length in H. cbn in H. lia.
  - apply (f_equal String.length) in H. cbn in H. rewrite app_string_length in H. cbn in H. lia.
  - cbn in H. injection H as -> H. by rewrite (IH b H).
Qed.

(** Two pools never share the file. *)
Lemma extra_path_inj name1 name2 : extra_path name1 = extra_path name2 → name1 = name2.
Proof. unfold extra_path. intros H%path_append_inj. by apply app_string_inv_tail in H. Qed.

(** One start writes its own file, if it is not there, and no other. *)
Lemma SetConnectionInfo_spec infoString p d p' d' :
  SetConnectionInfo infoString p d = Done (p', d') →
  _poolName p' = _poolName p ∧ _connectionInfo p' = MySQLConnectionInfo_new infoString ∧
  _pathToExtraFile p' = extra_path (_poolName p) ∧ (extra_dir ∈ d_dirs d' ∨ extra_dir = "") ∧
  (∀ path, path ∈ d_dirs d' ↔ path ∈ d_dirs d ∨ (path = extra_dir ∧ path ∈ d_dirs d')) ∧
  (∀ path, d_files d' !! path = if bool_decide (path = extra_path (_poolName p)) && negb (path_exists path d)
     then Some (extra_file_text (MySQLConnectionInfo_new infoString)) else d_files d !! path).
Proof.
  unfold SetConnectionInfo, MakeExtraFile. destruct (CreateDirIfNeed extra_dir d) as [made d1] eqn:Hd1.
  cbn [_poolName _connectionInfo]. destruct made; [|done]. cbn [assert mbind outcome_bind].
  assert (d_files d1 = d_files d) as Hf by (pose proof (CreateDirIfNeed_files extra_dir d) as H; by rewrite Hd1 in H).
  assert ((extra_dir ∈ d_dirs d1 ∨ extra_dir = "") ∧
    (∀ path, path ∈ d_dirs d1 ↔ path ∈ d_dirs d ∨ (path = extra_dir ∧ path ∈ d_dirs d1))) as [Hd Hdirs].
  { unfold CreateDirIfNeed in Hd1. destruct (is_empty extra_dir) eqn:He; [|case_bool_decide].
    - injection Hd1 as <-. split; [right; by destruct extra_dir|naive_solver].
    - injection Hd1 as <-. split; [by left|naive_solver].
    - destruct (path_exists extra_dir d); [done|]. destruct (can_create extra_dir); [|done].
      injection Hd1 as <-. cbn. set_solver. }
  assert (path_exists (extra_path (_poolName p)) d1 = path_exists (extra_path (_poolName p)) d) as He.
  { unfold path_exists. rewrite Hf. f_equal. apply bool_decide_ext. rewrite Hdirs.
    pose proof (extra_path_not_dir (_poolName p)). naive_solver. }
  rewrite He. destruct (path_exists (extra_path (_poolName p)) d) eqn:Hex.
  - intros [= <- <-]. cbn. repeat (split; [done|]). intros path. rewrite Hf.
    case_bool_decide; [subst; by rewrite Hex|done].
  - destruct (can_write _); [|done]. intros [= <- <-]. cbn. repeat (split; [done|]). intros path. rewrite Hf.
    case_bool_decide as Hp; cbn [andb]; [subst; rewrite Hex; apply lookup_insert_eq|by rewrite lookup_insert_ne].
Qed.

Lemma starts_keep infos d ps d' path s :
  starts infos d = Done (ps, d') → d_files d !! path = Some s → d_files d' !! path = Some s.
Proof.
  revert d ps. induction infos as [|[name i] infos IH]; intros d ps Hs Hp; cbn in Hs; [by simplify_eq|].
  apply outcome_bind_Done in Hs as ([p d1] & H1 & Hs). apply outcome_bind_Done in Hs as ([ps1 d2] & H2 & Hs).
  injection Hs as _ <-. eapply IH; [exact H2|].
  apply SetConnectionInfo_spec in H1 as (_ & _ & _ & _ & _ & Hfiles).
  rewrite Hfiles, (path_exists_file _ _ _ Hp), andb_false_r. exact Hp.
Qed.

Lemma starts_pools infos d ps d' :
  starts infos d = Done (ps, d') → ∀ i p, ps !! i = Some p → ∃ n info, infos !! i = Some (n, info) ∧
    _connectionInfo p = MySQLConnectionInfo_new info ∧ _pathToExtraFile p = extra_path n.
Proof.
  revert d ps. induction infos as [|[n info] infos IH]; intros d ps Hs i p Hi; cbn in Hs; [by simplify_eq|].
  apply outcome_bind_Done in Hs as ([p1 d1] & H1 & Hs). apply outcome_bind_Done in Hs as ([ps1 d2] & H2 & Hs).
  injection Hs as <- ->. destruct i as [|i]; [|by apply (IH d1 ps1 H2)].
  cbn in Hi. injection Hi as <-. exists n, info. split; [done|].
  by apply SetConnectionInfo_spec in H1 as (_ & Hc & Hp & _).
Qed.

(** ** Properties *)

(** The password file is the one of the first start.  Whatever starts follow,
    with whatever pools and configurations, a file that a start has made stays
    as it is: the client of every later start is pointed to the password of the
    first one, whatever the configuration says by then.  Pools with different
    names have different files. *)
Theorem extra_file_is_first (name infoString : string) (infos : list (string * string)) (d d' : disk)
    (ps : list pool_config) :
  starts ((name, infoString) :: infos) d = Done (ps, d') → path_exists (extra_path name) d = false →
  d_files d' !! extra_path name = Some (extra_file_text (MySQLConnectionInfo_new infoString)) ∧
  ∀ i p, ps !! i = Some p → ∃ n info, ((name, infoString) :: infos) !! i = Some (n, info) ∧
    _connectionInfo p = MySQLConnectionInfo_new info ∧ _pathToExtraFile p = extra_path n ∧
    (_pathToExtraFile p = extra_path name ↔ n = name).
Proof.
  intros Hs Hno. split.
  - cbn in Hs. apply outcome_bind_Done in Hs as ([p d1] & H1 & Hs).
    apply outcome_bind_Done in Hs as ([ps1 d2] & H2 & Hs). injection Hs as _ <-.
    eapply starts_keep; [exact H2|]. apply SetConnectionInfo_spec in H1 as (_ & _ & _ & _ & _ & Hfiles).
    rewrite Hfiles. cbn [_poolName]. by rewrite bool_decide_true, Hno by done.
  - intros i p Hi. destruct (starts_pools _ _ _ _ Hs i p Hi) as (n & info & Hn & Hc & Hp).
    exists n, info. split; [done|]. split; [done|]. split; [done|].
    rewrite Hp. split; [apply extra_path_inj|by intros ->].
Qed.
End Disk.

(** ** Concrete runs *)
Definition two_starts : list (string * string) :=
  [("Discord", "localhost;3306;bot;old;discord"); ("Discord", "localhost;3306;bot;new;discord")].

Lemma extra_file_is_first_witness :
  ∃ ps d', starts (λ _, true) (λ _, true) "/etc/bot/" two_starts (mk_disk {["/etc/bot"]} ∅) = Done (ps, d') ∧
    d_files d' !! "/etc/bot/DB/DiscordConfig.cnf" =
      Some ("[client]" +:+ nl +:+ "password = " +:+ String (ch 34) ("old" +:+ String (ch 34) nl)) ∧
    (Password ∘ _connectionInfo <$> ps) = ["old"; "new"].
Proof.
  let o := eval vm_compute in
    (starts (λ _, true) (λ _, true) "/etc/bot/" two_starts (mk_disk {["/etc/bot"]} ∅)) in
    match o with Done (?ps, ?d) => exists ps, d end.
  split; [reflexivity|]. split; [|reflexivity].
  match goal with |- d_files ?d' !! _ = _ =>
    exact (proj1 (extra_file_is_first (λ _, true) (λ _, true) "/etc/bot/" "Discord" "localhost;3306;bot;old;discord"
      [("Discord", "localhost;3306;bot;new;discord")] (mk_disk {["/etc/bot"]} ∅) d' _ eq_refl eq_refl)) end.
Defined.
