(* ===== verification/PoolStatements.v ===== *)
(** * The statements of the pool: server/database/Database/DatabaseWorkerPool.cpp

    How the prepared statements of a database are registered, prepared on every
    connection and counted, and what the calls of the program turn into:
    tasks for the asynchronous queue, or calls of a connection the caller has
    locked ([GetFreeConnection] and the locks are in [WorkerPool]).

    The connections are the states of [Connection], the asynchronous ones
    first; the order in which the hash table of the statements is visited is an
    argument. *)
From S2P Require Import Prelude CppString Convert Prepared Connection Transaction.

Section PoolStatements.
Context {S : Type} (client : mysql_client S).
Context (order : gmap nat (string * Z) → list (nat * (string * Z))).

Record Pool := mk_Pool {
  _stringPreparedStatement : gmap nat (string * Z);   (* text, ConnectionFlags *)
  _statementSize : nat;
  _preparedStatementSize : list Z;                    (* uint8 *)
  _connections : list (bool * cstate (S := S)) }.     (* whether it is locked *)

(** ** Registration *)
Definition SetStatementSize (statementSize : nat) (p : Pool) : Pool :=
  mk_Pool (_stringPreparedStatement p) statementSize (_preparedStatementSize p) (_connections p).

Definition PrepareStatement (index : nat) (sql : string) (flags : Z) (p : Pool) : Pool :=
  match _stringPreparedStatement p !! index with
  | Some _ => p
  | None =>
      mk_Pool (<[index := (sql, flags)]> (_stringPreparedStatement p)) (_statementSize p)
        (_preparedStatementSize p) (_connections p)
  end.

(** ** Preparation *)
(** [vector::resize] *)
Definition resize_with {A : Type} (n : nat) (x : A) (l : list A) : list A := take n l ++ replicate (n - length l) x.

Definition resize_statements (n : nat) : M (S := S) unit :=
  c ← get_conn; set_conn (mk_MySQLConnection (_mysqlHandle c) (_connectionInfo c) (_connectionFlags c)
    (resize_with n None (_stmtList c)) (_isDynamic c) (_prepareError c) (_lastUseTime c)).

(** An index beyond the list is undefined behaviour. *)
Fixpoint prepare_all (stmts : list (nat * (string * Z))) : M (S := S) unit :=
  match stmts with
  | [] => mret ()
  | (index, (sql, flags)) :: stmts =>
      c ← get_conn;
      if (index <? length (_stmtList c))%nat then
        _ ← Connection.PrepareStatement client index sql flags;
        prepare_all stmts
      else crash "_stmtList[index]"
  end.

Definition InitPrepareStatement (p : Pool) : M (S := S) unit :=
  _ ← resize_statements (_statementSize p);
  prepare_all (order (_stringPreparedStatement p)).

(** The first loop of [PrepareStatements]. *)
Fixpoint init_all (p : Pool) (conns : list (bool * cstate (S := S)))
    : outcome db_error (list (bool * cstate (S := S))) :=
  match conns with
  | [] => Done []
  | (locked, c) :: conns =>
      r ← InitPrepareStatement p c;
      rest ← init_all p conns;
      Done ((locked, snd r) :: rest)
  end.

(** The sizes of the statements one connection has, where they are not known. *)
Fixpoint fill_sizes (l : list (option MySQLPreparedStatement)) (sizes : list Z) : outcome db_error (list Z) :=
  match l, sizes with
  | m :: l, z :: sizes =>
      z ← (if (0 <? z)%Z then Done z
           else match m with
                | Some stmt =>
                    let paramCount := Z.of_nat (_paramCount stmt) in
                    _ ← assert (paramCount <? 255)%Z "paramCount < std::numeric_limits<uint8>::max()";
                    Done (wrap_u 8 paramCount)
                | None => Done z
                end);
      sizes ← fill_sizes l sizes;
      Done (z :: sizes)
  | _, _ => Done sizes
  end.

(** The closure [IsValidPrepareStatements]: the sizes, or whether it fails
    with the pool closed. *)
Definition IsValidPrepareStatements (conn_ : bool * cstate (S := S)) (sizes : list Z)
    : outcome db_error (list Z + bool) :=
  let '(locked, c) := conn_ in
  if locked : bool then Done (inr false)
  else if _prepareError (conn c) then Done (inr true)
  else
    let preparedSize := length (_stmtList (conn c)) in
    let sizes := if (length sizes <? preparedSize)%nat then resize_with preparedSize 0%Z sizes else sizes in
    sizes ← fill_sizes (_stmtList (conn c)) sizes;
    Done (inl sizes).

Fixpoint validate_all (conns : list (bool * cstate (S := S))) (sizes : list Z) : outcome db_error (list Z + bool * list Z) :=
  match conns with
  | [] => Done (inl sizes)
  | c :: conns =>
      r ← IsValidPrepareStatements c sizes;
      match r with
      | inl sizes => validate_all conns sizes
      | inr closed => Done (inr (closed, sizes))
      end
  end.

(** [DoPrepareStatements] is virtual: an argument. *)
Definition PrepareStatements (DoPrepareStatements : Pool → Pool) (p : Pool) : outcome db_error (bool * Pool) :=
  let p := DoPrepareStatements p in
  conns ← init_all p (_connections p);
  r ← validate_all conns (_preparedStatementSize p);
  match r with
  | inl sizes => Done (true, mk_Pool (_stringPreparedStatement p) (_statementSize p) sizes conns)
  | inr (closed, sizes) =>
      Done (false, mk_Pool (_stringPreparedStatement p) (_statementSize p) sizes
                     (if closed : bool then [] else conns))
  end.

Definition GetPreparedStatement (index : nat) (p : Pool) : outcome db_error PreparedStatementBase :=
  match _preparedStatementSize p !! index with
  | Some capacity => Done (PreparedStatementBase_new (Z.of_nat index) (Z.to_nat capacity))
  | None => Crash "_preparedStatementSize[index]"
  end.

(** ** What the program's calls put into the asynchronous queue *)
Inductive pool_task :=
| BasicStatementTask (sql : string) (hasResult : bool)
| PreparedStatementTask (stmt : PreparedStatementBase) (hasResult : bool)
| TransactionTask (transaction : Transaction)
| TransactionWithResultTask (transaction : Transaction).

Definition Execute (sql : string) : list pool_task :=
  if is_empty sql then [] else [BasicStatementTask sql false].

Definition Execute_stmt (stmt : option PreparedStatementBase) : list pool_task :=
  match stmt with
  | None => []
  | Some stmt => if fst (IsAllParamsSet stmt) then [PreparedStatementTask stmt false] else []
  end.

Definition AsyncQuery (sql : string) : list pool_task := [BasicStatementTask sql true].
Definition AsyncQuery_stmt (stmt : PreparedStatementBase) : list pool_task := [PreparedStatementTask stmt true].
Definition CommitTransaction (transaction : Transaction) : list pool_task := [TransactionTask transaction].
Definition AsyncCommitTransaction (transaction : Transaction) : list pool_task :=
  [TransactionWithResultTask transaction].

(** The transaction afterwards, and what is put into the queue. *)
Definition ExecuteOrAppend (trans : option Transaction) (sql : string) : option Transaction * list pool_task :=
  match trans with
  | None => (None, Execute sql)
  | Some t => (Some (Append_raw sql t), [])
  end.
Definition ExecuteOrAppend_stmt (trans : option Transaction) (stmt : option PreparedStatementBase)
    : option Transaction * list pool_task :=
  match trans with
  | None => (None, Execute_stmt stmt)
  | Some t => (Some (Append_prepared stmt t), [])
  end.

(** ** What is done on the connection [GetFreeConnection] has given *)
Definition Query (fuel : nat) (sql : string) : M (S := S) (option (nat * Z * Z)) :=
  result ← Connection.Query client fuel sql;
  match result with
  | None => mret None
  | Some (r, rowCount, fieldCount) =>
      if (rowCount =? 0)%Z then mret None
      else
        next ← call (mysql_fetch_row client r);
        if negb (next : bool) then mret None else mret (Some (r, rowCount, fieldCount))
  end.

(** The outer result says whether a connection was asked for. *)
Definition Query_stmt (fuel : nat) (stmt : PreparedStatementBase) : M (S := S) (option (option nat * Z * Z)) :=
  if negb (fst (IsAllParamsSet stmt)) then mret None
  else
    result ← Connection.Query_stmt client fuel stmt;
    match result with
    | None => mret None
    | Some (r, rowCount, fieldCount) =>
        if (rowCount =? 0)%Z then mret None else mret (Some (r, rowCount, fieldCount))
    end.

Definition DirectExecute (fuel : nat) (sql : string) : M (S := S) unit :=
  if is_empty sql then mret () else _ ← Connection.Execute client fuel sql; mret ().
Definition DirectExecute_stmt (fuel : nat) (stmt : option PreparedStatementBase) : M (S := S) unit :=
  _ ← Connection.Execute_stmt client fuel stmt; mret ().

(** [loopBreaker] is 5. *)
Fixpoint commit_loop (i fuel : nat) (transaction : Transaction) : M (S := S) (list Z) :=
  match i with
  | O => mret []
  | Datatypes.S i =>
      errorCode ← ExecuteTransaction client fuel transaction;
      if (errorCode =? 0)%Z then mret [errorCode]
      else codes ← commit_loop i fuel transaction; mret (errorCode :: codes)
  end.

(** The codes of the attempts, and the transaction afterwards. *)
Definition DirectCommitTransaction (fuel : nat) (transaction : Transaction) : M (S := S) (list Z * Transaction) :=
  errorCode ← ExecuteTransaction client fuel transaction;
  if (errorCode =? 0)%Z then mret ([errorCode], transaction)
  else
    codes ← (if (errorCode =? ER_LOCK_DEADLOCK)%Z then commit_loop 5 fuel transaction else mret []);
    transaction ← lift (Cleanup transaction);
    mret (errorCode :: codes, transaction).

(** ** Lemmas: the lists of the connections *)
Variable params : string → nat.
(** The server counts the parameters of a text, whatever the connection. *)
Hypothesis param_count_of_text : ∀ stmt sql s s',
  mysql_stmt_prepare client stmt sql s = (false, s') → mysql_stmt_param_count client stmt s' = params sql.

(** Every statement of the list is one of [stmts], with its parameters. *)
Definition statements_of (stmts : gmap nat (string * Z)) (l : list (option MySQLPreparedStatement)) : Prop :=
  ∀ i m, l !! i = Some (Some m) → ∃ sql flags, stmts !! i = Some (sql, flags) ∧ _paramCount m = params sql.

Lemma statements_of_insert stmts l i x :
  statements_of stmts l →
  (∀ m, x = Some m → ∃ sql flags, stmts !! i = Some (sql, flags) ∧ _paramCount m = params sql) →
  statements_of stmts (<[i := x]> l).
Proof.
  intros Hl Hx j m Hj. apply list_lookup_insert_Some in Hj as [(<- & -> & _)|[_ Hj]]; [by apply Hx|by apply Hl].
Qed.

Lemma PrepareStatement_list stmts index sql flags c u c' :
  Connection.PrepareStatement client index sql flags c = Done (u, c') →
  stmts !! index = Some (sql, flags) → statements_of stmts (_stmtList (conn c)) →
  statements_of stmts (_stmtList (conn c')) ∧ length (_stmtList (conn c')) = length (_stmtList (conn c)).
Proof.
  unfold Connection.PrepareStatement, set_stmt, set_prepareError. intros H Hi Hs. apply M_bind_Done in H as (c0 & c1 & Hc & H).
  injection Hc as <- <-. destruct (_ =? 0)%Z.
  { inv_M. cbn. rewrite length_insert. split; [|done]. by apply statements_of_insert. }
  apply M_bind_Done in H as (st & c1 & Hc & H). unfold call in Hc.
  destruct (mysql_stmt_init client (srv c)) as [st' s']. injection Hc as <- <-. destruct st' as [st|]; [|by inv_M].
  apply M_bind_Done in H as (failed & c1 & Hc & H). unfold call in Hc. cbn [srv] in Hc.
  destruct (mysql_stmt_prepare client st sql s') as [failed' s''] eqn:Hp. injection Hc as <- <-.
  destruct failed'; [inv_M; by split|]. inv_M. cbn. rewrite length_insert. split; [|done].
  apply statements_of_insert; [done|]. intros m [= <-]. exists sql, flags. split; [done|].
  cbn. by eapply param_count_of_text.
Qed.

Lemma prepare_all_list stmts l c u c' :
  prepare_all l c = Done (u, c') → (∀ x, x ∈ l → stmts !! x.1 = Some x.2) →
  statements_of stmts (_stmtList (conn c)) →
  statements_of stmts (_stmtList (conn c')) ∧ length (_stmtList (conn c')) = length (_stmtList (conn c)).
Proof.
  revert c. induction l as [|[index [sql flags]] l IH]; intros c H Hl Hs; [injection H as <- <-; by split|]. cbn [prepare_all] in H.
  apply M_bind_Done in H as (c0 & c1 & Hc & H). injection Hc as <- <-. destruct (_ <? _)%nat; [|done].
  apply M_bind_Done in H as ([] & c1 & Hc & H).
  destruct (PrepareStatement_list stmts _ _ _ _ _ _ Hc) as [Hs1 Hl1]; [by apply (Hl (index, (sql, flags))); left|done|].
  rewrite <- Hl1. apply IH; [done| |done]. intros x Hx. apply Hl. by right.
Qed.

Hypothesis order_perm : ∀ t, order t ≡ₚ map_to_list t.

Lemma InitPrepareStatement_list p c u c' :
  InitPrepareStatement p c = Done (u, c') → _stmtList (conn c) = [] →
  statements_of (_stringPreparedStatement p) (_stmtList (conn c')).
Proof.
  unfold InitPrepareStatement, resize_statements. intros H Hc. M_step H. inv_M.
  apply (prepare_all_list (_stringPreparedStatement p)) in H as [H _]; [done| |].
  - intros [i x] Hx. rewrite order_perm in Hx. by apply elem_of_map_to_list in Hx.
  - cbn. rewrite Hc. unfold resize_with. rewrite take_nil. intros i m [Hm _]%lookup_replicate_1. done.
Qed.

Lemma init_all_lists p conns conns' :
  init_all p conns = Done conns' → Forall (λ c, _stmtList (conn c.2) = []) conns →
  Forall (λ c, statements_of (_stringPreparedStatement p) (_stmtList (conn c.2))) conns'.
Proof.
  revert conns'. induction conns as [|[locked c] conns IH]; intros conns' H Hf; cbn in H; [by simplify_eq|].
  apply outcome_bind_Done in H as ([u c'] & Hi & H). apply outcome_bind_Done in H as (rest & Hr & H). simplify_eq.
  inversion_clear Hf. constructor; [by eapply InitPrepareStatement_list|by apply IH].
Qed.

(** *** The sizes *)
(** What is known is right. *)
Definition sizes_of (stmts : gmap nat (string * Z)) (sizes : list Z) : Prop :=
  ∀ i z, sizes !! i = Some z → z = 0%Z ∨ ∃ sql flags, stmts !! i = Some (sql, flags) ∧ z = Z.of_nat (params sql).

(** The sizes of the statements of a list are known. *)
Definition covers (l : list (option MySQLPreparedStatement)) (sizes : list Z) : Prop :=
  ∀ i m, l !! i = Some (Some m) → sizes !! i = Some (Z.of_nat (_paramCount m)) ∧ (_paramCount m < 255).

Lemma fill_sizes_lookup l sizes sizes' :
  fill_sizes l sizes = Done sizes' →
  length sizes' = length sizes ∧
  ∀ i z, sizes !! i = Some z → ∃ z', sizes' !! i = Some z' ∧
    match l !! i with
    | Some (Some stmt) => z' = (if (0 <? z)%Z then z else Z.of_nat (_paramCount stmt)) ∧
        ((0 < z)%Z ∨ _paramCount stmt < 255)
    | _ => z' = z
    end.
Proof.
  revert sizes sizes'. induction l as [|m l IH]; intros sizes sizes' H.
  { assert (sizes' = sizes) as -> by (by destruct sizes; cbn in H; simplify_eq). split; [done|].
    intros i z Hz. exists z. by rewrite lookup_nil. }
  destruct sizes as [|z sizes]; cbn in H; [by simplify_eq|].
  apply outcome_bind_Done in H as (z' & Hz & H). apply outcome_bind_Done in H as (rest & Hr & H). simplify_eq.
  destruct (IH _ _ Hr) as [Hlen Hat]. split; [by cbn; rewrite Hlen|].
  intros [|i] y Hy; cbn in Hy |- *; [simplify_eq|by apply Hat]. exists z'. split; [done|].
  destruct (Z.ltb_spec 0 y); [|destruct m as [stmt|]]; simplify_eq; [destruct m; auto| |done].
  apply outcome_bind_Done in Hz as ([] & Ha & Hz). unfold assert in Ha. destruct (Z.ltb_spec (Z.of_nat (_paramCount stmt)) 255); [|done].
  simplify_eq. split; [apply wrap_u_small; lia|right; lia].
Qed.

Lemma fill_sizes_ok stmts l sizes sizes' :
  fill_sizes l sizes = Done sizes' → length l ≤ length sizes → statements_of stmts l →
  (∀ i z, sizes !! i = Some z → (z < 255)%Z) → sizes_of stmts sizes →
  sizes_of stmts sizes' ∧ covers l sizes' ∧ (∀ i z, sizes' !! i = Some z → (z < 255)%Z) ∧
  (∀ l0, statements_of stmts l0 → covers l0 sizes → covers l0 sizes').
Proof.
  intros H Hlen Hl Hlt Hs. apply fill_sizes_lookup in H as [Hlen' Hat].
  assert (∀ i z', sizes' !! i = Some z' → ∃ z, sizes !! i = Some z) as Hback.
  { intros i z' Hi. apply lookup_lt_is_Some. rewrite <- Hlen'. by eapply lookup_lt_Some. }
  assert (sizes_of stmts sizes') as Hs'.
  { intros i z' Hi. destruct (Hback i z' Hi) as [z Hz]. destruct (Hat i z Hz) as (z'' & Hz' & Hm). simplify_eq.
    destruct (l !! i) as [[stmt|]|] eqn:Hli; [|by rewrite Hm; apply (Hs i)..].
    destruct Hm as [-> _]. destruct (0 <? z)%Z; [by apply (Hs i)|right].
    destruct (Hl i stmt Hli) as (sql & flags & Hst & ->). eauto. }
  split; [exact Hs'|]. split; [|split].
  - intros i stmt Hi. assert (is_Some (sizes !! i)) as [z Hz].
    { apply lookup_lt_is_Some. apply lookup_lt_Some in Hi. lia. }
    destruct (Hat i z Hz) as (z' & Hz' & Hm). rewrite Hi in Hm. destruct Hm as [-> Hc].
    destruct (Hl i stmt Hi) as (sql & flags & Hst & Hp). pose proof (Hlt i z Hz).
    destruct (Z.ltb_spec 0 z); [|split; [done|lia]].
    destruct (Hs i z Hz) as [->|(sql' & flags' & Hst' & ->)]; [lia|]. rewrite Hst in Hst'. simplify_eq.
    rewrite Hp. split; [done|lia].
  - intros i z' Hi. destruct (Hback i z' Hi) as [z Hz]. destruct (Hat i z Hz) as (z'' & Hz' & Hm). simplify_eq.
    pose proof (Hlt i z Hz). destruct (l !! i) as [[stmt|]|]; [|lia..].
    destruct Hm as [-> Hc]. destruct (Z.ltb_spec 0 z); lia.
  - intros l0 Hl0 Hc i stmt Hi. destruct (Hc i stmt Hi) as [Hz Hb]. split; [|done].
    destruct (Hat i _ Hz) as (z' & Hz' & _). rewrite Hz'. f_equal.
    destruct (Hl0 i stmt Hi) as (sql & flags & Hst & Hp).
    destruct (Hat i _ Hz) as (z'' & Hz'' & Hm). simplify_eq.
    destruct (l !! i) as [[stmt'|]|] eqn:Hli; [|done..].
    destruct Hm as [-> _]. destruct (Z.ltb_spec 0 (Z.of_nat (_paramCount stmt))); [done|].
    destruct (Hl i stmt' Hli) as (sql' & flags' & Hst' & Hp'). rewrite Hst in Hst'. simplify_eq. lia.
Qed.

Lemma sizes_of_resize stmts n sizes : sizes_of stmts sizes → length sizes ≤ n → sizes_of stmts (resize_with n 0%Z sizes).
Proof.
  intros Hs Hn i z Hi. unfold resize_with in Hi. rewrite take_ge in Hi by done.
  apply lookup_app_Some in Hi as [Hi|[_ [-> _]%lookup_replicate_1]]; [by apply (Hs i)|by left].
Qed.

(** *** The validation *)
Lemma validate_all_ok stmts conns sizes sizes' :
  validate_all conns sizes = Done (inl sizes') →
  Forall (λ c, statements_of stmts (_stmtList (conn c.2))) conns →
  (∀ i z, sizes !! i = Some z → (z < 255)%Z) → sizes_of stmts sizes →
  (∀ l0, statements_of stmts l0 → covers l0 sizes → covers l0 sizes') ∧
  Forall (λ c, c.1 = false ∧ _prepareError (conn c.2) = false ∧ covers (_stmtList (conn c.2)) sizes') conns.
Proof.
  revert sizes. induction conns as [|[locked c] conns IH]; intros sizes H Hall Hlt Hs; cbn in H; [by simplify_eq|].
  apply outcome_bind_Done in H as (r & Hv & H). destruct locked; cbn in Hv; [by simplify_eq|].
  destruct (_prepareError (conn c)) eqn:He; [by simplify_eq|].
  set (l := _stmtList (conn c)) in *.
  set (sz := if (length sizes <? length l)%nat then resize_with (length l) 0%Z sizes else sizes) in *.
  apply outcome_bind_Done in Hv as (sizes1 & Hf & Hv). simplify_eq. inversion_clear Hall as [|? ? Hc Hrest]. cbn in Hc.
  assert (length l ≤ length sz ∧ (∀ i z, sz !! i = Some z → (z < 255)%Z) ∧ sizes_of stmts sz ∧
    (∀ l0, covers l0 sizes → covers l0 sz)) as (Hlen & Hlt' & Hs' & Hcov).
  { subst sz. destruct (Nat.ltb_spec (length sizes) (length l)) as [Hl|Hl]; [|by auto].
    unfold resize_with at 1 2 4. rewrite take_ge by lia. split; [rewrite length_app, length_replicate; lia|].
    split; [|split; [apply sizes_of_resize; [done|lia]|]].
    - intros i z [Hi|[_ [-> _]%lookup_replicate_1]]%lookup_app_Some; [by eapply Hlt|lia].
    - intros l0 H0 i m Hi. destruct (H0 i m Hi) as [Hz Hb]. split; [|done]. by apply lookup_app_l_Some. }
  destruct (fill_sizes_ok stmts l sz sizes1 Hf Hlen Hc Hlt' Hs') as (Hs1 & Hc1 & Hlt1 & Hk1).
  destruct (IH sizes1 H Hrest Hlt1 Hs1) as [Hk Hall']. split.
  - intros l0 H0 H0c. by apply Hk, Hk1, Hcov.
  - constructor; [|done]. cbn. split; [done|]. split; [done|]. by apply Hk.
Qed.

(** C33 Once [PrepareStatements] has returned true on fresh connections, every
    statement [GetPreparedStatement] makes has exactly the parameters its
    counterpart has on each connection that prepared it, fewer than 255 of
    them, all of them unset; no connection had an error, and none was in use.
    So the parameters the program sets can be bound, one to one, on any of
    them.  It relies on the server counting the parameters of a text alike on
    all connections. *)
Theorem statements_fit (DoPrepareStatements : Pool → Pool) (p p' : Pool)
    (Hfresh : Forall (λ c, _stmtList (conn c.2) = []) (_connections (DoPrepareStatements p)))
    (Hsizes : _preparedStatementSize (DoPrepareStatements p) = [])
    (Hrun : PrepareStatements DoPrepareStatements p = Done (true, p')) :
  Forall (λ c, c.1 = false ∧ _prepareError (conn c.2) = false ∧
    ∀ i m, _stmtList (conn c.2) !! i = Some (Some m) →
      ∃ sql flags stmt, _stringPreparedStatement p' !! i = Some (sql, flags) ∧
        GetPreparedStatement i p' = Done stmt ∧ _index stmt = Z.of_nat i ∧
        length (_statementData stmt) = _paramCount m ∧ _paramCount m = params sql ∧ _paramCount m < 255 ∧
        _paramsSet stmt = replicate (_paramCount m) false) (_connections p').
Proof.
  unfold PrepareStatements in Hrun. set (q := DoPrepareStatements p) in *.
  apply outcome_bind_Done in Hrun as (conns & Hi & Hrun). apply outcome_bind_Done in Hrun as (r & Hv & Hrun).
  destruct r as [sizes|[closed sizes]]; [|by simplify_eq]. injection Hrun as <-. cbn. rewrite Hsizes in Hv.
  pose proof (init_all_lists q _ _ Hi Hfresh) as Hl.
  destruct (validate_all_ok _ _ _ _ Hv Hl) as [_ Hall].
  { intros i z Hz. by rewrite lookup_nil in Hz. }
  { intros i z Hz. by rewrite lookup_nil in Hz. }
  apply Forall_forall. intros c Hc. rewrite Forall_forall in Hall, Hl. destruct (Hall c Hc) as (Hlk & He & Hcov).
  split; [done|]. split; [done|]. intros i m Hm. destruct (Hl c Hc i m Hm) as (sql & flags & Hst & Hp).
  destruct (Hcov i m Hm) as [Hz Hlt]. exists sql, flags. unfold GetPreparedStatement. cbn. rewrite Hz.
  eexists. split; [done|]. split; [done|]. cbn. rewrite Nat2Z.id, length_replicate. done.
Qed.

(** ** Lemmas: DirectCommitTransaction *)
Lemma commit_loop_codes i fuel t st codes st' :
  commit_loop i fuel t st = Done (codes, st') →
  length codes ≤ i ∧ ∀ k c, codes !! k = Some c → c = 0%Z → Datatypes.S k = length codes.
Proof.
  revert st codes. induction i as [|i IH]; intros st codes H; cbn in H.
  { injection H as <- <-. split; [done|]. intros k c Hk. by rewrite lookup_nil in Hk. }
  apply M_bind_Done in H as (code & st1 & _ & H). destruct (Z.eqb_spec code 0) as [->|Hx].
  - injection H as <- <-. split; [cbn; lia|]. intros [|k] c Hk _; by inversion Hk.
  - apply M_bind_Done in H as (rest & st2 & Hr & H). injection H as <- <-. destruct (IH _ _ Hr) as [Hl Hz]. split; [cbn; lia|].
    intros [|k] c Hk H0; cbn in Hk; [congruence|]. cbn. f_equal. by eapply Hz.
Qed.

(** [DirectCommitTransaction] makes at most six attempts, the first and five
    more only when that one met a deadlock; it stops at the first that
    succeeds, and it drops the statements of the transaction in every case but
    a success at once. *)
Theorem DirectCommitTransaction_attempts (fuel : nat) (t t' : Transaction) (st st' : cstate (S := S)) (codes : list Z)
    (Hrun : DirectCommitTransaction fuel t st = Done ((codes, t'), st')) :
  1 ≤ length codes ≤ 6 ∧
  (∀ k c, codes !! k = Some c → c = 0%Z → Datatypes.S k = length codes) ∧
  (1 < length codes → codes !! 0 = Some ER_LOCK_DEADLOCK) ∧
  (codes = [0%Z] ∧ t' = t ∨ codes !! 0 ≠ Some 0%Z ∧ (_cleanedUp t = true ∧ t' = t ∨ t' = mk_Transaction [] true)).
Proof.
  unfold DirectCommitTransaction in Hrun. apply M_bind_Done in Hrun as (code & st1 & _ & H).
  destruct (Z.eqb_spec code 0) as [->|Hc].
  { injection H as <- <- <-. split; [cbn; lia|]. split; [intros [|k] c Hk _; by inversion Hk|].
    split; [cbn; lia|by left]. }
  apply M_bind_Done in H as (more & st2 & Hm & H). apply M_bind_Done in H as (t2 & st3 & Ht & H).
  injection H as <- <- <-. apply lift_spec in Ht as [-> Ht].
  assert (length more ≤ 5 ∧ (∀ k c, more !! k = Some c → c = 0%Z → Datatypes.S k = length more) ∧
    (more ≠ [] → code = ER_LOCK_DEADLOCK)) as (Hl & Hz & Hd).
  { destruct (Z.eqb_spec code ER_LOCK_DEADLOCK).
    - apply commit_loop_codes in Hm as [? ?]. auto.
    - injection Hm as <- <-. split; [cbn; lia|]. split; [intros k c Hk; by rewrite lookup_nil in Hk|done]. }
  split; [cbn; lia|]. split; [|split].
  - intros [|k] c Hk H0; cbn in Hk; [congruence|]. cbn. f_equal. by eapply Hz.
  - intros Hlen. cbn. f_equal. apply Hd. by destruct more; cbn in Hlen; [lia|].
  - right. split; [cbn; congruence|]. unfold Cleanup in Ht. destruct (_cleanedUp t) eqn:Hcl; [left|right].
    + by injection Ht as <-.
    + apply outcome_bind_Done in Ht as (u & _ & Ht). by injection Ht as <-.
Qed.
End PoolStatements.

(** ** DiscordDatabase.cpp *)
Definition MAX_LOGIN_DATABASE_STATEMENTS : nat := 6.
Definition DiscordDatabase_DoPrepareStatements {S : Type} (p : Pool (S := S)) : Pool (S := S) :=
  let p := SetStatementSize MAX_LOGIN_DATABASE_STATEMENTS p in
  let p := PrepareStatement 0 "SELECT `nickname`, `ilvl`, `game_spec`, `twinks` FROM `guild_players` WHERE `discord_guild_id` = ?" flag_Async p in
  let p := PrepareStatement 1 "SELECT `nickname` FROM `guild_players` WHERE `discord_guild_id` = ? AND `nickname` = ?" flag_Async p in
  let p := PrepareStatement 2 "DELETE FROM `guild_players` WHERE `discord_guild_id` = ? AND `nickname` = ?" flag_Async p in
  let p := PrepareStatement 3 "INSERT INTO `guild_players` (`discord_guild_id`, `user_id`, `nickname`, `ilvl`, `game_spec`) VALUES (?, ?, ?, ?, ?)" flag_Async p in
  let p := PrepareStatement 4 "UPDATE `guild_players` SET `twinks` = ? WHERE `discord_guild_id` = ? AND nickname LIKE ?" flag_Async p in
  PrepareStatement 5 "UPDATE `guild_players` SET `ilvl` = ? WHERE `discord_guild_id` = ? AND nickname LIKE ?" flag_Async p.

(** ** Concrete runs *)

(** A server that remembers the text prepared last and counts its marks. *)
Fixpoint count_marks (s : string) : nat :=
  match s with
  | EmptyString => 0
  | String c s => (if Ascii.eqb c "?" then 1 else 0) + count_marks s
  end.
Definition counting_client : mysql_client string := {|
  mysql_init := λ s, (true, s);
  mysql_real_connect := λ _ s, (true, s);
  mysql_close := λ s, s;
  mysql_autocommit := λ s, s;
  mysql_set_character_set := λ s, s;
  mysql_errno := λ _, 0%Z;
  mysql_query := λ _ s, (false, s);
  mysql_stmt_init := λ s, (Some 1%Z, s);
  mysql_stmt_prepare := λ _ sql _, (false, sql);
  mysql_stmt_param_count := λ _ s, count_marks s;
  mysql_stmt_bind_param := λ _ _ s, (false, s);
  mysql_stmt_execute := λ _ s, (false, s);
  mysql_store_result := λ s, (None, s);
  mysql_affected_rows := λ _, 0%Z;
  mysql_field_count := λ _, 0%Z;
  mysql_stmt_num_rows := λ _ _, 0%Z;
  mysql_stmt_field_count := λ _ _, 0%Z;
  mysql_stmt_result_metadata := λ _ s, (None, s);
  mysql_fetch_row := λ _ s, (false, s);
  system_clock := λ s, (0%Z, s);
  steady_clock := λ s, (0%Z, s);
|}.

Definition fresh_conn (flags : Z) : bool * cstate (S := string) :=
  (false, mk_cstate (mk_MySQLConnection true empty_info flags [] false false 0) "" []).
(** A pool as [Open] leaves it. *)
Definition fresh_pool : Pool (S := string) := mk_Pool ∅ 0 [] [fresh_conn flag_Async; fresh_conn flag_Sync].
Definition prepared_pool : Pool (S := string) :=
  match PrepareStatements counting_client map_to_list DiscordDatabase_DoPrepareStatements fresh_pool with
  | Done (_, p) => p
  | _ => fresh_pool
  end.

Example discord_statement_sizes : _preparedStatementSize prepared_pool = [1; 2; 2; 5; 3; 3]%Z.
Proof. vm_compute. reflexivity. Qed.

Lemma statements_fit_witness :
  Forall (λ c, c.1 = false ∧ _prepareError (conn c.2) = false ∧
    ∀ i m, _stmtList (conn c.2) !! i = Some (Some m) →
      ∃ sql flags stmt, _stringPreparedStatement prepared_pool !! i = Some (sql, flags) ∧
        GetPreparedStatement i prepared_pool = Done stmt ∧ _index stmt = Z.of_nat i ∧
        length (_statementData stmt) = _paramCount m ∧ _paramCount m = count_marks sql ∧ _paramCount m < 255 ∧
        _paramsSet stmt = replicate (_paramCount m) false) (_connections prepared_pool).
Proof.
  apply (statements_fit counting_client map_to_list count_marks) with
    (DoPrepareStatements := DiscordDatabase_DoPrepareStatements) (p := fresh_pool).
  - intros stmt sql s s' [= <-]. reflexivity.
  - reflexivity.
  - repeat constructor.
  - reflexivity.
  - vm_compute. reflexivity.
Defined.

Lemma DirectCommitTransaction_attempts_witness :
  let st := ex_state "h;1;u;p;d" [0; 1213; 0; 0; 0; 0; 0]%Z in
  ∃ codes t' st', DirectCommitTransaction script_client 9 ex_transaction st = Done ((codes, t'), st') ∧
    codes = [1213; 0]%Z ∧ 1 ≤ length codes ≤ 6.
Proof.
  intros st.
  destruct (DirectCommitTransaction script_client 9 ex_transaction st) as [[[codes t'] st']|e|w] eqn:E.
  - exists codes, t', st'. split; [reflexivity|]. split.
    + vm_compute in E. by injection E as <- _ _.
    + exact (proj1 (DirectCommitTransaction_attempts script_client 9 ex_transaction t' st st' codes E)).
  - vm_compute in E. discriminate.
  - vm_compute in E. discriminate.
Defined.

(** [AsyncQuery] of a statement does not look at its parameters, [Execute] does. *)
Example async_query_with_unset_parameters :
  let stmt := PreparedStatementBase_new 0 1 in
  Execute_stmt (Some stmt) = [] ∧ AsyncQuery_stmt stmt = [PreparedStatementTask stmt true].
Proof. split; reflexivity. Qed.
