(* ===== verification/Opening.v ===== *)
(** * The opening of an asynchronous connection, while its worker runs

    The constructor of [MySQLConnection] starts the worker's thread, which takes
    operations from the queue of the pool at once; the thread that opens the
    connection calls Open and prepares the statements afterwards
    (DatabaseWorkerPool::OpenConnection and OpenDynamicAsyncConnect).  The two
    are composed here: a [move] is a call of Push, an operation the worker takes
    and executes, or the next call of the opening thread.

    - A step of the opening thread is a call of it, one of the worker a request to
      the connection: a statement, a ping, or one of the requests of a transaction
      (its begin, an element, its commit or roll back), between which the opening
      may go on.  [attempts_run_ExecuteTransaction]: without that, the requests
      are ExecuteTransaction of Connection.v.
    - Two requests do not overlap in time: the client library does not allow two
      threads on one handle, and the code has no lock that sees to it.
    - A connection that could not be opened is refused; its worker may go on until
      the connection is destroyed.
    - [mysql_ping] with a null handle is undefined behaviour; [mysql_errno]
      accepts one. *)
From S2P Require Import Prelude CppString Convert Timer WorkerPool Prepared Connection Transaction PoolStatements.

(** The operations of the queue, and what they give to their promises. *)
Inductive operation := OpTask (t : pool_task) | OpPing.
Inductive promised :=
| PRows (r : option (nat * Z * Z))
| PStmtRows (r : option (option nat * Z * Z))
| PCommitted (b : bool).

Section Opening.
Context {S : Type} (client : mysql_client S).
Context (mysql_ping : S → S) (mysql_get_server_version : S → Z).
Context (order : gmap nat (string * Z) → list (nat * (string * Z))).
Context (pool : Pool (S := S)).

Definition Ping : M (S := S) unit :=
  c ← get_conn;
  if _mysqlHandle c then call (λ s, ((), mysql_ping s)) else crash "mysql_ping(nullptr)".

(** Where a transaction is. *)
Inductive phase :=
| Begin
| Elements (rest : list SQLElementData)
| Commit
| Rollback (errorCode : Z).

(** The next request of [ExecuteTransaction], or the code it returns. *)
Definition transaction_request (fuel : nat) (trans : Transaction) (p : phase) : M (S := S) (phase + Z) :=
  match p with
  | Begin =>
      match _queries trans with
      | [] => mret (inr (-1)%Z)
      | queries => _ ← BeginTransaction client fuel; mret (inl (Elements queries))
      end
  | Elements [] => mret (inl Commit)
  | Elements (data :: rest) =>
      ok ← execute_element client fuel data;
      if ok : bool then mret (inl (Elements rest))
      else errorCode ← GetLastError client; mret (inl (Rollback errorCode))
  | Commit => _ ← Connection.CommitTransaction client fuel; mret (inr 0%Z)
  | Rollback errorCode => _ ← RollbackTransaction client fuel; mret (inr errorCode)
  end.

(** A transaction the worker executes: with a promise or not, and the start of
    its retries if it met a deadlock. *)
Record job := mk_job { j_trans : Transaction; j_promise : bool; j_retrying : option Z; j_phase : phase }.

Definition set_value (hasResult b : bool) : list promised := if hasResult then [PCommitted b] else [].

(** [TransactionTask::ExecuteQuery] after an attempt *)
Definition after_attempt (code : Z) (j : job) : M (S := S) (job + list promised) :=
  let again start := mk_job (j_trans j) (j_promise j) (Some start) Begin in
  let fail_ := (_ ← CleanupOnFailure (j_trans j); mret (inr (set_value (j_promise j) false))) : M (S := S) (job + list promised) in
  if (code =? 0)%Z then mret (inr (set_value (j_promise j) true))
  else
    match j_retrying j with
    | None =>
        if (code =? ER_LOCK_DEADLOCK)%Z then startMSTime ← GetTimeMS client; mret (inl (again startMSTime))
        else fail_
    | Some startMSTime =>
        now ← GetTimeMS client;
        if (DEADLOCK_MAX_RETRY_TIME_MS <? GetMSTimeDiff startMSTime now)%Z then fail_
        else mret (inl (again startMSTime))
    end.

Definition job_request (fuel : nat) (j : job) : M (S := S) (job + list promised) :=
  r ← transaction_request fuel (j_trans j) (j_phase j);
  match r with
  | inl p => mret (inl (mk_job (j_trans j) (j_promise j) (j_retrying j) p))
  | inr code => after_attempt code j
  end.

(** [operation->ExecuteQuery()], of whatever class it is: done with one request,
    or a transaction to be continued *)
Definition ExecuteQuery (fuel : nat) (o : operation) : M (S := S) (job + list promised) :=
  match o with
  | OpTask (BasicStatementTask sql hasResult) =>
      values ← BasicStatementTask_ExecuteQuery client fuel sql hasResult; mret (inr (PRows <$> values))
  | OpTask (PreparedStatementTask stmt hasResult) =>
      values ← PreparedStatementTask_ExecuteQuery client fuel stmt hasResult; mret (inr (PStmtRows <$> values))
  | OpTask (TransactionTask trans) => mret (inl (mk_job trans false None Begin))
  | OpTask (TransactionWithResultTask trans) => mret (inl (mk_job trans true None Begin))
  | OpPing => _ ← Ping; mret (inr [])
  end.

(** How far the opening thread is. *)
Inductive stage :=
| Constructed
| Opened
| Preparing (rest : list (nat * (string * Z)))
| Ready
| Refused (error : Z).

Record newborn := mk_newborn {
  link : cstate (S := S);
  at_ : stage;
  queue : list operation;
  executing : option (operation * job);    (* a transaction the worker has begun *)
  served : list (stage * operation * list promised) }.

(** The constructor, for a connection with a queue *)
Definition new_connection (info : MySQLConnectionInfo) (isDynamic : bool) (q : list operation) (s : S) : newborn :=
  let '(now, s) := system_clock client s in
  mk_newborn (mk_cstate (mk_MySQLConnection false info flag_Async [] isDynamic false now) s []) Constructed q None [].

(** The next call of [OpenConnection] and [InitPrepareStatement] *)
Definition open_step (n : newborn) : outcome db_error newborn :=
  let next c st := mk_newborn c st (queue n) (executing n) (served n) in
  match at_ n with
  | Constructed =>
      '(error, c) ← Connection.Open client (link n);
      if negb (error =? 0)%Z then Done (next c (Refused error))
      else if (mysql_get_server_version (srv c) <? MIN_DB_SERVER_VERSION)%Z then Done (next c (Refused 1))
      else Done (next c Opened)
  | Opened =>
      '(_, c) ← resize_statements (_statementSize pool) (link n);
      Done (next c (Preparing (order (_stringPreparedStatement pool))))
  | Preparing (stmt :: rest) =>
      '(_, c) ← prepare_all client [stmt] (link n);
      Done (next c (Preparing rest))
  | Preparing [] =>
      '(prepared, c) ← Connection.PrepareStatements (link n);
      _ ← assert prepared "Can't register prepare statements for dynamic async connection";
      Done (next c Ready)
  | Ready | Refused _ => Done n
  end.

(** The worker goes on with its transaction, or takes the next operation. *)
Definition work_step (fuel : nat) (n : newborn) : outcome db_error newborn :=
  let continue o q (request : M (S := S) (job + list promised)) :=
    '(r, c) ← request (link n);
    Done match r with
         | inl j => mk_newborn c (at_ n) q (Some (o, j)) (served n)
         | inr values => mk_newborn c (at_ n) q None (served n ++ [(at_ n, o, values)])
         end in
  match executing n, queue n with
  | Some (o, j), q => continue o q (job_request fuel j)
  | None, [] => Done n
  | None, o :: q => continue o q (ExecuteQuery fuel o)
  end.

Inductive move := Push (o : operation) | Work | Advance.

Definition make_move (fuel : nat) (m : move) (n : newborn) : outcome db_error newborn :=
  match m with
  | Push o => Done (mk_newborn (link n) (at_ n) (queue n ++ [o]) (executing n) (served n))
  | Work => work_step fuel n
  | Advance => open_step n
  end.

Fixpoint make_moves (fuel : nat) (ms : list move) (n : newborn) : outcome db_error newborn :=
  match ms with
  | [] => Done n
  | m :: ms => n ← make_move fuel m n; make_moves fuel ms n
  end.

End Opening.

(** ** Lemmas *)

(** *** What the operations keep of a connection *)
Section Keeps.
Context {S : Type} (client : mysql_client S).

Definition same_text (m m' : MySQLPreparedStatement) : Prop :=
  _queryString m' = _queryString m ∧ _paramCount m' = _paramCount m.

(** The flags, the error, and the statements, up to their parameters. *)
Record kept (c c' : MySQLConnection) : Prop := {
  k_flags : _connectionFlags c' = _connectionFlags c;
  k_error : _prepareError c' = _prepareError c;
  k_length : length (_stmtList c') = length (_stmtList c);
  k_stmts : ∀ i m, _stmtList c !! i = Some (Some m) → ∃ m', _stmtList c' !! i = Some (Some m') ∧ same_text m m';
  k_null : ∀ i, _stmtList c !! i = Some None → _stmtList c' !! i = Some None }.

Lemma kept_refl c : kept c c.
Proof. split; try done. intros i m Hm. by exists m. Qed.
Lemma kept_trans c1 c2 c3 : kept c1 c2 → kept c2 c3 → kept c1 c3.
Proof.
  intros [Hf1 He1 Hl1 Hs1 Hn1] [Hf2 He2 Hl2 Hs2 Hn2]. split; [congruence..| |auto]. intros i m Hm.
  destruct (Hs1 i m Hm) as (m1 & Hm1 & [Ht1 Hp1]). destruct (Hs2 i m1 Hm1) as (m2 & Hm2 & [Ht2 Hp2]).
  exists m2. split; [done|]. split; congruence.
Qed.
Lemma kept_stmts c c' : _connectionFlags c' = _connectionFlags c → _prepareError c' = _prepareError c →
  _stmtList c' = _stmtList c → kept c c'.
Proof. intros Hf He Hs. split; [done|done|by rewrite Hs| |by rewrite Hs]. intros i m Hm. exists m. by rewrite Hs. Qed.

Definition keeps {A : Type} (m : M (S := S) A) : Prop := ∀ st a st', m st = Done (a, st') → kept (conn st) (conn st').

Lemma keeps_conn {A : Type} (m : M (S := S) A) : (∀ st a st', m st = Done (a, st') → conn st' = conn st) → keeps m.
Proof. intros Hm st a st' H. rewrite (Hm st a st' H). apply kept_refl. Qed.
Lemma keeps_bind {A B : Type} (m : M (S := S) A) (f : A → M (S := S) B) :
  keeps m → (∀ a, keeps (f a)) → keeps (m ≫= f).
Proof. intros Hm Hf st b st' (a & st1 & H1 & H2)%M_bind_Done. eapply kept_trans; [by eapply Hm|by eapply Hf]. Qed.
Lemma keeps_ret {A : Type} (a : A) : keeps (mret (M := M (S := S)) a).
Proof. apply keeps_conn. by intros st b st' [= _ <-]. Qed.
Lemma keeps_get : keeps get_conn.
Proof. apply keeps_conn. by intros st b st' [= _ <-]. Qed.
Lemma keeps_crash {A : Type} w : keeps (crash (A := A) w).
Proof. by intros st a st' H. Qed.
Lemma keeps_fuel {A : Type} : keeps (out_of_fuel (A := A)).
Proof. by intros st a st' H. Qed.
Lemma keeps_emit e : keeps (emit e).
Proof. apply keeps_conn. by intros st b st' [= _ <-]. Qed.
Lemma keeps_ask {A : Type} (f : S → A) : keeps (ask f).
Proof. apply keeps_conn. by intros st b st' [= _ <-]. Qed.
Lemma keeps_call {A : Type} (f : S → A * S) : keeps (call f).
Proof. apply keeps_conn. intros st a st' H. unfold call in H. destruct (f (srv st)). by injection H as _ <-. Qed.
Lemma keeps_lift {A : Type} (o : outcome Empty_set A) : keeps (lift o).
Proof. apply keeps_conn. by intros st a st' [-> _]%lift_spec. Qed.
Lemma keeps_handle b : keeps (set_handle b).
Proof. intros st a st' H. unfold set_handle in H. inv_M. by apply kept_stmts. Qed.
Lemma keeps_info i : keeps (set_info i).
Proof. intros st a st' H. unfold set_info in H. inv_M. by apply kept_stmts. Qed.
Lemma keeps_use : keeps (UpdateLastUseTime client).
Proof. intros st a st' H. unfold UpdateLastUseTime in H. inv_M. by apply kept_stmts. Qed.
End Keeps.

Create HintDb keeps discriminated.
#[export] Hint Resolve keeps_ret keeps_get keeps_crash keeps_fuel keeps_emit keeps_ask keeps_call keeps_lift
  keeps_handle keeps_info keeps_use : keeps.

(** Along the structure of a computation. *)
Ltac keeps_tac :=
  repeat match goal with
  | |- keeps (_ ≫= _) => apply keeps_bind; [|intros ?]
  | |- keeps (match ?x with _ => _ end) => destruct x
  | |- keeps _ => solve [eauto with keeps]
  end.

Section Operations.
Context {S : Type} (client : mysql_client S).

Lemma keeps_Open : keeps (Connection.Open client).
Proof. unfold Connection.Open, Open_endpoint. keeps_tac. Qed.
#[local] Hint Resolve keeps_Open : keeps.

Lemma keeps_HandleMySQLError errNo attempts : keeps (HandleMySQLError client errNo attempts).
Proof.
  revert errNo. induction attempts as [|n IH]; intros errNo; cbn [HandleMySQLError];
    unfold Connection.PrepareStatements; keeps_tac.
Qed.
#[local] Hint Resolve keeps_HandleMySQLError : keeps.

Lemma keeps_Execute fuel sql : keeps (Connection.Execute client fuel sql).
Proof. induction fuel as [|fuel IH]; cbn [Connection.Execute]; keeps_tac. Qed.

Lemma set_stmt_kept i m0 m (st : cstate (S := S)) u st' : _stmtList (conn st) !! i = Some (Some m0) → same_text m0 m →
  set_stmt i (Some m) st = Done (u, st') → kept (conn st) (conn st') ∧ _stmtList (conn st') !! i = Some (Some m).
Proof.
  intros Hi Ht H. unfold set_stmt in H. inv_M. cbn. pose proof (lookup_lt_Some _ _ _ Hi) as Hlt. split.
  - split; cbn; [done|done|by rewrite length_insert| |].
    + intros j m1 Hj. destruct (decide (j = i)) as [->|Hne].
      * rewrite list_lookup_insert_eq by done. exists m. split; [done|]. by simplify_eq.
      * rewrite list_lookup_insert_ne by done. by exists m1.
    + intros j Hj. rewrite list_lookup_insert_ne; [done|]. intros ->. congruence.
  - by rewrite list_lookup_insert_eq.
Qed.

(** Binding parameters changes the buffers only. *)
Lemma SetParameter_text index p m m' : SetParameter index p m = Done m' → same_text m m'.
Proof.
  unfold SetParameter, SetParameter_num, SetParameter_bytes, SetParameter_null.
  destruct p; intros (u & _ & [= <-])%outcome_bind_Done; done.
Qed.
Lemma BindParameters_text stmt m m' : BindParameters stmt m = Done m' → same_text m m'.
Proof.
  unfold BindParameters. generalize 0. revert m. induction (_statementData stmt) as [|p l IH]; intros m pos; cbn.
  { by intros [= <-]. }
  intros (m1 & H1%SetParameter_text & H2%IH)%outcome_bind_Done. destruct H1, H2. split; congruence.
Qed.

Lemma keeps_bind_and_execute stmt : keeps (bind_and_execute client stmt).
Proof.
  intros st r st' H. unfold bind_and_execute in H.
  apply M_bind_Done in H as (found & st1 & Hg & H). unfold Connection.GetPreparedStatement in Hg. M_step Hg.
  destruct (_ && _) eqn:Hidx; [|done]. injection Hg as <- <-.
  destruct (_stmtList (conn st) !! Z.to_nat (_index stmt)) as [[m|]|] eqn:Hm; cbn [default] in H; [|done..].
  apply M_bind_Done in H as (m1 & st1 & Hb & H). apply lift_spec in Hb as [-> Hb%BindParameters_text].
  apply M_bind_Done in H as (u & st1 & Hs & H). destruct (set_stmt_kept _ _ _ _ _ _ Hm Hb Hs) as [Hk1 Hm1].
  eapply kept_trans; [exact Hk1|]. clear Hs Hk1 Hm u.
  (* what follows keeps the statement, and then clears its parameters *)
  assert (∀ (st2 st3 : cstate (S := S)) u, kept (conn st1) (conn st2) → set_stmt (Z.to_nat (_index stmt)) (Some (ClearParameters m1)) st2 = Done (u, st3) →
    kept (conn st1) (conn st3)) as Hclear.
  { intros st2 st3 u Hk Hs. destruct (k_stmts _ _ Hk _ _ Hm1) as (m2 & Hm2 & [Ht Hp]).
    eapply kept_trans; [exact Hk|]. eapply set_stmt_kept; [exact Hm2| |exact Hs]. split; cbn; congruence. }
  apply M_bind_Done in H as (failed0 & st2 & H1 & H). apply keeps_call in H1.
  apply M_bind_Done in H as (failed & st3 & H2 & H).
  assert (kept (conn st2) (conn st3)) as Hk3 by (destruct failed0; [by apply keeps_ret in H2|by apply keeps_call in H2]). clear H2.
  apply M_bind_Done in H as (u & st4 & H4%keeps_emit & H). pose proof (kept_trans _ _ _ (kept_trans _ _ _ H1 Hk3) H4) as Hk.
  destruct failed.
  - apply M_bind_Done in H as (err & st5 & H5%keeps_ask & H). apply M_bind_Done in H as (again & st6 & H6%keeps_HandleMySQLError & H).
    pose proof (kept_trans _ _ _ (kept_trans _ _ _ Hk H5) H6) as Hk6. destruct again; [by injection H as _ <-|].
    apply M_bind_Done in H as (u' & st7 & H7 & H). injection H as _ <-. by eapply Hclear.
  - apply M_bind_Done in H as (u' & st7 & H7 & H). injection H as _ <-. by eapply Hclear.
Qed.
#[local] Hint Resolve keeps_Execute keeps_bind_and_execute : keeps.

Lemma keeps_Execute_stmt fuel stmt : keeps (Connection.Execute_stmt client fuel stmt).
Proof. induction fuel as [|fuel IH]; cbn [Connection.Execute_stmt]; keeps_tac. Qed.
Lemma keeps_Query_raw fuel sql : keeps (Query_raw client fuel sql).
Proof. induction fuel as [|fuel IH]; cbn [Query_raw]; keeps_tac. Qed.
Lemma keeps_Query_stmt_raw fuel stmt : keeps (Query_stmt_raw client fuel stmt).
Proof. induction fuel as [|fuel IH]; cbn [Query_stmt_raw]; keeps_tac. Qed.
#[local] Hint Resolve keeps_Execute_stmt keeps_Query_raw keeps_Query_stmt_raw : keeps.

Lemma keeps_Query fuel sql : keeps (Connection.Query client fuel sql).
Proof. unfold Connection.Query. keeps_tac. Qed.
Lemma keeps_Query_stmt fuel stmt : keeps (Connection.Query_stmt client fuel stmt).
Proof. unfold Connection.Query_stmt. keeps_tac. Qed.
Lemma keeps_execute_element fuel d : keeps (execute_element client fuel d).
Proof. unfold execute_element. keeps_tac. Qed.
#[local] Hint Resolve keeps_Query keeps_Query_stmt keeps_execute_element : keeps.

Lemma keeps_transaction_request fuel t p : keeps (transaction_request client fuel t p).
Proof.
  unfold transaction_request, Connection.CommitTransaction, BeginTransaction, RollbackTransaction, GetLastError. keeps_tac.
Qed.
#[local] Hint Resolve keeps_transaction_request : keeps.
Lemma keeps_job_request fuel j : keeps (job_request client fuel j).
Proof. unfold job_request, after_attempt, CleanupOnFailure, GetTimeMS. keeps_tac. Qed.

Lemma keeps_ExecuteQuery ping fuel o : keeps (ExecuteQuery client ping fuel o).
Proof.
  unfold ExecuteQuery, BasicStatementTask_ExecuteQuery, PreparedStatementTask_ExecuteQuery, Ping. keeps_tac.
Qed.

(** *** Without another thread the requests are [ExecuteTransaction] *)
Inductive attempts (fuel : nat) (t : Transaction) : phase → cstate (S := S) → Z → cstate (S := S) → Prop :=
| attempts_over p st code st' : transaction_request client fuel t p st = Done (inr code, st') → attempts fuel t p st code st'
| attempts_on p st p' st1 code st' :
    transaction_request client fuel t p st = Done (inl p', st1) → attempts fuel t p' st1 code st' →
    attempts fuel t p st code st'.

Lemma attempts_run_ExecuteTransaction fuel t st code st' :
  attempts fuel t Begin st code st' → ExecuteTransaction client fuel t st = Done (code, st').
Proof.
  intros Ha.
  assert (match Begin with Begin => ExecuteTransaction client fuel t st = Done (code, st') | _ => True end) as H; [|exact H].
  set (run p (st : cstate (S := S)) := match p with
    | Begin => ExecuteTransaction client fuel t st
    | Elements rest => (r ← ExecuteTransaction_loop client fuel rest;
        match r with Some e => mret e | None => _ ← Connection.CommitTransaction client fuel; mret 0%Z end) st
    | Commit => (_ ← Connection.CommitTransaction client fuel; mret 0%Z) st
    | Rollback e => (_ ← RollbackTransaction client fuel; mret e) st
    end).
  change (run Begin st = Done (code, st')). induction Ha as [p st code st' H|p st p' st1 code st' H _ IH].
  - destruct p as [|[|d rest]| |e]; cbn [transaction_request] in H.
    + unfold run, ExecuteTransaction. destruct (_queries t); [|by repeat (apply M_bind_Done in H as (? & ? & _ & H))].
      by injection H as <- <-.
    + done.
    + apply M_bind_Done in H as (ok & st2 & _ & H). destruct ok; [done|]. by apply M_bind_Done in H as (? & ? & _ & H).
    + apply M_bind_Done in H as (u & st2 & Hu & H). injection H as <- <-. cbn. unfold mbind, M_bind. by rewrite Hu.
    + apply M_bind_Done in H as (u & st2 & Hu & H). injection H as <- <-. cbn. unfold mbind, M_bind. by rewrite Hu.
  - destruct p as [|[|d rest]| |e]; cbn [transaction_request] in H.
    + unfold run, ExecuteTransaction in *. destruct (_queries t) as [|d l]; [done|].
      apply M_bind_Done in H as (u & st2 & Hu & H). injection H as <- <-. unfold mbind at 1, M_bind at 1. by rewrite Hu.
    + injection H as <- <-. exact IH.
    + apply M_bind_Done in H as (ok & st2 & Ho & H). cbn [run ExecuteTransaction_loop].
      unfold mbind at 1, M_bind at 1. unfold mbind at 1, M_bind at 1. rewrite Ho. destruct ok.
      * injection H as <- <-. exact IH.
      * apply M_bind_Done in H as (e & st3 & He & H). injection H as <- <-. cbn [run] in IH.
        unfold mbind, M_bind in *. rewrite He. destruct (RollbackTransaction client fuel st3) as [[u st4]|[]|]; done.
    + by apply M_bind_Done in H as (? & ? & _ & H).
    + by apply M_bind_Done in H as (? & ? & _ & H).
Qed.

(** *** Without a handle nothing is sent *)
Definition unconnected (st : cstate (S := S)) : Prop := _mysqlHandle (conn st) = false.

(** The connection and the trace stay as they are, and the result is in [Q]. *)
Definition silent {A : Type} (m : M (S := S) A) (Q : A → Prop) : Prop :=
  ∀ st a st', unconnected st → m st = Done (a, st') → conn st' = conn st ∧ events st' = events st ∧ Q a.

Lemma silent_bind {A B : Type} (m : M (S := S) A) (f : A → M (S := S) B) Q R :
  silent m Q → (∀ a, Q a → silent (f a) R) → silent (m ≫= f) R.
Proof.
  intros Hm Hf st b st' Hu (a & st1 & H1 & H2)%M_bind_Done. destruct (Hm st a st1 Hu H1) as (Hc & He & Ha).
  assert (unconnected st1) as Hu1 by (unfold unconnected; by rewrite Hc).
  destruct (Hf a Ha st1 b st' Hu1 H2) as (Hc2 & He2 & Hb). split_and!; [congruence..|done].
Qed.
Lemma silent_ret {A : Type} (a : A) (Q : A → Prop) : Q a → silent (mret a) Q.
Proof. intros Ha st b st' _ H. by injection H as <- <-. Qed.
Lemma silent_any {A : Type} (m : M (S := S) A) Q : silent m Q → silent m (λ _, True).
Proof. intros Hm st a st' Hu H. by destruct (Hm st a st' Hu H) as (? & ? & _). Qed.
Lemma silent_call {A : Type} (f : S → A * S) : silent (call f) (λ _, True).
Proof. intros st a st' _ H. unfold call in H. destruct (f (srv st)). by injection H as _ <-. Qed.

Lemma silent_Execute fuel sql : silent (Connection.Execute client fuel sql) (λ b, b = false).
Proof.
  intros st b st' Hu H. destruct fuel; [done|]. cbn in H. M_step H. rewrite Hu in H. by injection H as <- <-.
Qed.
Lemma silent_Execute_stmt fuel stmt : silent (Connection.Execute_stmt client fuel stmt) (λ b, b = false).
Proof.
  intros st b st' Hu H. destruct fuel; [done|]. cbn in H. M_step H. rewrite Hu in H. by injection H as <- <-.
Qed.
Lemma silent_Query fuel sql : silent (Connection.Query client fuel sql) (λ r, r = None).
Proof.
  intros st r st' Hu H. unfold Connection.Query in H. destruct (is_empty sql); [by injection H as <- <-|].
  apply M_bind_Done in H as (r1 & st1 & H1 & H). destruct fuel; [done|]. cbn in H1. M_step H1. rewrite Hu in H1.
  injection H1 as <- <-. by injection H as <- <-.
Qed.
Lemma silent_Query_stmt fuel stmt : silent (Connection.Query_stmt client fuel stmt) (λ r, r = None).
Proof.
  intros st r st' Hu H. unfold Connection.Query_stmt in H.
  apply M_bind_Done in H as (r1 & st1 & H1 & H). destruct fuel; [done|]. cbn in H1. M_step H1. rewrite Hu in H1.
  injection H1 as <- <-. by injection H as <- <-.
Qed.

Lemma silent_transaction_request fuel t p : silent (transaction_request client fuel t p) (λ _, True).
Proof.
  assert (∀ sql (r : phase + Z), silent (_ ← (_ ← Connection.Execute client fuel sql; mret ()); mret r) (λ _, True)) as Hx.
  { intros sql r. eapply silent_bind; [|intros ? _; by apply silent_ret].
    eapply silent_bind; [apply silent_Execute|intros a _; by apply (silent_ret () (λ _, True))]. }
  destruct p as [|[|d rest]| |e]; cbn [transaction_request]; try by apply silent_ret; try apply Hx.
  - destruct (_queries t); [by apply silent_ret|apply Hx].
  - apply (silent_bind _ _ (λ b, b = false)).
    + intros st b st' Hu H. unfold execute_element in H. destruct (type_ d), (element d) as [[stmt|]|sql]; try done.
      * destruct (is_empty sql); [done|]. by eapply silent_Execute.
      * by eapply silent_Execute_stmt.
    + intros b ->. intros st r st' Hu H. unfold GetLastError in H. inv_M. done.
  - apply Hx.
  - apply Hx.
Qed.

(** What the promises of an operation get that is executed too early. *)
Definition lost (o : operation) (values : list promised) : Prop :=
  match o with
  | OpTask (BasicStatementTask _ hasResult) => values = if hasResult then [PRows None] else []
  | OpTask (PreparedStatementTask _ hasResult) => values = if hasResult then [PStmtRows None] else []
  | OpTask (TransactionTask _) => values = []
  | OpTask (TransactionWithResultTask _) => ∃ b, values = [PCommitted b]
  | OpPing => False
  end.

Lemma silent_cleanup t : silent (CleanupOnFailure (S := S) t) (λ _, True).
Proof. intros st a st' _ H. by apply lift_spec in H as [-> _]. Qed.

(** The operation that a transaction of the worker belongs to. *)
Definition job_of (o : operation) (j : job) : Prop :=
  match o with
  | OpTask (TransactionTask _) => j_promise j = false
  | OpTask (TransactionWithResultTask _) => j_promise j = true
  | _ => False
  end.
Definition begun_or_lost (o : operation) (r : job + list promised) : Prop :=
  match r with inl j => job_of o j | inr values => lost o values end.

Lemma after_attempt_of code j o : job_of o j → ∀ st r st', after_attempt client code j st = Done (r, st') →
  begun_or_lost o r.
Proof.
  intros Ho st r st' H.
  assert (∀ b, lost o (set_value (j_promise j) b)) as Hv.
  { intros b. destruct o as [[sql hr|stmt hr|t|t]|]; cbn in Ho; try done; rewrite Ho; cbn; eauto. }
  assert (∀ st, job_of o (mk_job (j_trans j) (j_promise j) (Some st) Begin)) as Hj by (by destruct o as [[]|]).
  unfold after_attempt in H.
  repeat (match type of H with
          | (if _ then _ else _) _ = _ => case_match
          | match j_retrying j with _ => _ end _ = _ => case_match
          | mret _ _ = _ => injection H as <- <-
          | _ => apply M_bind_Done in H as (? & ? & _ & H)
          end); cbn; auto.
Qed.

Lemma silent_after_attempt code j : silent (after_attempt client code j) (λ _, True).
Proof.
  unfold after_attempt. destruct (code =? 0)%Z; [by apply silent_ret|].
  assert (silent (_ ← CleanupOnFailure (S := S) (j_trans j);
    mret (M := M (S := S)) (inr (A := job) (set_value (j_promise j) false))) (λ _, True)) as Hf.
  { eapply silent_bind; [apply silent_cleanup|]. intros ? _. by apply silent_ret. }
  destruct (j_retrying j).
  - eapply silent_bind; [apply silent_call|]. intros now _. destruct (_ <? _)%Z; [done|by apply silent_ret].
  - destruct (_ =? _)%Z; [|done]. eapply silent_bind; [apply silent_call|]. intros now _. by apply silent_ret.
Qed.

Lemma silent_job_request fuel j : silent (job_request client fuel j) (λ _, True).
Proof.
  eapply silent_bind; [apply silent_transaction_request|]. intros [p|code] _; [by apply silent_ret|apply silent_after_attempt].
Qed.

Lemma job_request_of fuel j o : job_of o j → ∀ st r st', job_request client fuel j st = Done (r, st') → begun_or_lost o r.
Proof.
  intros Ho st r st' ([p|code] & st1 & _ & H)%M_bind_Done; [|by eapply after_attempt_of].
  injection H as <- <-. by destruct o as [[]|].
Qed.

Lemma silent_ExecuteQuery ping fuel o : silent (ExecuteQuery client ping fuel o) (begun_or_lost o).
Proof.
  destruct o as [[sql hr|stmt hr|t|t]|]; cbn [ExecuteQuery].
  - unfold BasicStatementTask_ExecuteQuery. destruct hr.
    + apply (silent_bind _ _ (λ l, l = [None])); [|intros ? ->; by apply silent_ret].
      eapply silent_bind; [apply silent_Query|]. intros r ->. by apply silent_ret.
    + apply (silent_bind _ _ (λ l, l = [])); [|intros ? ->; by apply silent_ret].
      eapply silent_bind; [apply silent_Execute|]. intros r _. by apply silent_ret.
  - unfold PreparedStatementTask_ExecuteQuery. destruct hr.
    + apply (silent_bind _ _ (λ l, l = [None])); [|intros ? ->; by apply silent_ret].
      eapply silent_bind; [apply silent_Query_stmt|]. intros r ->. by apply silent_ret.
    + apply (silent_bind _ _ (λ l, l = [])); [|intros ? ->; by apply silent_ret].
      eapply silent_bind; [apply silent_Execute_stmt|]. intros r _. by apply silent_ret.
  - by apply silent_ret.
  - by apply silent_ret.
  - intros st a st' Hu H. unfold Ping in H. apply M_bind_Done in H as (u & st1 & H & _). M_step H. by rewrite Hu in H.
Qed.
End Operations.

(** *** The invariant *)
Section Invariant.
Context {S : Type} (client : mysql_client S) (mysql_ping : S → S) (mysql_get_server_version : S → Z).
Context (order : gmap nat (string * Z) → list (nat * (string * Z))) (pool : Pool (S := S)).
Hypothesis order_perm : ∀ t, order t ≡ₚ map_to_list t.
Local Abbreviation make_move := (make_move client mysql_ping mysql_get_server_version order pool).
Local Abbreviation make_moves := (make_moves client mysql_ping mysql_get_server_version order pool).
Local Abbreviation stmts := (order (_stringPreparedStatement pool)).

(** The statements for this connection that were visited are in its list, if
    there was no error. *)
Definition prepared (done : list (nat * (string * Z))) (c : MySQLConnection) : Prop :=
  _connectionFlags c = flag_Async ∧
  (_prepareError c = false → ∀ i sql flags, (i, (sql, flags)) ∈ done → Z.land flag_Async flags ≠ 0%Z →
    ∃ m, _stmtList c !! i = Some (Some m) ∧ _queryString m = sql).

(** No statement is in the slot. *)
Definition absent (c : MySQLConnection) (i : nat) : Prop := ¬ ∃ m, _stmtList c !! i = Some (Some m).

Lemma absent_kept c c' i : kept c c' → absent c i → absent c' i.
Proof.
  intros [_ _ Hl _ Hn] Ha [m Hm]. destruct (_stmtList c !! i) as [[m0|]|] eqn:E.
  - apply Ha. by exists m0.
  - rewrite (Hn i E) in Hm. done.
  - apply lookup_ge_None in E. apply lookup_lt_Some in Hm. lia.
Qed.

Definition stage_ok (n : newborn (S := S)) : Prop :=
  let c := conn (link n) in
  match at_ n with
  | Constructed => unconnected (link n) ∧ events (link n) = [] ∧ _stmtList c = [] ∧ _connectionFlags c = flag_Async
  | Opened => _stmtList c = [] ∧ _connectionFlags c = flag_Async
  | Preparing rest => (∃ done, stmts = done ++ rest ∧ prepared done c) ∧
      ∀ x, x ∈ rest → absent c x.1
  | Ready => _prepareError c = false ∧ prepared stmts c
  | Refused _ => True
  end.
Definition served_ok (n : newborn (S := S)) : Prop :=
  (∀ o values, (Constructed, o, values) ∈ served n → lost o values) ∧
  match executing n with Some (o, j) => job_of o j | None => True end.

Lemma prepared_kept done c c' : kept c c' → prepared done c → prepared done c'.
Proof.
  intros [Hf He _ Hs] [Hpf Hp]. split; [congruence|]. intros Herr i sql flags Hi Hl. rewrite He in Herr.
  destruct (Hp Herr i sql flags Hi Hl) as (m & Hm & <-). destruct (Hs i m Hm) as (m' & Hm' & [Ht _]). by exists m'.
Qed.

Lemma list_kept c c' : kept c c' → _stmtList c = [] → _stmtList c' = [].
Proof. intros [_ _ Hl _] Hc. rewrite Hc in Hl. by apply nil_length_inv. Qed.

Lemma stage_ok_link n c q ex sv :
  stage_ok n → kept (conn (link n)) (conn c) →
  (unconnected (link n) → conn c = conn (link n) ∧ events c = events (link n)) →
  stage_ok (mk_newborn c (at_ n) q ex sv).
Proof.
  intros Hok Hk Hu. unfold stage_ok in *. cbn. destruct (at_ n) as [| |rest| |err]; cbn.
  - destruct Hok as (Hun & He & Hl & Hf). destruct (Hu Hun) as [Hc Hev]. unfold unconnected. by rewrite Hc, Hev.
  - destruct Hok as [Hl Hf]. split; [by eapply list_kept|]. by rewrite (k_flags _ _ Hk).
  - destruct Hok as [(done & Hd & Hp) Ha]. split; [exists done; split; [done|by eapply prepared_kept]|].
    intros x Hx. eapply absent_kept; [exact Hk|by apply Ha].
  - destruct Hok as [He Hp]. split; [by rewrite (k_error _ _ Hk)|]. by eapply prepared_kept.
  - done.
Qed.

(** One more statement is visited. *)
Lemma prepare_one done i sql flags (c c' : cstate (S := S)) u :
  prepare_all client [(i, (sql, flags))] c = Done (u, c') → prepared done (conn c) →
  (∀ x, x ∈ done → x.1 ≠ i) → prepared (done ++ [(i, (sql, flags))]) (conn c').
Proof.
  intros H [Hf Hp] Hnew. cbn [prepare_all] in H. M_step H. destruct (Nat.ltb_spec i (length (_stmtList (conn c)))) as [Hi|]; [|done].
  apply M_bind_Done in H as (u1 & c1 & H & H'). injection H' as _ <-.
  assert (∀ x (c0 : cstate (S := S)) u0 c2, conn c0 = conn c → set_stmt i x c0 = Done (u0, c2) →
    (Z.land flag_Async flags ≠ 0%Z → ∃ m, x = Some m ∧ _queryString m = sql) → prepared (done ++ [(i, (sql, flags))]) (conn c2)) as Hset.
  { intros x c0 u0 c2 Hc0 H0 Hx. unfold set_stmt in H0. inv_M. cbn. rewrite Hc0. split; [done|]. cbn. intros Herr j sql' flags' Hj Hl.
    apply elem_of_app in Hj as [Hj|Hj].
    - rewrite list_lookup_insert_ne by (intros <-; by apply (Hnew _ Hj)). by eapply Hp.
    - apply list_elem_of_singleton in Hj. simplify_eq. rewrite list_lookup_insert_eq by done.
      destruct (Hx Hl) as (m & -> & <-). by exists m. }
  assert (∀ (c0 : cstate (S := S)) u0 c2, conn c0 = conn c → set_prepareError c0 = Done (u0, c2) → prepared (done ++ [(i, (sql, flags))]) (conn c2)) as Herr.
  { intros c0 u0 c2 Hc0 H0. unfold set_prepareError in H0. inv_M. cbn. rewrite Hc0. by split. }
  unfold Connection.PrepareStatement in H. M_step H. rewrite Hf in H.
  destruct (Z.eqb_spec (Z.land flag_Async flags) 0) as [Hz|Hz]; [by (eapply Hset; [|exact H|])|].
  apply M_bind_Done in H as (st & c3 & H3 & H). unfold call in H3. destruct (mysql_stmt_init client (srv c)) as [st' s1].
  injection H3 as <- <-. destruct st' as [st'|]; [|by (eapply Herr; [|exact H])].
  apply M_bind_Done in H as (failed & c4 & H4 & H). unfold call in H4. destruct (mysql_stmt_prepare client st' sql _) as [failed' s2].
  injection H4 as <- <-. destruct failed'; [by (eapply Herr; [|exact H])|]. M_step H. eapply Hset; [|exact H|eauto]. done.
Qed.

(** Nothing else is. *)
Lemma prepare_one_other i sql flags (c c' : cstate (S := S)) u j :
  prepare_all client [(i, (sql, flags))] c = Done (u, c') → j ≠ i → _stmtList (conn c') !! j = _stmtList (conn c) !! j.
Proof.
  intros H Hj. cbn [prepare_all] in H. M_step H. destruct (Nat.ltb_spec i (length (_stmtList (conn c)))) as [Hi|]; [|done].
  apply M_bind_Done in H as (u1 & c1 & H & H'). injection H' as _ <-.
  assert (∀ x (c0 : cstate (S := S)) u0 c2, conn c0 = conn c → set_stmt i x c0 = Done (u0, c2) →
    _stmtList (conn c2) !! j = _stmtList (conn c) !! j) as Hset.
  { intros x c0 u0 c2 Hc0 H0. unfold set_stmt in H0. inv_M. cbn. rewrite Hc0. by rewrite list_lookup_insert_ne. }
  assert (∀ (c0 : cstate (S := S)) u0 c2, conn c0 = conn c → set_prepareError c0 = Done (u0, c2) →
    _stmtList (conn c2) !! j = _stmtList (conn c) !! j) as Herr.
  { intros c0 u0 c2 Hc0 H0. unfold set_prepareError in H0. inv_M. cbn. by rewrite Hc0. }
  unfold Connection.PrepareStatement in H. M_step H. destruct (_ =? 0)%Z; [by (eapply Hset; [|exact H])|].
  apply M_bind_Done in H as (st & c3 & H3 & H). unfold call in H3. destruct (mysql_stmt_init client (srv c)) as [st' s1].
  injection H3 as <- <-. destruct st' as [st'|]; [|by (eapply Herr; [|exact H])].
  apply M_bind_Done in H as (failed & c4 & H4 & H). unfold call in H4. destruct (mysql_stmt_prepare client st' sql _) as [failed' s2].
  injection H4 as <- <-. destruct failed'; [by (eapply Herr; [|exact H])|]. M_step H. by (eapply Hset; [|exact H]).
Qed.

Lemma order_NoDup : NoDup stmts.*1.
Proof. rewrite order_perm. apply NoDup_fst_map_to_list. Qed.

Lemma stage_ok_open n n' : stage_ok n → open_step client mysql_get_server_version order pool n = Done n' →
  stage_ok n' ∧ served n' = served n ∧ executing n' = executing n.
Proof.
  intros Hok H. unfold open_step in H. unfold stage_ok in Hok. destruct (at_ n) as [| |[|[i [sql flags]] rest]| |err] eqn:Hat.
  - destruct Hok as (Hu & He & Hl & Hf). apply outcome_bind_Done in H as ([error c] & Ho & H).
    pose proof (keeps_Open _ _ _ _ Ho) as Hk.
    destruct (negb _); [by injection H as <-|]. destruct (_ <? _)%Z; [by injection H as <-|]. injection H as <-.
    unfold stage_ok. cbn. split; [|done]. split; [by eapply list_kept|]. by rewrite (k_flags _ _ Hk).
  - destruct Hok as [Hl Hf]. apply outcome_bind_Done in H as ([u c] & Hr & H). injection H as <-. unfold stage_ok. cbn.
    unfold resize_statements in Hr. inv_M. cbn. split; [|done]. split.
    + exists []. split; [done|]. split; [done|]. intros _ i sql flags Hi. by apply not_elem_of_nil in Hi.
    + intros x _ [m Hm]. cbn in Hm. rewrite Hl in Hm. unfold resize_with in Hm. rewrite take_nil in Hm. cbn in Hm.
      by apply lookup_replicate in Hm as [? _].
  - destruct Hok as [(done & Hd & Hp) _]. rewrite app_nil_r in Hd. apply outcome_bind_Done in H as ([b c] & Hb & H).
    unfold Connection.PrepareStatements in Hb. inv_M. apply outcome_bind_Done in H as (u & Ha & H). injection H as <-.
    unfold stage_ok. cbn. split; [|done]. rewrite Hd. split; [|done].
    unfold Prelude.assert in Ha. by destruct (_prepareError (conn (link n))).
  - destruct Hok as [(done & Hd & Hp) Ha]. apply outcome_bind_Done in H as ([u c] & Hr & H). injection H as <-. unfold stage_ok. cbn.
    pose proof order_NoDup as Hnd. rewrite Hd, fmap_app in Hnd. apply NoDup_app in Hnd as (_ & Hnd & Hnd').
    split; [|done]. split.
    + exists (done ++ [(i, (sql, flags))]). split; [by rewrite <- app_assoc|]. eapply prepare_one; [done|done|].
      intros x Hx He. apply (Hnd x.1); [by apply list_elem_of_fmap_2|]. cbn. rewrite He. by left.
    + intros x Hx. unfold absent. rewrite (prepare_one_other _ _ _ _ _ _ _ Hr); [apply Ha; by right|].
      cbn in Hnd'. apply NoDup_cons in Hnd' as [Hi _]. intros He. apply Hi. rewrite <- He. by apply list_elem_of_fmap_2.
  - injection H as <-. unfold stage_ok. rewrite Hat. by split.
  - injection H as <-. unfold stage_ok. rewrite Hat. by split.
Qed.

Lemma make_move_ok fuel m n n' : stage_ok n → served_ok n → make_move fuel m n = Done n' →
  stage_ok n' ∧ served_ok n'.
Proof.
  intros Hok Hs H. destruct m as [o| |].
  - by injection H as <-.
  - assert (∀ o q (request : M (S := S) (job + list promised)), keeps request →
      (unconnected (link n) → ∀ r c, request (link n) = Done (r, c) →
         conn c = conn (link n) ∧ events c = events (link n) ∧ begun_or_lost o r) →
      (∀ j c, request (link n) = Done (inl j, c) → job_of o j) →
      ('(r, c) ← request (link n);
       Done match r with
            | inl j => mk_newborn c (at_ n) q (Some (o, j)) (served n)
            | inr values => mk_newborn c (at_ n) q None (served n ++ [(at_ n, o, values)])
            end) = Done n' → stage_ok n' ∧ served_ok n') as Hgo.
    { intros o q request Hk Hu Hj Hr. apply outcome_bind_Done in Hr as ([r c] & Hr & Hn). injection Hn as Hn.
      destruct Hs as [Hlost Hex]. split.
      - assert (unconnected (link n) → conn c = conn (link n) ∧ events c = events (link n)) as Hu'
          by (intros Hun; by destruct (Hu Hun r c Hr) as (? & ? & _)).
        subst n'. destruct r; by apply stage_ok_link; [|by apply Hk in Hr|].
      - subst n'. destruct r as [j|values]; (split; cbn; [|by eauto]); [done|].
        intros o' values' [Hin|Hin%list_elem_of_singleton]%elem_of_app; [by apply Hlost|]. injection Hin as Hst -> ->.
        unfold stage_ok in Hok. rewrite <- Hst in Hok. destruct Hok as (Hun & _). by apply (Hu Hun _ _ Hr). }
    cbn [Opening.make_move] in H. unfold work_step in H. pose proof Hs as [_ Hex].
    destruct (executing n) as [[o j]|].
    + apply (Hgo _ _ _ (keeps_job_request client fuel j)) in H; [done| |].
      * intros Hun r c Hr. destruct (silent_job_request client fuel j _ _ _ Hun Hr) as (? & ? & _). split_and!; [done..|].
        by eapply job_request_of.
      * intros j' c Hr. by apply (job_request_of client fuel j o Hex) in Hr.
    + destruct (queue n) as [|o q]; [by injection H as <-|].
      apply (Hgo _ _ _ (keeps_ExecuteQuery client mysql_ping fuel o)) in H; [done| |].
      * intros Hun r c Hr. by eapply silent_ExecuteQuery.
      * intros j c Hr. destruct o as [[]|]; cbn [ExecuteQuery] in Hr; try (injection Hr as <- _; done);
          by apply M_bind_Done in Hr as (? & ? & _ & Hr).
  - cbn [Opening.make_move] in H. destruct (stage_ok_open n n' Hok H) as (Hok' & Hs' & He'). split; [done|].
    unfold served_ok. by rewrite Hs', He'.
Qed.

Lemma make_moves_ok fuel ms n n' : stage_ok n → served_ok n → make_moves fuel ms n = Done n' →
  stage_ok n' ∧ served_ok n'.
Proof.
  revert n. induction ms as [|m ms IH]; intros n Hok Hs H; cbn in H; [by injection H as <-|].
  apply outcome_bind_Done in H as (n1 & H1 & H). destruct (make_move_ok _ _ _ _ Hok Hs H1). by eapply IH.
Qed.

Lemma new_connection_ok info isDynamic q s : stage_ok (new_connection client info isDynamic q s) ∧ served_ok (new_connection client info isDynamic q s).
Proof.
  unfold new_connection. destruct (system_clock client s). split; [by unfold stage_ok, unconnected|].
  split; [|done]. intros o values Hin. by apply not_elem_of_nil in Hin.
Qed.

(** A statement of an operation that the list does not have ends the process. *)
Lemma ExecuteQuery_absent fuel stmt hasResult (c : cstate (S := S)) :
  absent (conn c) (Z.to_nat (_index stmt)) → _mysqlHandle (conn c) = true →
  ∃ why, ExecuteQuery client mysql_ping (Datatypes.S fuel) (OpTask (PreparedStatementTask stmt hasResult)) c = Crash why.
Proof.
  intros Ha Hh.
  assert (∃ why, bind_and_execute client stmt c = Crash why) as [why Hb].
  { unfold bind_and_execute, Connection.GetPreparedStatement, mbind, M_bind, get_conn. destruct (_ && _); [|by eexists].
    unfold absent in Ha. destruct (_stmtList (conn c) !! Z.to_nat (_index stmt)) as [[m|]|]; [destruct Ha; by exists m|by eexists..]. }
  exists why. unfold ExecuteQuery, PreparedStatementTask_ExecuteQuery, Connection.Query_stmt, mbind, M_bind.
  destruct hasResult; cbn [Query_stmt_raw Connection.Execute_stmt]; unfold mbind, M_bind, get_conn; rewrite Hh; cbn [negb]; by rewrite Hb.
Qed.

(** ** Properties *)

(** C21 What an asynchronous connection does with the operations its worker takes
    before it is ready.  However the requests of the worker, the calls of the
    opening thread and those of the callers are ordered (each by itself: two of
    them at the same time on one handle are undefined, and not covered): an
    operation whose execution is over before Open has connected is lost (nothing
    has been requested of the library, a query is answered with no result); one
    with a prepared statement that is executed before the opening thread has come
    to that statement ends the process; and once the connection is ready, every
    statement meant for it is there, with its text, and stays there. *)
Theorem opening_serves_when_ready (fuel : nat) (info : MySQLConnectionInfo) (isDynamic : bool)
    (q : list operation) (s : S) (ms : list move) (n : newborn)
    (Hrun : make_moves fuel ms (new_connection client info isDynamic q s) = Done n) :
  (∀ o values, (Constructed, o, values) ∈ served n → lost o values) ∧
  match at_ n with
  | Constructed => events (link n) = []
  | Opened => _mysqlHandle (conn (link n)) = true → ∀ stmt hasResult, ∃ why,
      ExecuteQuery client mysql_ping (Datatypes.S fuel) (OpTask (PreparedStatementTask stmt hasResult)) (link n) = Crash why
  | Preparing rest => _mysqlHandle (conn (link n)) = true → ∀ stmt hasResult,
      Z.to_nat (_index stmt) ∈ rest.*1 → ∃ why,
      ExecuteQuery client mysql_ping (Datatypes.S fuel) (OpTask (PreparedStatementTask stmt hasResult)) (link n) = Crash why
  | Ready => ∀ i sql flags, _stringPreparedStatement pool !! i = Some (sql, flags) → Z.land flag_Async flags ≠ 0%Z →
      ∃ m, _stmtList (conn (link n)) !! i = Some (Some m) ∧ _queryString m = sql
  | Refused _ => True
  end.
Proof.
  destruct (new_connection_ok info isDynamic q s) as [Hok Hs]. destruct (make_moves_ok _ _ _ _ Hok Hs Hrun) as [Hok' [Hs' _]].
  split; [done|]. unfold stage_ok in Hok'. destruct (at_ n); try done.
  - apply Hok'.
  - intros Hh stmt hr. destruct Hok' as [Hl _]. apply ExecuteQuery_absent; [|done]. intros [m Hm]. by rewrite Hl in Hm.
  - intros Hh stmt hr (x & Hx & Hin)%list_elem_of_fmap. apply ExecuteQuery_absent; [|done]. rewrite Hx. by apply Hok'.
  - destruct Hok' as [He [_ Hp]]. intros i sql flags Hi Hl. apply (Hp He i sql flags); [|done].
    rewrite order_perm. by apply elem_of_map_to_list.
Qed.
End Invariant.

(** ** Concrete runs *)

(** The pool of the program's database, opening a second connection because
    ten operations wait. *)
Definition busy_pool : Pool (S := string) := DiscordDatabase_DoPrepareStatements fresh_pool.
Definition ten_queries : list operation := replicate 10 (OpTask (BasicStatementTask "SELECT 1" true)).
Definition ex_born : newborn (S := string) :=
  new_connection counting_client (MySQLConnectionInfo_new "h;1;u;p;d") true ten_queries "".
Definition ex_moves (ms : list move) : outcome db_error (newborn (S := string)) :=
  make_moves counting_client id (λ _, 80000%Z) map_to_list busy_pool 1 ms ex_born.
Definition ex_opened : newborn (S := string) :=
  match ex_moves (Work :: Work :: replicate 9 Advance) with Done n => n | _ => ex_born end.

Lemma opening_serves_when_ready_witness :
  at_ ex_opened = Ready ∧
  (∀ o values, (Constructed, o, values) ∈ served ex_opened → lost o values) ∧
  ∃ m, _stmtList (conn (link ex_opened)) !! 4 = Some (Some m) ∧
    _queryString m = "UPDATE `guild_players` SET `twinks` = ? WHERE `discord_guild_id` = ? AND nickname LIKE ?".
Proof.
  assert (at_ ex_opened = Ready) as Hat by (vm_compute; reflexivity). split; [exact Hat|].
  assert (make_moves counting_client id (λ _, 80000%Z) map_to_list busy_pool 1 (Work :: Work :: replicate 9 Advance)
    (new_connection counting_client (MySQLConnectionInfo_new "h;1;u;p;d") true ten_queries "") = Done ex_opened) as Hrun
    by (vm_compute; reflexivity).
  destruct (opening_serves_when_ready counting_client id (λ _, 80000%Z) map_to_list busy_pool (λ _, reflexivity _) 1
    (MySQLConnectionInfo_new "h;1;u;p;d") true ten_queries "" (Work :: Work :: replicate 9 Advance) ex_opened Hrun) as [Hl Hr].
  split; [exact Hl|]. rewrite Hat in Hr. apply (Hr 4 _ flag_Async); [vm_compute; reflexivity|discriminate].
Defined.

(** The two operations the worker took too early are answered with nothing. *)
Example early_queries_are_lost : served ex_opened =
  replicate 2 (Constructed, OpTask (BasicStatementTask "SELECT 1" true), [PRows None]).
Proof. vm_compute. reflexivity. Qed.

(** A statement between Open and the preparation ends the process, also when some
    statements are prepared already, and so does a ping before Open. *)
Definition ex_begun (o : operation) (ms : list move) : outcome db_error (newborn (S := string)) :=
  make_moves counting_client id (λ _, 80000%Z) map_to_list busy_pool 1 ms
    (new_connection counting_client (MySQLConnectionInfo_new "h;1;u;p;d") true [o] "").
Example early_statement_ends_the_process :
  ex_begun (OpTask (PreparedStatementTask (PreparedStatementBase_new 2 2) false)) [Advance; Work] =
    Crash "Tried to access invalid prepared statement index" ∧
  ex_begun (OpTask (PreparedStatementTask (PreparedStatementBase_new 2 2) false)) [Advance; Advance; Work] = Crash "mStmt".
Proof. vm_compute. by split. Qed.
Example early_ping_is_undefined : ex_begun OpPing [Work] = Crash "mysql_ping(nullptr)".
Proof. vm_compute. reflexivity. Qed.

(** A transaction that is executed before Open is reported as committed, and
    nothing was sent. *)
Definition raw_transaction : Transaction := Append_raw "B" (Append_raw "A" Transaction_new).
Example early_transaction_is_reported_committed :
  match ex_begun (OpTask (TransactionWithResultTask raw_transaction)) (replicate 4 Work) with
  | Done n => (served n).*2 = [[PCommitted true]] ∧ events (link n) = []
  | _ => False
  end.
Proof. vm_compute. by split. Qed.

(** One that was begun before Open, and goes on after it, is executed without its
    START TRANSACTION. *)
Example late_transaction_has_no_begin :
  match ex_begun (OpTask (TransactionWithResultTask raw_transaction)) ([Work; Work; Advance] ++ replicate 4 Work) with
  | Done n => served n = [(Opened, OpTask (TransactionWithResultTask raw_transaction), [PCommitted true])] ∧
      tail (events (link n)) = [EvQuery "A" true; EvQuery "B" true; EvQuery "COMMIT" true]
  | _ => False
  end.
Proof. vm_compute. by split. Qed.
