(* ===== verification/QueryHolder.v ===== *)
(** * The query holder: server/database/Database/QueryHolder.cpp

    A map of queries, the task that runs them on its connection, and the
    results by index.  The client library and the connection are those of
    [Connection]; the order in which the hash table is visited is an argument.
    A [std::variant] that holds another alternative throws in [std::get], which
    [GetResult] and [GetPreparedResult] catch. *)
From S2P Require Import Prelude CppString Convert Prepared Connection.

(** [std::variant<std::string, PreparedStatement>] *)
Inductive holder_query := HQ_string (sql : string) | HQ_stmt (stmt : PreparedStatementBase).

(** [std::variant<QueryResult, PreparedQueryResult>]: a result set is its
    handle, its number of rows and of fields; [None] is a null pointer. *)
Inductive holder_result :=
| HR_plain (result : option (nat * Z * Z))
| HR_prepared (result : option (option nat * Z * Z)).

Record SQLQueryHolderQuery := mk_SQLQueryHolderQuery {
  HolderQuery : holder_query;
  HolderResult : holder_result }.

Abbreviation SQLQueryHolderBase := (gmap nat SQLQueryHolderQuery).

Definition AddQuery (index : nat) (sql : string) (h : SQLQueryHolderBase) : bool * SQLQueryHolderBase :=
  match h !! index with
  | Some _ => (false, h)
  | None => (true, <[index := mk_SQLQueryHolderQuery (HQ_string sql) (HR_plain None)]> h)
  end.

Definition AddPreparedQuery (index : nat) (stmt : PreparedStatementBase) (h : SQLQueryHolderBase)
    : bool * SQLQueryHolderBase :=
  match h !! index with
  | Some _ => (false, h)
  | None => (true, <[index := mk_SQLQueryHolderQuery (HQ_stmt stmt) (HR_plain None)]> h)
  end.

(** [query->HolderResult = …] if the index is there *)
Definition store_result (index : nat) (r : holder_result) (h : SQLQueryHolderBase) : SQLQueryHolderBase :=
  match h !! index with
  | Some query => <[index := mk_SQLQueryHolderQuery (HolderQuery query) r]> h
  | None => h
  end.

Definition drop_empty {A : Type} (result : option (A * Z * Z)) : option (A * Z * Z) :=
  match result with
  | Some (_, rowCount, _) => if (rowCount =? 0)%Z then None else result
  | None => None
  end.

Definition SetResult (index : nat) (result : option (nat * Z * Z)) (h : SQLQueryHolderBase) : SQLQueryHolderBase :=
  store_result index (HR_plain (drop_empty result)) h.
Definition SetPreparedResult (index : nat) (result : option (option nat * Z * Z)) (h : SQLQueryHolderBase)
    : SQLQueryHolderBase :=
  store_result index (HR_prepared (drop_empty result)) h.

Section Holder.
Context {S : Type} (client : mysql_client S).
Context (order : SQLQueryHolderBase → list (nat * SQLQueryHolderQuery)).

(** [GetResult]; it asks the library for the next row of the result. *)
Definition GetResult (index : nat) (h : SQLQueryHolderBase) (s : S) : option (nat * Z * Z) * S :=
  match h !! index with
  | None => (None, s)
  | Some query =>
      match HolderResult query with
      | HR_plain (Some (r, rowCount, fieldCount)) =>
          if (rowCount =? 0)%Z then (None, s)
          else
            let '(next, s) := mysql_fetch_row client r s in
            (if next : bool then Some (r, rowCount, fieldCount) else None, s)
      | _ => (None, s)
      end
  end.

Definition GetPreparedResult (index : nat) (h : SQLQueryHolderBase) : option (option nat * Z * Z) :=
  match h !! index with
  | None => None
  | Some query =>
      match HolderResult query with
      | HR_prepared result => drop_empty result
      | HR_plain _ => None
      end
  end.

(** *** SQLQueryHolderTask *)
Fixpoint execute_queries (fuel : nat) (queries : list (nat * SQLQueryHolderQuery)) (h : SQLQueryHolderBase)
    : M (S := S) SQLQueryHolderBase :=
  match queries with
  | [] => mret h
  | (index, query) :: queries =>
      match HolderQuery query with
      | HQ_string sql =>
          result ← Query client fuel sql;
          execute_queries fuel queries (SetResult index result h)
      | HQ_stmt stmt =>
          result ← Query_stmt client fuel stmt;
          execute_queries fuel queries (SetPreparedResult index result h)
      end
  end.

(** The holder afterwards, and the values given to the promise. *)
Definition ExecuteQuery (fuel : nat) (h : SQLQueryHolderBase) : M (S := S) (SQLQueryHolderBase * list unit) :=
  h' ← execute_queries fuel (order h) h;
  mret (h', [()]).

(** ** Lemmas *)
(** The query has been run, and its answer is what the holder has. *)
Definition answered (fuel : nat) (query : SQLQueryHolderQuery) (r : holder_result) : Prop :=
  match HolderQuery query with
  | HQ_string sql => ∃ st1 st2 result, Query client fuel sql st1 = Done (result, st2) ∧ r = HR_plain (drop_empty result)
  | HQ_stmt stmt =>
      ∃ st1 st2 result, Query_stmt client fuel stmt st1 = Done (result, st2) ∧ r = HR_prepared (drop_empty result)
  end.

Lemma store_result_lookup index r h i :
  store_result index r h !! i =
    if decide (index = i) then (λ query, mk_SQLQueryHolderQuery (HolderQuery query) r) <$> h !! i else h !! i.
Proof.
  unfold store_result. destruct (decide (index = i)) as [<-|Hne].
  - destruct (h !! index) eqn:E; [by rewrite lookup_insert_eq|by rewrite E].
  - destruct (h !! index); [by rewrite lookup_insert_ne|done].
Qed.

Lemma execute_queries_spec fuel queries h st h' st' :
  execute_queries fuel queries h st = Done (h', st') → NoDup queries.*1 →
  (∀ i query, (i, query) ∈ queries → h !! i = Some query) →
  ∀ i, if decide (i ∈ queries.*1)
    then ∃ query r, h !! i = Some query ∧ h' !! i = Some (mk_SQLQueryHolderQuery (HolderQuery query) r) ∧
           answered fuel query r
    else h' !! i = h !! i.
Proof.
  revert h st. induction queries as [|[index query] queries IH]; intros h st H Hnd Hin i.
  { injection H as <- <-. by destruct (decide (i ∈ [].*1)) as [?%elem_of_nil|]. }
  cbn [fmap list_fmap fst] in *. apply NoDup_cons in Hnd as [Hni Hnd].
  assert (h !! index = Some query) as Hq by (apply Hin; by left).
  assert (∃ r st1, answered fuel query r ∧ execute_queries fuel queries (store_result index r h) st1 = Done (h', st'))
    as (r & st1 & Ha & Hrest).
  { cbn [execute_queries] in H. unfold answered. destruct (HolderQuery query) as [sql|stmt];
      apply M_bind_Done in H as (result & st1 & Hr & H); [exists (HR_plain (drop_empty result)), st1|
        exists (HR_prepared (drop_empty result)), st1]; (split; [by exists st, st1, result|exact H]). }
  assert (∀ j q, (j, q) ∈ queries → store_result index r h !! j = Some q) as Hin'.
  { intros j q Hj. rewrite store_result_lookup. destruct (decide (index = j)) as [<-|]; [|apply Hin; by right].
    exfalso. apply Hni. apply list_elem_of_fmap. by exists (index, q). }
  pose proof (IH _ _ Hrest Hnd Hin' i) as Hi. rewrite store_result_lookup in Hi.
  destruct (decide (index = i)) as [<-|Hne].
  - rewrite decide_True by (by left). rewrite decide_False in Hi by done. exists query, r. rewrite Hi, Hq. done.
  - destruct (decide (i ∈ queries.*1)) as [Hiq|Hiq].
    + rewrite decide_True by (by right). exact Hi.
    + rewrite decide_False; [exact Hi|]. by rewrite elem_of_cons; intros [->|].
Qed.
End Holder.

(** A holder task that ends has run every query of its holder and keeps the
    answers apart: under the index of a text there is the result of that text,
    under the index of a statement that of the statement, an empty result being
    null; no other index has anything, and the promise is kept once.  So
    [GetPreparedResult] gives what the statement answered and null for a text,
    and [GetResult] null for a statement. *)
Theorem holder_answers {S : Type} (client : mysql_client S)
    (order : SQLQueryHolderBase → list (nat * SQLQueryHolderQuery)) (Horder : ∀ h, order h ≡ₚ map_to_list h)
    (fuel : nat) (h h' : SQLQueryHolderBase) (st st' : cstate (S := S)) (values : list unit)
    (Hrun : ExecuteQuery client order fuel h st = Done ((h', values), st')) :
  values = [()] ∧ dom h' = dom h ∧
  (∀ i sql, HolderQuery <$> h !! i = Some (HQ_string sql) →
     GetPreparedResult i h' = None ∧
     ∃ st1 st2 result, Query client fuel sql st1 = Done (result, st2) ∧
       HolderResult <$> h' !! i = Some (HR_plain (drop_empty result))) ∧
  (∀ i stmt, HolderQuery <$> h !! i = Some (HQ_stmt stmt) →
     (∀ s, GetResult client i h' s = (None, s)) ∧
     ∃ st1 st2 result, Query_stmt client fuel stmt st1 = Done (result, st2) ∧
       GetPreparedResult i h' = drop_empty result).
Proof.
  unfold ExecuteQuery in Hrun. apply M_bind_Done in Hrun as (h1 & st1 & Hq & Hrun). injection Hrun as <- <- <-.
  assert (∀ i query, (i, query) ∈ order h → h !! i = Some query) as Hin
    by (intros i query Hi; rewrite Horder in Hi; by apply elem_of_map_to_list in Hi).
  pose proof (execute_queries_spec client fuel (order h) h st h1 st1 Hq) as Hspec.
  assert (NoDup (order h).*1) as Hnd by (rewrite Horder; apply NoDup_fst_map_to_list).
  specialize (Hspec Hnd Hin).
  assert (∀ i query, h !! i = Some query → ∃ r,
    h1 !! i = Some (mk_SQLQueryHolderQuery (HolderQuery query) r) ∧ answered client fuel query r) as Hall.
  { intros i query Hi. specialize (Hspec i). rewrite decide_True in Hspec.
    - destruct Hspec as (query' & r & Hi' & H1 & Ha). rewrite Hi in Hi'. simplify_eq. eauto.
    - apply list_elem_of_fmap. exists (i, query). split; [done|]. rewrite Horder. by apply elem_of_map_to_list. }
  split; [done|]. split; [|split].
  - apply set_eq. intros i. rewrite !elem_of_dom. specialize (Hspec i). destruct (decide _).
    + destruct Hspec as (query & r & -> & -> & _). done.
    + by rewrite Hspec.
  - intros i sql Hi. apply fmap_Some in Hi as (query & Hi & Hs). destruct (Hall i query Hi) as (r & H1 & Ha).
    unfold answered in Ha. rewrite <- Hs in Ha. destruct Ha as (s1 & s2 & result & Hr & ->).
    unfold GetPreparedResult. rewrite H1. cbn. split; [done|]. by exists s1, s2, result.
  - intros i stmt Hi. apply fmap_Some in Hi as (query & Hi & Hs). destruct (Hall i query Hi) as (r & H1 & Ha).
    unfold answered in Ha. rewrite <- Hs in Ha. destruct Ha as (s1 & s2 & result & Hr & ->).
    unfold GetPreparedResult, GetResult. rewrite H1. cbn. split; [done|]. exists s1, s2, result. split; [done|].
    unfold drop_empty. destruct result as [[[? rows] ?]|]; [|done]. destruct (rows =? 0)%Z eqn:E; [done|].
    by rewrite E.
Qed.

(** ** Concrete runs *)

(** A server whose queries all have one row; the state counts the rows left. *)
Definition one_row_client : mysql_client nat := {|
  mysql_init := λ s, (true, s);
  mysql_real_connect := λ _ s, (true, s);
  mysql_close := λ s, s;
  mysql_autocommit := λ s, s;
  mysql_set_character_set := λ s, s;
  mysql_errno := λ _, 0%Z;
  mysql_query := λ _ s, (false, s);
  mysql_stmt_init := λ s, (Some 1%Z, s);
  mysql_stmt_prepare := λ _ _ s, (false, s);
  mysql_stmt_param_count := λ _ _, 0;
  mysql_stmt_bind_param := λ _ _ s, (false, s);
  mysql_stmt_execute := λ _ s, (false, s);
  mysql_store_result := λ _, (Some 0, 1);
  mysql_affected_rows := λ _, 1%Z;
  mysql_field_count := λ _, 1%Z;
  mysql_stmt_num_rows := λ _ _, 1%Z;
  mysql_stmt_field_count := λ _ _, 1%Z;
  mysql_stmt_result_metadata := λ _ s, (Some 7, s);
  mysql_fetch_row := λ _ s, match s with O => (false, O) | Datatypes.S s => (true, s) end;
  system_clock := λ s, (0%Z, s);
  steady_clock := λ s, (0%Z, s);
|}.
Definition one_row_state : cstate (S := nat) :=
  mk_cstate (mk_MySQLConnection true empty_info flag_Async
    [Some (MySQLPreparedStatement_new 1 0 "SELECT 2")] false false 0) 0 [].
Definition two_queries : SQLQueryHolderBase :=
  snd (AddPreparedQuery 4 (PreparedStatementBase_new 0 0) (snd (AddQuery 3 "SELECT 1" ∅))).

Definition two_answers : SQLQueryHolderBase * cstate (S := nat) :=
  match ExecuteQuery one_row_client map_to_list 1 two_queries one_row_state with
  | Done (h, _, st) => (h, st)
  | _ => (∅, one_row_state)
  end.

Lemma holder_answers_witness :
  [()] = [()] ∧ dom two_answers.1 = dom two_queries ∧
  (∀ i sql, HolderQuery <$> two_queries !! i = Some (HQ_string sql) →
     GetPreparedResult i two_answers.1 = None ∧
     ∃ st1 st2 result, Query one_row_client 1 sql st1 = Done (result, st2) ∧
       HolderResult <$> two_answers.1 !! i = Some (HR_plain (drop_empty result))) ∧
  (∀ i stmt, HolderQuery <$> two_queries !! i = Some (HQ_stmt stmt) →
     (∀ s, GetResult one_row_client i two_answers.1 s = (None, s)) ∧
     ∃ st1 st2 result, Query_stmt one_row_client 1 stmt st1 = Done (result, st2) ∧
       GetPreparedResult i two_answers.1 = drop_empty result).
Proof.
  apply (holder_answers one_row_client map_to_list) with (st := one_row_state) (st' := two_answers.2).
  - reflexivity.
  - vm_compute. reflexivity.
Defined.

Example answers_ex :
  GetPreparedResult 4 two_answers.1 = Some (Some 7, 1%Z, 1%Z) ∧
  fst (GetResult one_row_client 3 two_answers.1 1) = Some (0, 1%Z, 1%Z).
Proof. vm_compute. done. Qed.

(** Each call of [GetResult] takes a row: the second one, of a result with one
    row, finds nothing. *)
Example second_GetResult_is_null :
  let '(first, s) := GetResult one_row_client 3 two_answers.1 1 in
  first = Some (0, 1%Z, 1%Z) ∧ fst (GetResult one_row_client 3 two_answers.1 s) = None.
Proof. vm_compute. done. Qed.
