(* ===== verification/Digest.v ===== *)
(** * Digests: common/Cryptography/CryptoHash.h

    [GenericHash] owns a context of OpenSSL: it allocates it, initialises it,
    feeds it and frees it.  The contexts live on a heap, where a use or a free of
    one that is not there ends in [Crash]; the objects are the variables of a
    program that constructs, copies, moves, assigns and destroys them.  OpenSSL
    is the interface [EVP], with its documented behaviour as [EVPLaws]. *)
From S2P Require Import Prelude.

(** ** OpenSSL

    [Some] is a call that returned 1. *)
Class EVP (C : Type) := {
  EVP_MD_CTX_new : C;
  EVP_DigestInit_ex : C → option C;
  EVP_DigestUpdate : list Z → C → option C;
  EVP_DigestFinal_ex : C → option (list Z * Z * C);      (* the digest, its length *)
  EVP_MD_CTX_copy_ex : C → C → option C }.               (* out, in *)

(** [fed c l]: [c] was initialised, fed [l], and not finalised since. *)
Class EVPLaws (C : Type) `{EVP C} (hash : list Z → list Z) (digest_length : nat) (fed : C → list Z → Prop) := {
  init_ok : ∃ c, EVP_DigestInit_ex EVP_MD_CTX_new = Some c ∧ fed c [];
  update_ok c l data : fed c l → ∃ c', EVP_DigestUpdate data c = Some c' ∧ fed c' (l ++ data);
  final_ok c l : fed c l → ∃ c', EVP_DigestFinal_ex c = Some (hash l, Z.of_nat digest_length, c');
  copy_ok out c l : fed c l → ∃ c', EVP_MD_CTX_copy_ex out c = Some c' ∧ fed c' l }.

(** ** What the objects promise

    An object is a value: what it was fed since it was initialised (nothing once
    it is finalised or moved away), and its digest.  A use that OpenSSL does not
    promise has no value.  The second component counts the contexts that no
    object owns any more. *)
Abbreviation value := (option (list Z) * list Z)%type.
Abbreviation spec := (gmap nat value * nat)%type.

(** ** GenericHash *)
Section Hash.
Context {C : Type} `{EVP C} (DIGEST_LENGTH : nat).

Record GenericHash := mk_GenericHash { _ctx : option nat; _digest : list Z }.

Definition zeros : list Z := replicate DIGEST_LENGTH 0%Z.

Record state := mk_state { heap : gmap nat C; objects : gmap nat GenericHash }.

(** [MakeCTX] and [DestroyCTX] *)
Definition MakeCTX (h : gmap nat C) : nat * gmap nat C :=
  let c := fresh (dom h) in (c, <[c := EVP_MD_CTX_new]> h).
Definition DestroyCTX (c : nat) (h : gmap nat C) : outcome Empty_set (gmap nat C) :=
  match h !! c with Some _ => Done (delete c h) | None => Crash "free of a context that is not there" end.

Definition context (c : option nat) (h : gmap nat C) : outcome Empty_set (nat * C) :=
  match c with
  | Some c => match h !! c with Some k => Done (c, k) | None => Crash "a context that was freed" end
  | None => Crash "a null context"
  end.

(** [ASSERT(result == 1)] *)
Definition check {A : Type} (result : option A) : outcome Empty_set A :=
  match result with Some a => Done a | None => Crash "result == 1" end.

Definition GenericHash_new (h : gmap nat C) : outcome Empty_set (GenericHash * gmap nat C) :=
  let '(c, h) := MakeCTX h in
  k ← check (EVP_DigestInit_ex EVP_MD_CTX_new);
  Done (mk_GenericHash (Some c) zeros, <[c := k]> h).

(** [operator=(GenericHash const&)] on another object. *)
Definition copy_assign (this that : GenericHash) (h : gmap nat C) : outcome Empty_set (GenericHash * gmap nat C) :=
  '(c, out) ← context (_ctx this) h;
  '(_, k) ← context (_ctx that) h;
  k ← check (EVP_MD_CTX_copy_ex out k);
  Done (mk_GenericHash (_ctx this) (_digest that), <[c := k]> h).

(** [operator=(GenericHash&&)] on another object: [this] and [that] after it. *)
Definition move_assign (this that : GenericHash) (h : gmap nat C) : GenericHash * GenericHash * gmap nat C :=
  let '(c, h) := MakeCTX h in
  (mk_GenericHash (_ctx that) (_digest that), mk_GenericHash (Some c) zeros, h).

Definition copy_construct (that : GenericHash) (h : gmap nat C) : outcome Empty_set (GenericHash * gmap nat C) :=
  let '(c, h) := MakeCTX h in copy_assign (mk_GenericHash (Some c) zeros) that h.
Definition move_construct (that : GenericHash) (h : gmap nat C) : GenericHash * GenericHash * gmap nat C :=
  move_assign (mk_GenericHash None zeros) that h.

Definition destroy (this : GenericHash) (h : gmap nat C) : outcome Empty_set (gmap nat C) :=
  match _ctx this with None => Done h | Some c => DestroyCTX c h end.

Definition UpdateData (data : list Z) (this : GenericHash) (h : gmap nat C) : outcome Empty_set (gmap nat C) :=
  '(c, k) ← context (_ctx this) h;
  k ← check (EVP_DigestUpdate data k);
  Done (<[c := k]> h).

Definition Finalize (this : GenericHash) (h : gmap nat C) : outcome Empty_set (GenericHash * gmap nat C) :=
  '(c, k) ← context (_ctx this) h;
  '(digest, length, k) ← check (EVP_DigestFinal_ex k);
  _ ← assert (length =? Z.of_nat DIGEST_LENGTH)%Z "length == DIGEST_LENGTH";
  Done (mk_GenericHash (_ctx this) digest, <[c := k]> h).

(** [GetDigestOf] of a pack *)
Fixpoint update_all (pack : list (list Z)) (this : GenericHash) (h : gmap nat C) : outcome Empty_set (gmap nat C) :=
  match pack with
  | [] => Done h
  | data :: pack => h ← UpdateData data this h; update_all pack this h
  end.
Definition GetDigestOf (pack : list (list Z)) (h : gmap nat C) : outcome Empty_set (list Z * gmap nat C) :=
  '(this, h) ← GenericHash_new h;
  h ← update_all pack this h;
  '(this, h) ← Finalize this h;
  h' ← destroy this h;
  Done (_digest this, h').

(** *** Programs over hash objects *)
Inductive op :=
| Construct (v : nat)
| CopyConstruct (v w : nat)
| MoveConstruct (v w : nat)
| CopyAssign (v w : nat)
| MoveAssign (v w : nat)
| Feed (v : nat) (data : list Z)
| Finish (v : nat)
| Destroy (v : nat).

(** One operation; one on objects that are not there (or, for a construction,
    are there) does nothing. *)
Definition step (s : state) (o : op) : outcome Empty_set state :=
  let obj := objects s in
  match o with
  | Construct v =>
      match obj !! v with
      | None => '(x, h) ← GenericHash_new (heap s); Done (mk_state h (<[v := x]> obj))
      | Some _ => Done s
      end
  | CopyConstruct v w =>
      match obj !! v, obj !! w with
      | None, Some that => '(x, h) ← copy_construct that (heap s); Done (mk_state h (<[v := x]> obj))
      | _, _ => Done s
      end
  | MoveConstruct v w =>
      match obj !! v, obj !! w with
      | None, Some that =>
          let '(x, that, h) := move_construct that (heap s) in Done (mk_state h (<[v := x]> (<[w := that]> obj)))
      | _, _ => Done s
      end
  | CopyAssign v w =>
      match obj !! v, obj !! w with
      | Some this, Some that =>
          if Nat.eqb v w then Done s
          else '(x, h) ← copy_assign this that (heap s); Done (mk_state h (<[v := x]> obj))
      | _, _ => Done s
      end
  | MoveAssign v w =>
      match obj !! v, obj !! w with
      | Some this, Some that =>
          if Nat.eqb v w then Done s
          else let '(x, that, h) := move_assign this that (heap s) in
               Done (mk_state h (<[v := x]> (<[w := that]> obj)))
      | _, _ => Done s
      end
  | Feed v data =>
      match obj !! v with
      | Some this => h ← UpdateData data this (heap s); Done (mk_state h obj)
      | None => Done s
      end
  | Finish v =>
      match obj !! v with
      | Some this => '(x, h) ← Finalize this (heap s); Done (mk_state h (<[v := x]> obj))
      | None => Done s
      end
  | Destroy v =>
      match obj !! v with
      | Some this => h ← destroy this (heap s); Done (mk_state h (delete v obj))
      | None => Done s
      end
  end.

Definition run (s : state) (os : list op) : outcome Empty_set state := ofold step os s.

(** ** The values the objects are *)
Context (hash : list Z → list Z).

Definition spec_step (s : spec) (o : op) : option spec :=
  let '(vs, leaks) := s in
  match o with
  | Construct v =>
      match vs !! v with None => Some (<[v := (Some [], zeros)]> vs, leaks) | Some _ => Some s end
  | CopyConstruct v w =>
      match vs !! v, vs !! w with
      | None, Some (Some l, d) => Some (<[v := (Some l, d)]> vs, leaks)
      | None, Some (None, _) => None
      | _, _ => Some s
      end
  | MoveConstruct v w =>
      match vs !! v, vs !! w with
      | None, Some x => Some (<[v := x]> (<[w := (None, zeros)]> vs), leaks)
      | _, _ => Some s
      end
  | CopyAssign v w =>
      match vs !! v, vs !! w with
      | Some _, Some (y, d) =>
          if Nat.eqb v w then Some s
          else match y with Some l => Some (<[v := (Some l, d)]> vs, leaks) | None => None end
      | _, _ => Some s
      end
  | MoveAssign v w =>
      match vs !! v, vs !! w with
      | Some _, Some x =>
          if Nat.eqb v w then Some s else Some (<[v := x]> (<[w := (None, zeros)]> vs), S leaks)
      | _, _ => Some s
      end
  | Feed v data =>
      match vs !! v with
      | Some (Some l, d) => Some (<[v := (Some (l ++ data), d)]> vs, leaks)
      | Some (None, _) => None
      | None => Some s
      end
  | Finish v =>
      match vs !! v with
      | Some (Some l, _) => Some (<[v := (None, hash l)]> vs, leaks)
      | Some (None, _) => None
      | None => Some s
      end
  | Destroy v => Some (delete v vs, leaks)
  end.

Fixpoint spec_run (s : spec) (os : list op) : option spec :=
  match os with [] => Some s | o :: os => s ← spec_step s o; spec_run s os end.

(** ** Lemmas *)
Context (fed : C → list Z → Prop) `{!EVPLaws C hash DIGEST_LENGTH fed}.

(** Every object owns one live context, of its own. *)
Record owns (vs : gmap nat value) (leaks : nat) (s : state) : Prop := {
  own_objects : ∀ v, vs !! v = None ↔ objects s !! v = None;
  own_values : ∀ v x, vs !! v = Some x → ∃ c k, objects s !! v = Some (mk_GenericHash (Some c) x.2) ∧
    heap s !! c = Some k ∧ (∀ l, x.1 = Some l → fed k l);
  own_apart : ∀ v w c d d', objects s !! v = Some (mk_GenericHash (Some c) d) →
    objects s !! w = Some (mk_GenericHash (Some c) d') → v = w;
  own_size : size (heap s) = size (objects s) + leaks }.

Lemma own_value vs n s v o :
  owns vs n s → objects s !! v = Some o → ∃ (x : value) c k, vs !! v = Some x ∧ o = mk_GenericHash (Some c) x.2 ∧
    heap s !! c = Some k ∧ (∀ l, x.1 = Some l → fed k l).
Proof.
  intros Ho Hv. destruct (vs !! v) as [x|] eqn:Hx; [|apply (own_objects _ _ _ Ho) in Hx; congruence].
  destruct (own_values _ _ _ Ho v x Hx) as (c & k & Hc & Hk & Hf). exists x, c, k. naive_solver.
Qed.

(** A live object gets another value and its context another content. *)
Lemma owns_put vs n s v x c k d :
  owns vs n s → objects s !! v = Some (mk_GenericHash (Some c) d) → (∀ l, x.1 = Some l → fed k l) →
  owns (<[v := x]> vs) n (mk_state (<[c := k]> (heap s)) (<[v := mk_GenericHash (Some c) x.2]> (objects s))).
Proof.
  intros Ho Hv Hx. destruct (own_value _ _ _ _ _ Ho Hv) as (x0 & c0 & k0 & _ & [= <- _] & Hk0 & _).
  split; cbn [heap objects].
  - intros w. destruct (decide (v = w)) as [->|Hne]; [by rewrite !lookup_insert_eq|].
    rewrite !lookup_insert_ne by done. apply Ho.
  - intros w y Hw. destruct (decide (v = w)) as [->|Hne].
    + rewrite lookup_insert_eq in Hw. injection Hw as <-. exists c, k. by rewrite !lookup_insert_eq.
    + rewrite lookup_insert_ne in Hw by done. destruct (own_values _ _ _ Ho w y Hw) as (c' & k' & Hc' & Hk' & Hf').
      exists c', k'. rewrite lookup_insert_ne by done. split; [done|]. rewrite lookup_insert_ne; [done|].
      intros ->. apply Hne. by eapply (own_apart _ _ _ Ho).
  - intros w1 w2 c' d1 d2 H1 H2. apply lookup_insert_Some in H1 as [[<- [= <- <-]]|[Hn1 H1]];
      apply lookup_insert_Some in H2 as [[<- H2]|[Hn2 H2]]; try done.
    + by eapply (own_apart _ _ _ Ho).
    + injection H2 as -> _. by eapply (own_apart _ _ _ Ho).
    + by eapply (own_apart _ _ _ Ho).
  - rewrite !map_size_insert, Hk0, Hv. apply Ho.
Qed.

(** A new object with a new context. *)
Lemma owns_new vs n s v x c k :
  owns vs n s → objects s !! v = None → heap s !! c = None → (∀ l, x.1 = Some l → fed k l) →
  owns (<[v := x]> vs) n (mk_state (<[c := k]> (heap s)) (<[v := mk_GenericHash (Some c) x.2]> (objects s))).
Proof.
  intros Ho Hv Hc Hx.
  assert (∀ w d, objects s !! w = Some (mk_GenericHash (Some c) d) → False) as Hno.
  { intros w d Hw. destruct (own_value _ _ _ _ _ Ho Hw) as (? & c' & k' & _ & [= <- _] & Hk & _). congruence. }
  split; cbn [heap objects].
  - intros w. destruct (decide (v = w)) as [->|Hne]; [by rewrite !lookup_insert_eq|].
    rewrite !lookup_insert_ne by done. apply Ho.
  - intros w y Hw. destruct (decide (v = w)) as [->|Hne].
    + rewrite lookup_insert_eq in Hw. injection Hw as <-. exists c, k. by rewrite !lookup_insert_eq.
    + rewrite lookup_insert_ne in Hw by done. destruct (own_values _ _ _ Ho w y Hw) as (c' & k' & Hc' & Hk' & Hf').
      exists c', k'. rewrite lookup_insert_ne by done. split; [done|]. rewrite lookup_insert_ne; [done|]. congruence.
  - intros w1 w2 c' d1 d2 H1 H2. apply lookup_insert_Some in H1 as [[<- [= <- <-]]|[Hn1 H1]];
      apply lookup_insert_Some in H2 as [[<- H2]|[Hn2 H2]]; try done.
    + by destruct (Hno w2 d2).
    + injection H2 as -> _. by destruct (Hno w1 d1).
    + by eapply (own_apart _ _ _ Ho).
  - rewrite !map_size_insert, Hc, Hv. pose proof (own_size _ _ _ Ho). lia.
Qed.

(** Two objects change places. *)
Lemma owns_swap vs n s v w x y o1 o2 :
  owns vs n s → v ≠ w → vs !! v = Some x → vs !! w = Some y →
  objects s !! v = Some o1 → objects s !! w = Some o2 →
  owns (<[v := y]> (<[w := x]> vs)) n (mk_state (heap s) (<[v := o2]> (<[w := o1]> (objects s)))).
Proof.
  intros Ho Hne Hx Hy H1 H2. set (pi u := if decide (u = v) then w else if decide (u = w) then v else u).
  assert (∀ (A : Type) (m : gmap nat A) a b u, m !! v = Some a → m !! w = Some b →
    <[v := b]> (<[w := a]> m) !! u = m !! pi u) as Hpi.
  { intros A m a b u Ha Hb. unfold pi. destruct (decide (u = v)) as [->|]; [by rewrite lookup_insert_eq|].
    rewrite lookup_insert_ne by done. destruct (decide (u = w)) as [->|]; [by rewrite lookup_insert_eq|].
    by rewrite lookup_insert_ne. }
  assert (∀ u u', pi u = pi u' → u = u') as Hinj by (intros u u'; unfold pi; repeat case_decide; congruence).
  split; cbn [heap objects].
  - intros u. rewrite !Hpi by done. apply Ho.
  - intros u z. rewrite !Hpi by done. apply (own_values _ _ _ Ho).
  - intros u u' c d d'. rewrite !Hpi by done. intros Hu Hu'. apply Hinj. by eapply (own_apart _ _ _ Ho).
  - rewrite !map_size_insert. rewrite lookup_insert_ne, H1, H2 by done. apply Ho.
Qed.

(** An object goes: its context is freed, or leaked. *)
Lemma owns_delete vs n s v c d :
  owns vs n s → objects s !! v = Some (mk_GenericHash (Some c) d) →
  owns (delete v vs) n (mk_state (delete c (heap s)) (delete v (objects s))) ∧
  owns (delete v vs) (S n) (mk_state (heap s) (delete v (objects s))).
Proof.
  intros Ho Hv. destruct (own_value _ _ _ _ _ Ho Hv) as (x0 & c0 & k0 & _ & [= <- _] & Hk0 & _).
  assert (∀ w, delete v vs !! w = None ↔ delete v (objects s) !! w = None) as Hdom.
  { intros w. rewrite !lookup_delete_None. pose proof (own_objects _ _ _ Ho w). tauto. }
  assert (∀ w1 w2 c d d', delete v (objects s) !! w1 = Some (mk_GenericHash (Some c) d) →
    delete v (objects s) !! w2 = Some (mk_GenericHash (Some c) d') → w1 = w2) as Hap.
  { intros w1 w2 c' d1 d2 [_ H1]%lookup_delete_Some [_ H2]%lookup_delete_Some. by eapply (own_apart _ _ _ Ho). }
  pose proof (own_size _ _ _ Ho) as Hsz.
  assert (size (objects s) ≠ 0) as Hpos by (intros Hz; apply map_size_empty_inv in Hz; rewrite Hz in Hv; done).
  split; split; cbn [heap objects]; try done.
  - intros w y [Hne Hw]%lookup_delete_Some. destruct (own_values _ _ _ Ho w y Hw) as (c' & k' & Hc' & Hk' & Hf').
    exists c', k'. rewrite lookup_delete_ne by done. split; [done|]. rewrite lookup_delete_ne; [done|].
    intros ->. apply Hne. by eapply (own_apart _ _ _ Ho).
  - rewrite !map_size_delete, Hk0, Hv. lia.
  - intros w y [Hne Hw]%lookup_delete_Some. destruct (own_values _ _ _ Ho w y Hw) as (c' & k' & Hc' & Hk' & Hf').
    exists c', k'. by rewrite lookup_delete_ne.
  - rewrite map_size_delete, Hv. lia.
Qed.

Lemma insert_around {A : Type} (m : gmap nat A) v w a b c :
  v ≠ w → <[v := a]> (<[w := b]> (<[v := c]> m)) = <[v := a]> (<[w := b]> m).
Proof.
  intros Hne. apply map_eq. intros u. destruct (decide (v = u)) as [->|]; [by rewrite !lookup_insert_eq|].
  rewrite !(lookup_insert_ne _ v) by done. destruct (decide (w = u)) as [->|]; [by rewrite !lookup_insert_eq|].
  by rewrite !(lookup_insert_ne _ w), lookup_insert_ne.
Qed.

Lemma insert_over_delete {A : Type} (m : gmap nat A) v a : <[v := a]> (delete v m) = <[v := a]> m.
Proof.
  apply map_eq. intros u. destruct (decide (v = u)) as [->|]; [by rewrite !lookup_insert_eq|].
  by rewrite !lookup_insert_ne, lookup_delete_ne.
Qed.

Lemma fresh_context (h : gmap nat C) : h !! fresh (dom h) = None.
Proof. apply not_elem_of_dom, is_fresh. Qed.

(** A move leaves a context that was never initialised behind. *)
Lemma owns_move vs n s v w x o :
  owns vs n s → v ≠ w → objects s !! v = None → vs !! w = Some x → objects s !! w = Some o →
  let c := fresh (dom (heap s)) in
  owns (<[v := x]> (<[w := (None, zeros)]> vs)) n
    (mk_state (<[c := EVP_MD_CTX_new]> (heap s))
       (<[v := mk_GenericHash (_ctx o) (_digest o)]> (<[w := mk_GenericHash (Some c) zeros]> (objects s)))).
Proof.
  intros Ho Hne Hv Hx Hw c.
  assert (owns (<[v := (None, zeros)]> vs) n (mk_state (<[c := EVP_MD_CTX_new]> (heap s))
    (<[v := mk_GenericHash (Some c) zeros]> (objects s)))) as Hn.
  { apply (owns_new vs n s v (None, zeros)); [done|done|apply fresh_context|done]. }
  pose proof (owns_swap _ _ _ v w (None, zeros) x (mk_GenericHash (Some c) zeros) o Hn Hne) as Hsw.
  cbn [heap objects] in Hsw. rewrite !lookup_insert_eq, !lookup_insert_ne in Hsw by done.
  rewrite !insert_around in Hsw by done. destruct o. by apply Hsw.
Qed.

Lemma new_object (h : gmap nat C) :
  ∃ k, GenericHash_new h = Done (mk_GenericHash (Some (fresh (dom h))) zeros, <[fresh (dom h) := k]> h) ∧ fed k [].
Proof.
  unfold GenericHash_new, MakeCTX. destruct init_ok as (k & -> & Hk). exists k. split; [|done].
  cbn. by rewrite insert_insert_eq.
Qed.

Lemma context_live (h : gmap nat C) c k : h !! c = Some k → context (Some c) h = Done (c, k).
Proof. intros Hk. unfold context. by rewrite Hk. Qed.

Definition refines (vs : gmap nat value) (n : nat) (s : state) (o : op) : Prop :=
  ∀ vs' n', spec_step (vs, n) o = Some (vs', n') → ∃ s', step s o = Done s' ∧ owns vs' n' s'.

(** The two sides agree on which objects there are. *)
Lemma object_of vs n s v :
  owns vs n s →
  (vs !! v = None ∧ objects s !! v = None) ∨
  ∃ (x : value) c k, vs !! v = Some x ∧ objects s !! v = Some (mk_GenericHash (Some c) x.2) ∧ heap s !! c = Some k ∧
    (∀ l, x.1 = Some l → fed k l).
Proof.
  intros Ho. destruct (vs !! v) as [x|] eqn:Hv; [right|left; split; [done|by apply (own_objects _ _ _ Ho)]].
  destruct (own_values _ _ _ Ho v x Hv) as (c & k & ?). by exists x, c, k.
Qed.

Ltac no_object := intros; simplify_eq; eauto.

Lemma refines_Construct vs n s v : owns vs n s → refines vs n s (Construct v).
Proof.
  intros Ho vs' n'. cbn [spec_step step].
  destruct (object_of vs n s v Ho) as [[Hv Hv']|(x & c & k & Hv & Hv' & _)]; [|rewrite Hv, Hv'; no_object].
  rewrite Hv, Hv'. destruct (new_object (heap s)) as (k & -> & Hk). intros [= <- <-].
  eexists. split; [done|]. apply (owns_new vs n s v (Some [], zeros)); [done|done|apply fresh_context|].
  by intros l [= <-].
Qed.

Lemma refines_CopyConstruct vs n s v w : owns vs n s → refines vs n s (CopyConstruct v w).
Proof.
  intros Ho vs' n'. cbn [spec_step step].
  destruct (object_of vs n s v Ho) as [[Hv Hv']|(x & c & k & Hv & Hv' & _)]; [|rewrite Hv, Hv'; no_object]. rewrite Hv, Hv'.
  destruct (object_of vs n s w Ho) as [[-> ->]|(y & c & k & -> & -> & Hc & Hf)]; [no_object|].
  destruct y as [[l|] d]; [|done].
  intros [= <- <-]. unfold copy_construct, copy_assign, MakeCTX. cbn [_ctx _digest fst snd].
  set (a := fresh (dom (heap s))). assert (heap s !! a = None) as Ha by apply fresh_context.
  rewrite (context_live _ a EVP_MD_CTX_new) by apply lookup_insert_eq. cbn [mbind outcome_bind].
  rewrite (context_live _ c k) by (rewrite lookup_insert_ne; [done|congruence]). cbn [mbind outcome_bind].
  destruct (copy_ok EVP_MD_CTX_new k l (Hf l eq_refl)) as (k' & -> & Hk'). cbn [check mbind outcome_bind].
  rewrite insert_insert_eq. eexists. split; [done|].
  apply (owns_new vs n s v (Some l, d)); [done..|]. by intros l' [= <-].
Qed.

Lemma refines_MoveConstruct vs n s v w : owns vs n s → refines vs n s (MoveConstruct v w).
Proof.
  intros Ho vs' n'. cbn [spec_step step].
  destruct (object_of vs n s v Ho) as [[Hv Hv']|(x & c & k & Hv & Hv' & _)]; [|rewrite Hv, Hv'; no_object]. rewrite Hv, Hv'.
  destruct (object_of vs n s w Ho) as [[-> ->]|(x & c & k & Hw & Hw' & _)]; [no_object|]. rewrite Hw, Hw'.
  intros [= <- <-]. eexists. split; [reflexivity|].
  apply (owns_move vs n s v w x _ Ho); [congruence|done|done|exact Hw'].
Qed.

Lemma refines_CopyAssign vs n s v w : owns vs n s → refines vs n s (CopyAssign v w).
Proof.
  intros Ho vs' n'. cbn [spec_step step].
  destruct (object_of vs n s v Ho) as [[-> ->]|(x & c1 & k1 & -> & Hv & Hc1 & _)]; [no_object|]. rewrite Hv.
  destruct (object_of vs n s w Ho) as [[-> ->]|(y & c & k & -> & -> & Hc & Hf)]; [no_object|].
  destruct y as [[l|] d]; (destruct (Nat.eqb v w); [no_object|]); [|done]. intros [= <- <-].
  unfold copy_assign. cbn [_ctx _digest fst snd].
  rewrite (context_live _ c1 k1), (context_live _ c k) by done. cbn [mbind outcome_bind].
  destruct (copy_ok k1 k l (Hf l eq_refl)) as (k' & -> & Hk'). cbn [check mbind outcome_bind].
  eexists. split; [done|]. apply (owns_put vs n s v (Some l, d) c1 k' x.2); [done..|]. by intros l' [= <-].
Qed.

Lemma refines_MoveAssign vs n s v w : owns vs n s → refines vs n s (MoveAssign v w).
Proof.
  intros Ho vs' n'. cbn [spec_step step].
  destruct (object_of vs n s v Ho) as [[-> ->]|(x & c1 & k1 & -> & Hv & _)]; [no_object|]. rewrite Hv.
  destruct (object_of vs n s w Ho) as [[-> ->]|(y & c & k & Hw & Hw' & _)]; [no_object|]. rewrite Hw, Hw'.
  destruct (Nat.eqb_spec v w) as [->|Hne]; [no_object|]. intros [= <- <-]. eexists. split; [reflexivity|].
  destruct (owns_delete vs n s v c1 x.2 Ho Hv) as [_ Hl].
  pose proof (owns_move _ _ _ v w y (mk_GenericHash (Some c) y.2) Hl Hne) as Hm.
  cbn [heap objects _ctx _digest] in Hm. rewrite lookup_delete_eq, !lookup_delete_ne in Hm by done.
  do 2 rewrite <- delete_insert_ne, insert_over_delete in Hm by done. by apply Hm.
Qed.

Lemma refines_Feed vs n s v data : owns vs n s → refines vs n s (Feed v data).
Proof.
  intros Ho vs' n'. cbn [spec_step step].
  destruct (object_of vs n s v Ho) as [[-> ->]|(y & c & k & -> & Hv & Hc & Hf)]; [no_object|]. rewrite Hv.
  destruct y as [[l|] d]; [|done]. intros [= <- <-]. unfold UpdateData. cbn [_ctx]. rewrite (context_live _ c k) by done.
  cbn [mbind outcome_bind]. destruct (update_ok k l data (Hf l eq_refl)) as (k' & -> & Hk').
  eexists. split; [done|]. pose proof (owns_put vs n s v (Some (l ++ data), d) c k' d Ho Hv) as Hp.
  cbn [snd] in Hp, Hv. rewrite (insert_id (objects s)) in Hp by done. apply Hp. by intros l' [= <-].
Qed.

Lemma refines_Finish vs n s v : owns vs n s → refines vs n s (Finish v).
Proof.
  intros Ho vs' n'. cbn [spec_step step].
  destruct (object_of vs n s v Ho) as [[-> ->]|(y & c & k & -> & Hv & Hc & Hf)]; [no_object|]. rewrite Hv.
  destruct y as [[l|] d]; [|done]. intros [= <- <-]. unfold Finalize. cbn [_ctx]. rewrite (context_live _ c k) by done.
  cbn [mbind outcome_bind]. destruct (final_ok k l (Hf l eq_refl)) as (k' & ->). cbn [check mbind outcome_bind].
  rewrite Z.eqb_refl. eexists. split; [done|]. by apply (owns_put vs n s v (None, hash l) c k' d).
Qed.

Lemma refines_Destroy vs n s v : owns vs n s → refines vs n s (Destroy v).
Proof.
  intros Ho vs' n'. cbn [spec_step step]. intros [= <- <-].
  destruct (object_of vs n s v Ho) as [[Hv ->]|(x & c & k & _ & Hv & Hc & _)].
  - rewrite delete_id by done. eauto.
  - rewrite Hv. unfold destroy, DestroyCTX. cbn [_ctx]. rewrite Hc. eexists. split; [done|].
    by apply (owns_delete vs n s v c x.2).
Qed.

Lemma step_refines vs n s o : owns vs n s → refines vs n s o.
Proof.
  destruct o; auto using refines_Construct, refines_CopyConstruct, refines_MoveConstruct, refines_CopyAssign,
    refines_MoveAssign, refines_Feed, refines_Finish, refines_Destroy.
Qed.

Lemma run_refines vs n s os vs' n' :
  owns vs n s → spec_run (vs, n) os = Some (vs', n') → ∃ s', run s os = Done s' ∧ owns vs' n' s'.
Proof.
  revert vs n s. induction os as [|o os IH]; intros vs n s Ho Hs; cbn [spec_run] in Hs; [simplify_eq; by exists s|].
  apply bind_Some in Hs as ([vs1 n1] & H1 & Hs).
  destruct (step_refines vs n s o Ho vs1 n1 H1) as (s1 & Hs1 & Ho1).
  destruct (IH vs1 n1 s1 Ho1 Hs) as (s' & Hr & Ho'). exists s'. split; [|done]. unfold run. cbn [ofold].
  rewrite Hs1. exact Hr.
Qed.

Lemma owns_empty : owns ∅ 0 (mk_state ∅ ∅).
Proof.
  split; cbn [heap objects].
  - done.
  - intros v x Hv. by rewrite lookup_empty in Hv.
  - intros v w c d d' Hv. by rewrite lookup_empty in Hv.
  - by rewrite !map_size_empty.
Qed.

(** ** Properties *)

(** Hash objects are values: in every program that constructs, copies, moves,
    assigns and destroys them and uses none that was moved away or finalised,
    no context is used or freed twice, every digest is the hash of what the
    object was fed, whatever copies and moves it went through, and the contexts
    there are, are those of the objects and one more for each assignment that
    moved into an object that was there: that one is never freed. *)
Theorem hash_objects_are_values (os : list op) (vs : gmap nat value) (leaks : nat) :
  spec_run (∅, 0) os = Some (vs, leaks) →
  ∃ s, run (mk_state ∅ ∅) os = Done s ∧ size (heap s) = size (objects s) + leaks ∧
    ∀ v, _digest <$> objects s !! v = snd <$> vs !! v.
Proof.
  intros Hs. destruct (run_refines _ _ _ os _ _ owns_empty Hs) as (s & Hr & Ho). exists s. split; [done|].
  split; [apply (own_size _ _ _ Ho)|]. intros v.
  destruct (object_of _ _ _ v Ho) as [[-> ->]|(x & c & k & -> & -> & _)]; done.
Qed.

Lemma update_all_fed pack c l k h d :
  h !! c = Some k → fed k l →
  ∃ k', update_all pack (mk_GenericHash (Some c) d) h = Done (<[c := k']> h) ∧ fed k' (l ++ concat pack).
Proof.
  revert l k h. induction pack as [|data pack IH]; intros l k h Hc Hf; cbn [update_all concat].
  - exists k. rewrite insert_id, app_nil_r by done. done.
  - unfold UpdateData at 1. cbn [_ctx]. rewrite (context_live _ c k) by done. cbn [mbind outcome_bind].
    destruct (update_ok k l data Hf) as (k1 & -> & Hf1). cbn [check mbind outcome_bind].
    destruct (IH (l ++ data) k1 (<[c := k1]> h)) as (k' & -> & Hk'); [apply lookup_insert_eq|done|].
    exists k'. by rewrite insert_insert_eq, app_assoc.
Qed.

(** [GetDigestOf] hashes the concatenation of its arguments, and leaves the heap
    as it was. *)
Theorem GetDigestOf_concat (pack : list (list Z)) (h : gmap nat C) :
  GetDigestOf pack h = Done (hash (concat pack), h).
Proof.
  unfold GetDigestOf. destruct (new_object h) as (k & -> & Hk). cbn [mbind outcome_bind].
  set (c := fresh (dom h)). assert (h !! c = None) as Hc by apply fresh_context.
  destruct (update_all_fed pack c [] k (<[c := k]> h) zeros) as (k1 & -> & Hk1); [apply lookup_insert_eq|done|].
  cbn [mbind outcome_bind]. rewrite insert_insert_eq. unfold Finalize. cbn [_ctx].
  rewrite (context_live _ c k1) by apply lookup_insert_eq. cbn [mbind outcome_bind].
  destruct (final_ok k1 _ Hk1) as (k2 & ->). cbn [check mbind outcome_bind]. rewrite Z.eqb_refl.
  cbn [assert mbind outcome_bind]. rewrite insert_insert_eq. unfold destroy, DestroyCTX. cbn [_ctx].
  rewrite lookup_insert_eq. cbn [mbind outcome_bind _digest]. by rewrite delete_insert_id.
Qed.
End Hash.

(** ** Concrete runs *)

(** A library with a digest of two bytes: the length and the sum of the bytes. *)
Definition toy_hash (l : list Z) : list Z := [Z.of_nat (length l) mod 256; foldr Z.add 0 l mod 256]%Z.

#[export] Instance toy_evp : EVP (option (list Z)) := {
  EVP_MD_CTX_new := None;
  EVP_DigestInit_ex _ := Some (Some []);
  EVP_DigestUpdate data c := l ← c; Some (Some (l ++ data));
  EVP_DigestFinal_ex c := l ← c; Some (toy_hash l, 2%Z, None);
  EVP_MD_CTX_copy_ex _ c := l ← c; Some (Some l) }.

#[export] Instance toy_evp_laws : EVPLaws (option (list Z)) toy_hash 2 (λ c l, c = Some l).
Proof.
  split.
  - by exists (Some []).
  - intros c l data ->. by exists (Some (l ++ data)).
  - intros c l ->. by exists None.
  - intros out c l ->. by exists (Some l).
Qed.

(** A copy is finalised on its own; an assignment that moves leaks. *)
Definition sample_program : list op :=
  [Construct 0; Feed 0 [1; 2]; CopyConstruct 1 0; Feed 1 [3]; Finish 1; Construct 2; MoveAssign 2 0; Feed 2 [4];
   Finish 2; Destroy 0; Destroy 1; Destroy 2]%Z.

Lemma hash_objects_are_values_witness :
  ∃ vs s, spec_run 2 toy_hash (∅, 0) sample_program = Some (vs, 1) ∧
    run 2 (mk_state (∅ : gmap nat (option (list Z))) ∅) sample_program = Done s ∧ size (heap s) = 1 ∧ objects s = ∅.
Proof.
  assert (∃ vs, spec_run 2 toy_hash (∅, 0) sample_program = Some (vs, 1) ∧ vs = ∅) as (vs & Hvs & ->)
    by (eexists; split; reflexivity).
  destruct (hash_objects_are_values (C := option (list Z)) 2 toy_hash (λ c l, c = Some l) sample_program ∅ 1 Hvs)
    as (s & Hr & Hsz & Hd).
  assert (objects s = ∅) as Ho.
  { apply map_empty. intros v. specialize (Hd v). rewrite lookup_empty in Hd. by destruct (objects s !! v). }
  exists ∅, s. split; [exact Hvs|]. split; [exact Hr|]. split; [|exact Ho].
  rewrite Hsz, Ho. reflexivity.
Defined.

Lemma GetDigestOf_concat_witness :
  GetDigestOf 2 [[1; 2]; [3]]%Z (∅ : gmap nat (option (list Z))) = Done ([3; 6]%Z, ∅).
Proof.
  exact (GetDigestOf_concat (C := option (list Z)) 2 toy_hash (λ c l, c = Some l) [[1; 2]; [3]]%Z ∅).
Defined.
