(* ===== verification/HMAC.v ===== *)
(** * Keyed digests: common/Cryptography/HMAC.h

    [GenericHMAC] owns a context of OpenSSL and holds a reference to a key.  The
    context refers to the key, too, once it is initialised: OpenSSL counts the
    references to a key, and frees it with the last one.  The library's memory is
    the contexts there are and the multiset of the references to each key; a use
    or a free of what is not there ends in [Crash].  What OpenSSL computes is the
    interface [EVPSign], with its documented behaviour as [EVPSignLaws]. *)
From stdpp Require Import gmultiset.
From S2P Require Import Prelude Digest.

#[local] Arguments disj_union : simpl never.
#[local] Arguments difference : simpl never.

(** ** OpenSSL

    [Some] is a call that returned 1. *)
Class EVPSign (C : Type) := {
  new_ctx : C;
  EVP_DigestSignInit : list Z → C → option C;                (* the octets of the key *)
  EVP_DigestSignUpdate : list Z → C → option C;
  EVP_DigestSignFinal : C → option (list Z * Z * C);         (* the digest, its length *)
  sign_copy_ex : C → C → option C }.                         (* out, in *)

(** [fed c seed l]: [c] was initialised with the key of [seed], fed [l], and not
    finalised since. *)
Class EVPSignLaws (C : Type) `{EVPSign C} (mac : list Z → list Z → list Z) (digest_length : nat)
    (fed : C → list Z → list Z → Prop) := {
  sign_init_ok seed : ∃ c, EVP_DigestSignInit seed new_ctx = Some c ∧ fed c seed [];
  sign_update_ok c seed l data :
    fed c seed l → ∃ c', EVP_DigestSignUpdate data c = Some c' ∧ fed c' seed (l ++ data);
  sign_final_ok c seed l :
    fed c seed l → ∃ c', EVP_DigestSignFinal c = Some (mac seed l, Z.of_nat digest_length, c');
  sign_copy_ok out c seed l : fed c seed l → ∃ c', sign_copy_ex out c = Some c' ∧ fed c' seed l }.

(** ** What the objects promise *)
Inductive status :=
| Fed (seed l : list Z)     (* what it was fed since its construction *)
| Finished
| Moved.

(** An object is its status and its digest.  The counts are those of the contexts
    and of the references to keys that no object owns any more. *)
Record spec := mk_spec { values : gmap nat (status * list Z); lost_contexts : nat; lost_references : nat }.

(** The references an object holds: its own, and the one of its context. *)
Definition references (x : status) : nat := match x with Moved => 1 | _ => 2 end.
Definition all_references (vs : gmap nat (status * list Z)) : nat :=
  map_fold (λ _ x acc, references x.1 + acc) 0 vs.

(** ** GenericHMAC *)
Section HMAC.
Context {C : Type} `{EVPSign C} (DIGEST_LENGTH : nat).

Record GenericHMAC := mk_GenericHMAC { _ctx : option nat; _key : option nat; _digest : list Z }.

(** A context and the key it refers to; the keys' octets and references. *)
Record context := mk_context { content : C; pkey : option nat }.
Record library := mk_library { contexts : gmap nat context; octets : gmap nat (list Z); refs : gmultiset nat }.

Abbreviation M := (SM Empty_set library).

Definition zeros : list Z := replicate DIGEST_LENGTH 0%Z.

(** *** The functions of the library that manage memory *)
Definition new_key (seed : list Z) : M nat := λ s,
  let k := fresh (dom (refs s)) in
  (Done k, mk_library (contexts s) (<[k := seed]> (octets s)) ({[+ k +]} ⊎ refs s)).
(** [EVP_PKEY_new]: a key without octets. *)
Definition EVP_PKEY_new : M nat := new_key [].

(** [EVP_PKEY_free]: of a null pointer, nothing. *)
Definition EVP_PKEY_free (k : option nat) : M unit := λ s,
  match k with
  | None => (Done (), s)
  | Some k =>
      if decide (k ∈ refs s) then (Done (), mk_library (contexts s) (octets s) (refs s ∖ {[+ k +]}))
      else (Crash "free of a key that is not there", s)
  end.
Definition EVP_PKEY_up_ref (k : option nat) : M unit := λ s,
  match k with
  | None => (Crash "a null key", s)
  | Some k =>
      if decide (k ∈ refs s) then (Done (), mk_library (contexts s) (octets s) ({[+ k +]} ⊎ refs s))
      else (Crash "a key that was freed", s)
  end.

Definition MakeCTX : M nat := λ s,
  let c := fresh (dom (contexts s)) in
  (Done c, mk_library (<[c := mk_context new_ctx None]> (contexts s)) (octets s) (refs s)).

Definition read (c : option nat) : M (nat * context) := λ s,
  match c with
  | Some c => match contexts s !! c with Some x => (Done (c, x), s) | None => (Crash "a context that was freed", s) end
  | None => (Crash "a null context", s)
  end.
Definition write (c : nat) (x : context) : M unit := λ s,
  (Done (), mk_library (<[c := x]> (contexts s)) (octets s) (refs s)).

(** [DestroyCTX]: the context goes with its reference; of a null pointer, nothing. *)
Definition DestroyCTX (c : option nat) : M unit :=
  match c with
  | None => mret ()
  | Some _ =>
      '(c, x) ← read c;
      _ ← EVP_PKEY_free (pkey x);
      modify_state (λ s, mk_library (delete c (contexts s)) (octets s) (refs s))
  end.

(** [ASSERT(result == 1)] *)
Definition check {A : Type} (result : option A) : M A :=
  match result with Some a => mret a | None => abort "result == 1" end.

(** The context refers to the key from now on. *)
Definition DigestSignInit (c key : nat) : M unit :=
  '(_, x) ← read (Some c);
  s ← get_state;
  _ ← EVP_PKEY_up_ref (Some key);
  x ← check (EVP_DigestSignInit (default [] (octets s !! key)) (content x));
  write c (mk_context x (Some key)).

(** [EVP_MD_CTX_copy_ex]: the reference of [out] goes, the one of [in] is
    counted once more. *)
Definition EVP_MD_CTX_copy_ex (out in_ : option nat) : M unit :=
  '(c, x) ← read out;
  '(_, y) ← read in_;
  _ ← EVP_PKEY_free (pkey x);
  k ← check (sign_copy_ex (content x) (content y));
  _ ← (match pkey y with None => mret () | Some _ => EVP_PKEY_up_ref (pkey y) end);
  write c (mk_context k (pkey y)).

(** *** The class *)
Definition GenericHMAC_new (seed : list Z) : M GenericHMAC :=
  _ctx ← MakeCTX;
  _key ← new_key seed;
  _ ← DigestSignInit _ctx _key;
  mret (mk_GenericHMAC (Some _ctx) (Some _key) zeros).

Definition destroy (this : GenericHMAC) : M unit :=
  _ ← DestroyCTX (_ctx this);
  EVP_PKEY_free (_key this).

(** [operator=(GenericHMAC const&)] on another object. *)
Definition copy_assign (this that : GenericHMAC) : M GenericHMAC :=
  _ ← EVP_MD_CTX_copy_ex (_ctx this) (_ctx that);
  let this := mk_GenericHMAC (_ctx this) (_key that) (_digest this) in
  _ ← EVP_PKEY_up_ref (_key this);
  mret (mk_GenericHMAC (_ctx this) (_key this) (_digest that)).

(** [operator=(GenericHMAC&&)] on another object: [this] and [that] after it. *)
Definition move_assign (this that : GenericHMAC) : M (GenericHMAC * GenericHMAC) :=
  c ← MakeCTX;
  k ← EVP_PKEY_new;
  mret (mk_GenericHMAC (_ctx that) (_key that) (_digest that), mk_GenericHMAC (Some c) (Some k) zeros).

Definition copy_construct (that : GenericHMAC) : M GenericHMAC :=
  c ← MakeCTX; copy_assign (mk_GenericHMAC (Some c) None zeros) that.
Definition move_construct (that : GenericHMAC) : M (GenericHMAC * GenericHMAC) :=
  move_assign (mk_GenericHMAC None None zeros) that.

Definition UpdateData (data : list Z) (this : GenericHMAC) : M unit :=
  '(c, x) ← read (_ctx this);
  k ← check (EVP_DigestSignUpdate data (content x));
  write c (mk_context k (pkey x)).

Definition Finalize (this : GenericHMAC) : M GenericHMAC :=
  '(c, x) ← read (_ctx this);
  '(digest, length, k) ← check (EVP_DigestSignFinal (content x));
  _ ← write c (mk_context k (pkey x));
  if (length =? Z.of_nat DIGEST_LENGTH)%Z then mret (mk_GenericHMAC (_ctx this) (_key this) digest)
  else abort "length == DIGEST_LENGTH".

(** [GetDigestOf] of a pack *)
Definition GetDigestOf (seed : list Z) (pack : list (list Z)) : M (list Z) :=
  this ← GenericHMAC_new seed;
  _ ← for_each (λ data, UpdateData data this) pack;
  this ← Finalize this;
  _ ← destroy this;
  mret (_digest this).

(** *** Programs over the objects *)
Inductive op :=
| Construct (v : nat) (seed : list Z)
| CopyConstruct (v w : nat)
| MoveConstruct (v w : nat)
| CopyAssign (v w : nat)
| MoveAssign (v w : nat)
| Feed (v : nat) (data : list Z)
| Finish (v : nat)
| Destroy (v : nat).

Record state := mk_state { lib : library; objects : gmap nat GenericHMAC }.

(** [m] in the library of [s], and what its result makes of the objects. *)
Definition on {A : Type} (s : state) (m : M A) (f : A → gmap nat GenericHMAC) : outcome Empty_set state :=
  let '(r, l) := m (lib s) in a ← r; Done (mk_state l (f a)).

(** One operation; one on objects that are not there (or, for a construction,
    are there) does nothing. *)
Definition step (s : state) (o : op) : outcome Empty_set state :=
  let obj := objects s in
  match o with
  | Construct v seed =>
      match obj !! v with None => on s (GenericHMAC_new seed) (λ x, <[v := x]> obj) | Some _ => Done s end
  | CopyConstruct v w =>
      match obj !! v, obj !! w with
      | None, Some that => on s (copy_construct that) (λ x, <[v := x]> obj)
      | _, _ => Done s
      end
  | MoveConstruct v w =>
      match obj !! v, obj !! w with
      | None, Some that => on s (move_construct that) (λ p, <[v := p.1]> (<[w := p.2]> obj))
      | _, _ => Done s
      end
  | CopyAssign v w =>
      match obj !! v, obj !! w with
      | Some this, Some that =>
          if Nat.eqb v w then Done s else on s (copy_assign this that) (λ x, <[v := x]> obj)
      | _, _ => Done s
      end
  | MoveAssign v w =>
      match obj !! v, obj !! w with
      | Some this, Some that =>
          if Nat.eqb v w then Done s else on s (move_assign this that) (λ p, <[v := p.1]> (<[w := p.2]> obj))
      | _, _ => Done s
      end
  | Feed v data =>
      match obj !! v with Some this => on s (UpdateData data this) (λ _, obj) | None => Done s end
  | Finish v =>
      match obj !! v with Some this => on s (Finalize this) (λ x, <[v := x]> obj) | None => Done s end
  | Destroy v =>
      match obj !! v with Some this => on s (destroy this) (λ _, delete v obj) | None => Done s end
  end.

Definition run (s : state) (os : list op) : outcome Empty_set state := ofold step os s.

(** ** The values the objects are *)
Context (mac : list Z → list Z → list Z).

Definition set_value (v : nat) (x : status * list Z) (s : spec) : spec :=
  mk_spec (<[v := x]> (values s)) (lost_contexts s) (lost_references s).

Definition spec_step (s : spec) (o : op) : option spec :=
  let vs := values s in
  match o with
  | Construct v seed => match vs !! v with None => Some (set_value v (Fed seed [], zeros) s) | Some _ => Some s end
  | CopyConstruct v w =>
      match vs !! v, vs !! w with
      | None, Some (Fed seed l, d) => Some (set_value v (Fed seed l, d) s)
      | None, Some _ => None
      | _, _ => Some s
      end
  | MoveConstruct v w =>
      match vs !! v, vs !! w with
      | None, Some x => Some (set_value v x (set_value w (Moved, zeros) s))
      | _, _ => Some s
      end
  | CopyAssign v w =>
      match vs !! v, vs !! w with
      | Some _, Some y =>
          if Nat.eqb v w then Some s
          else match y with
               | (Fed seed l, d) => Some (mk_spec (<[v := y]> vs) (lost_contexts s) (S (lost_references s)))
               | _ => None
               end
      | _, _ => Some s
      end
  | MoveAssign v w =>
      match vs !! v, vs !! w with
      | Some x, Some y =>
          if Nat.eqb v w then Some s
          else Some (mk_spec (<[v := y]> (<[w := (Moved, zeros)]> vs)) (S (lost_contexts s))
                       (references x.1 + lost_references s))
      | _, _ => Some s
      end
  | Feed v data =>
      match vs !! v with
      | Some (Fed seed l, d) => Some (set_value v (Fed seed (l ++ data), d) s)
      | Some _ => None
      | None => Some s
      end
  | Finish v =>
      match vs !! v with
      | Some (Fed seed l, _) => Some (set_value v (Finished, mac seed l) s)
      | Some _ => None
      | None => Some s
      end
  | Destroy v => Some (mk_spec (delete v vs) (lost_contexts s) (lost_references s))
  end.

Fixpoint spec_run (s : spec) (os : list op) : option spec :=
  match os with [] => Some s | o :: os => s ← spec_step s o; spec_run s os end.

(** ** What every object owns

    A context of its own, a reference to a key, and through the context another
    one. *)
Context (fed : C → list Z → list Z → Prop) `{!EVPSignLaws C mac DIGEST_LENGTH fed}.

Record owner := mk_owner { own_ctx : nat; own_key : nat; own_value : status * list Z }.

Definition object (x : owner) : GenericHMAC := mk_GenericHMAC (Some (own_ctx x)) (Some (own_key x)) (own_value x).2.
Definition through_context (x : owner) : option nat :=
  match (own_value x).1 with Moved => None | _ => Some (own_key x) end.
Definition holding (x : owner) : gmultiset nat :=
  {[+ own_key x +]} ⊎ match (own_value x).1 with Moved => ∅ | _ => {[+ own_key x +]} end.
Definition held (g : gmap nat owner) : gmultiset nat := map_fold (λ _ x acc, holding x ⊎ acc) ∅ g.

Record owns (g : gmap nat owner) (lost : gmultiset nat) (n : nat) (l : library) : Prop := {
  owns_context : ∀ v x, g !! v = Some x → ∃ c, contexts l !! own_ctx x = Some (mk_context c (through_context x)) ∧
    ∀ seed data, (own_value x).1 = Fed seed data → fed c seed data;
  owns_apart : ∀ v w x y, g !! v = Some x → g !! w = Some y → own_ctx x = own_ctx y → v = w;
  owns_contexts : size (contexts l) = size g + n;
  owns_refs : refs l = held g ⊎ lost }.

Lemma held_insert g v x : g !! v = None → held (<[v := x]> g) = holding x ⊎ held g.
Proof. intros Hv. unfold held. rewrite map_fold_insert_L; [done| |done]. intros. multiset_solver. Qed.

Lemma held_delete g v x : g !! v = Some x → held g = holding x ⊎ held (delete v g).
Proof. intros Hv. unfold held. rewrite (map_fold_delete_L _ _ v x g); [done| |done]. intros. multiset_solver. Qed.

Lemma held_put g v x y : g !! v = Some x → held (<[v := y]> g) = holding y ⊎ held (delete v g).
Proof.
  intros Hv. rewrite <- insert_over_delete. apply held_insert, lookup_delete_eq.
Qed.

(** An object gets another value, key and content. *)
Lemma owners_put g lost lost' n l v x y c oct rs :
  owns g lost n l → g !! v = Some x → own_ctx y = own_ctx x →
  (∀ seed data, (own_value y).1 = Fed seed data → fed c seed data) →
  rs = holding y ⊎ held (delete v g) ⊎ lost' →
  owns (<[v := y]> g) lost' n (mk_library (<[own_ctx x := mk_context c (through_context y)]> (contexts l)) oct rs).
Proof.
  intros Ho Hv Hc Hf Hr. destruct (owns_context _ _ _ _ Ho v x Hv) as (k & Hk & _). split; cbn [contexts refs].
  - intros w z Hw. destruct (decide (v = w)) as [<-|Hne].
    + rewrite lookup_insert_eq in Hw. injection Hw as <-. exists c. by rewrite Hc, lookup_insert_eq.
    + rewrite lookup_insert_ne in Hw by done. rewrite lookup_insert_ne; [by apply (owns_context _ _ _ _ Ho w)|].
      intros E. apply Hne. by eapply (owns_apart _ _ _ _ Ho).
  - assert (∀ w z, <[v := y]> g !! w = Some z → ∃ z', g !! w = Some z' ∧ own_ctx z' = own_ctx z) as Hsame.
    { intros w z [[<- <-]|[_ ?]]%lookup_insert_Some; eauto. }
    intros w1 w2 z1 z2 (y1 & H1 & E1)%Hsame (y2 & H2 & E2)%Hsame E. eapply (owns_apart _ _ _ _ Ho); eauto. congruence.
  - rewrite !map_size_insert, Hk, Hv. apply Ho.
  - by rewrite (held_put g v x).
Qed.

(** A new object with a new context. *)
Lemma owners_new g lost n l v y c oct rs :
  owns g lost n l → g !! v = None → contexts l !! own_ctx y = None →
  (∀ seed data, (own_value y).1 = Fed seed data → fed c seed data) →
  rs = holding y ⊎ refs l →
  owns (<[v := y]> g) lost n (mk_library (<[own_ctx y := mk_context c (through_context y)]> (contexts l)) oct rs).
Proof.
  intros Ho Hv Hc Hf ->.
  assert (∀ w z, g !! w = Some z → own_ctx z ≠ own_ctx y) as Hno.
  { intros w z Hw E. destruct (owns_context _ _ _ _ Ho w z Hw) as (k & Hk & _). congruence. }
  split; cbn [contexts refs].
  - intros w z [[<- <-]|[Hne Hw]]%lookup_insert_Some.
    + exists c. by rewrite lookup_insert_eq.
    + rewrite lookup_insert_ne by (symmetry; by eapply Hno). by apply (owns_context _ _ _ _ Ho w).
  - intros w1 w2 z1 z2 [[<- <-]|[Hn1 H1]]%lookup_insert_Some [[<- <-]|[Hn2 H2]]%lookup_insert_Some E; try done.
    + by destruct (Hno w2 z2).
    + by destruct (Hno w1 z1).
    + by eapply (owns_apart _ _ _ _ Ho).
  - rewrite !map_size_insert, Hc, Hv. pose proof (owns_contexts _ _ _ _ Ho). lia.
  - rewrite held_insert, (owns_refs _ _ _ _ Ho) by done. multiset_solver.
Qed.

(** An object goes, with its context or without. *)
Lemma owners_delete g lost n l v x oct :
  owns g lost n l → g !! v = Some x →
  owns (delete v g) lost n (mk_library (delete (own_ctx x) (contexts l)) oct (held (delete v g) ⊎ lost)) ∧
  owns (delete v g) (holding x ⊎ lost) (S n) l.
Proof.
  intros Ho Hv. destruct (owns_context _ _ _ _ Ho v x Hv) as (k & Hk & _).
  pose proof (owns_contexts _ _ _ _ Ho) as Hs.
  assert (size g ≠ 0) as Hpos by (intros Hz; apply map_size_empty_inv in Hz; by rewrite Hz in Hv).
  assert (∀ w1 w2 y z, delete v g !! w1 = Some y → delete v g !! w2 = Some z → own_ctx y = own_ctx z → w1 = w2) as Ha.
  { intros w1 w2 y z [_ H1]%lookup_delete_Some [_ H2]%lookup_delete_Some. by apply (owns_apart _ _ _ _ Ho). }
  split; split; cbn [contexts refs]; try done.
  - intros w y [Hne Hw]%lookup_delete_Some. rewrite lookup_delete_ne; [by apply (owns_context _ _ _ _ Ho w)|].
    intros E. apply Hne. by eapply (owns_apart _ _ _ _ Ho).
  - rewrite !map_size_delete, Hk, Hv. lia.
  - intros w y [_ Hw]%lookup_delete_Some. by apply (owns_context _ _ _ _ Ho w).
  - rewrite map_size_delete, Hv. lia.
  - rewrite (owns_refs _ _ _ _ Ho), (held_delete g v x) by done. multiset_solver.
Qed.

(** Two objects change places. *)
Lemma owners_swap g lost n l v w x y :
  owns g lost n l → v ≠ w → g !! v = Some x → g !! w = Some y → owns (<[v := y]> (<[w := x]> g)) lost n l.
Proof.
  intros Ho Hne Hv Hw. set (pi u := if decide (u = v) then w else if decide (u = w) then v else u).
  assert (∀ u, <[v := y]> (<[w := x]> g) !! u = g !! pi u) as Hpi.
  { intros u. unfold pi. destruct (decide (u = v)) as [->|]; [by rewrite lookup_insert_eq|].
    rewrite lookup_insert_ne by done. destruct (decide (u = w)) as [->|]; [by rewrite lookup_insert_eq|].
    by rewrite lookup_insert_ne. }
  split.
  - intros u z. rewrite Hpi. apply (owns_context _ _ _ _ Ho).
  - intros u1 u2 z1 z2. rewrite !Hpi. intros H1 H2 E. pose proof (owns_apart _ _ _ _ Ho _ _ _ _ H1 H2 E) as Hp.
    revert Hp. unfold pi. repeat case_decide; congruence.
  - rewrite !map_size_insert, lookup_insert_ne, Hv, Hw by done. apply Ho.
  - rewrite (owns_refs _ _ _ _ Ho), (held_put _ v x), delete_insert_ne, (held_put (delete v g) w y)
      by (rewrite ?lookup_delete_ne, ?lookup_insert_ne by done; done).
    rewrite (held_delete g v x), (held_delete (delete v g) w y) by (rewrite ?lookup_delete_ne by done; done).
    multiset_solver.
Qed.

(** *** What the functions do with what an object owns *)
Ltac enter := unfold mret, SM_ret, mbind, SM_bind, get_state, modify_state, abort, check; cbn.

Lemma read_live c x l : contexts l !! c = Some x → read (Some c) l = (Done (c, x), l).
Proof. intros Hc. unfold read. by rewrite Hc. Qed.

Lemma free_live k l : k ∈ refs l →
  EVP_PKEY_free (Some k) l = (Done (), mk_library (contexts l) (octets l) (refs l ∖ {[+ k +]})).
Proof. intros Hk. unfold EVP_PKEY_free. by rewrite decide_True. Qed.

Lemma up_ref_live k l : k ∈ refs l →
  EVP_PKEY_up_ref (Some k) l = (Done (), mk_library (contexts l) (octets l) ({[+ k +]} ⊎ refs l)).
Proof. intros Hk. unfold EVP_PKEY_up_ref. by rewrite decide_True. Qed.

Lemma fresh_ctx (l : library) : contexts l !! fresh (dom (contexts l)) = None.
Proof. apply not_elem_of_dom, is_fresh. Qed.

Lemma new_runs g lost n l v seed :
  owns g lost n l → g !! v = None →
  ∃ y l', GenericHMAC_new seed l = (Done (object y), l') ∧ own_value y = (Fed seed [], zeros) ∧
    owns (<[v := y]> g) lost n l'.
Proof.
  intros Ho Hv. set (c := fresh (dom (contexts l))). set (k := fresh (dom (refs l))).
  exists (mk_owner c k (Fed seed [], zeros)).
  destruct (sign_init_ok seed) as (x & Hx & Hf). unfold GenericHMAC_new, MakeCTX, new_key, DigestSignInit. enter.
  fold c k. rewrite lookup_insert_eq. cbn. rewrite decide_True by multiset_solver. cbn.
  rewrite lookup_insert_eq. cbn. rewrite Hx. cbn. rewrite insert_insert_eq. eexists. split; [done|]. split; [done|].
  apply (owners_new g lost n l v (mk_owner c k (Fed seed [], zeros))); [done|done|apply fresh_ctx| |].
  - by intros ? ? [= <- <-].
  - unfold holding. cbn. multiset_solver.
Qed.

(** The context of an owner, and that its key is there. *)
Lemma owner_live g lost n l v x :
  owns g lost n l → g !! v = Some x →
  ∃ c, contexts l !! own_ctx x = Some (mk_context c (through_context x)) ∧
    (∀ seed data, (own_value x).1 = Fed seed data → fed c seed data) ∧
    refs l = holding x ⊎ held (delete v g) ⊎ lost.
Proof.
  intros Ho Hv. destruct (owns_context _ _ _ _ Ho v x Hv) as (c & ? & ?). exists c. do 2 (split; [done|]).
  rewrite (owns_refs _ _ _ _ Ho), (held_delete g v x) by done. multiset_solver.
Qed.

Lemma copy_construct_runs g lost n l v w z seed data d :
  owns g lost n l → g !! v = None → g !! w = Some z → own_value z = (Fed seed data, d) →
  ∃ y l', copy_construct (object z) l = (Done (object y), l') ∧ own_value y = own_value z ∧
    owns (<[v := y]> g) lost n l'.
Proof.
  intros Ho Hv Hw Hz. destruct (owner_live _ _ _ _ _ _ Ho Hw) as (x & Hc & Hf & Hr).
  set (c := fresh (dom (contexts l))). assert (contexts l !! c = None) as Hfresh by apply fresh_ctx.
  unfold through_context in Hc. unfold holding in Hr. rewrite Hz in Hc, Hr, Hf. cbn in Hc, Hr, Hf.
  destruct (sign_copy_ok new_ctx x seed data (Hf _ _ eq_refl)) as (x' & Hx' & Hf').
  exists (mk_owner c (own_key z) (own_value z)).
  unfold copy_construct, copy_assign, MakeCTX, EVP_MD_CTX_copy_ex, object. enter. fold c.
  rewrite lookup_insert_eq. cbn. rewrite lookup_insert_ne, Hc by congruence. cbn. rewrite Hx'. cbn.
  rewrite decide_True by multiset_solver. cbn. rewrite decide_True by multiset_solver. cbn.
  rewrite insert_insert_eq. eexists. split; [done|]. split; [done|].
  pose proof (owners_new g lost n l v (mk_owner c (own_key z) (own_value z)) x') as Hn. unfold through_context in Hn.
  cbn in Hn. rewrite Hz in Hn |- *. cbn in Hn. apply Hn; [done|done|done| |].
  - by intros ? ? [= <- <-].
  - unfold holding. cbn. multiset_solver.
Qed.

Lemma move_construct_runs g lost n l v w z :
  owns g lost n l → v ≠ w → g !! v = None → g !! w = Some z →
  ∃ y l', move_construct (object z) l = (Done (object z, object y), l') ∧ own_value y = (Moved, zeros) ∧
    owns (<[v := z]> (<[w := y]> g)) lost n l'.
Proof.
  intros Ho Hne Hv Hw. set (c := fresh (dom (contexts l))). set (k := fresh (dom (refs l))).
  set (y := mk_owner c k (Moved, zeros)). exists y. unfold move_construct, move_assign, MakeCTX, EVP_PKEY_new, new_key.
  enter. fold c k. eexists. split; [done|]. split; [done|].
  epose proof (owners_new g lost n l v y new_ctx _ _ Ho Hv (fresh_ctx l) ltac:(done) eq_refl) as Hn.
  pose proof (owners_swap _ _ _ _ v w y z Hn Hne) as Hs. rewrite lookup_insert_eq, lookup_insert_ne in Hs by done.
  specialize (Hs eq_refl Hw). rewrite insert_around in Hs by done.
  replace ({[+ k +]} ⊎ refs l) with (holding y ⊎ refs l) by (unfold holding; cbn; multiset_solver). exact Hs.
Qed.

(** The references of two objects. *)
Lemma owners_live g lost n l v w x z :
  owns g lost n l → v ≠ w → g !! v = Some x → g !! w = Some z →
  refs l = holding x ⊎ (holding z ⊎ held (delete w (delete v g))) ⊎ lost ∧
  held (delete v g) = holding z ⊎ held (delete w (delete v g)).
Proof.
  intros Ho Hne Hv Hw. rewrite (owns_refs _ _ _ _ Ho), (held_delete g v x), (held_delete (delete v g) w z); [done| |done].
  by rewrite lookup_delete_ne.
Qed.

(** The reference through the context goes. *)
Lemma free_context x l rest :
  refs l = holding x ⊎ rest →
  EVP_PKEY_free (through_context x) l = (Done (), mk_library (contexts l) (octets l) ({[+ own_key x +]} ⊎ rest)).
Proof.
  intros Hr. unfold holding, through_context in *. destruct (own_value x).1; cbn.
  - rewrite decide_True by multiset_solver. do 2 f_equal. rewrite Hr. multiset_solver.
  - rewrite decide_True by multiset_solver. do 2 f_equal. rewrite Hr. multiset_solver.
  - destruct l. cbn in *. do 2 f_equal. rewrite Hr. multiset_solver.
Qed.

Lemma copy_assign_runs g lost n l v w x z seed data d :
  owns g lost n l → v ≠ w → g !! v = Some x → g !! w = Some z → own_value z = (Fed seed data, d) →
  ∃ y l', copy_assign (object x) (object z) l = (Done (object y), l') ∧ own_value y = own_value z ∧
    owns (<[v := y]> g) ({[+ own_key x +]} ⊎ lost) n l'.
Proof.
  intros Ho Hne Hv Hw Hz. destruct (owner_live _ _ _ _ _ _ Ho Hv) as (a & Ha & _ & _).
  destruct (owner_live _ _ _ _ _ _ Ho Hw) as (b & Hb & Hf & _).
  destruct (owners_live _ _ _ _ _ _ _ _ Ho Hne Hv Hw) as [Hr Hd].
  assert (through_context z = Some (own_key z)) as Ht by (unfold through_context; by rewrite Hz).
  assert (holding z = {[+ own_key z +]} ⊎ {[+ own_key z +]}) as Hh by (unfold holding; by rewrite Hz).
  rewrite Hz in Hf. destruct (sign_copy_ok a b seed data (Hf _ _ eq_refl)) as (c & Hc & Hf').
  set (y := mk_owner (own_ctx x) (own_key z) (own_value z)). exists y.
  unfold copy_assign, EVP_MD_CTX_copy_ex, object. enter. rewrite Ha. cbn. rewrite Hb. cbn.
  rewrite (free_context x l ((holding z ⊎ held (delete w (delete v g))) ⊎ lost)) by (rewrite Hr; multiset_solver).
  rewrite Hc, Ht. cbn. rewrite Hh, decide_True by multiset_solver. cbn. rewrite decide_True by multiset_solver. cbn.
  eexists. split; [done|]. split; [done|]. rewrite <- Ht.
  apply (owners_put g lost _ n l v x y c); [done..| |].
  - subst y. cbn. rewrite Hz. by intros ? ? [= <- <-].
  - rewrite Hd, Hh. unfold holding. cbn. rewrite Hz. cbn. multiset_solver.
Qed.

Lemma move_assign_runs g lost n l v w x z :
  owns g lost n l → v ≠ w → g !! v = Some x → g !! w = Some z →
  ∃ y l', move_assign (object x) (object z) l = (Done (object z, object y), l') ∧ own_value y = (Moved, zeros) ∧
    owns (<[v := z]> (<[w := y]> g)) (holding x ⊎ lost) (S n) l'.
Proof.
  intros Ho Hne Hv Hw. destruct (owners_delete g lost n l v x (octets l) Ho Hv) as [_ Hdel].
  destruct (move_construct_runs _ _ _ _ v w z Hdel Hne) as (y & l' & Hr & Hy & Hm);
    [apply lookup_delete_eq|by rewrite lookup_delete_ne|].
  exists y, l'. split; [exact Hr|]. split; [done|].
  by rewrite <- delete_insert_ne, insert_over_delete in Hm.
Qed.

Lemma UpdateData_runs g lost n l v x seed data d more :
  owns g lost n l → g !! v = Some x → own_value x = (Fed seed data, d) →
  ∃ y l', UpdateData more (object x) l = (Done (), l') ∧ object y = object x ∧
    own_value y = (Fed seed (data ++ more), d) ∧ owns (<[v := y]> g) lost n l'.
Proof.
  intros Ho Hv Hx. destruct (owner_live _ _ _ _ _ _ Ho Hv) as (a & Ha & Hf & Hr). rewrite Hx in Hf.
  destruct (sign_update_ok a seed data more (Hf _ _ eq_refl)) as (c & Hc & Hf').
  set (y := mk_owner (own_ctx x) (own_key x) (Fed seed (data ++ more), d)). exists y.
  unfold UpdateData, object. enter. rewrite Ha. cbn. rewrite Hc. cbn. rewrite Hx. eexists. split; [done|].
  do 2 (split; [done|]).
  replace (through_context x) with (through_context y) by (unfold through_context; by rewrite Hx).
  apply (owners_put g lost lost n l v x y c); [done..| |].
  - by intros ? ? [= <- <-].
  - rewrite Hr. unfold holding. cbn. rewrite Hx. cbn. multiset_solver.
Qed.

Lemma Finalize_runs g lost n l v x seed data d :
  owns g lost n l → g !! v = Some x → own_value x = (Fed seed data, d) →
  ∃ y l', Finalize (object x) l = (Done (object y), l') ∧ own_value y = (Finished, mac seed data) ∧
    owns (<[v := y]> g) lost n l'.
Proof.
  intros Ho Hv Hx. destruct (owner_live _ _ _ _ _ _ Ho Hv) as (a & Ha & Hf & Hr). rewrite Hx in Hf.
  destruct (sign_final_ok a seed data (Hf _ _ eq_refl)) as (c & Hc).
  set (y := mk_owner (own_ctx x) (own_key x) (Finished, mac seed data)). exists y.
  unfold Finalize, object. enter. rewrite Ha. cbn. rewrite Hc. cbn. rewrite Z.eqb_refl. eexists. split; [done|].
  split; [done|].
  replace (through_context x) with (through_context y) by (unfold through_context; by rewrite Hx).
  apply (owners_put g lost lost n l v x y c); [done..|].
  rewrite Hr. unfold holding. cbn. rewrite Hx. cbn. multiset_solver.
Qed.

Lemma destroy_runs g lost n l v x :
  owns g lost n l → g !! v = Some x →
  ∃ l', destroy (object x) l = (Done (), l') ∧ owns (delete v g) lost n l'.
Proof.
  intros Ho Hv. destruct (owner_live _ _ _ _ _ _ Ho Hv) as (a & Ha & _ & Hr).
  unfold destroy, DestroyCTX, object. enter. rewrite Ha. cbn.
  rewrite (free_context x l (held (delete v g) ⊎ lost)) by (rewrite Hr; multiset_solver). cbn.
  rewrite decide_True by multiset_solver. eexists. split; [done|].
  replace (_ ∖ _) with (held (delete v g) ⊎ lost) by multiset_solver.
  by apply (owners_delete g lost n l v x).
Qed.

(** *** Refinement *)
Definition related (sp : spec) (s : state) : Prop :=
  ∃ g lost, owns g lost (lost_contexts sp) (lib s) ∧ objects s = object <$> g ∧ values sp = own_value <$> g ∧
    size lost = lost_references sp.

Lemma fmap_insert_same {B : Type} (f : owner → B) (g : gmap nat owner) v x y :
  g !! v = Some x → f y = f x → f <$> <[v := y]> g = f <$> g.
Proof. intros Hv Hf. rewrite fmap_insert, Hf. apply insert_id. by rewrite lookup_fmap, Hv. Qed.

(** [m] runs, and what it makes of the objects is related to [sp]. *)
Lemma on_related {A : Type} sp' s (m : M A) f a l' :
  m (lib s) = (Done a, l') → related sp' (mk_state l' (f a)) → ∃ s', on s m f = Done s' ∧ related sp' s'.
Proof. intros Hm Hr. unfold on. rewrite Hm. eauto. Qed.

(** Both sides agree on which objects there are. *)
Ltac owner_of g v x :=
  rewrite ?(lookup_fmap _ g v); destruct (g !! v) as [x|] eqn:?; cbn [fmap option_fmap option_map];
  [|try (intros [= <-]; eauto; fail)].
Ltac relate g lost :=
  exists g, lost; unfold set_value; cbn [fst snd lib objects values lost_contexts lost_references];
  rewrite ?fmap_insert, ?fmap_delete;
  repeat match goal with
  | Hy : own_value _ = _ |- _ => rewrite Hy
  | Hva : values _ = _ |- _ => rewrite Hva
  | Hs : size _ = _ |- _ => rewrite <- Hs
  end; split_and!; try done.

Definition refines (o : op) : Prop :=
  ∀ sp s sp', related sp s → spec_step sp o = Some sp' → ∃ s', step s o = Done s' ∧ related sp' s'.

Ltac start :=
  intros sp s sp' Hrel; pose proof Hrel as (g & lost & Ho & Hob & Hva & Hs);
  cbn [spec_step step]; rewrite Hob, Hva.

Lemma hmac_Construct v seed : refines (Construct v seed).
Proof.
  start. owner_of g v x; [intros [= <-]; eauto|]. intros [= <-].
  destruct (new_runs _ _ _ _ v seed Ho) as (y & l' & Hm & Hy & Ho'); [done|].
  eapply on_related; [exact Hm|]. relate (<[v := y]> g) lost.
Qed.

Lemma hmac_CopyConstruct v w : refines (CopyConstruct v w).
Proof.
  start. owner_of g v x; [intros [= <-]; eauto|]. owner_of g w z.
  destruct (own_value z) as [[seed l| |] d] eqn:Hz; try done. intros [= <-].
  destruct (copy_construct_runs _ _ _ _ v w z seed l d Ho) as (y & l' & Hm & Hy & Ho'); [done..|].
  eapply on_related; [exact Hm|]. rewrite Hz in Hy. relate (<[v := y]> g) lost.
Qed.

Lemma hmac_MoveConstruct v w : refines (MoveConstruct v w).
Proof.
  start. owner_of g v x; [intros [= <-]; eauto|]. owner_of g w z. intros [= <-].
  destruct (move_construct_runs _ _ _ _ v w z Ho) as (y & l' & Hm & Hy & Ho'); [congruence|done..|].
  eapply on_related; [exact Hm|]. relate (<[v := z]> (<[w := y]> g)) lost.
Qed.

Lemma hmac_CopyAssign v w : refines (CopyAssign v w).
Proof.
  start. owner_of g v x. owner_of g w z. destruct (Nat.eqb_spec v w) as [->|Hne]; [intros [= <-]; eauto|].
  destruct (own_value z) as [[seed l| |] d] eqn:Hz; try done. intros [= <-].
  destruct (copy_assign_runs _ _ _ _ v w x z seed l d Ho) as (y & l' & Hm & Hy & Ho'); [done..|].
  eapply on_related; [exact Hm|]. rewrite Hz in Hy. relate (<[v := y]> g) ({[+ own_key x +]} ⊎ lost).
  by rewrite gmultiset_size_disj_union, gmultiset_size_singleton.
Qed.

Lemma size_holding x : size (holding x) = references (own_value x).1.
Proof.
  unfold holding. rewrite gmultiset_size_disj_union, gmultiset_size_singleton.
  by destruct (own_value x).1; cbn [references]; rewrite ?gmultiset_size_singleton, ?gmultiset_size_empty.
Qed.

Lemma hmac_MoveAssign v w : refines (MoveAssign v w).
Proof.
  start. owner_of g v x. owner_of g w z. destruct (Nat.eqb_spec v w) as [->|Hne]; [intros [= <-]; eauto|].
  intros [= <-].
  destruct (move_assign_runs _ _ _ _ v w x z Ho) as (y & l' & Hm & Hy & Ho'); [done..|].
  eapply on_related; [exact Hm|]. relate (<[v := z]> (<[w := y]> g)) (holding x ⊎ lost).
  by rewrite gmultiset_size_disj_union, size_holding.
Qed.

Lemma hmac_Feed v data : refines (Feed v data).
Proof.
  start. owner_of g v x. destruct (own_value x) as [[seed l| |] d] eqn:Hx; try done. intros [= <-].
  destruct (UpdateData_runs _ _ _ _ v x seed l d data Ho) as (y & l' & Hm & Hob' & Hy & Ho'); [done..|].
  eapply on_related; [exact Hm|]. exists (<[v := y]> g), lost. split_and!; [done| | |done].
  - cbn. by rewrite (fmap_insert_same object g v x y).
  - cbn. by rewrite Hva, fmap_insert, Hy.
Qed.

Lemma hmac_Finish v : refines (Finish v).
Proof.
  start. owner_of g v x. destruct (own_value x) as [[seed l| |] d] eqn:Hx; try done. intros [= <-].
  destruct (Finalize_runs _ _ _ _ v x seed l d Ho) as (y & l' & Hm & Hy & Ho'); [done..|].
  eapply on_related; [exact Hm|]. exists (<[v := y]> g), lost. split_and!; [done| | |done].
  - cbn. by rewrite fmap_insert.
  - cbn. by rewrite Hva, fmap_insert, Hy.
Qed.

Lemma hmac_Destroy v : refines (Destroy v).
Proof.
  start. intros [= <-]. owner_of g v x.
  - destruct (destroy_runs _ _ _ _ v x Ho) as (l' & Hm & Ho'); [done|].
    eapply on_related; [exact Hm|]. exists (delete v g), lost. cbn. by rewrite !fmap_delete.
  - exists s. split; [done|]. exists g, lost. split_and!; [done..| |done]. cbn.
    rewrite delete_id; [done|]. rewrite lookup_fmap. by replace (g !! v) with (@None owner).
Qed.

Lemma hmac_step o : refines o.
Proof.
  destruct o; eauto using hmac_Construct, hmac_CopyConstruct, hmac_MoveConstruct, hmac_CopyAssign,
    hmac_MoveAssign, hmac_Feed, hmac_Finish, hmac_Destroy.
Qed.

Lemma hmac_run os sp s sp' :
  related sp s → spec_run sp os = Some sp' → ∃ s', run s os = Done s' ∧ related sp' s'.
Proof.
  revert sp s. induction os as [|o os IH]; intros sp s Hr Hs; cbn [spec_run] in Hs; [simplify_eq; by exists s|].
  apply bind_Some in Hs as (sp1 & H1 & Hs). destruct (hmac_step o sp s sp1 Hr H1) as (s1 & Hs1 & Hr1).
  destruct (IH sp1 s1 Hr1 Hs) as (s' & Hrun & Hr'). exists s'. split; [|done]. unfold run. cbn [ofold].
  rewrite Hs1. exact Hrun.
Qed.

Lemma size_held g : size (held g) = all_references (own_value <$> g).
Proof.
  induction g as [|v x g Hv IH] using map_ind; [done|].
  rewrite held_insert, gmultiset_size_disj_union, IH, size_holding by done. unfold all_references.
  rewrite fmap_insert, map_fold_insert_L; [done|intros; lia|]. by rewrite lookup_fmap, Hv.
Qed.

(** ** Properties *)
Definition nothing : state := mk_state (mk_library ∅ ∅ ∅) ∅.

(** Keyed digests are values, and their keys are counted.  In every program
    that constructs, copies, moves, assigns and destroys GenericHMAC objects and
    uses none that was moved away or finalised: no context and no key is used or
    freed after it is gone; every digest is the one of its object's key and of
    what the object was fed; an object holds two references to its key, one when
    it was moved away; and what is left over is exactly one reference for each
    copy assignment over an object, and a context with all references of the
    object for each move assignment over one. *)
Theorem hmac_objects_are_values (os : list op) (sp : spec) :
  spec_run (mk_spec ∅ 0 0) os = Some sp →
  ∃ s, run nothing os = Done s ∧ (∀ v, _digest <$> objects s !! v = snd <$> values sp !! v) ∧
    size (contexts (lib s)) = size (values sp) + lost_contexts sp ∧
    size (refs (lib s)) = all_references (values sp) + lost_references sp.
Proof.
  intros Hs. destruct (hmac_run os (mk_spec ∅ 0 0) nothing sp) as (s & Hr & g & lost & Ho & Hob & Hva & Hl);
    [|done|].
  - exists ∅, ∅. split_and!; [|done..]. by split.
  - exists s. split; [done|]. rewrite Hob, Hva. split_and!.
    + intros v. rewrite !lookup_fmap. by destruct (g !! v).
    + rewrite map_size_fmap. apply Ho.
    + by rewrite (owns_refs _ _ _ _ Ho), gmultiset_size_disj_union, size_held, Hl.
Qed.

Lemma update_all_runs pack g lost n l v x seed data d :
  owns g lost n l → g !! v = Some x → own_value x = (Fed seed data, d) →
  ∃ y l', for_each (λ data, UpdateData data (object x)) pack l = (Done (), l') ∧ object y = object x ∧
    own_value y = (Fed seed (data ++ concat pack), d) ∧ owns (<[v := y]> g) lost n l'.
Proof.
  revert g l x data. induction pack as [|more pack IH]; intros g l x data Ho Hv Hx; cbn [for_each concat].
  - exists x, l. rewrite app_nil_r, insert_id by done. done.
  - destruct (UpdateData_runs _ _ _ _ v x seed data d more Ho Hv Hx) as (y & l1 & Hm & Hob & Hy & Ho1).
    destruct (IH _ l1 y (data ++ more) Ho1 (lookup_insert_eq _ _ _) Hy) as (y' & l' & Hm' & Hob' & Hy' & Ho').
    exists y', l'. rewrite (SM_bind_Done _ _ _ _ _ Hm), <- Hob, app_assoc. rewrite insert_insert_eq in Ho'. done.
Qed.

(** [GetDigestOf] is the keyed digest of the concatenation of its arguments, and
    leaves neither a context nor a reference behind, whatever there was. *)
Theorem hmac_GetDigestOf (seed : list Z) (pack : list (list Z)) (l : library) :
  ∃ l', GetDigestOf seed pack l = (Done (mac seed (concat pack)), l') ∧ refs l' = refs l ∧
    size (contexts l') = size (contexts l).
Proof.
  assert (owns ∅ (refs l) (size (contexts l)) l) as Ho.
  { split; try done. unfold held. rewrite map_fold_empty. multiset_solver. }
  destruct (new_runs _ _ _ _ 0 seed Ho (lookup_empty 0)) as (x & l1 & H1 & Hx & Ho1).
  destruct (update_all_runs pack _ _ _ _ 0 x seed [] zeros Ho1) as (y & l2 & H2 & Hy & Hv & Ho2);
    [apply lookup_insert_eq|done|].
  destruct (Finalize_runs _ _ _ _ 0 y seed (concat pack) zeros Ho2) as (z & l3 & H3 & Hz & Ho3);
    [apply lookup_insert_eq|done|].
  destruct (destroy_runs _ _ _ _ 0 z Ho3) as (l4 & H4 & Ho4); [apply lookup_insert_eq|].
  rewrite !insert_insert_eq, delete_insert_id in Ho4 by done.
  exists l4. unfold GetDigestOf. rewrite (SM_bind_Done _ _ _ _ _ H1), (SM_bind_Done _ _ _ _ _ H2), <- Hy,
    (SM_bind_Done _ _ _ _ _ H3), (SM_bind_Done _ _ _ _ _ H4). unfold object. cbn [_digest]. rewrite Hz.
  split; [done|]. rewrite (owns_refs _ _ _ _ Ho4), (owns_contexts _ _ _ _ Ho4). unfold held. rewrite map_fold_empty.
  split; [multiset_solver|done].
Qed.
End HMAC.

(** ** Concrete runs *)

(** A library whose keyed digest is the toy digest of the key and the text. *)
Definition toy_mac (seed l : list Z) : list Z := toy_hash (seed ++ l).

#[export] Instance toy_sign : EVPSign (option (list Z * list Z)) := {
  new_ctx := None;
  EVP_DigestSignInit seed _ := Some (Some (seed, []));
  EVP_DigestSignUpdate data c := '(seed, l) ← c; Some (Some (seed, l ++ data));
  EVP_DigestSignFinal c := '(seed, l) ← c; Some (toy_mac seed l, 2%Z, None);
  sign_copy_ex _ c := p ← c; Some (Some p) }.

#[export] Instance toy_sign_laws :
  EVPSignLaws (option (list Z * list Z)) toy_mac 2 (λ c seed l, c = Some (seed, l)).
Proof.
  split.
  - intros seed. by exists (Some (seed, [])).
  - intros c seed l data ->. by exists (Some (seed, l ++ data)).
  - intros c seed l ->. by exists None.
  - intros out c seed l ->. by exists (Some (seed, l)).
Qed.

(** A copy shares the key and is finalised on its own; a copy assigned over an
    object leaves a reference, one that is moved a context and two references. *)
Definition hmac_program : list op :=
  [Construct 0 [7]; Feed 0 [1; 2]; CopyConstruct 1 0; Feed 1 [3]; Finish 1; Construct 2 [8]; CopyAssign 2 0;
   MoveAssign 2 0; Feed 2 [4]; Finish 2; Destroy 0; Destroy 1; Destroy 2]%Z.

Lemma hmac_objects_are_values_witness :
  ∃ s, run (C := option (list Z * list Z)) 2 (mk_state (mk_library ∅ ∅ ∅) ∅) hmac_program = Done s ∧
    (∀ v, objects s !! v = None) ∧ size (contexts (lib s)) = 1 ∧ size (refs (lib s)) = 3.
Proof.
  assert (spec_run 2 toy_mac (mk_spec ∅ 0 0) hmac_program = Some (mk_spec ∅ 1 3)) as Hs by reflexivity.
  destruct (hmac_objects_are_values (C := option (list Z * list Z)) 2 toy_mac (λ c seed l, c = Some (seed, l))
    hmac_program (mk_spec ∅ 1 3) Hs) as (s & Hr & Hd & Hc & Hk).
  exists s. split; [exact Hr|]. split; [|split; [exact Hc|exact Hk]].
  intros v. specialize (Hd v). cbn in Hd. rewrite lookup_empty in Hd. by destruct (objects s !! v).
Defined.

Lemma hmac_GetDigestOf_witness :
  ∃ l', GetDigestOf (C := option (list Z * list Z)) 2 [7]%Z [[1; 2]; [3]]%Z (mk_library ∅ ∅ ∅) =
    (Done [4; 13]%Z, l') ∧ refs l' = ∅ ∧ size (contexts l') = 0.
Proof.
  exact (hmac_GetDigestOf (C := option (list Z * list Z)) 2 toy_mac (λ c seed l, c = Some (seed, l)) [7]%Z
    [[1; 2]; [3]]%Z (mk_library ∅ ∅ ∅)).
Defined.
