(* ===== verification/Crypto.v ===== *)
(** * Cryptography: common/Cryptography

    BigNumber, the key agreement SRP6, SessionKeyGenerator, TOTP and the
    authenticated encryption of CryptoGenerics.  The big numbers, the hash
    functions and the HMAC are OpenSSL's: [BNLib] has the functions of OpenSSL
    the code calls and [BNLaws] what their manual says of them, a hash is a
    function of bytes; the cipher, a template argument, is the class [AECipher].
    Random bytes and the time are arguments.  A byte is an element of [Z], a
    [bignum_st] the number it stands for. *)
From Stdlib Require Import Zpow_facts.
From S2P Require Import Prelude CppString Convert Prepared.

Abbreviation out := (outcome Empty_set).
Abbreviation bytes := (list Z).
Abbreviation BIGNUM := Z (only parsing).

Definition is_byte (b : Z) : Prop := (0 ≤ b < 256)%Z.

(** The number of which [l] are the bytes, the lowest first. *)
Fixpoint le_value (l : bytes) : Z :=
  match l with [] => 0%Z | b :: l => (b + 256 * le_value l)%Z end.

(** ** OpenSSL's big numbers *)
Class BNLib := {
  BN_set_word : Z → BIGNUM;
  BN_set_negative : BIGNUM → BIGNUM;
  BN_lshift : BIGNUM → Z → BIGNUM;
  BN_add_word : BIGNUM → Z → BIGNUM;
  BN_add : BIGNUM → BIGNUM → BIGNUM;
  BN_mul : BIGNUM → BIGNUM → BIGNUM;
  BN_mod : BIGNUM → BIGNUM → BIGNUM;
  BN_mod_exp : BIGNUM → BIGNUM → BIGNUM → BIGNUM;
  BN_is_zero : BIGNUM → bool;
  BN_num_bytes : BIGNUM → Z;
  BN_lebin2bn : bytes → BIGNUM;
  BN_bin2bn : bytes → BIGNUM;
  (** the returned int, and the buffer *)
  BN_bn2lebinpad : BIGNUM → nat → Z * bytes;
  BN_bn2binpad : BIGNUM → nat → Z * bytes }.

(** Their documented values, on the numbers the code has: none is negative. *)
Class BNLaws (L : BNLib) : Prop := {
  bn_set_word w : (0 ≤ w < 2 ^ 64)%Z → BN_set_word w = w;
  bn_set_negative a : (0 ≤ a)%Z → BN_set_negative a = (- a)%Z;
  bn_lshift a n : (0 ≤ a)%Z → (0 ≤ n)%Z → BN_lshift a n = Z.shiftl a n;
  bn_add_word a w : (0 ≤ a)%Z → (0 ≤ w < 2 ^ 64)%Z → BN_add_word a w = (a + w)%Z;
  bn_add a b : (0 ≤ a)%Z → (0 ≤ b)%Z → BN_add a b = (a + b)%Z;
  bn_mul a b : (0 ≤ a)%Z → (0 ≤ b)%Z → BN_mul a b = (a * b)%Z;
  bn_mod a m : (0 ≤ a)%Z → (0 < m)%Z → BN_mod a m = (a mod m)%Z;
  bn_mod_exp a p m : (0 ≤ a)%Z → (0 ≤ p)%Z → (0 < m)%Z → BN_mod_exp a p m = (a ^ p mod m)%Z;
  bn_is_zero a : BN_is_zero a = (a =? 0)%Z;
  bn_num_bytes a : (0 ≤ a)%Z → BN_num_bytes a = if (a =? 0)%Z then 0%Z else (Z.log2 a / 8 + 1)%Z;
  bn_lebin2bn l : Forall is_byte l → BN_lebin2bn l = le_value l;
  bn_bin2bn l : Forall is_byte l → BN_bin2bn l = le_value (rev l);
  bn_bn2lebinpad a n : (0 ≤ a)%Z →
    if (a <? 256 ^ Z.of_nat n)%Z then BN_bn2lebinpad a n = (Z.of_nat n, le_bytes n a) else (BN_bn2lebinpad a n).1 = (-1)%Z;
  bn_bn2binpad a n : (0 ≤ a)%Z →
    if (a <? 256 ^ Z.of_nat n)%Z then BN_bn2binpad a n = (Z.of_nat n, rev (le_bytes n a)) else (BN_bn2binpad a n).1 = (-1)%Z }.

(** ** BigNumber.cpp *)
Section BigNumber.
Context `{L : BNLib}.

Definition SetBinary (bytes : list Z) (littleEndian : bool) : BIGNUM :=
  if littleEndian then BN_lebin2bn bytes else BN_bin2bn bytes.

Definition SetDword_u (val : Z) : BIGNUM := BN_set_word val.

(** [std::abs] of the least int is not an int. *)
Definition SetDword_s (val : Z) : out BIGNUM :=
  _ ← assert (Z.abs val <? 2 ^ 31)%Z "abs";
  let bn := SetDword_u (wrap_u 32 (Z.abs val)) in
  Done (if (val <? 0)%Z then BN_set_negative bn else bn).

Definition SetQword (val : Z) : BIGNUM :=
  let bn := BN_set_word (wrap_u 32 (Z.shiftr val 32)) in
  let bn := BN_lshift bn 32 in
  BN_add_word bn (wrap_u 32 (Z.land val 0xFFFFFFFF)).

Definition bn_plus (a b : BIGNUM) : BIGNUM := BN_add a b.
Definition bn_times (a b : BIGNUM) : BIGNUM := BN_mul a b.
Definition bn_rem (a b : BIGNUM) : BIGNUM := BN_mod a b.
Definition ModExp (bn bn1 bn2 : BIGNUM) : BIGNUM := BN_mod_exp bn bn1 bn2.
Definition GetNumBytes (bn : BIGNUM) : Z := BN_num_bytes bn.
Definition IsZero (bn : BIGNUM) : bool := BN_is_zero bn.

Definition GetBytes (bn : BIGNUM) (bufsize : nat) (littleEndian : bool) : out bytes :=
  let '(res, buf) := if littleEndian then BN_bn2lebinpad bn bufsize else BN_bn2binpad bn bufsize in
  _ ← assert (0 <? res)%Z "Buffer is too small to hold bignum";
  Done buf.

Definition ToByteVector (bn minSize : Z) (littleEndian : bool) : out bytes :=
  let length := Z.max (GetNumBytes bn) minSize in
  GetBytes bn (Z.to_nat length) littleEndian.

Definition ToByteArray (Size : nat) (bn : BIGNUM) (littleEndian : bool) : out bytes := GetBytes bn Size littleEndian.
End BigNumber.

(** ** SRP6.cpp, SRP6.h *)
Definition EPHEMERAL_KEY_LENGTH : nat := 32.
Definition SRP6_g : bytes := [7]%Z.
Definition SRP6_N : bytes :=
  match HexStrToByteArray "894B645E89E1535BBDAD5B8B290650530801B18EBFBF5E8FAB3C82872A3E9BB7" (replicate 32 0%Z) true with
  | Done l => l
  | _ => []
  end.

Section SRP6.
Context `{L : BNLib}.

Definition _g : BIGNUM := SetBinary SRP6_g true.
Definition _N : BIGNUM := SetBinary SRP6_N true.

(** [SHA1::GetDigestOf(…)] of the arguments one after another. *)
Variable SHA1 : bytes → bytes.

Definition CalculateVerifier (username password : string) (salt : bytes) : out bytes :=
  ToByteArray 32 (ModExp _g (SetBinary (SHA1 (salt ++ SHA1 (string_bytes username ++ string_bytes ":" ++ string_bytes password))) true) _N) true.

Definition MakeRegistrationData (random_salt : bytes) (username password : string) : out (bytes * bytes) :=
  verifier ← CalculateVerifier username password random_salt;
  Done (random_salt, verifier).

Definition CheckLogin (username password : string) (salt verifier : bytes) : out bool :=
  v ← CalculateVerifier username password salt;
  Done (bool_decide (verifier = v)).

(** [buf0], [buf1]: the bytes at even and at odd places. *)
Fixpoint evens (l : bytes) : bytes := match l with a :: b :: l => a :: evens l | _ => [] end.
Fixpoint odds (l : bytes) : bytes := match l with a :: b :: l => b :: odds l | _ => [] end.

(** [while (p < EPHEMERAL_KEY_LENGTH && !S[p]) ++p;] *)
Fixpoint first_nonzero (l : bytes) (p : nat) : nat :=
  match l with
  | [] => p
  | b :: l => if (b =? 0)%Z then first_nonzero l (S p) else p
  end.

(** A slice from [p] of a buffer of half the length: out of it, [data() + p]
    and the length would be. *)
Definition slice_from (p : nat) (buf : bytes) : out bytes :=
  if (p <=? length buf)%nat then Done (drop p buf) else Crash "slice out of the buffer".

Definition SHA1Interleave (key : bytes) : out bytes :=
  let buf0 := evens key in
  let buf1 := odds key in
  let p := first_nonzero key 0 in
  let p := if Nat.odd p then p + 1 else p in
  let p := p / 2 in
  half0 ← slice_from p buf0;
  half1 ← slice_from p buf1;
  Done (concat (zip_with (λ a b, [a; b]) (SHA1 half0) (SHA1 half1))).

Record SRP6 := mk_SRP6 {
  _used : bool;
  _I : bytes;
  _b : Z;
  _v : Z;
  srp_s : bytes;
  srp_B : bytes }.

Definition _B (b v : BIGNUM) : out bytes :=
  three ← SetDword_s 3;
  ToByteArray EPHEMERAL_KEY_LENGTH (bn_rem (bn_plus (ModExp _g b _N) (bn_times v three)) (SetBinary SRP6_N true)) true.

(** The constructor, with 32 random bytes. *)
Definition SRP6_new (random : bytes) (username : string) (salt verifier : bytes) : out SRP6 :=
  let b := SetBinary random true in
  let v := SetBinary verifier true in
  B ← _B b v;
  Done (mk_SRP6 false (SHA1 (string_bytes username)) b v salt B).

Definition xor_bytes (a b : bytes) : bytes := zip_with Z.lxor a b.

(** What both sides prove they know the key with. *)
Definition challenge_response (I s A B K : bytes) : bytes :=
  let NgHash := xor_bytes (SHA1 SRP6_N) (SHA1 SRP6_g) in
  SHA1 (NgHash ++ I ++ s ++ A ++ B ++ K).

Definition VerifyChallengeResponse (srp : SRP6) (A clientM : bytes) : out (option bytes * SRP6) :=
  if _used srp then Crash "A single SRP6 object must only ever be used to verify ONCE!"
  else
    let srp := mk_SRP6 true (_I srp) (_b srp) (_v srp) (srp_s srp) (srp_B srp) in
    let _A := SetBinary A true in
    if IsZero (bn_rem _A _N) then Done (None, srp)
    else
      let u := SetBinary (SHA1 (A ++ srp_B srp)) true in
      S ← ToByteArray EPHEMERAL_KEY_LENGTH
        (ModExp (bn_times _A (ModExp (_v srp) u _N)) (_b srp) (SetBinary SRP6_N true)) true;
      K ← SHA1Interleave S;
      let ourM := challenge_response (_I srp) (srp_s srp) A (srp_B srp) K in
      Done (if bool_decide (ourM = clientM) then Some K else None, srp).

Definition GetSessionVerifier (A clientM K : bytes) : bytes := SHA1 (A ++ clientM ++ K).
End SRP6.

(** ** SessionKeyGenerator.h *)
Section SessionKeyGenerator.
Variable Hash : bytes → bytes.
Variable DIGEST_LENGTH : nat.

(** [o0it] as an index into [o0]. *)
Record SessionKeyGenerator := mk_SessionKeyGenerator { o0 : bytes; o1 : bytes; o2 : bytes; o0it : nat }.

Definition SessionKeyGenerator_new (buf : bytes) : SessionKeyGenerator :=
  let halflen := length buf / 2 in
  let o1 := Hash (take halflen buf) in
  let o2 := Hash (drop halflen buf) in
  mk_SessionKeyGenerator (Hash (o1 ++ replicate DIGEST_LENGTH 0%Z ++ o2)) o1 o2 0.

Fixpoint Generate (sz : nat) (g : SessionKeyGenerator) : out (bytes * SessionKeyGenerator) :=
  match sz with
  | O => Done ([], g)
  | S sz =>
      let g :=
        if (o0it g =? length (o0 g))%nat
        then mk_SessionKeyGenerator (Hash (o1 g ++ o0 g ++ o2 g)) (o1 g) (o2 g) 0
        else g in
      match o0 g !! o0it g with
      | Some b =>
          r ← Generate sz (mk_SessionKeyGenerator (o0 g) (o1 g) (o2 g) (S (o0it g)));
          Done (b :: r.1, r.2)
      | None => Crash "*(o0it++)"
      end
  end.
End SessionKeyGenerator.

(** ** TOTP.cpp *)
Section TOTP.
Variable HMAC_sha1 : bytes → bytes → bytes.

Definition TOTP_INTERVAL : Z := 30.

(** [for (int i = 8; i--; timestamp >>= 8) challenge[i] = timestamp;] *)
Fixpoint fill_challenge (i : nat) (timestamp : Z) (challenge : bytes) : bytes :=
  match i with
  | O => challenge
  | S i => fill_challenge i (Z.shiftr timestamp 8) (<[i := wrap_u 8 timestamp]> challenge)
  end.

Definition GenerateToken (secret : bytes) (timestamp : Z) : out Z :=
  let timestamp := Z.quot timestamp TOTP_INTERVAL in
  let challenge := fill_challenge 8 timestamp (replicate 8 0%Z) in
  let digest := HMAC_sha1 secret challenge in
  match digest !! 19 with
  | Some last_byte =>
      let offset := Z.to_nat (Z.land last_byte 0xF) in
      match digest !! offset, digest !! (offset + 1), digest !! (offset + 2), digest !! (offset + 3) with
      | Some d0, Some d1, Some d2, Some d3 =>
          let truncated := wrap_u 32 (Z.lor (Z.lor (Z.lor (Z.shiftl d0 24) (Z.shiftl d1 16)) (Z.shiftl d2 8)) d3) in
          let truncated := Z.land truncated 0x7FFFFFFF in
          Done (truncated mod 1000000)%Z
      | _, _, _, _ => Crash "digest[offset]"
      end
  | None => Crash "digest[19]"
  end.

(** [now] is the time of the call. *)
Definition ValidateToken (now : Z) (secret : bytes) (token : Z) : out bool :=
  t0 ← GenerateToken secret (now - TOTP_INTERVAL);
  if (token =? t0)%Z then Done true
  else
    t1 ← GenerateToken secret now;
    if (token =? t1)%Z then Done true
    else
      t2 ← GenerateToken secret (now + TOTP_INTERVAL);
      Done (token =? t2)%Z.
End TOTP.

(** ** CryptoGenerics.h *)
Definition AppendToBack (data tail : bytes) : bytes := data ++ tail.

(** The new data, and the tail of [n] bytes. *)
Definition SplitFromBack (data : bytes) (n : nat) : out (bytes * bytes) :=
  if (n <=? length data)%nat then Done (take (length data - n) data, drop (length data - n) data)
  else Crash "data.size() >= std::size(tail)".

(** The interface of the template argument: the constructor, which says whether
    the object encrypts, [Init] with a key, and [Process] of an IV, the data and
    the tag, which it returns with its success. *)
Class AECipher (Ci : Type) := {
  IV_SIZE_BYTES : nat;
  KEY_SIZE_BYTES : nat;
  TAG_SIZE_BYTES : nat;
  cipher_new : bool → out Ci;
  cipher_Init : bytes → Ci → out Ci;
  cipher_Process : bytes → bytes → bytes → Ci → out (bool * bytes * bytes * Ci) }.

Section Cipher.
Context (Ci : Type) `{AECipher Ci}.

Definition process_once (encrypting : bool) (key iv data tag : bytes) : out (bool * bytes * bytes) :=
  cipher ← cipher_new encrypting;
  cipher ← cipher_Init key cipher;
  fst <$> cipher_Process iv data tag cipher.

(** [random_iv] is what GenerateRandomIV draws, [tag] is not initialised. *)
Definition AEEncryptWithRandomIV (random_iv tag data key : bytes) : out bytes :=
  '(success, data, tag) ← process_once true key random_iv data tag;
  _ ← assert success "success";
  Done (AppendToBack (AppendToBack data random_iv) tag).

Definition AEDecrypt (data key : bytes) : out (bool * bytes) :=
  '(data, tag) ← SplitFromBack data TAG_SIZE_BYTES;
  '(data, iv) ← SplitFromBack data IV_SIZE_BYTES;
  '(success, data, _) ← process_once false key iv data tag;
  Done (success, data).
End Cipher.

(** What a cipher promises for data that [fits] it: it encrypts by [E] and
    decrypts by [D], which are inverse and keep the length, it makes the tags
    [mac] and accepts no others. *)
Class AECipherLaws (Ci : Type) `{AECipher Ci} (fits : bytes → Prop) (E D mac : bytes → bytes → bytes → bytes) := {
  seals key iv data tag : length key = KEY_SIZE_BYTES → length iv = IV_SIZE_BYTES → length tag = TAG_SIZE_BYTES →
    fits data → process_once Ci true key iv data tag = Done (true, E key iv data, mac key iv (E key iv data));
  opens key iv data tag : length key = KEY_SIZE_BYTES → length iv = IV_SIZE_BYTES → length tag = TAG_SIZE_BYTES →
    fits data → process_once Ci false key iv data tag = Done (bool_decide (tag = mac key iv data), D key iv data, tag);
  D_E key iv data : D key iv (E key iv data) = data;
  E_D key iv data : E key iv (D key iv data) = data;
  length_E key iv data : length (E key iv data) = length data;
  length_mac key iv data : length key = KEY_SIZE_BYTES → length iv = IV_SIZE_BYTES →
    length (mac key iv data) = TAG_SIZE_BYTES;
  fits_length data data' : length data = length data' → fits data → fits data' }.

(** ** The key agreement as its protocol has it: the client's side *)
Section Client.
Variable SHA1 : bytes → bytes.

Definition client_A (a : Z) : bytes := le_bytes 32 (7 ^ a mod le_value SRP6_N).
Definition client_x (username password : string) (salt : bytes) : Z :=
  le_value (SHA1 (salt ++ SHA1 (string_bytes username ++ string_bytes ":" ++ string_bytes password))).
Definition client_S (a x : Z) (B : bytes) : bytes :=
  let u := le_value (SHA1 (client_A a ++ B)) in
  le_bytes 32 ((le_value B - 3 * 7 ^ x) ^ (a + u * x) mod le_value SRP6_N).

(** RFC 2945: leading zeros are removed, one byte more when the rest has an
    odd length; the hashes of every other byte are interleaved. *)
Fixpoint drop_zeros (l : bytes) : bytes :=
  match l with b :: l' => if (b =? 0)%Z then drop_zeros l' else l | [] => [] end.
Definition SHA_Interleave (S : bytes) : bytes :=
  let T := drop_zeros S in
  let T := if Nat.odd (length T) then tail T else T in
  concat (zip_with (λ a b, [a; b]) (SHA1 (evens T)) (SHA1 (odds T))).

Definition client_M (username : string) (salt A B K : bytes) : bytes :=
  SHA1 (zip_with Z.lxor (SHA1 SRP6_N) (SHA1 SRP6_g) ++ SHA1 (string_bytes username) ++ salt ++ A ++ B ++ K).
End Client.

(** ** Lemmas: bytes and numbers *)
Lemma le_value_le_bytes n v : (0 ≤ v < 256 ^ Z.of_nat n)%Z → le_value (le_bytes n v) = v.
Proof.
  revert v. induction n as [|n IH]; intros v Hv.
  - change (256 ^ Z.of_nat 0)%Z with 1%Z in Hv. cbn. lia.
  - rewrite Nat2Z.inj_succ, Z.pow_succ_r in Hv by lia. cbn [le_bytes le_value]. rewrite IH.
    + pose proof (Z.div_mod v 256). lia.
    + split; [apply Z.div_pos; lia|apply Z.div_lt_upper_bound; lia].
Qed.

Lemma length_le_bytes n v : length (le_bytes n v) = n.
Proof. revert v. induction n as [|n IH]; intros v; [done|]. cbn. by rewrite IH. Qed.

Lemma le_bytes_bytes n v : Forall is_byte (le_bytes n v).
Proof.
  revert v. induction n as [|n IH]; intros v; cbn; [done|]. constructor; [|apply IH].
  unfold is_byte. pose proof (Z.mod_pos_bound v 256). lia.
Qed.

Lemma le_value_nonneg l : Forall is_byte l → (0 ≤ le_value l)%Z.
Proof. induction 1 as [|b l Hb Hl IH]; cbn; [lia|]. unfold is_byte in Hb. lia. Qed.

(** ** Lemmas: arithmetic modulo N *)
Abbreviation NN := (le_value SRP6_N).

Lemma N_range : (1 < NN < 256 ^ 32)%Z.
Proof. split; vm_compute; reflexivity. Qed.

Lemma g_N_coprime : Z.coprime 7 NN.
Proof. vm_compute. reflexivity. Qed.

Lemma SRP6_N_bytes : Forall is_byte SRP6_N.
Proof.
  apply Forall_forall. intros b Hb. assert (Forall (λ b, (0 <=? b) && (b <? 256) = true)%Z SRP6_N) as H.
  { vm_compute. repeat constructor. }
  rewrite Forall_forall in H. specialize (H b Hb). unfold is_byte. lia.
Qed.

#[local] Opaque SRP6_N le_bytes.

Lemma pow_mod a p : ((a mod NN) ^ p mod NN = a ^ p mod NN)%Z.
Proof. symmetry. apply Zpower_mod. pose proof N_range. lia. Qed.

Lemma g_pow_nonzero a : (0 ≤ a)%Z → (7 ^ a mod NN ≠ 0)%Z.
Proof.
  intros Ha Hz. pose proof N_range as HN. pose proof (Z.coprime_pow_l 7 NN a Ha g_N_coprime) as Hc. unfold Z.coprime in Hc.
  rewrite <- Z.gcd_mod_l, Hz, Z.gcd_0_l in Hc. lia.
Qed.

Lemma mod_range z : (0 ≤ z mod NN < 256 ^ 32)%Z.
Proof. pose proof N_range. pose proof (Z.mod_pos_bound z NN). lia. Qed.

Lemma le_value_mod z : le_value (le_bytes 32 (z mod NN)) = (z mod NN)%Z.
Proof. apply le_value_le_bytes, mod_range. Qed.

(** Both sides come to g^(b(a + ux)). *)
Lemma same_secret a b u x :
  (0 ≤ a)%Z → (0 ≤ b)%Z → (0 ≤ u)%Z → (0 ≤ x)%Z →
  let v := (7 ^ x mod NN)%Z in
  let B := ((7 ^ b mod NN + v * 3) mod NN)%Z in
  (((7 ^ a mod NN) * (v ^ u mod NN)) ^ b mod NN = (B - 3 * 7 ^ x) ^ (a + u * x) mod NN)%Z.
Proof.
  intros Ha Hb Hu Hx v B. pose proof N_range as HN.
  assert (((7 ^ a mod NN) * (v ^ u mod NN)) mod NN = 7 ^ (a + u * x) mod NN)%Z as Hl.
  { unfold v. rewrite pow_mod, <- Zmult_mod, <- Z.pow_mul_r, <- Z.pow_add_r by lia. do 2 f_equal. lia. }
  assert ((B - 3 * 7 ^ x) mod NN = 7 ^ b mod NN)%Z as Hr.
  { unfold B. rewrite Zminus_mod_idemp_l. unfold v.
    rewrite Z.add_comm, <- Z.add_sub_assoc, <- Zplus_mod_idemp_l, Zmult_mod_idemp_l, Zplus_mod_idemp_l.
    replace (7 ^ x * 3 + (7 ^ b mod NN - 3 * 7 ^ x))%Z with (7 ^ b mod NN)%Z by lia.
    by rewrite Z.mod_mod by lia. }
  rewrite <- pow_mod, Hl, pow_mod, <- Z.pow_mul_r by lia.
  rewrite <- (pow_mod (B - 3 * 7 ^ x)), Hr, pow_mod, <- Z.pow_mul_r by lia. do 2 f_equal. lia.
Qed.

(** ** Lemmas: the two halves of the key *)
Lemma first_nonzero_bound l p : p ≤ first_nonzero l p ≤ p + length l.
Proof. revert p. induction l as [|b l IH]; intros p; cbn; [lia|]. destruct (b =? 0)%Z; [specialize (IH (S p))|]; lia. Qed.

Lemma length_halves n : ∀ l, length l = 2 * n → length (evens l) = n ∧ length (odds l) = n.
Proof.
  induction n as [|n IH]; intros l Hl; [by destruct l|].
  destruct l as [|a [|b l]]; cbn in Hl; try lia. cbn. destruct (IH l) as [-> ->]; [lia|done].
Qed.

Lemma drop_halves n : ∀ l, drop n (evens l) = evens (drop (2 * n) l) ∧ drop n (odds l) = odds (drop (2 * n) l).
Proof.
  induction n as [|n IH]; intros l; [done|]. replace (2 * S n) with (S (S (2 * n))) by lia.
  destruct l as [|a [|b l]]; [done|by destruct n|]. cbn. apply IH.
Qed.

Lemma drop_zeros_first l : drop_zeros l = drop (first_nonzero l 0) l.
Proof.
  assert (∀ l p, drop_zeros l = drop (first_nonzero l p - p) l) as H; [|rewrite (H l 0); f_equal; lia].
  clear l. induction l as [|b l IH]; intros p; cbn; [by rewrite drop_nil|].
  destruct (b =? 0)%Z; [|by rewrite Nat.sub_diag].
  pose proof (first_nonzero_bound l (S p)). rewrite (IH (S p)).
  by replace (first_nonzero l (S p) - p) with (S (first_nonzero l (S p) - S p)) by lia.
Qed.

Lemma SHA1Interleave_RFC2945 SHA1 key : length key = 32 → SHA1Interleave SHA1 key = Done (SHA_Interleave SHA1 key).
Proof.
  intros Hlen. unfold SHA1Interleave, slice_from, SHA_Interleave.
  pose proof (first_nonzero_bound key 0) as Hp. rewrite drop_zeros_first, length_drop. rewrite Hlen in *.
  destruct (length_halves 16 key Hlen) as [-> ->].
  set (p := first_nonzero key 0) in *.
  assert (∃ h, (if Nat.odd p then p + 1 else p) = 2 * h ∧
    (if Nat.odd (32 - p) then tail (drop p key) else drop p key) = drop (2 * h) key) as (h & Hh & ->).
  { rewrite Nat.odd_sub by lia. cbn [Nat.odd Nat.even negb xorb]. destruct (Nat.odd p) eqn:E; cbn.
    - apply Nat.odd_spec in E as [h E]. exists (h + 1). split; [lia|].
      change (@tail Z) with (drop (A:=Z) 1). rewrite drop_drop. f_equal. lia.
    - assert (Nat.Even p) as [h E'] by (apply Nat.even_spec; by rewrite <- Nat.negb_odd, E).
      exists h. by rewrite E'. }
  rewrite Hh, Nat.mul_comm, Nat.div_mul by done.
  assert (h ≤ 16) as Hle by (destruct (Nat.odd p) eqn:E; [assert (p ≠ 32) by (intros ->; done)|]; lia).
  rewrite (proj2 (Nat.leb_le _ _) Hle). cbn [mbind outcome_bind].
  destruct (drop_halves h key) as [-> ->]. by rewrite Nat.mul_comm.
Qed.

(** ** Lemmas: the code's numbers *)
Lemma if_bytes_sym {A} (x y : bytes) (a b : A) :
  (if bool_decide (x = y) then a else b) = (if decide (y = x) then a else b).
Proof. destruct (decide (y = x)) as [->|Hn]; [by rewrite bool_decide_eq_true_2|rewrite bool_decide_eq_false_2; congruence]. Qed.

Lemma bind_Done {A B} (a : A) (f : A → out B) : (Done a : out A) ≫= f = f a.
Proof. done. Qed.

Section Laws.
Context `{HL : BNLaws}.

Lemma N_value : SetBinary SRP6_N true = NN.
Proof. apply bn_lebin2bn, SRP6_N_bytes. Qed.

Lemma g_value : _g = 7%Z.
Proof. unfold _g, SetBinary. rewrite bn_lebin2bn; [done|]. constructor; [unfold is_byte; lia|done]. Qed.

Lemma three_value : SetDword_s 3 = Done 3%Z.
Proof. unfold SetDword_s, SetDword_u. cbn. rewrite bn_set_word; [done|]. vm_compute. split; congruence. Qed.

Lemma ToByteArray_mod z : ToByteArray 32 (z mod NN) true = Done (le_bytes 32 (z mod NN)).
Proof.
  pose proof (mod_range z) as Hz. unfold ToByteArray, GetBytes.
  pose proof (bn_bn2lebinpad (z mod NN) 32 ltac:(lia)) as He. change (256 ^ Z.of_nat 32)%Z with (256 ^ 32)%Z in He.
  rewrite (proj2 (Z.ltb_lt _ _)) in He by lia. by rewrite He.
Qed.

Lemma ModExp_N a p : (0 ≤ a)%Z → (0 ≤ p)%Z → ModExp a p NN = (a ^ p mod NN)%Z.
Proof. intros. apply bn_mod_exp; [done|done|]. pose proof N_range. lia. Qed.

Lemma SetBinary_le l : Forall is_byte l → SetBinary l true = le_value l.
Proof. apply bn_lebin2bn. Qed.

Lemma SetBinary_mod z : SetBinary (le_bytes 32 (z mod NN)) true = (z mod NN)%Z.
Proof. rewrite SetBinary_le by apply le_bytes_bytes. apply le_value_mod. Qed.

Lemma B_value b v : (0 ≤ b)%Z → (0 ≤ v)%Z → _B b v = Done (le_bytes 32 ((7 ^ b mod NN + v * 3) mod NN)).
Proof.
  intros Hb Hv. pose proof (mod_range (7 ^ b)) as Hr. pose proof N_range as HN. unfold _B, _N, bn_rem, bn_plus, bn_times.
  rewrite three_value, bind_Done, N_value, g_value, ModExp_N, bn_mul, bn_add, bn_mod by lia. apply ToByteArray_mod.
Qed.

Variable SHA1 : bytes → bytes.
Hypothesis SHA1_bytes : ∀ l, Forall is_byte (SHA1 l).

Lemma SHA1_nonneg l : (0 ≤ le_value (SHA1 l))%Z.
Proof. apply le_value_nonneg, SHA1_bytes. Qed.

Lemma CalculateVerifier_value username password salt :
  CalculateVerifier SHA1 username password salt = Done (le_bytes 32 (7 ^ client_x SHA1 username password salt mod NN)).
Proof.
  unfold CalculateVerifier, _N. rewrite N_value, g_value, SetBinary_le by apply SHA1_bytes.
  rewrite ModExp_N by (lia || apply SHA1_nonneg). apply ToByteArray_mod.
Qed.

Lemma VerifyChallengeResponse_zero srp A M :
  _used srp = false → Forall is_byte A → (le_value A mod NN = 0)%Z →
  VerifyChallengeResponse SHA1 srp A M = Done (None, mk_SRP6 true (_I srp) (_b srp) (_v srp) (srp_s srp) (srp_B srp)).
Proof.
  intros Hu HA Hz. pose proof N_range as HN. pose proof (le_value_nonneg A HA) as HA0.
  unfold VerifyChallengeResponse. rewrite Hu. unfold IsZero, bn_rem, _N.
  by rewrite N_value, (SetBinary_le A), bn_mod, bn_is_zero, Hz by (done || lia).
Qed.

(** The server's answer to an [A] that is not a multiple of [N]. *)
Lemma VerifyChallengeResponse_value srp A M :
  _used srp = false → Forall is_byte A → (le_value A mod NN ≠ 0)%Z → (0 ≤ _v srp)%Z → (0 ≤ _b srp)%Z →
  let u := le_value (SHA1 (A ++ srp_B srp)) in
  let S := le_bytes 32 ((le_value A * (_v srp ^ u mod NN)) ^ _b srp mod NN) in
  VerifyChallengeResponse SHA1 srp A M =
    (K ← SHA1Interleave SHA1 S;
     Done (if bool_decide (challenge_response SHA1 (_I srp) (srp_s srp) A (srp_B srp) K = M) then Some K else None,
           mk_SRP6 true (_I srp) (_b srp) (_v srp) (srp_s srp) (srp_B srp))).
Proof.
  intros Hu HA Hnz Hv Hb u S. pose proof N_range as HN. pose proof (le_value_nonneg A HA) as HA0.
  unfold VerifyChallengeResponse. rewrite Hu. unfold IsZero, bn_rem, bn_times, _N.
  rewrite N_value, (SetBinary_le A), bn_mod, bn_is_zero by (done || lia). rewrite (proj2 (Z.eqb_neq _ _) Hnz).
  cbn [_v _b _I srp_s srp_B]. rewrite (SetBinary_le (SHA1 _)) by apply SHA1_bytes.
  fold u. pose proof (mod_range (_v srp ^ u)) as Hr. assert (0 ≤ u)%Z by apply SHA1_nonneg.
  rewrite (ModExp_N (_v srp)), bn_mul, ModExp_N by (lia || apply Z.mul_nonneg_nonneg; lia).
  by rewrite ToByteArray_mod, bind_Done.
Qed.
End Laws.

(** ** Lemmas: the session key's stream *)
Section Stream.
Variable Hash : bytes → bytes.
Variable L : nat.
Hypothesis Hash_length : ∀ l, length (Hash l) = L.
Hypothesis L_pos : 0 < L.

(** The digests one after another, and byte [k] of them. *)
Fixpoint block (o1 o2 : bytes) (n : nat) : bytes :=
  match n with O => Hash (o1 ++ replicate L 0%Z ++ o2) | S n => Hash (o1 ++ block o1 o2 n ++ o2) end.
Definition stream_at (o1 o2 : bytes) (k : nat) : Z := nth (k mod L) (block o1 o2 (k / L)) 0%Z.
Definition stream (buf : bytes) (from n : nat) : bytes :=
  let halflen := length buf / 2 in
  stream_at (Hash (take halflen buf)) (Hash (drop halflen buf)) <$> seq from n.

Definition at_pos (a b : bytes) (k : nat) (g : SessionKeyGenerator) : Prop :=
  o1 g = a ∧ o2 g = b ∧ ∃ j, o0 g = block a b j ∧ o0it g ≤ L ∧ k = j * L + o0it g.

Lemma length_block a b n : length (block a b n) = L.
Proof. by destruct n; cbn. Qed.

Lemma Generate_at a b n : ∀ k g, at_pos a b k g →
  ∃ g', Generate Hash n g = Done (stream_at a b <$> seq k n, g') ∧ at_pos a b (k + n) g'.
Proof.
  induction n as [|n IH]; intros k g Hg.
  { exists g. by rewrite Nat.add_0_r. }
  cbn [Generate]. destruct Hg as (Ha & Hb & j & H0 & Hle & Hk).
  set (g1 := if (o0it g =? length (o0 g))%nat then _ else g).
  assert (∃ j, o1 g1 = a ∧ o2 g1 = b ∧ o0 g1 = block a b j ∧ o0it g1 < L ∧ k = j * L + o0it g1) as (j' & Ha' & Hb' & H0' & Hlt & Hk').
  { unfold g1. rewrite H0, length_block. destruct (Nat.eqb_spec (o0it g) L) as [He|He].
    - exists (S j). cbn. rewrite Ha, Hb. repeat split; lia.
    - exists j. repeat split; try done; lia. }
  destruct (lookup_lt_is_Some_2 (o0 g1) (o0it g1)) as [x Hx]; [by rewrite H0', length_block|]. rewrite Hx.
  destruct (IH (S k) (mk_SessionKeyGenerator (o0 g1) (o1 g1) (o2 g1) (S (o0it g1)))) as (g' & -> & Hg').
  { repeat split; try done. exists j'. cbn. repeat split; [done|lia|lia]. }
  exists g'. replace (k + S n) with (S k + n) by lia. split; [|done]. cbn. do 3 f_equal.
  unfold stream_at. rewrite Hk', Nat.add_comm, Nat.Div0.mod_add, Nat.mod_small, Nat.div_add, Nat.div_small by lia. cbn.
  rewrite <- H0'. symmetry. by apply nth_lookup_Some.
Qed.

Lemma SessionKeyGenerator_new_at buf :
  at_pos (Hash (take (length buf / 2) buf)) (Hash (drop (length buf / 2) buf)) 0 (SessionKeyGenerator_new Hash L buf).
Proof. repeat split. exists 0. cbn. repeat split; lia. Qed.
End Stream.

(** ** Lemmas: the token *)
(** RFC 4226: the code of a counter. *)
Definition be_value (l : bytes) : Z := le_value (rev l).
Definition HOTP (HMAC_sha1 : bytes → bytes → bytes) (secret : bytes) (counter : Z) : Z :=
  let hs := HMAC_sha1 secret (rev (le_bytes 8 counter)) in
  let offset := Z.to_nat (nth 19 hs 0 mod 16)%Z in
  (be_value (take 4 (drop offset hs)) mod 2 ^ 31 mod 10 ^ 6)%Z.

Lemma lor_shift a b n : (0 ≤ n)%Z → (0 ≤ b < 2 ^ n)%Z → Z.lor (Z.shiftl a n) b = (a * 2 ^ n + b)%Z.
Proof.
  intros Hn Hb. rewrite <- Z.shiftl_mul_pow2 by done. rewrite <- Z.add_lor_land.
  assert (Z.land (Z.shiftl a n) b = 0)%Z as ->; [|lia].
  apply Z.bits_inj'. intros i Hi. rewrite Z.land_spec, Z.bits_0. destruct (Z.lt_ge_cases i n).
  - rewrite Z.shiftl_spec_low by done. done.
  - rewrite <- (Z.mod_small b (2 ^ n)), Z.mod_pow2_bits_high by lia. apply andb_false_r.
Qed.

Lemma lor4 d0 d1 d2 d3 : is_byte d0 → is_byte d1 → is_byte d2 → is_byte d3 →
  Z.lor (Z.lor (Z.lor (Z.shiftl d0 24) (Z.shiftl d1 16)) (Z.shiftl d2 8)) d3 = be_value [d0; d1; d2; d3].
Proof.
  unfold is_byte. intros H0 H1 H2 H3. unfold be_value. cbn.
  rewrite (lor_shift d0 (Z.shiftl d1 16)) by (rewrite ?Z.shiftl_mul_pow2 by lia; lia).
  rewrite (Z.shiftl_mul_pow2 d1) by lia.
  replace (d0 * 2 ^ 24 + d1 * 2 ^ 16)%Z with (Z.shiftl (d0 * 256 + d1) 16) by (rewrite Z.shiftl_mul_pow2; lia).
  rewrite lor_shift by (rewrite ?Z.shiftl_mul_pow2 by lia; lia). rewrite (Z.shiftl_mul_pow2 d2) by lia.
  replace ((d0 * 256 + d1) * 2 ^ 16 + d2 * 2 ^ 8)%Z with (Z.shiftl ((d0 * 256 + d1) * 256 + d2) 8) by (rewrite Z.shiftl_mul_pow2; lia).
  rewrite lor_shift by lia. lia.
Qed.

Lemma fill_challenge_be i : ∀ t c, length c = i → ∀ rest, fill_challenge i t (c ++ rest) = rev (le_bytes i t) ++ rest.
Proof.
  induction i as [|i IH]; intros t c Hc rest; [by destruct c|].
  destruct (exists_last (l := c)) as (c' & x & ->); [by intros ->|].
  rewrite length_app in Hc. cbn in Hc. cbn [fill_challenge].
  rewrite <- app_assoc. rewrite insert_app_r_alt by lia. replace (i - length c') with 0 by lia. cbn.
  rewrite IH by lia. change (le_bytes (S i) t) with ((t mod 256)%Z :: le_bytes i (t / 256)). cbn [rev]. rewrite <- app_assoc. cbn.
  rewrite Z.shiftr_div_pow2 by lia. done.
Qed.

Lemma GenerateToken_HOTP HMAC_sha1 secret t :
  (∀ k d, length (HMAC_sha1 k d) = 20 ∧ Forall is_byte (HMAC_sha1 k d)) → (0 ≤ t)%Z →
  GenerateToken HMAC_sha1 secret t = Done (HOTP HMAC_sha1 secret (t / 30)).
Proof.
  intros HH Ht. unfold GenerateToken, HOTP, TOTP_INTERVAL. rewrite Z.quot_div_nonneg by lia.
  pose proof (fill_challenge_be 8 (t / 30) (replicate 8 0%Z) eq_refl []) as Hf. rewrite !app_nil_r in Hf. rewrite Hf.
  set (hs := HMAC_sha1 secret (rev (le_bytes 8 (t / 30)))).
  destruct (HH secret (rev (le_bytes 8 (t / 30)))) as [Hlen Hb]. fold hs in Hlen, Hb.
  assert (∀ i, i < 20 → ∃ b, hs !! i = Some b ∧ is_byte b) as Hi.
  { intros i Hi. destruct (lookup_lt_is_Some_2 hs i) as [b Hx]; [by rewrite Hlen|]. exists b. split; [done|].
    by apply (Forall_lookup_1 _ _ _ _ Hb Hx). }
  destruct (Hi 19 ltac:(lia)) as (last & Hlast & _). rewrite Hlast, (nth_lookup_Some _ _ _ _ Hlast).
  change (Z.land last 0xF) with (Z.land last (Z.ones 4)). rewrite Z.land_ones by lia. change (2 ^ 4)%Z with 16%Z.
  pose proof (Z.mod_pos_bound last 16 ltac:(lia)) as Ho. set (o := Z.to_nat (last mod 16)).
  assert (o < 16) as Ho' by (unfold o; lia). clearbody o. clear Ho.
  destruct (Hi o) as (d0 & Hd0 & ?); [lia|]. destruct (Hi (o + 1)) as (d1 & Hd1 & ?); [lia|].
  destruct (Hi (o + 2)) as (d2 & Hd2 & ?); [lia|]. destruct (Hi (o + 3)) as (d3 & Hd3 & ?); [lia|].
  rewrite Hd0, Hd1, Hd2, Hd3, lor4 by done.
  assert (take 4 (drop o hs) = [d0; d1; d2; d3]) as ->.
  { rewrite (drop_S hs d0 o Hd0), (drop_S hs d1 (S o)), (drop_S hs d2 (S (S o))), (drop_S hs d3 (S (S (S o)))); [done|..].
    - by rewrite <- Hd3; f_equal; lia.
    - by rewrite <- Hd2; f_equal; lia.
    - by rewrite <- Hd1; f_equal; lia. }
  assert (0 ≤ be_value [d0; d1; d2; d3] < 2 ^ 32)%Z as Hr by (unfold is_byte in *; unfold be_value; cbn; lia).
  unfold wrap_u. rewrite (Z.mod_small _ (2 ^ 32)) by done.
  change 0x7FFFFFFF%Z with (Z.ones 31). rewrite Z.land_ones by lia. done.
Qed.

(** ** Theorems *)
(** C32 Registration, the server and a client agree: after a registration, a
    client that knows the password and computes its side as the protocol has
    it — its A, its secret, its key K, its proof M — meets a server that answers
    its M with the same K, and any other proof with nothing; every later use of
    the object is an assertion.  Of the hash only that its digests are bytes is
    used, of the big numbers the laws of OpenSSL.  A client whose A is zero
    modulo N, for which anybody knows the secret, gets nothing. *)
Theorem srp6_agreement `{HL : BNLaws} (SHA1 : bytes → bytes) username password salt verifier random a :
  (∀ l, Forall is_byte (SHA1 l)) →
  MakeRegistrationData SHA1 salt username password = Done (salt, verifier) →
  Forall is_byte random → (0 ≤ a)%Z →
  ∃ srp, SRP6_new SHA1 random username salt verifier = Done srp ∧
    let A := client_A a in
    let K := SHA_Interleave SHA1 (client_S SHA1 a (client_x SHA1 username password salt) (srp_B srp)) in
    let M := client_M SHA1 username salt A (srp_B srp) K in
    ∃ srp', (∀ M', VerifyChallengeResponse SHA1 srp A M' = Done (if decide (M' = M) then Some K else None, srp')) ∧
      (∀ A' M', Forall is_byte A' → (le_value A' mod le_value SRP6_N = 0)%Z →
        VerifyChallengeResponse SHA1 srp A' M' = Done (None, srp')) ∧
      ∀ A' M', is_done (VerifyChallengeResponse SHA1 srp' A' M') = false.
Proof.
  intros Hsha Hreg Hrand Ha. unfold MakeRegistrationData in Hreg.
  rewrite CalculateVerifier_value in Hreg by done. set (x := client_x SHA1 username password salt) in *.
  assert (0 ≤ x)%Z as Hx by by apply SHA1_nonneg. cbn in Hreg. injection Hreg as <-.
  unfold SRP6_new. rewrite (SetBinary_le random), SetBinary_mod by done. pose proof (le_value_nonneg _ Hrand) as Hb.
  pose proof (mod_range (7 ^ x)) as Hv. pose proof (mod_range (7 ^ a)) as HA.
  rewrite B_value, bind_Done by lia. eexists. split; [done|]. cbn [srp_B].
  exists (mk_SRP6 true (SHA1 (string_bytes username)) (le_value random) (7 ^ x mod NN)%Z salt
    (le_bytes 32 ((7 ^ le_value random mod NN + 7 ^ x mod NN * 3) mod NN))).
  split; [|split; [|done]].
  2: { intros A' M' HA' Hz. by apply VerifyChallengeResponse_zero. }
  intros M'. unfold client_A.
  rewrite VerifyChallengeResponse_value; cbn [_used _b _v _I srp_s srp_B]; try done; try lia.
  2: apply le_bytes_bytes. 2: by rewrite le_value_mod, Z.mod_mod; [apply g_pow_nonzero|pose proof N_range; lia].
  rewrite le_value_mod, same_secret by (done || by apply SHA1_nonneg).
  rewrite SHA1Interleave_RFC2945, bind_Done by apply length_le_bytes.
  unfold client_S, client_A. rewrite le_value_mod.
  by rewrite if_bytes_sym.
Qed.

(** The tokens are those of RFC 6238: at a time [now], at least half a
    minute after the epoch, a token is accepted exactly when it is the RFC's
    code of the current half minute, the one before or the one after.  (HMAC
    answers 20 bytes.) *)
Theorem ValidateToken_RFC6238 HMAC_sha1 secret now token :
  (∀ k d, length (HMAC_sha1 k d) = 20 ∧ Forall is_byte (HMAC_sha1 k d)) → (30 ≤ now)%Z →
  ValidateToken HMAC_sha1 now secret token =
    Done (bool_decide (token ∈ HOTP HMAC_sha1 secret <$> [now / 30 - 1; now / 30; now / 30 + 1]%Z)).
Proof.
  intros HH Hnow. unfold ValidateToken. rewrite !GenerateToken_HOTP by (done || unfold TOTP_INTERVAL; lia).
  unfold TOTP_INTERVAL. rewrite !bind_Done.
  replace ((now - 30) / 30)%Z with (now / 30 - 1)%Z by (replace (now - 30)%Z with (now + -1 * 30)%Z by lia; rewrite Z.div_add; lia).
  replace ((now + 30) / 30)%Z with (now / 30 + 1)%Z by (replace (now + 30)%Z with (now + 1 * 30)%Z by lia; rewrite Z.div_add; lia).
  cbn [fmap list_fmap]. repeat case_match; f_equal; symmetry.
  - apply bool_decide_eq_true_2. rewrite !elem_of_cons. left. by apply Z.eqb_eq.
  - apply bool_decide_eq_true_2. rewrite !elem_of_cons. right. left. by apply Z.eqb_eq.
  - destruct (Z.eqb_spec token (HOTP HMAC_sha1 secret (now / 30 + 1))); [apply bool_decide_eq_true_2|apply bool_decide_eq_false_2];
      rewrite !elem_of_cons, elem_of_nil; lia.
Qed.

(** The session key generator is a stream: over a hash whose digests have
    its length, one call for [n] bytes and another for [m] give the first [n]
    and the next [m] bytes of the chain of digests, wherever the block ends
    are; neither call reads past a digest. *)
Theorem Generate_stream Hash L buf n m :
  (∀ l, length (Hash l) = L) → 0 < L →
  ∃ g1 g2, Generate Hash n (SessionKeyGenerator_new Hash L buf) = Done (stream Hash L buf 0 n, g1) ∧
    Generate Hash m g1 = Done (stream Hash L buf n m, g2).
Proof.
  intros Hl HL. pose proof (SessionKeyGenerator_new_at Hash L HL buf) as H0.
  destruct (Generate_at Hash L Hl HL _ _ n _ _ H0) as (g1 & H1 & Ha).
  destruct (Generate_at Hash L Hl HL _ _ m _ _ Ha) as (g2 & H2 & _). by exists g1, g2.
Qed.

(** *** Sealed boxes *)
Section Boxes.
Context (Ci : Type) `{AECipherLaws Ci fits E D mac}.

Lemma SplitFromBack_app data tail : SplitFromBack (data ++ tail) (length tail) = Done (data, tail).
Proof.
  unfold SplitFromBack. rewrite length_app, (proj2 (Nat.leb_le _ _)) by lia.
  by rewrite take_app_length', drop_app_length' by lia.
Qed.

Lemma SplitFromBack_cases data n :
  (length data < n ∧ ∃ why, SplitFromBack data n = Crash why) ∨
  ∃ front tail, data = front ++ tail ∧ length tail = n ∧ SplitFromBack data n = Done (front, tail).
Proof.
  unfold SplitFromBack. destruct (Nat.leb_spec n (length data)); [right|left; eauto].
  eexists _, _. split; [|split; [|done]]; [by rewrite take_drop|]. rewrite length_drop. lia.
Qed.

Lemma AEEncrypt_eq iv tag data key :
  length key = KEY_SIZE_BYTES → length iv = IV_SIZE_BYTES → length tag = TAG_SIZE_BYTES → fits data →
  AEEncryptWithRandomIV Ci iv tag data key = Done ((E key iv data ++ iv) ++ mac key iv (E key iv data)).
Proof. intros Hk Hi Ht Hf. unfold AEEncryptWithRandomIV. by rewrite seals. Qed.

Lemma AEDecrypt_eq key iv data tag :
  length key = KEY_SIZE_BYTES → length iv = IV_SIZE_BYTES → length tag = TAG_SIZE_BYTES → fits data →
  AEDecrypt Ci ((data ++ iv) ++ tag) key = Done (bool_decide (tag = mac key iv data), D key iv data).
Proof.
  intros Hk Hi Ht Hf. unfold AEDecrypt. rewrite <- Ht, SplitFromBack_app, bind_Done.
  rewrite <- Hi, SplitFromBack_app, bind_Done. by rewrite opens.
Qed.

(** AEDecrypt opens exactly the boxes that AEEncryptWithRandomIV can have made
    with the same key. *)
Lemma AE_exact tag0 key box data :
  length key = KEY_SIZE_BYTES → length tag0 = TAG_SIZE_BYTES → fits data →
  AEDecrypt Ci box key = Done (true, data) ∧ length box = length data + IV_SIZE_BYTES + TAG_SIZE_BYTES ↔
  ∃ iv, length iv = IV_SIZE_BYTES ∧ AEEncryptWithRandomIV Ci iv tag0 data key = Done box.
Proof.
  intros Hk Ht0 Hf. split.
  - intros [Hd Hl]. destruct (SplitFromBack_cases box TAG_SIZE_BYTES) as [[? _]|(front & tag & -> & Ht & _)]; [lia|].
    rewrite length_app in Hl.
    destruct (SplitFromBack_cases front IV_SIZE_BYTES) as [[? _]|(c & iv & -> & Hi & _)]; [lia|].
    rewrite length_app in Hl. assert (fits c) as Hc by (eapply fits_length; [|exact Hf]; lia).
    rewrite AEDecrypt_eq in Hd by done. injection Hd as Htag%bool_decide_eq_true <-.
    exists iv. split; [done|]. rewrite AEEncrypt_eq by done. by rewrite E_D, <- Htag.
  - intros (iv & Hi & He). rewrite AEEncrypt_eq in He by done. injection He as <-.
    assert (fits (E key iv data)) as Hc by (eapply fits_length, Hf; by rewrite length_E).
    pose proof (length_mac key iv (E key iv data) Hk Hi) as Hm. rewrite AEDecrypt_eq by done.
    rewrite bool_decide_true, D_E, !length_app, length_E, Hi, Hm by done. split; [done|lia].
Qed.

(** What AEEncryptWithRandomIV makes AEDecrypt opens. *)
Theorem AE_roundtrip iv tag key data :
  length key = KEY_SIZE_BYTES → length iv = IV_SIZE_BYTES → length tag = TAG_SIZE_BYTES → fits data →
  (sealed ← AEEncryptWithRandomIV Ci iv tag data key; AEDecrypt Ci sealed key) = Done (true, data).
Proof.
  intros Hk Hi Ht Hf. rewrite (AEEncrypt_eq iv tag data key) by done. cbn [mbind outcome_bind].
  apply (AE_exact tag); [done..|]. exists iv. split; [done|]. by apply AEEncrypt_eq.
Qed.
End Boxes.

(** ** The laws hold of numbers; witnesses *)
Definition Znum : BNLib := {|
  BN_set_word w := w;
  BN_set_negative a := (- a)%Z;
  BN_lshift a n := Z.shiftl a n;
  BN_add_word a w := (a + w)%Z;
  BN_add a b := (a + b)%Z;
  BN_mul a b := (a * b)%Z;
  BN_mod a m := Z.rem a m;
  BN_mod_exp a p m := Zpow_mod a p m;
  BN_is_zero a := (a =? 0)%Z;
  BN_num_bytes a := if (a =? 0)%Z then 0%Z else (Z.log2 (Z.abs a) / 8 + 1)%Z;
  BN_lebin2bn := le_value;
  BN_bin2bn l := le_value (rev l);
  BN_bn2lebinpad a n := if (Z.abs a <? 256 ^ Z.of_nat n)%Z then (Z.of_nat n, le_bytes n (Z.abs a)) else ((-1)%Z, []);
  BN_bn2binpad a n := if (Z.abs a <? 256 ^ Z.of_nat n)%Z then (Z.of_nat n, rev (le_bytes n (Z.abs a))) else ((-1)%Z, []) |}.

#[export] Instance Znum_laws : BNLaws Znum.
Proof.
  split; cbn; intros; try done.
  - apply Z.rem_mod_nonneg; lia.
  - apply Zpow_mod_correct; lia.
  - by rewrite Z.abs_eq by lia.
  - rewrite Z.abs_eq by lia. by case_match.
  - rewrite Z.abs_eq by lia. by case_match.
Qed.

(** A hash and an HMAC of twenty bytes, to evaluate with. *)
Definition toy_digest (l : bytes) : bytes := le_bytes 20 (foldl (λ h b, (h * 33 + b) mod 251) 5 l)%Z.
Definition toy_HMAC (k d : bytes) : bytes := toy_digest (k ++ d).

Lemma toy_digest_ok l : length (toy_digest l) = 20 ∧ Forall is_byte (toy_digest l).
Proof. split; [apply length_le_bytes|apply le_bytes_bytes]. Qed.

Definition w_salt : bytes := Z.of_nat <$> seq 11 32.
Definition w_random : bytes := Z.of_nat <$> seq 100 32.
Definition done_or {A} (d : A) (o : out A) : A := match o with Done a => a | _ => d end.
Definition w_verifier : bytes := done_or [] (CalculateVerifier (L := Znum) toy_digest "BOT" "SECRET" w_salt).

Example wrong_password :
  CheckLogin (L := Znum) toy_digest "BOT" "SECRET" w_salt w_verifier = Done true ∧
  CheckLogin (L := Znum) toy_digest "BOT" "SECREt" w_salt w_verifier = Done false.
Proof. split; vm_compute; reflexivity. Qed.

(** The number zero has no byte, and [BN_bn2lebinpad] of no byte is 0. *)
Example ToByteVector_zero : is_done (ToByteVector (L := Znum) 0 0 true) = false.
Proof. reflexivity. Qed.

Lemma srp6_agreement_witness :
  MakeRegistrationData (L := Znum) toy_digest w_salt "BOT" "SECRET" = Done (w_salt, w_verifier) ∧
  ∃ srp, SRP6_new (L := Znum) toy_digest w_random "BOT" w_salt w_verifier = Done srp ∧
    let A := client_A 123456789 in
    let K := SHA_Interleave toy_digest (client_S toy_digest 123456789 (client_x toy_digest "BOT" "SECRET" w_salt) (srp_B srp)) in
    let M := client_M toy_digest "BOT" w_salt A (srp_B srp) K in
    ∃ srp', (∀ M', VerifyChallengeResponse (L := Znum) toy_digest srp A M' = Done (if decide (M' = M) then Some K else None, srp')) ∧
      (∀ A' M', Forall is_byte A' → (le_value A' mod le_value SRP6_N = 0)%Z →
        VerifyChallengeResponse (L := Znum) toy_digest srp A' M' = Done (None, srp')) ∧
      ∀ A' M', is_done (VerifyChallengeResponse (L := Znum) toy_digest srp' A' M') = false.
Proof.
  assert (MakeRegistrationData (L := Znum) toy_digest w_salt "BOT" "SECRET" = Done (w_salt, w_verifier)) as H
    by (vm_compute; reflexivity).
  split; [exact H|]. refine (srp6_agreement toy_digest _ _ _ _ _ 123456789 _ H _ _).
  - intros l. apply toy_digest_ok.
  - unfold w_random. repeat constructor; unfold is_byte; vm_compute; congruence.
  - lia.
Defined.

Lemma ValidateToken_RFC6238_witness :
  ValidateToken toy_HMAC 1700000000 w_salt (HOTP toy_HMAC w_salt (1700000029 / 30)) =
    Done (bool_decide (HOTP toy_HMAC w_salt (1700000029 / 30) ∈
      HOTP toy_HMAC w_salt <$> [1700000000 / 30 - 1; 1700000000 / 30; 1700000000 / 30 + 1]%Z)).
Proof. apply ValidateToken_RFC6238; [intros k d; apply toy_digest_ok|lia]. Defined.

Lemma Generate_stream_witness :
  ∃ g1 g2, Generate toy_digest 15 (SessionKeyGenerator_new toy_digest 20 w_salt) = Done (stream toy_digest 20 w_salt 0 15, g1) ∧
    Generate toy_digest 30 g1 = Done (stream toy_digest 20 w_salt 15 30, g2).
Proof. apply Generate_stream; [intros l; apply toy_digest_ok|lia]. Defined.
