(* ===== verification/Ciphers.v ===== *)
(** * Ciphers: AES, ARC4 and AuthCrypt of common/Cryptography

    The objects around OpenSSL's cipher contexts.  OpenSSL is the interface
    [EVP_CIPHER_API]; a call returns whether it succeeded and the context after
    it, and may have written through its pointers in either case.  What its
    manual says of AES-128 in the mode GCM is [GCMLaws], of RC4 [RC4Laws].

    - [AES] is the instance of the interface [AECipher] that the templates of
      CryptoGenerics.h (Crypto.v) are used with.
    - [ARC4::UpdateData] finishes the context after every call and goes on using
      it.  The manual does not say what a context does then; [RC4Continues] says
      that it goes on, and [AuthCrypt_needs_more_than_the_manual] what happens
      with a library that does not.
    - HMAC_SHA1 is a function of bytes here (its object is like that of
      Digest.v).  The destructors free the contexts and do nothing else. *)
From S2P Require Import Prelude CppString Convert Prepared Crypto.

(** ** OpenSSL *)
Inductive EVP_CIPHER := aes_128_gcm | rc4.

Class EVP_CIPHER_API (C : Type) := {
  EVP_CIPHER_CTX_new : C;
  (** the cipher, the key and the IV when they are given; 1, 0 or -1 *)
  EVP_CipherInit_ex : option EVP_CIPHER → option bytes → option bytes → Z → C → bool * C;
  EVP_CIPHER_CTX_set_key_length : nat → C → bool * C;
  (** what was written at [out], and [outl] *)
  EVP_CipherUpdate : bytes → C → bool * bytes * Z * C;
  EVP_CipherFinal_ex : C → bool * bytes * Z * C;
  EVP_CTRL_GCM_SET_TAG : bytes → C → bool * C;
  EVP_CTRL_GCM_GET_TAG : nat → C → bool * bytes * C }.

(** [EVP_EncryptInit_ex] *)
Definition EVP_EncryptInit_ex {C : Type} `{EVP_CIPHER_API C} (cipher : option EVP_CIPHER) (key iv : option bytes) (c : C) :
  bool * C := EVP_CipherInit_ex cipher key iv 1 c.

(** A block is written into a buffer. *)
Definition write_at (i : Z) (block data : bytes) : out bytes :=
  if ((0 <=? i)%Z && (i + Z.of_nat (length block) <=? Z.of_nat (length data))%Z)%bool
  then Done (take (Z.to_nat i) data ++ block ++ drop (Z.to_nat i + length block) data)
  else Crash "a write outside of the buffer".

(** ** AES.cpp *)
Section AES.
Context {C : Type} `{EVP_CIPHER_API C}.

Record AES := mk_AES { _ctx : C; _encrypting : bool }.

Definition INT_MAX : Z := 2147483647.

Definition AES_new (encrypting : bool) : out AES :=
  let '(status, c) := EVP_CipherInit_ex (Some aes_128_gcm) None None (if encrypting then 1 else 0) EVP_CIPHER_CTX_new in
  _ ← assert status "status";
  Done (mk_AES c encrypting).

Definition AES_Init (key : bytes) (this : AES) : out AES :=
  let '(status, c) := EVP_CipherInit_ex None (Some key) None (-1) (_ctx this) in
  _ ← assert status "status";
  Done (mk_AES c (_encrypting this)).

(** Whether it succeeded; the data, the tag and the object after it. *)
Definition AES_Process (iv data tag : bytes) (this : AES) : out (bool * bytes * bytes * AES) :=
  _ ← assert (Z.of_nat (length data) <=? INT_MAX)%Z "length <= std::numeric_limits<int>::max()";
  let len := Z.of_nat (length data) in
  let object c := mk_AES c (_encrypting this) in
  let '(ok, c) := EVP_CipherInit_ex None None (Some iv) (-1) (_ctx this) in
  if negb ok then Done (false, data, tag, object c) else
  let '(ok, block, outLen, c) := EVP_CipherUpdate data c in
  data ← write_at 0 block data;
  if negb ok then Done (false, data, tag, object c) else
  let len := (len - outLen)%Z in
  let '(ok, c) := if _encrypting this then (true, c) else EVP_CTRL_GCM_SET_TAG tag c in
  if negb ok then Done (false, data, tag, object c) else
  let '(ok, block, outLen', c) := EVP_CipherFinal_ex c in
  data ← write_at outLen block data;
  if negb ok then Done (false, data, tag, object c) else
  _ ← assert (len =? outLen')%Z "len == outLen";
  if _encrypting this then
    let '(ok, tag, c) := EVP_CTRL_GCM_GET_TAG 12 c in Done (ok, data, tag, object c)
  else Done (true, data, tag, object c).

#[export] Instance AES_cipher : AECipher AES := {
  IV_SIZE_BYTES := 12;
  KEY_SIZE_BYTES := 16;
  TAG_SIZE_BYTES := 12;
  cipher_new := AES_new;
  cipher_Init := AES_Init;
  cipher_Process := AES_Process }.
End AES.
Arguments AES : clear implicits.

(** *** What the manual says of AES-128-GCM

    The state of a context: its direction, then its key, its IV, the data it was
    given, the tag it shall find, and the end of an encryption.  [E] and [D] are
    the encryption and the decryption by key and IV, [mac] the tag of sixteen
    bytes of an encrypted text.  An encryption of no data is left out: the manual
    does not say what an empty buffer, for which the pointer may be null, does. *)
Inductive gcm :=
| Directed (encrypting : bool)
| Keyed (encrypting : bool) (key : bytes)
| Ready (encrypting : bool) (key iv : bytes)
| Given (encrypting : bool) (key iv text : bytes) (tag : option bytes)
| Closed (key iv text : bytes).

Class GCMLaws (C : Type) `{EVP_CIPHER_API C} (E D mac : bytes → bytes → bytes → bytes) (in_state : C → gcm → Prop) := {
  gcm_new e : ∃ c, EVP_CipherInit_ex (Some aes_128_gcm) None None (if e : bool then 1 else 0)%Z EVP_CIPHER_CTX_new = (true, c) ∧
    in_state c (Directed e);
  gcm_key c e key : in_state c (Directed e) → length key = 16 →
    ∃ c', EVP_CipherInit_ex None (Some key) None (-1) c = (true, c') ∧ in_state c' (Keyed e key);
  gcm_iv c e key iv : in_state c (Keyed e key) → length iv = 12 →
    ∃ c', EVP_CipherInit_ex None None (Some iv) (-1) c = (true, c') ∧ in_state c' (Ready e key iv);
  gcm_encrypt c key iv data : in_state c (Ready true key iv) → data ≠ [] →
    ∃ c', EVP_CipherUpdate data c = (true, E key iv data, Z.of_nat (length data), c') ∧
      in_state c' (Given true key iv (E key iv data) None);
  gcm_decrypt c key iv data : in_state c (Ready false key iv) → data ≠ [] →
    ∃ c', EVP_CipherUpdate data c = (true, D key iv data, Z.of_nat (length data), c') ∧
      in_state c' (Given false key iv data None);
  gcm_set_tag c key iv text tag : in_state c (Given false key iv text None) → length tag ≤ 16 →
    ∃ c', EVP_CTRL_GCM_SET_TAG tag c = (true, c') ∧ in_state c' (Given false key iv text (Some tag));
  gcm_verify c key iv text tag : in_state c (Given false key iv text (Some tag)) →
    ∃ outl c', EVP_CipherFinal_ex c = (bool_decide (tag = take (length tag) (mac key iv text)), [], outl, c') ∧
      (tag = take (length tag) (mac key iv text) → outl = 0%Z);
  gcm_close c key iv text : in_state c (Given true key iv text None) →
    ∃ c', EVP_CipherFinal_ex c = (true, [], 0%Z, c') ∧ in_state c' (Closed key iv text);
  gcm_get_tag c key iv text n : in_state c (Closed key iv text) → n ≤ 16 →
    ∃ c', EVP_CTRL_GCM_GET_TAG n c = (true, take n (mac key iv text), c');
  gcm_inverse key iv data : D key iv (E key iv data) = data;
  gcm_inverse' key iv data : E key iv (D key iv data) = data;
  gcm_length key iv data : length (E key iv data) = length data;
  gcm_tag_length key iv text : length (mac key iv text) = 16 }.

(** ** AES lemmas *)
Section AESLemmas.
Context {C : Type} `{GCMLaws C E D mac in_state}.

(** The data [Process] takes: some, and not more than an int counts. *)
Definition fits_AES (data : bytes) : Prop := data ≠ [] ∧ (Z.of_nat (length data) ≤ INT_MAX)%Z.

Lemma write_all block data : length block = length data → write_at 0 block data = Done block.
Proof.
  intros Hl. unfold write_at. rewrite Hl, !(proj2 (Z.leb_le _ _)) by lia. cbn [andb Z.to_nat take app Nat.add].
  by rewrite drop_ge, app_nil_r by lia.
Qed.

Lemma write_nothing data : write_at (Z.of_nat (length data)) [] data = Done data.
Proof.
  unfold write_at. cbn [length]. rewrite !(proj2 (Z.leb_le _ _)), Nat2Z.id by lia. cbn [andb app].
  by rewrite Nat.add_0_r, take_drop.
Qed.

Lemma length_D key iv data : length (D key iv data) = length data.
Proof. by rewrite <- (gcm_length key iv (D key iv data)), gcm_inverse'. Qed.

Lemma AES_ready encrypting key : length key = 16 →
  ∃ c, AES_new encrypting ≫= AES_Init key = Done (mk_AES c encrypting) ∧ in_state c (Keyed encrypting key).
Proof.
  intros Hk. destruct (gcm_new encrypting) as (c0 & Hn & Ha0). destruct (gcm_key c0 encrypting key Ha0 Hk) as (c & Hkey & Ha).
  exists c. split; [|done]. unfold AES_new. rewrite Hn. cbn [assert mbind outcome_bind]. unfold AES_Init.
  cbn [_ctx _encrypting]. by rewrite Hkey.
Qed.

Lemma AES_seals c key iv data tag :
  in_state c (Keyed true key) → length iv = 12 → fits_AES data →
  ∃ this, AES_Process iv data tag (mk_AES c true) = Done (true, E key iv data, take 12 (mac key iv (E key iv data)), this).
Proof.
  intros Ha Hi [Hd Hf]. unfold AES_Process. cbn [_ctx _encrypting]. rewrite (proj2 (Z.leb_le _ _)) by done.
  cbn [assert mbind outcome_bind]. destruct (gcm_iv c true key iv Ha Hi) as (c1 & -> & Ha1). cbn [negb].
  destruct (gcm_encrypt c1 key iv data Ha1 Hd) as (c2 & -> & Ha2).
  rewrite write_all by apply gcm_length. cbn [mbind outcome_bind negb].
  destruct (gcm_close c2 key iv _ Ha2) as (c3 & -> & Ha3). rewrite <- (gcm_length key iv data), write_nothing.
  cbn [mbind outcome_bind negb]. rewrite Z.sub_diag. cbn [Z.eqb assert mbind outcome_bind].
  destruct (gcm_get_tag c3 key iv _ 12 Ha3 ltac:(lia)) as (c4 & ->). eauto.
Qed.

Lemma AES_opens c key iv data tag :
  in_state c (Keyed false key) → length iv = 12 → length tag = 12 → fits_AES data →
  ∃ this, AES_Process iv data tag (mk_AES c false) =
    Done (bool_decide (tag = take 12 (mac key iv data)), D key iv data, tag, this).
Proof.
  intros Ha Hi Ht [Hd Hf]. unfold AES_Process. cbn [_ctx _encrypting]. rewrite (proj2 (Z.leb_le _ _)) by done.
  cbn [assert mbind outcome_bind]. destruct (gcm_iv c false key iv Ha Hi) as (c1 & -> & Ha1). cbn [negb].
  destruct (gcm_decrypt c1 key iv data Ha1 Hd) as (c2 & -> & Ha2).
  rewrite write_all by apply length_D. cbn [mbind outcome_bind negb].
  destruct (gcm_set_tag c2 key iv data tag Ha2 ltac:(lia)) as (c3 & -> & Ha3). cbn [negb].
  destruct (gcm_verify c3 key iv data tag Ha3) as (outl & c4 & -> & Ho). rewrite Ht in *.
  rewrite <- (length_D key iv data), write_nothing. cbn [mbind outcome_bind].
  case_bool_decide as Hm; cbn [negb]; [|eauto]. rewrite Z.sub_diag, Ho by done.
  cbn [Z.eqb assert mbind outcome_bind]. eauto.
Qed.

#[export] Instance AES_laws : AECipherLaws (AES C) fits_AES E D (λ key iv text, take 12 (mac key iv text)).
Proof.
  split; cbn [KEY_SIZE_BYTES IV_SIZE_BYTES TAG_SIZE_BYTES AES_cipher].
  - intros key iv data tag Hk Hi _ Hf. unfold process_once. cbn [cipher_new cipher_Init cipher_Process AES_cipher].
    destruct (AES_ready true key Hk) as (c & Hc & Ha). destruct (AES_seals c key iv data tag Ha Hi Hf) as (this & Hp).
    rewrite <- outcome_bind_assoc. rewrite Hc. cbn [mbind outcome_bind]. by rewrite Hp.
  - intros key iv data tag Hk Hi Ht Hf. unfold process_once. cbn [cipher_new cipher_Init cipher_Process AES_cipher].
    destruct (AES_ready false key Hk) as (c & Hc & Ha). destruct (AES_opens c key iv data tag Ha Hi Ht Hf) as (this & Hp).
    rewrite <- outcome_bind_assoc. rewrite Hc. cbn [mbind outcome_bind]. by rewrite Hp.
  - apply gcm_inverse.
  - apply gcm_inverse'.
  - apply gcm_length.
  - intros key iv data _ _. rewrite length_take, gcm_tag_length. lia.
  - intros data data' Hl [Hd Hf]. split; [|by rewrite <- Hl]. intros ->. by apply Hd, nil_length_inv.
Qed.
End AESLemmas.

(** ** ARC4.cpp and AuthCrypt.cpp *)
Section ARC4.
Context {C : Type} `{EVP_CIPHER_API C}.
Variable HMAC_SHA1 : bytes → bytes → bytes.

Definition ARC4_new : out C :=
  let '(result, c) := EVP_EncryptInit_ex (Some rc4) None None EVP_CIPHER_CTX_new in
  _ ← assert result "result == 1"; Done c.

Definition ARC4_Init (seed : bytes) (c : C) : out C :=
  let '(result1, c) := EVP_CIPHER_CTX_set_key_length (length seed) c in
  _ ← assert result1 "result1 == 1";
  let '(result2, c) := EVP_EncryptInit_ex None (Some seed) None c in
  _ ← assert result2 "result2 == 1"; Done c.

(** The final call is given the start of the buffer. *)
Definition ARC4_UpdateData (data : bytes) (c : C) : out (bytes * C) :=
  let '(result1, block, outlen, c) := EVP_CipherUpdate data c in
  data ← write_at 0 block data;
  _ ← assert result1 "result1 == 1";
  let '(result2, block, outlen, c) := EVP_CipherFinal_ex c in
  data ← write_at 0 block data;
  _ ← assert result2 "result2 == 1";
  Done (data, c).

Record AuthCrypt := mk_AuthCrypt { _clientDecrypt : C; _serverEncrypt : C; _initialized : bool }.

Definition AuthCrypt_new : out AuthCrypt :=
  d ← ARC4_new; e ← ARC4_new; Done (mk_AuthCrypt d e false).

Definition ServerEncryptionKey : bytes :=
  [0xCC; 0x98; 0xAE; 0x04; 0xE8; 0x97; 0xEA; 0xCA; 0x12; 0xDD; 0xC0; 0x93; 0x42; 0x91; 0x53; 0x57]%Z.
Definition ServerDecryptionKey : bytes :=
  [0xC2; 0xB3; 0x72; 0x3C; 0xC6; 0xAE; 0xD9; 0xB5; 0x34; 0x3C; 0x53; 0xEE; 0x2F; 0x43; 0x67; 0xCE]%Z.

Definition AuthCrypt_Init (K : bytes) (this : AuthCrypt) : out AuthCrypt :=
  e ← ARC4_Init (HMAC_SHA1 ServerEncryptionKey K) (_serverEncrypt this);
  d ← ARC4_Init (HMAC_SHA1 ServerDecryptionKey K) (_clientDecrypt this);
  let syncBuf := replicate 1024 0%Z in
  '(syncBuf, e) ← ARC4_UpdateData syncBuf e;
  '(_, d) ← ARC4_UpdateData syncBuf d;
  Done (mk_AuthCrypt d e true).

Definition DecryptRecv (data : bytes) (this : AuthCrypt) : out (bytes * AuthCrypt) :=
  _ ← assert (_initialized this) "_initialized";
  '(data, d) ← ARC4_UpdateData data (_clientDecrypt this);
  Done (data, mk_AuthCrypt d (_serverEncrypt this) (_initialized this)).

Definition EncryptSend (data : bytes) (this : AuthCrypt) : out (bytes * AuthCrypt) :=
  _ ← assert (_initialized this) "_initialized";
  '(data, e) ← ARC4_UpdateData data (_serverEncrypt this);
  Done (data, mk_AuthCrypt (_clientDecrypt this) e (_initialized this)).

(** The traffic of a connection: packets that are sent and packets that are
    received, each in its direction; the bytes of each direction after it. *)
Inductive packet := Send (data : bytes) | Recv (data : bytes).
Fixpoint traffic (ps : list packet) (this : AuthCrypt) : out (bytes * bytes * AuthCrypt) :=
  match ps with
  | [] => Done ([], [], this)
  | Send data :: ps =>
      '(data, this) ← EncryptSend data this;
      '(sent, received, this) ← traffic ps this; Done (data ++ sent, received, this)
  | Recv data :: ps =>
      '(data, this) ← DecryptRecv data this;
      '(sent, received, this) ← traffic ps this; Done (sent, data ++ received, this)
  end.
End ARC4.
Arguments AuthCrypt : clear implicits.

Definition sent_bytes (ps : list packet) : bytes := concat ((λ p, match p with Send d => d | Recv _ => [] end) <$> ps).
Definition received_bytes (ps : list packet) : bytes := concat ((λ p, match p with Recv d => d | Send _ => [] end) <$> ps).

(** *** RC4: [keystream key i] is the byte the [i]-th byte is combined with *)
Fixpoint rc4_at (keystream : bytes → nat → Z) (key : bytes) (pos : nat) (data : bytes) : bytes :=
  match data with [] => [] | b :: data => Z.lxor b (keystream key pos) :: rc4_at keystream key (S pos) data end.

Class RC4Laws (C : Type) `{EVP_CIPHER_API C} (keystream : bytes → nat → Z) (typed : C → nat → Prop)
    (keyed : C → bytes → nat → Prop) := {
  rc4_new : ∃ c, EVP_EncryptInit_ex (Some rc4) None None EVP_CIPHER_CTX_new = (true, c) ∧ typed c 16;
  rc4_key_length c n m : typed c n → 0 < m ≤ 256 →
    ∃ c', EVP_CIPHER_CTX_set_key_length m c = (true, c') ∧ typed c' m;
  rc4_init c key : typed c (length key) →
    ∃ c', EVP_EncryptInit_ex None (Some key) None c = (true, c') ∧ keyed c' key 0;
  rc4_update c key pos data : keyed c key pos → data ≠ [] →
    ∃ c', EVP_CipherUpdate data c = (true, rc4_at keystream key pos data, Z.of_nat (length data), c') ∧
      keyed c' key (pos + length data);
  rc4_final c key pos : keyed c key pos → ∃ c', EVP_CipherFinal_ex c = (true, [], 0%Z, c') }.

(** Not in the manual: a finished context of RC4 goes on where it was. *)
Class RC4Continues (C : Type) `{EVP_CIPHER_API C} (keyed : C → bytes → nat → Prop) :=
  rc4_continues c key pos c' r : keyed c key pos → EVP_CipherFinal_ex c = (r, c') → keyed c' key pos.

Section ARC4Lemmas.
Context {C : Type} `{RC4Laws C keystream typed keyed} `{!RC4Continues C keyed}.
Variable HMAC_SHA1 : bytes → bytes → bytes.
Hypothesis length_HMAC_SHA1 : ∀ k d, length (HMAC_SHA1 k d) = 20.

Lemma rc4_at_length key pos data : length (rc4_at keystream key pos data) = length data.
Proof. revert pos. induction data as [|b data IH]; intros pos; cbn; [done|]. by rewrite IH. Qed.

Lemma rc4_at_app key pos d1 d2 :
  rc4_at keystream key pos (d1 ++ d2) = rc4_at keystream key pos d1 ++ rc4_at keystream key (pos + length d1) d2.
Proof.
  revert pos. induction d1 as [|b d1 IH]; intros pos; cbn; [by rewrite Nat.add_0_r|].
  by rewrite IH, Nat.add_succ_r.
Qed.

Lemma write_none data : write_at 0 [] data = Done data.
Proof. unfold write_at. cbn [length]. rewrite !(proj2 (Z.leb_le _ _)) by lia. cbn. by rewrite drop_0. Qed.

Lemma ARC4_UpdateData_at c key pos data :
  keyed c key pos → data ≠ [] →
  ∃ c', ARC4_UpdateData data c = Done (rc4_at keystream key pos data, c') ∧ keyed c' key (pos + length data).
Proof.
  intros Hc Hd. unfold ARC4_UpdateData. destruct (rc4_update c key pos data Hc Hd) as (c1 & -> & H1).
  rewrite write_all by apply rc4_at_length. cbn [assert mbind outcome_bind].
  destruct (rc4_final c1 _ _ H1) as (c2 & H2). pose proof (rc4_continues _ _ _ _ _ H1 H2) as Hk. rewrite H2.
  rewrite write_none. cbn [assert mbind outcome_bind]. eauto.
Qed.

Lemma ARC4_ready : ∃ c, ARC4_new = Done c ∧ typed c 16.
Proof. unfold ARC4_new. destruct rc4_new as (c & -> & Hc). cbn. eauto. Qed.

Lemma ARC4_Init_at c n seed : typed c n → length seed = 20 → ∃ c', ARC4_Init seed c = Done c' ∧ keyed c' seed 0.
Proof.
  intros Hc Hs. unfold ARC4_Init. destruct (rc4_key_length c n (length seed) Hc ltac:(lia)) as (c1 & -> & H1).
  cbn [assert mbind outcome_bind]. destruct (rc4_init c1 seed H1) as (c2 & -> & H2). cbn. eauto.
Qed.

Definition in_session (K : bytes) (sent received : nat) (this : AuthCrypt C) : Prop :=
  _initialized this = true ∧ keyed (_serverEncrypt this) (HMAC_SHA1 ServerEncryptionKey K) (1024 + sent) ∧
  keyed (_clientDecrypt this) (HMAC_SHA1 ServerDecryptionKey K) (1024 + received).

Lemma AuthCrypt_session K : ∃ this, AuthCrypt_new ≫= AuthCrypt_Init HMAC_SHA1 K = Done this ∧ in_session K 0 0 this.
Proof.
  destruct ARC4_ready as (c & Hn & Hc). unfold AuthCrypt_new. rewrite Hn. cbn [mbind outcome_bind].
  unfold AuthCrypt_Init. cbn [_serverEncrypt _clientDecrypt].
  destruct (ARC4_Init_at c 16 (HMAC_SHA1 ServerEncryptionKey K) Hc ltac:(done)) as (e & -> & He).
  destruct (ARC4_Init_at c 16 (HMAC_SHA1 ServerDecryptionKey K) Hc ltac:(done)) as (d & -> & Hd).
  cbn [mbind outcome_bind].
  destruct (ARC4_UpdateData_at e _ 0 (replicate 1024 0%Z) He ltac:(done)) as (e' & -> & He'). cbn [mbind outcome_bind].
  destruct (ARC4_UpdateData_at d _ 0 (rc4_at keystream (HMAC_SHA1 ServerEncryptionKey K) 0 (replicate 1024 0%Z)) Hd)
    as (d' & -> & Hd').
  - intros Hnil%(f_equal length). by rewrite rc4_at_length, length_replicate in Hnil.
  - cbn [mbind outcome_bind]. eexists. split; [done|]. rewrite rc4_at_length, length_replicate in *. done.
Qed.

Lemma traffic_streams K ps sent received this :
  Forall (λ p, match p with Send d | Recv d => d ≠ [] end) ps → in_session K sent received this →
  ∃ this', traffic ps this =
    Done (rc4_at keystream (HMAC_SHA1 ServerEncryptionKey K) (1024 + sent) (sent_bytes ps),
          rc4_at keystream (HMAC_SHA1 ServerDecryptionKey K) (1024 + received) (received_bytes ps), this').
Proof.
  intros Hps. revert sent received this. induction Hps as [|p ps Hp Hps IH]; intros sent received this (Hi & He & Hd).
  { cbn. eauto. }
  destruct p as [data|data]; cbn [traffic]; unfold EncryptSend, DecryptRecv; rewrite Hi; cbn [assert mbind outcome_bind].
  - destruct (ARC4_UpdateData_at _ _ _ data He Hp) as (e' & -> & He'). cbn [mbind outcome_bind].
    destruct (IH (sent + length data) received (mk_AuthCrypt (_clientDecrypt this) e' true)) as (this' & ->).
    { split; [done|]. by rewrite Nat.add_assoc. }
    exists this'. change (sent_bytes (Send data :: ps)) with (data ++ sent_bytes ps).
    by rewrite rc4_at_app, Nat.add_assoc.
  - destruct (ARC4_UpdateData_at _ _ _ data Hd Hp) as (d' & -> & Hd'). cbn [mbind outcome_bind].
    destruct (IH sent (received + length data) (mk_AuthCrypt d' (_serverEncrypt this) true)) as (this' & ->).
    { split; [done|]. split; [done|]. by rewrite Nat.add_assoc. }
    exists this'. change (received_bytes (Recv data :: ps)) with (data ++ received_bytes ps).
    by rewrite rc4_at_app, Nat.add_assoc.
Qed.
End ARC4Lemmas.

(** ** A small library *)
Inductive toy_ctx := Empty | Gcm (g : gcm) | Typed (key_length : nat) | Stream (key : bytes) (pos : nat) | Finished.

Definition toy_pad (key iv : bytes) : Z := foldr Z.lxor 0%Z (key ++ iv).
Definition toy_crypt (key iv data : bytes) : bytes := (λ b, Z.lxor b (toy_pad key iv)) <$> data.
Definition toy_mac (key iv text : bytes) : bytes := toy_pad key (iv ++ text) :: Z.of_nat (length text) :: replicate 14 0%Z.
Definition toy_keystream (key : bytes) (i : nat) : Z := Z.lxor (toy_pad key []) (Z.of_nat i mod 256).

Definition toy_init (cipher : option EVP_CIPHER) (key iv : option bytes) (enc : Z) (c : toy_ctx) : bool * toy_ctx :=
  match cipher, key, iv, c with
  | Some aes_128_gcm, None, None, _ => (true, Gcm (Directed (enc =? 1)%Z))
  | Some rc4, None, None, _ => (true, Typed 16)
  | None, Some key, None, Gcm (Directed e) => (true, Gcm (Keyed e key))
  | None, None, Some iv, Gcm (Keyed e key) => (true, Gcm (Ready e key iv))
  | None, Some key, None, Typed _ => (true, Stream key 0)
  | _, _, _, _ => (false, c)
  end.

Definition toy_update (data : bytes) (c : toy_ctx) : bool * bytes * Z * toy_ctx :=
  match c with
  | Gcm (Ready e key iv) =>
      let text := toy_crypt key iv data in
      (true, text, Z.of_nat (length data), Gcm (Given e key iv (if e then text else data) None))
  | Stream key pos =>
      (true, rc4_at toy_keystream key pos data, Z.of_nat (length data), Stream key (pos + length data))
  | _ => (false, [], 0%Z, c)
  end.

(** [strict]: a stream that is finished is not used any more. *)
Definition toy_final (strict : bool) (c : toy_ctx) : bool * bytes * Z * toy_ctx :=
  match c with
  | Gcm (Given true key iv text None) => (true, [], 0%Z, Gcm (Closed key iv text))
  | Gcm (Given false key iv text (Some tag)) =>
      (bool_decide (tag = take (length tag) (toy_mac key iv text)), [], 0%Z, Empty)
  | Stream key pos => (true, [], 0%Z, if strict then Finished else c)
  | _ => (false, [], 0%Z, c)
  end.

Definition toy_api (strict : bool) : EVP_CIPHER_API toy_ctx := {|
  EVP_CIPHER_CTX_new := Empty;
  EVP_CipherInit_ex := toy_init;
  EVP_CIPHER_CTX_set_key_length n c := match c with Typed _ => (true, Typed n) | _ => (false, c) end;
  EVP_CipherUpdate := toy_update;
  EVP_CipherFinal_ex := toy_final strict;
  EVP_CTRL_GCM_SET_TAG tag c :=
    match c with Gcm (Given false key iv text None) => (true, Gcm (Given false key iv text (Some tag))) | _ => (false, c) end;
  EVP_CTRL_GCM_GET_TAG n c :=
    match c with Gcm (Closed key iv text) => (true, take n (toy_mac key iv text), c) | _ => (false, [], c) end |}.

Lemma toy_crypt_inverse key iv data : toy_crypt key iv (toy_crypt key iv data) = data.
Proof.
  unfold toy_crypt. rewrite <- list_fmap_compose. rewrite <- (list_fmap_id data) at 2. apply list_fmap_ext.
  intros i b _. cbn. by rewrite Z.lxor_assoc, Z.lxor_nilpotent, Z.lxor_0_r.
Qed.

Lemma toy_gcm_laws : @GCMLaws toy_ctx (toy_api false) toy_crypt toy_crypt toy_mac (λ c g, c = Gcm g).
Proof.
  split; cbn; try (intros; subst; cbn; by eauto).
  - intros []; cbn; eauto.
  - apply toy_crypt_inverse.
  - apply toy_crypt_inverse.
  - intros. apply length_fmap.
Qed.

Lemma toy_rc4_laws strict :
  @RC4Laws toy_ctx (toy_api strict) toy_keystream (λ c n, c = Typed n) (λ c key pos, c = Stream key pos).
Proof.
  split; cbn; intros; subst; cbn; eauto.
Qed.

Lemma toy_rc4_continues : @RC4Continues toy_ctx (toy_api false) (λ c key pos, c = Stream key pos).
Proof. intros c key pos c' r ->. cbn. congruence. Qed.

(** ** Properties *)

(** For data an AES takes (some, and not more than an int counts), AEDecrypt
    succeeds with it on exactly those boxes that AEEncryptWithRandomIV makes of
    it with the same key and some IV, which are 24 bytes longer.  A box with
    another tag is reported, and leaves its decryption in the buffer. *)
Theorem AES_boxes (C : Type) `{GCMLaws C E D mac in_state} (tag0 key data : bytes) :
  length key = 16 → length tag0 = 12 → fits_AES data →
  (∀ box, AEDecrypt (AES C) box key = Done (true, data) ∧ length box = length data + 24 ↔
     ∃ iv, length iv = 12 ∧ AEEncryptWithRandomIV (AES C) iv tag0 data key = Done box) ∧
  (∀ iv tag, length iv = 12 → length tag = 12 →
     AEDecrypt (AES C) ((data ++ iv) ++ tag) key = Done (bool_decide (tag = take 12 (mac key iv data)), D key iv data)).
Proof.
  intros Hk Ht Hf. split.
  - intros box. rewrite <- (@AE_exact (AES C) AES_cipher fits_AES E D _ AES_laws tag0 key box data Hk Ht Hf).
    cbn [IV_SIZE_BYTES TAG_SIZE_BYTES AES_cipher]. by rewrite <- Nat.add_assoc.
  - intros iv tag Hi Htag. by apply (@AEDecrypt_eq (AES C) AES_cipher fits_AES E D _ AES_laws key iv data tag).
Qed.

(** The traffic of a session is two streams: whatever the packets are, each
    direction is the plain bytes combined with the keystream of its own key from
    its 1024th byte on; a peer with the two keys exchanged undoes it.  (The
    hypothesis RC4Continues is not in OpenSSL's manual.) *)
Theorem AuthCrypt_streams (C : Type) `{RC4Laws C keystream typed keyed} (Hc : RC4Continues C keyed)
    (HMAC_SHA1 : bytes → bytes → bytes) (K : bytes) (ps : list packet) :
  (∀ k d, length (HMAC_SHA1 k d) = 20) → Forall (λ p, match p with Send d | Recv d => d ≠ [] end) ps →
  ∃ this', (AuthCrypt_new ≫= AuthCrypt_Init HMAC_SHA1 K) ≫= traffic ps =
    Done (rc4_at keystream (HMAC_SHA1 ServerEncryptionKey K) 1024 (sent_bytes ps),
          rc4_at keystream (HMAC_SHA1 ServerDecryptionKey K) 1024 (received_bytes ps), this').
Proof.
  intros Hl Hps. destruct (AuthCrypt_session HMAC_SHA1 Hl K) as (this & -> & Hs). cbn [mbind outcome_bind].
  apply (traffic_streams HMAC_SHA1 K ps 0 0 this Hps Hs).
Qed.

(** ** Concrete runs *)
Definition ex_key : bytes := replicate 16 5%Z.
Definition ex_iv : bytes := replicate 11 0%Z ++ [9]%Z.

Lemma AES_boxes_witness :
  ∃ box, @AEEncryptWithRandomIV (AES toy_ctx) (@AES_cipher toy_ctx (toy_api false)) ex_iv (replicate 12 0%Z) [1; 2; 3]%Z ex_key = Done box ∧
    @AEDecrypt (AES toy_ctx) (@AES_cipher toy_ctx (toy_api false)) box ex_key = Done (true, [1; 2; 3]%Z).
Proof.
  eexists. split; [reflexivity|].
  apply (proj1 (@AES_boxes toy_ctx (toy_api false) toy_crypt toy_crypt toy_mac (λ c g, c = Gcm g) toy_gcm_laws
    (replicate 12 0%Z) ex_key [1; 2; 3]%Z ltac:(reflexivity) ltac:(reflexivity) ltac:(split; [discriminate|by unfold INT_MAX; cbn; lia]))).
  exists ex_iv. split; reflexivity.
Defined.

Definition toy_HMAC (k d : bytes) : bytes := toy_pad k d :: replicate 19 0%Z.

Lemma AuthCrypt_streams_witness :
  ∃ this', ((@AuthCrypt_new toy_ctx (toy_api false) ≫= @AuthCrypt_Init toy_ctx (toy_api false) toy_HMAC [7]) ≫=
      @traffic toy_ctx (toy_api false) [Send [1]; Recv [2]; Send [3; 4]])%Z =
    Done (rc4_at toy_keystream (toy_HMAC ServerEncryptionKey [7]) 1024 [1; 3; 4],
          rc4_at toy_keystream (toy_HMAC ServerDecryptionKey [7]) 1024 [2], this')%Z.
Proof.
  apply (@AuthCrypt_streams toy_ctx (toy_api false) toy_keystream (λ c n, c = Typed n) (λ c key pos, c = Stream key pos)
    (toy_rc4_laws false) toy_rc4_continues toy_HMAC [7]%Z [Send [1]; Recv [2]; Send [3; 4]]%Z).
  - done.
  - repeat constructor; discriminate.
Defined.

(** A library that keeps to the manual and does not go on: the first packet ends
    the process. *)
Theorem AuthCrypt_needs_more_than_the_manual :
  @RC4Laws toy_ctx (toy_api true) toy_keystream (λ c n, c = Typed n) (λ c key pos, c = Stream key pos) ∧
  ∃ this, (@AuthCrypt_new toy_ctx (toy_api true) ≫= @AuthCrypt_Init toy_ctx (toy_api true) toy_HMAC [7]%Z) = Done this ∧
    @EncryptSend toy_ctx (toy_api true) [1]%Z this = Crash "result1 == 1".
Proof.
  split; [apply toy_rc4_laws|]. unfold AuthCrypt_new, AuthCrypt_Init, ARC4_UpdateData. cbn [mbind outcome_bind].
  eexists. split; reflexivity.
Qed.
