(* ===== verification/PoolTasks.v ===== *)
(** * The scheduled tasks of a pool: AddTasks and Update of DatabaseWorkerPool.cpp

    A pool gives its [TaskScheduler] three tasks that repeat themselves: the
    ping, the removal of idle connections, and the check of the queue.  Here the
    scheduler is the one of [Scheduler]; what the tasks do to the pool is in
    [WorkerPool].  Time is in nanoseconds, the unit of the steady clock. *)
From S2P Require Import Prelude Convert Config Scheduler.

Definition millisecond : Z := 1000000.
Definition second : Z := 1000 * millisecond.
Definition minute : Z := 60 * second.

(** The bodies of the three lambdas, as far as the scheduler sees them. *)
Definition ping_task : nat := 0.
Definition cleanup_task : nat := 1.
Definition check_task : nat := 2.

Definition pool_handlers (h k : nat) (t : Task) : list cop :=
  match h with
  | 0 => [CopRepeatSame]
  | 1 => [CopRepeat (1 * second)]
  | 2 => [CopRepeat (5 * second)]
  | _ => []
  end.

(** [Minutes] to the nanoseconds of the scheduler, a signed number of 64 bits. *)
Definition to_nanoseconds (minutes : Z) : result Z :=
  if (minutes * minute <? 2 ^ 63)%Z then Done (minutes * minute)%Z else Crash "signed overflow of a duration".

Definition AddTasks (cfg : ConfigState) (s : TaskScheduler) : result TaskScheduler :=
  let _maxAsyncQueueSize := fst (GetOption uint32 "MaxQueueSize" 10 true cfg) in
  _ ← assert (10 <=? _maxAsyncQueueSize)%Z "Queue size can only be greater than or equal to 10";
  ping ← to_nanoseconds (fst (GetOption uint32 "MaxPingTime" 30 true cfg));
  let s := Schedule ping None ping_task s in
  let s := Schedule (10 * second) None cleanup_task s in
  Done (Schedule (1 * second) None check_task s).

(** [Update]; [now] is what the clock of the scheduler reads, [diff] is in
    milliseconds. *)
Definition DatabaseWorkerPool_Update (fuel : nat) (now diff : Z) (s : TaskScheduler) : result TaskScheduler :=
  r ← (if (0 <? diff)%Z
       then Update_by pool_handlers (λ _ _, []) (λ _ _, true) fuel (diff * millisecond) s
       else Update pool_handlers (λ _ _, []) (λ _ _, true) fuel now s);
  Done (snd (r : bool * TaskScheduler)).

(** ** Periodic tasks *)
(** How often a task that is first due after [first] and then every [p] has
    been due when [elapsed] has passed. *)
Definition due (first p elapsed : Z) : nat :=
  if (elapsed <? first)%Z then 0 else S (Z.to_nat ((elapsed - first) / p)).

Lemma due_exact first p elapsed k :
  (0 < p)%Z → (elapsed < first + Z.of_nat k * p)%Z → (k = 0 ∨ (first + Z.of_nat (k - 1) * p ≤ elapsed)%Z) →
  k = due first p elapsed.
Proof.
  intros Hp Hlt Hk. unfold due. destruct (Z.ltb_spec elapsed first) as [He|He]; [nia|].
  destruct k as [|k]; [lia|]. f_equal. replace (S k - 1) with k in Hk by lia.
  assert ((elapsed - first) / p = Z.of_nat k)%Z as ->; [|lia].
  symmetry. apply Z.div_unique with (elapsed - first - Z.of_nat k * p)%Z; lia.
Qed.

Lemma due_mono first p a b : (0 < p)%Z → (a ≤ b)%Z → due first p a ≤ due first p b.
Proof.
  intros Hp Hab. unfold due. destruct (Z.ltb_spec a first), (Z.ltb_spec b first); try lia.
  pose proof (Z.div_le_mono (a - first) (b - first) p). lia.
Qed.

(** The runs that are left when [k] were made. *)
Lemma due_rest first p elapsed k :
  (0 < p)%Z → Z.to_nat ((elapsed - (first + Z.of_nat k * p)) / p + 1) = due first p elapsed - k.
Proof.
  intros Hp. unfold due. replace (elapsed - (first + Z.of_nat k * p))%Z with (elapsed - first + - Z.of_nat k * p)%Z by lia.
  rewrite Z.div_add by lia. destruct (Z.ltb_spec elapsed first) as [He|He].
  - assert ((elapsed - first) / p < 0)%Z by (apply Z.div_lt_upper_bound; lia). lia.
  - assert (0 ≤ (elapsed - first) / p)%Z by (apply Z.div_pos; lia). lia.
Qed.

Lemma sum_list_with_dec (f g : nat → nat) i l :
  NoDup l → i ∈ l → S (g i) = f i → (∀ j, j ≠ i → g j = f j) → S (sum_list_with g l) = sum_list_with f l.
Proof.
  intros Hl Hi Hgi Hg. induction Hl as [|j l Hj Hl IH]; cbn; [by apply elem_of_nil in Hi|].
  destruct (decide (j = i)) as [->|Hji].
  - rewrite <- Hgi. cbn. do 2 f_equal. clear -Hj Hg. induction l as [|j l IH]; [done|].
    apply not_elem_of_cons in Hj as [Hji Hj]. cbn. by rewrite Hg, IH.
  - apply elem_of_cons in Hi as [->|Hi]; [done|]. rewrite Hg by done. rewrite <- IH by done. lia.
Qed.

Section Periodic.
Variable handlers : nat → nat → Task → list cop.
Variable asyncs : nat → nat → list sop.
Variable validators : nat → nat → bool.

(** [n] tasks; task [i] is first due at [start + first i] and repeats itself
    every [p i]. *)
Variable n : nat.
Variable start : Z.
Variables first p : nat → Z.
Hypothesis p_nonneg : ∀ i, i < n → (0 ≤ p i)%Z.
Hypothesis handlers_repeat : ∀ i k t, i < n →
  handlers i k t = [CopRepeat (p i)] ∨ (handlers i k t = [CopRepeatSame] ∧ first i = p i).

Definition runs (i : nat) (ex : list (nat * Z)) : nat := length (filter (λ x, x.1 = i) ex).
Definition next_due (i k : nat) : Z := (start + first i + Z.of_nat k * p i)%Z.

Record periodic (ex0 : list (nat * Z)) (s : TaskScheduler) : Prop := {
  pr_alive : self_alive s = true;
  pr_predicate : _predicate s = None;
  pr_asyncs : _asyncHolder s = [];
  pr_queue : _task_holder s ≡ₚ seq 0 n;
  pr_sorted : queue_sorted (heap s) (_task_holder s);
  pr_task : ∀ i, i < n → ∃ t, heap s !! i = Some t ∧ _task t = i ∧ (first i = p i → _duration t = p i);
  (** each task ran as often as its next due time says, and never early *)
  pr_executed : ∃ ex, executed s = ex0 ++ ex ∧ ∀ i, i < n → end_of (heap s) i = next_due i (runs i ex) ∧
    (runs i ex = 0 ∨ (next_due i (runs i ex - 1) ≤ _now s)%Z) }.

Lemma runs_app i a b : runs i (a ++ b) = runs i a + runs i b.
Proof. unfold runs. by rewrite filter_app, length_app. Qed.

Lemma runs_one i j e : runs i [(j, e)] = if decide (j = i) then 1 else 0.
Proof. unfold runs. rewrite filter_cons, filter_nil. cbn. by case_decide. Qed.

(** One round of the second loop of [Dispatch]. *)
Lemma periodic_step ex0 fuel s i q :
  periodic ex0 s → _task_holder s = i :: q → (end_of (heap s) i ≤ _now s)%Z →
  ∃ s', Dispatch_tasks handlers validators (S fuel) s = Dispatch_tasks handlers validators fuel s' ∧
    periodic ex0 s' ∧ _now s' = _now s ∧ executed s' = executed s ++ [(i, end_of (heap s) i)] ∧
    ∀ j, end_of (heap s') j = if decide (j = i) then (end_of (heap s) i + p i)%Z else end_of (heap s) j.
Proof.
  intros [Hal Hpr Has Hqp Hso Hta Hex] Hq Hdue.
  assert (i < n) as Hi by (apply (in_seq n 0); rewrite <- list_elem_of_In, <- Hqp, Hq; left).
  assert (NoDup (i :: q)) as [Hiq Hnd]%NoDup_cons by (rewrite <- Hq, Hqp; apply NoDup_seq).
  destruct (Hta i Hi) as (t & Ht & Hti & Hdu).
  assert (end_of (heap s) i = _end t) as He by (unfold end_of; by rewrite Ht).
  destruct s as [al nw q0 a pr hp c nt nc tk exe]; cbn in *. subst q0 pr a al. rewrite He in *.
  set (t' := repeated_task (p i) t).
  assert (∀ j, end_of (<[i := t']> hp) j = if decide (j = i) then (_end t + p i)%Z else end_of hp j) as Hends.
  { intros j. unfold end_of at 1. case_decide as Hj; [subst j; by rewrite lookup_insert_eq|].
    by rewrite lookup_insert_ne by done. }
  exists (mk_TaskScheduler true nw (multiset_insert (<[i := t']> hp) i q) [] None (<[i := t']> hp)
    (<[nc := mk_TaskContext i true]> (<[nc := mk_TaskContext i false]> c)) nt (S nc) (S tk) (exe ++ [(i, _end t)])).
  split; [|split; [split; cbn; try done|by repeat split]].
  - cbn [Dispatch_tasks TaskQueue_IsEmpty TaskQueue_First _task_holder]. cbn. rewrite He.
    destruct (Z.ltb_spec nw (_end t)); [lia|]. unfold get_task. cbn. rewrite Ht. cbn.
    unfold Invoke, get_context, get_task. cbn. rewrite lookup_insert_eq. cbn. rewrite Ht, Hti. cbn.
    assert (ctx_Repeat nc (p i) (mk_TaskScheduler true nw q [] None hp (<[nc := mk_TaskContext i false]> c) nt (S nc)
      (S tk) (exe ++ [(i, _end t)])) = Done (mk_TaskScheduler true nw (multiset_insert (<[i := t']> hp) i q) [] None
      (<[i := t']> hp) (<[nc := mk_TaskContext i true]> (<[nc := mk_TaskContext i false]> c)) nt (S nc) (S tk)
      (exe ++ [(i, _end t)]))) as Hr.
    { unfold ctx_Repeat, get_context, get_task. cbn. rewrite lookup_insert_eq. cbn. by rewrite Ht. }
    destruct (handlers_repeat i tk t Hi) as [->|[-> Hfp]]; cbn.
    + rewrite Hr. done.
    + unfold ctx_RepeatSame, get_context, get_task. cbn. rewrite lookup_insert_eq. cbn. rewrite Ht. cbn.
      rewrite (Hdu Hfp), Hr. done.
  - rewrite multiset_insert_perm. by rewrite <- Hqp.
  - apply multiset_insert_sorted. apply StronglySorted_inv in Hso as [Hso _].
    eapply queue_sorted_ext; [|exact Hso]. intros j Hj. rewrite Hends. case_decide; [by subst|done].
  - intros j Hj. destruct (decide (j = i)) as [->|Hji].
    + exists t'. by rewrite lookup_insert_eq.
    + rewrite lookup_insert_ne by done. by apply Hta.
  - destruct Hex as (ex & -> & Hall). exists (ex ++ [(i, _end t)]). rewrite app_assoc. split; [done|].
    intros j Hj. rewrite Hends, runs_app, runs_one. destruct (Hall j Hj) as [Hej Hlate].
    destruct (decide (j = i)) as [->|Hji].
    + rewrite decide_True by done. rewrite He in Hej. split; [unfold next_due in *; lia|right].
      replace (runs i ex + 1 - 1) with (runs i ex) by lia. by rewrite <- Hej.
    + rewrite decide_False, Nat.add_0_r by congruence. done.
Qed.

Lemma periodic_now ex0 now s : periodic ex0 s → (_now s ≤ now)%Z → periodic ex0 (set_now now s).
Proof.
  destruct s as [al nw q0 a pr hp c nt nc tk exe]. intros [Hal Hpr Has Hqp Hso Hta (ex & Hex & Hall)] Hle. cbn in *.
  split; cbn; try done. exists ex. split; [done|]. intros i Hi. destruct (Hall i Hi) as [He Hl]. split; [done|]. lia.
Qed.

(** No end point lies further ahead than one period. *)
Lemma periodic_ends ex0 s i :
  periodic ex0 s → i < n → (start ≤ _now s)%Z → (end_of (heap s) i ≤ _now s + Z.max (first i) (p i))%Z.
Proof.
  intros Hp Hi Hs. destruct (pr_executed _ _ Hp) as (ex & _ & Hall). destruct (Hall i Hi) as [-> Hl]. unfold next_due in *.
  destruct Hl as [->|Hl]; [lia|]. destruct (runs i ex) as [|k]; [lia|]. replace (S k - 1) with k in Hl by lia. lia.
Qed.

(** The rounds the loop has left. *)
Definition rounds (now : Z) (h : gmap nat Task) : nat :=
  sum_list_with (λ i, Z.to_nat ((now - end_of h i) / p i + 1)) (seq 0 n).

Lemma periodic_nonempty ex0 s i : periodic ex0 s → i < n → _task_holder s ≠ [].
Proof.
  intros Hp Hi Hq. assert (i ∈ _task_holder s) as Hin by (rewrite (pr_queue _ _ Hp); apply list_elem_of_In, in_seq; lia).
  rewrite Hq in Hin. by apply elem_of_nil in Hin.
Qed.

(** A queue whose first task is not due has no due task. *)
Lemma periodic_not_due ex0 s i q :
  periodic ex0 s → _task_holder s = i :: q → (_now s < end_of (heap s) i)%Z →
  ∀ j, j < n → (_now s < end_of (heap s) j)%Z.
Proof.
  intros Hp Hq Hi j Hj. pose proof (pr_sorted _ _ Hp) as Hs. rewrite Hq in Hs.
  apply StronglySorted_inv in Hs as [_ Hs]. rewrite Forall_forall in Hs.
  assert (j ∈ i :: q) as [->|Hjq]%elem_of_cons; [|done|specialize (Hs j Hjq); unfold ends_le in Hs; lia].
  rewrite <- Hq, (pr_queue _ _ Hp). apply list_elem_of_In, in_seq. lia.
Qed.

Lemma Dispatch_tasks_periodic ex0 fuel : ∀ s,
  (∀ i, i < n → (0 < p i)%Z) → periodic ex0 s → rounds (_now s) (heap s) ≤ fuel →
  ∃ s', Dispatch_tasks handlers validators fuel s = Done (true, s') ∧ periodic ex0 s' ∧ _now s' = _now s ∧
    ∀ i, i < n → (_now s' < end_of (heap s') i)%Z.
Proof.
  induction fuel as [|fuel IH]; intros s Hpos Hp Hr.
  all: destruct (_task_holder s) as [|i q] eqn:Hq.
  1,3: exists s; split; [cbn; unfold TaskQueue_IsEmpty; by rewrite Hq|split; [done|split; [done|]]];
    intros i Hi; by destruct (periodic_nonempty _ _ _ Hp Hi).
  all: assert (i < n) as Hi by (apply (in_seq n 0); rewrite <- list_elem_of_In, <- (pr_queue _ _ Hp), Hq; left).
  all: destruct (Z.ltb_spec (_now s) (end_of (heap s) i)) as [Hlt|Hge].
  1,3: exists s; split; [|split; [done|split; [done|by eapply periodic_not_due]]];
    cbn; unfold TaskQueue_IsEmpty, TaskQueue_First; rewrite Hq; cbn; by rewrite (proj2 (Z.ltb_lt _ _) Hlt).
  - exfalso. assert (Z.to_nat ((_now s - end_of (heap s) i) / p i + 1) ≤ rounds (_now s) (heap s)).
    { unfold rounds. apply (sum_list_with_in i (λ i, Z.to_nat ((_now s - end_of (heap s) i) / p i + 1))).
      apply list_elem_of_In, in_seq. lia. }
    assert (0 ≤ (_now s - end_of (heap s) i) / p i)%Z by (apply Z.div_pos; [lia|by apply Hpos]). lia.
  - destruct (periodic_step ex0 fuel s i q Hp Hq Hge) as (s' & -> & Hp' & Hn & _ & Hends).
    destruct (IH s' Hpos Hp') as (s2 & -> & Hp2 & Hn2 & Hdue2).
    + assert (S (rounds (_now s') (heap s')) = rounds (_now s) (heap s)); [|lia].
      apply (sum_list_with_dec _ _ i); [apply NoDup_seq|apply list_elem_of_In, in_seq; lia|..].
      * rewrite Hends, decide_True, Hn by done. specialize (Hpos i Hi).
        replace (_now s - (end_of (heap s) i + p i))%Z with (_now s - end_of (heap s) i + -1 * p i)%Z by lia.
        rewrite Z.div_add by lia.
        assert (0 ≤ (_now s - end_of (heap s) i) / p i)%Z by (apply Z.div_pos; lia). lia.
      * intros j Hj. by rewrite Hends, decide_False, Hn.
    + exists s2. split; [done|]. split; [done|]. split; [congruence|exact Hdue2].
Qed.

(** A task without a period that is due runs for ever. *)
Lemma Dispatch_tasks_zero ex0 fuel : ∀ s i,
  periodic ex0 s → i < n → p i = 0%Z → (end_of (heap s) i ≤ _now s)%Z →
  Dispatch_tasks handlers validators fuel s = Throw OutOfFuel.
Proof.
  induction fuel as [|fuel IH]; intros s i Hp Hi Hz Hdue.
  all: destruct (_task_holder s) as [|j q] eqn:Hq;
    [by destruct (periodic_nonempty _ _ _ Hp Hi)|].
  all: destruct (Z.ltb_spec (_now s) (end_of (heap s) j)) as [Hlt|Hge];
    [pose proof (periodic_not_due _ _ _ _ Hp Hq Hlt i Hi); lia|].
  - cbn. unfold TaskQueue_IsEmpty, TaskQueue_First. rewrite Hq. cbn. by rewrite (proj2 (Z.ltb_ge _ _) Hge).
  - destruct (periodic_step ex0 fuel s j q Hp Hq Hge) as (s' & -> & Hp' & Hn & _ & Hends).
    apply (IH s' i); [done..|]. rewrite Hends, Hn. case_decide as Hij; [subst j; lia|done].
Qed.

(** Dispatching reaches the tasks: there is no validator and nothing
    asynchronous. *)
Lemma Update_by_periodic ex0 fuel d s :
  periodic ex0 s → Update_by handlers asyncs validators fuel d s = Dispatch_tasks handlers validators fuel (set_now (_now s + d) s).
Proof.
  intros Hp. unfold Update_by, Dispatch, call_predicate.
  pose proof (pr_predicate _ _ Hp) as H1. pose proof (pr_asyncs _ _ Hp) as H2. destruct s; cbn in *. subst.
  cbn. destruct fuel; done.
Qed.

(** What an update leaves: every task ran as often as it was due. *)
Lemma Update_by_exact ex0 fuel d s :
  (∀ i, i < n → (0 < p i)%Z) → periodic ex0 s → (0 ≤ d)%Z →
  sum_list_with (λ i, due (first i) (p i) (_now s + d - start)) (seq 0 n) ≤ fuel →
  ∃ s' ex, Update_by handlers asyncs validators fuel d s = Done (true, s') ∧ periodic ex0 s' ∧ _now s' = (_now s + d)%Z ∧
    executed s' = ex0 ++ ex ∧ ∀ i, i < n → runs i ex = due (first i) (p i) (_now s' - start).
Proof.
  intros Hpos Hp Hd Hf. rewrite (Update_by_periodic ex0) by done.
  pose proof (periodic_now ex0 (_now s + d) s Hp ltac:(lia)) as Hp1.
  set (s1 := set_now (_now s + d) s) in *. assert (_now s1 = _now s + d)%Z as Hn1 by (by destruct s).
  destruct (Dispatch_tasks_periodic ex0 fuel s1 Hpos Hp1) as (s2 & Hs2 & Hp2 & Hn2 & Hlate).
  { etrans; [|exact Hf]. rewrite Hn1. unfold rounds. apply sum_list_with_le. intros i [_ Hi]%list_elem_of_In%in_seq.
    destruct (pr_executed _ _ Hp1) as (ex & _ & Hall). destruct (Hall i Hi) as [-> _]. unfold next_due.
    replace (_now s + d - (start + first i + Z.of_nat (runs i ex) * p i))%Z
      with (_now s + d - start - (first i + Z.of_nat (runs i ex) * p i))%Z by lia.
    rewrite due_rest by (by apply Hpos). lia. }
  destruct (pr_executed _ _ Hp2) as (ex & Hex & Hall). exists s2, ex.
  split; [done|split; [done|split; [lia|split; [done|]]]]. intros i Hi. destruct (Hall i Hi) as [He Hk]. specialize (Hlate i Hi).
  rewrite He in Hlate. unfold next_due in *. apply due_exact; [by apply Hpos|lia|lia].
Qed.
End Periodic.

(** ** The three tasks *)
Definition ping_minutes (cfg : ConfigState) : Z := fst (GetOption uint32 "MaxPingTime" 30 true cfg).

Definition pool_first (m : Z) (i : nat) : Z := match i with 0 => m * minute | 1 => 10 * second | _ => 1 * second end.
Definition pool_period (m : Z) (i : nat) : Z := match i with 0 => m * minute | 1 => 1 * second | _ => 5 * second end.

Lemma pool_handlers_repeat m i k t : i < 3 →
  pool_handlers i k t = [CopRepeat (pool_period m i)] ∨
  (pool_handlers i k t = [CopRepeatSame] ∧ pool_first m i = pool_period m i).
Proof. intros Hi. destruct i as [|[|[|i]]]; cbn; [by right|by left|by left|lia]. Qed.

(** Scheduling task [n] beside the tasks [0] to [n - 1]. *)
Lemma Schedule_periodic n start first p ex0 s :
  periodic n start first p ex0 s → executed s = ex0 → next_task s = n → _now s = start →
  let s' := Schedule (first n) None n s in
  periodic (S n) start first p ex0 s' ∧ executed s' = ex0 ∧ next_task s' = S n ∧ _now s' = start.
Proof.
  destruct s as [al nw q0 a pr hp c nt nc tk exe]. intros [Hal Hpr Has Hqp Hso Hta (ex & Hex & Hall)]. cbn in *.
  intros -> -> ->. split; [|done]. set (t := mk_Task (start + first n) (first n) None 0 n).
  assert (∀ i, i < n → <[n := t]> hp !! i = hp !! i) as Hold by (intros; apply lookup_insert_ne; lia).
  split; cbn; try done.
  - rewrite multiset_insert_perm, Hqp. change (n :: seq 0 n ≡ₚ seq 0 (S n)). rewrite seq_S. apply Permutation_cons_append.
  - apply multiset_insert_sorted. eapply queue_sorted_ext; [|exact Hso]. intros i Hi. unfold end_of.
    rewrite Hold; [done|]. apply (in_seq n 0). rewrite <- list_elem_of_In, <- Hqp. done.
  - intros i Hi. destruct (decide (i = n)) as [->|Hn].
    + exists t. by rewrite lookup_insert_eq.
    + rewrite Hold by lia. apply Hta. lia.
  - exists []. rewrite app_nil_r. split; [done|]. intros i Hi. split; [|by left]. unfold next_due. cbn. unfold end_of.
    destruct (decide (i = n)) as [->|Hn]; [rewrite lookup_insert_eq; cbn; lia|]. rewrite Hold by lia.
    assert (ex = []) as -> by (by apply (app_inv_head ex0); rewrite app_nil_r).
    destruct (Hall i) as [He _]; [lia|]. exact He.
Qed.

Lemma AddTasks_Done cfg s s' :
  AddTasks cfg s = Done s' ↔
    (10 ≤ fst (GetOption uint32 "MaxQueueSize" 10 true cfg))%Z ∧ (ping_minutes cfg * minute < 2 ^ 63)%Z ∧
    s' = Schedule (1 * second) None check_task (Schedule (10 * second) None cleanup_task
           (Schedule (ping_minutes cfg * minute) None ping_task s)).
Proof.
  unfold AddTasks, assert, to_nanoseconds. fold (ping_minutes cfg).
  destruct (Z.leb_spec 10 (fst (GetOption uint32 "MaxQueueSize" 10 true cfg))); cbn [mbind outcome_bind];
    [|split; [done|lia]].
  destruct (Z.ltb_spec (ping_minutes cfg * minute) (2 ^ 63)); cbn [mbind outcome_bind]; [|split; [done|lia]].
  split; [intros [= <-]|intros (_ & _ & ->)]; done.
Qed.

Lemma AddTasks_periodic cfg start s :
  AddTasks cfg (TaskScheduler_new start None) = Done s →
  periodic 3 start (pool_first (ping_minutes cfg)) (pool_period (ping_minutes cfg)) [] s ∧ _now s = start.
Proof.
  intros (_ & _ & ->)%AddTasks_Done. set (m := ping_minutes cfg).
  assert (periodic 0 start (pool_first m) (pool_period m) [] (TaskScheduler_new start None)) as H0.
  { split; cbn; try done; [constructor|intros; lia|]. exists []. split; [done|]. intros. lia. }
  destruct (Schedule_periodic _ _ _ _ _ _ H0) as (P1 & ? & ? & ?); [done..|].
  destruct (Schedule_periodic _ _ _ _ _ _ P1) as (P2 & ? & ? & ?); [done..|].
  by destruct (Schedule_periodic _ _ _ _ _ _ P2) as (P3 & _ & _ & ?); [done..|].
Qed.

(** A sequence of updates, each with what the clock reads. *)
Definition pool_updates (fuel : nat) (steps : list (Z * Z)) (s : TaskScheduler) : result TaskScheduler :=
  ofold (λ s step, DatabaseWorkerPool_Update fuel step.1 step.2 s) steps s.

Lemma due_same P e : (0 < P)%Z → (0 ≤ e)%Z → due P P e = Z.to_nat (e / P).
Proof.
  intros HP He. unfold due. destruct (Z.ltb_spec e P).
  - by rewrite Z.div_small by lia.
  - replace (e - P)%Z with (e + -1 * P)%Z by lia. rewrite Z.div_add by lia.
    pose proof (Z.div_le_lower_bound e P 1). lia.
Qed.


Definition sum_Z (l : list Z) : Z := foldr Z.add 0%Z l.

(** The runs of the three tasks after [elapsed]. *)
Definition runs_due (cfg : ConfigState) (elapsed : Z) (i : nat) : nat :=
  due (pool_first (ping_minutes cfg) i) (pool_period (ping_minutes cfg) i) elapsed.
Definition enough_fuel (cfg : ConfigState) (elapsed : Z) : nat := sum_list_with (runs_due cfg elapsed) (seq 0 3).

Lemma pool_period_pos m i : (0 < m)%Z → i < 3 → (0 < pool_period m i)%Z.
Proof. unfold pool_period, minute, second, millisecond. intros. repeat case_match; lia. Qed.

Lemma pool_updates_exact cfg start fuel steps : ∀ s,
  (0 < ping_minutes cfg)%Z → Forall (λ x, 0 < x.2)%Z steps →
  periodic 3 start (pool_first (ping_minutes cfg)) (pool_period (ping_minutes cfg)) [] s →
  (∀ i, i < 3 → runs i (executed s) = runs_due cfg (_now s - start) i) →
  let elapsed := (_now s - start + sum_Z steps.*2 * millisecond)%Z in
  enough_fuel cfg elapsed ≤ fuel →
  ∃ s', pool_updates fuel steps s = Done s' ∧ (_now s' - start = elapsed)%Z ∧
    periodic 3 start (pool_first (ping_minutes cfg)) (pool_period (ping_minutes cfg)) [] s' ∧
    ∀ i, i < 3 → runs i (executed s') = runs_due cfg elapsed i.
Proof.
  induction steps as [|[now d] steps IH]; intros s Hm Hpos Hp Hruns elapsed Hf.
  { exists s. assert (elapsed = _now s - start)%Z as -> by (unfold elapsed; cbn; lia). done. }
  apply Forall_cons in Hpos as [Hd Hpos]. cbn in Hd. cbn [pool_updates ofold].
  assert (0 ≤ sum_Z steps.*2)%Z as Hsum.
  { clear -Hpos. induction Hpos as [|x l Hx _ IH]; unfold sum_Z in *; cbn in *; lia. }
  assert (elapsed = _now s + d * millisecond - start + sum_Z steps.*2 * millisecond)%Z as He.
  { unfold elapsed. change (sum_Z ((now, d) :: steps).*2) with (d + sum_Z steps.*2)%Z. lia. }
  destruct (Update_by_exact pool_handlers (λ _ _, []) (λ _ _, true) 3 start (pool_first (ping_minutes cfg))
    (pool_period (ping_minutes cfg))) with (ex0 := @nil (nat * Z)) (fuel := fuel) (d := (d * millisecond)%Z) (s := s)
    as (s1 & ex & Hu & Hp1 & Hn1 & Hex & Hall).
  - intros i k t. apply pool_handlers_repeat.
  - intros i Hi. by apply pool_period_pos.
  - done.
  - unfold millisecond. lia.
  - etrans; [|exact Hf]. apply sum_list_with_le. intros i [_ Hi]%list_elem_of_In%in_seq.
    apply due_mono; [by apply pool_period_pos|]. unfold millisecond in *. lia.
  - unfold DatabaseWorkerPool_Update. cbn [fst snd]. rewrite (proj2 (Z.ltb_lt _ _) Hd), Hu. cbn.
    destruct (IH s1 Hm Hpos Hp1) as (s' & Hs' & Hn' & Hp' & Hr').
    + intros i Hi. rewrite Hex. by apply Hall.
    + by rewrite Hn1, <- He.
    + exists s'. rewrite Hn1, <- He in *. done.
Qed.

Lemma enough_fuel_mono cfg a b : (0 < ping_minutes cfg)%Z → (a ≤ b)%Z → enough_fuel cfg a ≤ enough_fuel cfg b.
Proof.
  intros Hm Hab. apply sum_list_with_le. intros i [_ Hi]%list_elem_of_In%in_seq. apply due_mono; [by apply pool_period_pos|done].
Qed.

(** What was run after a sequence of updates from the start. *)
Lemma pool_tasks_counts cfg start fuel steps s0 :
  (0 < ping_minutes cfg)%Z → Forall (λ x, 0 < x.2)%Z steps →
  AddTasks cfg (TaskScheduler_new start None) = Done s0 →
  let elapsed := (sum_Z steps.*2 * millisecond)%Z in
  enough_fuel cfg elapsed ≤ fuel →
  ∃ s, pool_updates fuel steps s0 = Done s ∧
    (∀ i, i < 3 → (end_of (heap s) i ≤ start + elapsed + Z.max (ping_minutes cfg * minute) (10 * second))%Z) ∧
    Z.of_nat (runs ping_task (executed s)) = (elapsed / (ping_minutes cfg * minute))%Z ∧
    Z.of_nat (runs cleanup_task (executed s)) = Z.max 0 (elapsed / second - 9) ∧
    Z.of_nat (runs check_task (executed s)) = ((elapsed + 4 * second) / (5 * second))%Z.
Proof.
  intros Hm Hpos Hs0 elapsed Hf. destruct (AddTasks_periodic _ _ _ Hs0) as [Hper Hnow].
  destruct (pool_updates_exact cfg start fuel steps s0 Hm Hpos Hper) as (s' & Hs & Hn' & Hp' & Hr).
  - intros i Hi. rewrite Hnow, Z.sub_diag. apply AddTasks_Done in Hs0 as (_ & _ & ->).
    destruct i as [|[|[|i]]]; [| | |lia]; unfold runs_due, due, pool_first; cbn -[Z.mul].
    all: rewrite (proj2 (Z.ltb_lt _ _)); [done|unfold minute, second, millisecond; lia].
  - rewrite Hnow. by replace (start - start + _)%Z with elapsed by lia.
  - assert (0 ≤ elapsed)%Z as He.
    { unfold elapsed, millisecond. clear -Hpos. induction Hpos as [|x l Hx _ IH]; unfold sum_Z in *; cbn in *; lia. }
    rewrite Hnow, Z.sub_diag in Hn'.
    exists s'. split; [done|]. split.
    { intros i Hi. pose proof (periodic_ends _ _ _ _ _ _ _ Hp' Hi ltac:(unfold elapsed in *; lia)) as Hend.
      unfold pool_first, pool_period in Hend. fold elapsed in Hn'.
      destruct i as [|[|[|i]]]; unfold second, minute, millisecond in *; lia. }
    rewrite !Hr by (unfold ping_task, cleanup_task, check_task; lia).
    rewrite Hnow. replace (start - start + _)%Z with elapsed by lia.
    unfold runs_due, pool_first, pool_period. cbn -[Z.mul due]. split; [|split].
    + rewrite due_same; [|unfold minute, second, millisecond; lia|done].
      rewrite Z2Nat.id; [done|]. apply Z.div_pos; [done|unfold minute, second, millisecond; lia].
    + unfold due. destruct (Z.ltb_spec elapsed (10 * second)) as [Hl|Hl].
      * assert (elapsed / second < 10)%Z by (apply Z.div_lt_upper_bound; unfold second, millisecond in *; lia). lia.
      * replace (elapsed - 10 * second)%Z with (elapsed + -10 * second)%Z by lia. rewrite Z.mul_1_l, Z.div_add by done.
        assert (10 ≤ elapsed / second)%Z by (apply Z.div_le_lower_bound; unfold second, millisecond in *; lia). lia.
    + unfold due. destruct (Z.ltb_spec elapsed (1 * second)) as [Hl|Hl].
      * symmetry. apply Z.div_small. unfold second, millisecond in *. lia.
      * replace (elapsed + 4 * second)%Z with (elapsed - 1 * second + 1 * (5 * second))%Z by lia.
        rewrite Z.div_add by done.
        assert (0 ≤ (elapsed - 1 * second) / (5 * second))%Z by (apply Z.div_pos; unfold second, millisecond in *; lia). lia.
Qed.

(** ** Properties *)
(** With [MaxPingTime = 0] the ping repeats itself without end at one point
    in time: no update of the pool, and so no round of the main loop, ends. *)
Theorem ping_time_zero_hangs cfg start fuel now d s :
  ping_minutes cfg = 0%Z → (0 < d)%Z → AddTasks cfg (TaskScheduler_new start None) = Done s →
  DatabaseWorkerPool_Update fuel now d s = Throw OutOfFuel.
Proof.
  intros Hz Hd Hs. destruct (AddTasks_periodic cfg start s Hs) as [Hp _]. unfold DatabaseWorkerPool_Update. rewrite (proj2 (Z.ltb_lt _ _) Hd).
  rewrite (Update_by_periodic _ (λ _ _, []) _ _ _ _ _ _ _ _ _ Hp).
  apply (periodic_now _ _ _ _ _ (_now s + d * millisecond)) in Hp;
    [|unfold millisecond; lia].
  rewrite (Dispatch_tasks_zero pool_handlers (λ _ _, true) 3 start _ _
    (λ i k t, pool_handlers_repeat (ping_minutes cfg) i k t) [] fuel _ 0 Hp); [done|lia|cbn; by rewrite Hz|].
  apply AddTasks_Done in Hs as (_ & _ & ->). rewrite Hz. cbn. unfold end_of.
  rewrite !lookup_insert_ne, lookup_insert_eq by done. cbn. unfold millisecond. lia.
Qed.

(** ** Witnesses *)
Definition ping_config (minutes : string) : ConfigState := mk_ConfigState "" (list_to_map [("MaxPingTime", minutes)]) false [].

Example pool_tasks_run :
  match AddTasks (ping_config "1") (TaskScheduler_new 77 None) ≫=
          pool_updates 200 [(0, 30000); (0, 31000); (0, 60000)]%Z with
  | Done s => (runs ping_task (executed s), runs cleanup_task (executed s), runs check_task (executed s)) = (2, 112, 25)
  | _ => False
  end.
Proof. vm_compute. reflexivity. Qed.

Definition pool_start (minutes : string) : TaskScheduler :=
  match AddTasks (ping_config minutes) (TaskScheduler_new 77 None) with Done s => s | _ => TaskScheduler_new 0 None end.

(** The longest time between two pings that does not overflow, and the next. *)
Example ping_time_overflows :
  is_done (AddTasks (ping_config "153722867") (TaskScheduler_new 77 None)) = true ∧
  AddTasks (ping_config "153722868") (TaskScheduler_new 77 None) = Crash "signed overflow of a duration".
Proof. vm_compute. done. Qed.

Lemma ping_time_zero_hangs_witness :
  DatabaseWorkerPool_Update 1000 0 1 (pool_start "0") = Throw OutOfFuel.
Proof. apply (ping_time_zero_hangs (ping_config "0") 77); reflexivity. Defined.
