(* ===== verification/PoolLife.v ===== *)
(** * The life of a pool: constructor and destructor of DatabaseWorkerPool

    The pool is a static object with two kinds of threads that use its members:
    the thread of its AsyncDBQueueChecker, from the constructor on, and a worker
    for each asynchronous connection.  The destructor runs its body and then
    destroys the members, last declared first.  Here that is interleaved with the
    threads: a [move] is the next action of the destructor, or one turn of a
    thread; a use of a member that was destroyed is [Crash].

    - Only the members are listed that have a destructor to run.
    - A thread that sleeps may be woken at any time, so a turn is always possible.
    - The escaping of strings and the texts about a pool are at the end. *)
From S2P Require Import Prelude CppString Convert.

(** ** The constructor *)
Definition MIN_DB_CLIENT_VERSION : Z := 50700.

Definition DatabaseWorkerPool_new (mysql_thread_safe : bool) (mysql_get_client_version MYSQL_VERSION_ID : Z)
    : outcome Empty_set unit :=
  _ ← assert mysql_thread_safe "Used MySQL library isn't thread-safe";
  let isSupportClientDB := (MIN_DB_CLIENT_VERSION <=? mysql_get_client_version)%Z in
  let isSameClientDB := (mysql_get_client_version =? MYSQL_VERSION_ID)%Z in
  _ ← assert isSupportClientDB "WarheadCore does not support MySQL versions below 5.7 and MariaDB 10.3";
  assert isSameClientDB "Used DB library version does not match the version id used to compile WarheadCore".

(** ** The members, as they are declared *)
Inductive member :=
| _stringPreparedStatement | _connections | _connectionInfo | _preparedStatementSize | _openSyncConnectMutex
| _openAsyncConnectMutex | _cleanupMutex | _poolName | _pathToExtraFile | _scheduler | _queue | _asyncQueueCheckQueue
| _asyncQueueChecker.
#[export] Instance member_eq_dec : EqDecision member.
Proof. solve_decision. Defined.

Definition members : list member :=
  [_stringPreparedStatement; _connections; _connectionInfo; _preparedStatementSize; _openSyncConnectMutex;
   _openAsyncConnectMutex; _cleanupMutex; _poolName; _pathToExtraFile; _scheduler; _queue; _asyncQueueCheckQueue;
   _asyncQueueChecker].

(** ** The destructor *)
Inductive action :=
| CancelAll                (* _scheduler->CancelAll() *)
| CancelCheckQueue         (* _asyncQueueCheckQueue->Cancel() *)
| CancelQueue              (* _queue->Cancel() *)
| JoinChecker              (* of ~AsyncDBQueueChecker *)
| CloseConnections         (* the connections one after the other *)
| Free (m : member).
#[export] Instance action_eq_dec : EqDecision action.
Proof. solve_decision. Defined.

Definition member_destructor (m : member) : list action :=
  match m with
  | _asyncQueueChecker => [CancelCheckQueue; JoinChecker]
  | _connections => [CloseConnections]
  | _ => []
  end ++ [Free m].

Definition destructor : list action :=
  [CancelAll; CancelCheckQueue; CancelQueue] ++ (rev members ≫= member_destructor).

(** ** The threads *)
Inductive checker_pc := CheckerIdle | CheckerExecuting | CheckerEnded.
(** [w_cancel]: the connection's destructor has set [_cancel]. *)
Record worker := mk_worker { w_cancel : bool; w_ended : bool }.

Record life := mk_life {
  alive : list member;
  todo : list action;
  checker : checker_pc;
  check_shutdown : bool;     (* _shutdown of the queue of the checker *)
  check_tasks : nat;
  workers : list worker }.   (* one for each asynchronous connection *)

Abbreviation result := (outcome Empty_set).
Definition use (ms : list member) (s : life) (next : life) : result life :=
  if decide (ms ⊆ alive s) then Done next else Crash "use of a destroyed member".

Definition with_workers (ws : list worker) (s : life) : life :=
  mk_life (alive s) (todo s) (checker s) (check_shutdown s) (check_tasks s) ws.

(** The next action of the destructor; one that has to wait does nothing. *)
Definition destroy_step (s : life) : result life :=
  match todo s with
  | [] => Done s
  | a :: rest =>
      let next := mk_life (alive s) rest (checker s) (check_shutdown s) (check_tasks s) (workers s) in
      match a with
      | CancelAll => use [_scheduler] s next
      | CancelCheckQueue => use [_asyncQueueCheckQueue] s (mk_life (alive s) rest (checker s) true 0 (workers s))
      | CancelQueue => use [_queue] s next
      | JoinChecker => match checker s with CheckerEnded => Done next | _ => Done s end
      | CloseConnections =>
          match workers s with
          | [] => Done next
          | w :: ws =>
              if w_ended w then Done (with_workers ws s)
              else if w_cancel w then Done s
              else use [_queue] s (with_workers (mk_worker true false :: ws) s)    (* _queue->NotifyAll() *)
          end
      | Free m => Done (mk_life (filter (λ x, x ≠ m) (alive s)) rest (checker s) (check_shutdown s) (check_tasks s) (workers s))
      end
  end.

(** The members [CheckAsyncQueue] uses. *)
Definition checked : list member :=
  [_queue; _cleanupMutex; _openAsyncConnectMutex; _connections; _connectionInfo; _stringPreparedStatement].

(** A turn of the checker; [opens]: CheckAsyncQueue opens a connection. *)
Definition checker_turn (opens : bool) (s : life) : result life :=
  match checker s with
  | CheckerEnded => Done s
  | CheckerIdle =>
      use [_asyncQueueCheckQueue] s
        (if check_shutdown s then mk_life (alive s) (todo s) CheckerEnded (check_shutdown s) (check_tasks s) (workers s)
         else match check_tasks s with
              | O => s
              | S n => mk_life (alive s) (todo s) CheckerExecuting (check_shutdown s) n (workers s)
              end)
  | CheckerExecuting =>
      use checked s
        (mk_life (alive s) (todo s) CheckerIdle (check_shutdown s) (check_tasks s)
          (if opens then workers s ++ [mk_worker false false] else workers s))
  end.

(** A turn of a worker: it looks at the queue, and ends when it is cancelled. *)
Definition worker_turn (i : nat) (s : life) : result life :=
  match workers s !! i with
  | None => Done s
  | Some w =>
      if w_ended w then Done s
      else use [_queue] s (if w_cancel w then with_workers (<[i := mk_worker true true]> (workers s)) s else s)
  end.

Inductive move := Destroy | CheckerTurn (opens : bool) | WorkerTurn (i : nat).
Definition make_move (m : move) (s : life) : result life :=
  match m with
  | Destroy => destroy_step s
  | CheckerTurn opens => checker_turn opens s
  | WorkerTurn i => worker_turn i s
  end.
Definition make_moves (ms : list move) (s : life) : result life := ofold (λ s m, make_move m s) ms s.

(** The pool when its destructor begins. *)
Definition at_exit (tasks : nat) (c : checker_pc) (connections : nat) : life :=
  mk_life members destructor c false tasks (replicate connections (mk_worker false false)).

(** ** Lemmas *)

(** What is alive after the first [k] actions. *)
Definition alive_after (k : nat) : list member :=
  filter (λ m, Free m ∉ take k destructor) members.

(** The members an action uses. *)
Definition uses (a : action) : list member :=
  match a with
  | CancelAll => [_scheduler]
  | CancelCheckQueue => [_asyncQueueCheckQueue]
  | CancelQueue => [_queue]
  | _ => []
  end.

(** The order of the declarations is right: each action finds its members, and
    the checker all of its own until it is joined. *)
Definition order_ok (k : nat) : bool :=
  bool_decide (default [] (uses <$> destructor !! k) ⊆ alive_after k) &&
  bool_decide (JoinChecker ∈ drop k destructor → _asyncQueueCheckQueue :: checked ⊆ alive_after k).
Lemma order_all : forallb order_ok (seq 0 (S (length destructor))) = true.
Proof. vm_compute. reflexivity. Qed.

Lemma order_at k : k ≤ length destructor →
  default [] (uses <$> destructor !! k) ⊆ alive_after k ∧
  (JoinChecker ∈ drop k destructor → _asyncQueueCheckQueue :: checked ⊆ alive_after k).
Proof.
  intros Hk. pose proof order_all as Ho. rewrite forallb_forall in Ho. specialize (Ho k ltac:(apply in_seq; lia)).
  apply andb_true_iff in Ho as [H1%bool_decide_eq_true H2%bool_decide_eq_true]. done.
Qed.

(** The destructor has done [k] actions; the checker is not joined before it has
    ended; and there is no connection. *)
Record fine (k : nat) (s : life) : Prop := {
  f_done : k ≤ length destructor ∧ todo s = drop k destructor ∧ alive s = alive_after k;
  f_checker : checker s ≠ CheckerEnded → JoinChecker ∈ todo s;
  f_shutdown : 2 ≤ k → check_shutdown s = true;
  f_workers : workers s = [] }.

Lemma alive_free k m : destructor !! k = Some (Free m) → filter (λ x, x ≠ m) (alive_after k) = alive_after (S k).
Proof.
  intros Hk. unfold alive_after. rewrite list_filter_filter. apply list_filter_iff. intros x.
  rewrite (take_S_r _ _ _ Hk), not_elem_of_app, list_elem_of_singleton. split; [intros [? ?]; split; congruence|intros [? ?]; split; congruence].
Qed.
Lemma alive_same k a : destructor !! k = Some a → (∀ m, a ≠ Free m) → alive_after k = alive_after (S k).
Proof.
  intros Hk Ha. unfold alive_after. apply list_filter_iff. intros x.
  rewrite (take_S_r _ _ _ Hk), not_elem_of_app, list_elem_of_singleton. pose proof (Ha x). naive_solver.
Qed.

#[local] Opaque alive_after destructor.

Lemma use_fine ms s next : ms ⊆ alive s → use ms s next = Done next.
Proof. intros H. unfold use. by rewrite decide_True. Qed.

(** [k'] is larger unless the checker has to be waited for. *)
Lemma destroy_fine k s : fine k s → ∃ k' s', destroy_step s = Done s' ∧ fine k' s' ∧
  (k' = S k ∨ k' = k ∧ (todo s = [] ∨ 2 ≤ k ∧ checker s ≠ CheckerEnded)).
Proof.
  intros Hf. pose proof Hf as [[Hk [Ht Ha]] Hc Hs Hw]. unfold destroy_step. destruct (todo s) as [|a rest] eqn:Etodo.
  { exists k, s. split; [done|]. split; [done|auto]. }
  assert (destructor !! k = Some a ∧ drop (S k) destructor = rest) as [Hat Hrest].
  { symmetry in Ht. split; [by rewrite <- (Nat.add_0_r k), <- lookup_drop, Ht|].
    replace (S k) with (k + 1) by lia. rewrite <- drop_drop, Ht. done. }
  assert (S k ≤ length destructor) as Hk' by (apply lookup_lt_Some in Hat; lia).
  destruct (order_at k Hk) as [Huse _]. rewrite Hat in Huse. change (uses a ⊆ alive_after k) in Huse. rewrite <- Ha in Huse.
  assert (∀ sh tk, (∀ m, a ≠ Free m) → a ≠ JoinChecker → (2 ≤ S k → sh = true) →
    fine (S k) (mk_life (alive s) rest (checker s) sh tk (workers s))) as Hnext.
  { intros sh tk Hnf Hj Hsh. split; [|cbn; intros Hne|done|done].
    - split; [done|]. split; [done|]. cbn [alive]. by rewrite Ha, (alive_same k a).
    - apply Hc in Hne. apply elem_of_cons in Hne as [He|]; [congruence|done]. }
  assert (∀ a', a = a' → a' ≠ CancelCheckQueue → 2 ≤ S k → check_shutdown s = true) as Hsh.
  { intros a' <- Hne H2. apply Hs. destruct (decide (k = 1)) as [->|]; [|lia]. vm_compute in Hat. congruence. }
  destruct a as [| | | | |m].
  - eexists (S k), _. split; [by apply use_fine|]. split; [|auto]. by apply Hnext, (Hsh CancelAll).
  - eexists (S k), _. split; [by apply use_fine|]. split; [|auto]. by apply Hnext.
  - eexists (S k), _. split; [by apply use_fine|]. split; [|auto]. by apply Hnext, (Hsh CancelQueue).
  - assert (2 ≤ k) as H2.
    { destruct k as [|[|k]]; [vm_compute in Hat; done..|lia]. }
    destruct (checker s) eqn:Echk; [exists k, s; split; [done|]; split; [done|]; right; split; [done|]; right; split; [done|]; congruence..|].
    eexists (S k), _. split; [done|]. split; [|auto]. split; [|done|cbn; auto|done]. split; [done|]. split; [done|].
    cbn [alive]. by rewrite Ha, (alive_same k JoinChecker).
  - rewrite Hw. eexists (S k), _. split; [done|]. split; [|auto]. rewrite <- Hw. by apply Hnext, (Hsh CloseConnections).
  - eexists (S k), _. split; [done|]. split; [|auto]. split; [|cbn; intros Hne|by apply (Hsh (Free m))|done].
    + split; [done|]. split; [done|]. cbn [alive]. rewrite Ha. by apply alive_free.
    + apply Hc in Hne. apply elem_of_cons in Hne as [He|]; [congruence|done].
Qed.

(** How many turns the checker needs to end. *)
Definition turns (c : checker_pc) : nat := match c with CheckerExecuting => 2 | CheckerIdle => 1 | CheckerEnded => 0 end.

Lemma checker_fine k s : fine k s → ∃ s', checker_turn false s = Done s' ∧ fine k s' ∧ todo s' = todo s ∧
  (2 ≤ k → turns (checker s') ≤ turns (checker s) - 1).
Proof.
  intros Hf. pose proof Hf as [[Hk [Ht Ha]] Hc Hs Hw]. unfold checker_turn.
  destruct (checker s) eqn:Echk; [| |exists s; by rewrite Echk].
  all: specialize (Hc ltac:(done)); pose proof Hc as Hjoin; rewrite Ht in Hjoin;
    destruct (order_at k Hk) as [_ Hall]; specialize (Hall Hjoin); rewrite <- Ha in Hall.
  - eexists. split; [apply use_fine; set_solver|]. destruct (check_shutdown s) eqn:Esh.
    + split; [by split|]. cbn. split; [done|lia].
    + assert (¬ 2 ≤ k) as Hno by (intros H2; apply Hs in H2; congruence).
      destruct (check_tasks s); (split; [split; try done; cbn; rewrite ?Esh; intros; congruence || lia|]; cbn; split; [done|lia]).
  - eexists. split; [apply use_fine; set_solver|]. split; [by split|]. cbn. split; [done|lia].
Qed.

Lemma move_fine m k s : fine k s → (∀ opens, m = CheckerTurn opens → opens = false) →
  ∃ k' s', make_move m s = Done s' ∧ fine k' s'.
Proof.
  intros Hf Hm. destruct m as [|opens|i]; cbn [make_move].
  - destruct (destroy_fine k s Hf) as (k' & s' & ? & ? & _). eauto.
  - rewrite (Hm opens eq_refl). destruct (checker_fine k s Hf) as (s' & ? & ? & _). eauto.
  - exists k, s. split; [|done]. unfold worker_turn. by rewrite (f_workers _ _ Hf), lookup_nil.
Qed.

Lemma moves_fine ms k s : fine k s → CheckerTurn true ∉ ms → ∃ k' s', make_moves ms s = Done s' ∧ fine k' s'.
Proof.
  revert k s. induction ms as [|m ms IH]; intros k s Hf Hm; [by exists k, s|].
  apply not_elem_of_cons in Hm as [Hm Hms].
  destruct (move_fine m k s Hf) as (k1 & s1 & H1 & Hf1); [intros [] ->; done|].
  destruct (IH k1 s1 Hf1 Hms) as (k2 & s2 & H2 & Hf2). exists k2, s2. split; [|done].
  cbn. rewrite H1. cbn. exact H2.
Qed.

Lemma at_exit_fine tasks c : fine 0 (at_exit tasks c 0).
Proof. split; [|intros _; cbn|lia|done]; [split; [lia|split; [done|reflexivity]]|vm_compute; set_solver]. Qed.

(** One action of the destructor, after two turns of the checker. *)
Definition round : list move := [CheckerTurn false; CheckerTurn false; Destroy].

Lemma round_fine k s : fine k s → ∃ k' s', make_moves round s = Done s' ∧ fine k' s' ∧ (k' = S k ∨ k' = k ∧ todo s' = []).
Proof.
  intros Hf. destruct (checker_fine k s Hf) as (s1 & H1 & Hf1 & Ht1 & Hn1).
  destruct (checker_fine k s1 Hf1) as (s2 & H2 & Hf2 & Ht2 & Hn2).
  destruct (destroy_fine k s2 Hf2) as (k' & s3 & H3 & Hf3 & Hk).
  exists k', s3. split; [|split; [done|]].
  { unfold make_moves, round. cbn. rewrite H1. cbn. rewrite H2. cbn. by rewrite H3. }
  destruct Hk as [->|[-> [Hend|[Hk2 Hne]]]]; [by left|right|].
  - split; [done|]. destruct (f_done _ _ Hf2) as (_ & Hd & _), (f_done _ _ Hf3) as (_ & Hd3 & _). congruence.
  - exfalso. specialize (Hn1 Hk2). specialize (Hn2 Hk2). apply Hne.
    assert (turns (checker s) ≤ 2) as Hle by (destruct (checker s); cbn; lia).
    assert (turns (checker s2) = 0) as Hz by lia. by destruct (checker s2).
Qed.

Lemma rounds_end n k s : fine k s → length destructor - k ≤ n →
  ∃ s', make_moves (concat (replicate n round)) s = Done s' ∧ todo s' = [] ∧ alive s' = [].
Proof.
  revert k s. induction n as [|n IH]; intros k s Hf Hn.
  - destruct (f_done _ _ Hf) as (Hk & Ht & Ha). assert (k = length destructor) as -> by lia. exists s. split; [done|].
    rewrite Ht, Ha. split; [apply drop_ge; lia|reflexivity].
  - destruct (round_fine k s Hf) as (k1 & s1 & H1 & Hf1 & Hk1). cbn [replicate concat]. unfold make_moves.
    rewrite ofold_app. change (ofold (λ s m, make_move m s) round s) with (make_moves round s). rewrite H1. cbn.
    destruct Hk1 as [->|[-> Hend]]; [apply (IH (S k)); [done|lia]|].
    apply (IH k); [done|]. destruct (f_done _ _ Hf1) as (Hk & Ht & _). rewrite Hend in Ht.
    assert (length (drop k destructor) = 0) as Hl by (by rewrite <- Ht). rewrite length_drop in Hl. lia.
Qed.

(** *** With a connection left *)
Record stuck (k : nat) (s : life) : Prop := {
  s_done : k ≤ length destructor ∧ todo s = drop k destructor ∧ alive s = alive_after k;
  s_close : CloseConnections ∈ todo s;
  s_workers : workers s ≠ [] ∧ Forall (λ w, w = mk_worker false false) (workers s) }.

Lemma close_needs_queue k : destructor !! k = Some CloseConnections → _queue ∉ alive_after k.
Proof. intros Hk. assert (k ≤ length destructor) as Hl by (apply lookup_lt_Some in Hk; lia).
  assert (forallb (λ k, negb (bool_decide (destructor !! k = Some CloseConnections)) || bool_decide (_queue ∉ alive_after k))
    (seq 0 (S (length destructor))) = true) as Hall by (vm_compute; reflexivity).
  rewrite forallb_forall in Hall. specialize (Hall k ltac:(apply in_seq; lia)).
  rewrite bool_decide_eq_true_2 in Hall by done. by apply bool_decide_eq_true in Hall.
Qed.

Lemma stuck_move m k s s' : stuck k s → make_move m s = Done s' → ∃ k', stuck k' s'.
Proof.
  intros Hst H. pose proof Hst as [[Hk [Ht Ha]] Hc [Hne Hall]]. destruct m as [|opens|i]; cbn [make_move] in H.
  - unfold destroy_step in H. destruct (todo s) as [|a rest] eqn:Etodo; [by apply not_elem_of_nil in Hc|].
    assert (destructor !! k = Some a ∧ drop (S k) destructor = rest) as [Hat Hrest].
    { symmetry in Ht. split; [by rewrite <- (Nat.add_0_r k), <- lookup_drop, Ht|].
      replace (S k) with (k + 1) by lia. rewrite <- drop_drop, Ht. done. }
    assert (S k ≤ length destructor) as Hk' by (apply lookup_lt_Some in Hat; lia).
    assert (a ≠ CloseConnections) as Hnc.
    { intros ->. destruct (workers s) as [|w ws]; [done|]. apply Forall_cons in Hall as [-> _]. cbn in H. unfold use in H.
      rewrite decide_False in H; [done|]. rewrite Ha. intros Hq. apply (close_needs_queue k Hat), Hq. by left. }
    assert (CloseConnections ∈ rest) as Hc' by (apply elem_of_cons in Hc as [He|]; [congruence|done]).
    assert (∀ sh tk c al, al = alive_after (S k) → stuck (S k) (mk_life al rest c sh tk (workers s))) as Hnext
      by (intros; by split).
    destruct a as [| | | | |m]; unfold use in H; try done.
    + destruct (decide _); [|done]. injection H as <-. eexists. apply Hnext. by rewrite Ha, (alive_same k CancelAll).
    + destruct (decide _); [|done]. injection H as <-. eexists. apply Hnext. by rewrite Ha, (alive_same k CancelCheckQueue).
    + destruct (decide _); [|done]. injection H as <-. eexists. apply Hnext. by rewrite Ha, (alive_same k CancelQueue).
    + destruct (checker s); injection H as <-; [by exists k|by exists k|]. eexists. apply Hnext. by rewrite Ha, (alive_same k JoinChecker).
    + injection H as <-. eexists. apply Hnext. rewrite Ha. by apply alive_free.
  - exists k. unfold checker_turn, use in H. destruct (checker s); [| |by injection H as <-]; destruct (decide _); try done; injection H as <-.
    + destruct (check_shutdown s), (check_tasks s); try done; by split.
    + split; [done|done|]. destruct opens; [|done]. cbn. split; [by intros []%app_nil|]. apply Forall_app. split; [done|by constructor].
  - exists k. unfold worker_turn, use in H. destruct (workers s !! i) as [w|] eqn:Hi; [|by injection H as <-].
    apply (Forall_lookup_1 _ _ _ _ Hall) in Hi as ->. cbn in H. destruct (decide _); [|done]. by injection H as <-.
Qed.

(** ** Properties *)

(** C27 The destructor of a pool.  When no connection is left and the checker opens
    none, no thread and no destructor ever uses a member that is gone, whatever
    the interleaving, and the destruction ends as soon as the checker gets two
    turns before each action.  When a connection is left, no run of the
    destructor ends: the workers' destructors use the queue, which is declared
    after the connections and so is destroyed before them. *)
Theorem pool_destruction (tasks : nat) (c : checker_pc) (ms : list move) :
  (CheckerTurn true ∉ ms → ∃ s, make_moves ms (at_exit tasks c 0) = Done s ∧
    ∃ s', make_moves (concat (replicate (length destructor) round)) s = Done s' ∧ todo s' = [] ∧ alive s' = []) ∧
  ∀ connections s, make_moves ms (at_exit tasks c (S connections)) = Done s → CloseConnections ∈ todo s.
Proof.
  split.
  - intros Hm. destruct (moves_fine ms 0 _ (at_exit_fine tasks c) Hm) as (k & s & Hs & Hf). exists s. split; [done|].
    apply (rounds_end _ k); [done|lia].
  - intros connections s H.
    assert (stuck 0 (at_exit tasks c (S connections))) as Hst.
    { split; [split; [lia|by split]|vm_compute; set_solver|]. cbn. split; [done|]. constructor; [done|]. by apply Forall_replicate. }
    revert H Hst. generalize (at_exit tasks c (S connections)) 0. induction ms as [|m ms IH]; intros s0 k H Hst.
    { injection H as <-. apply (s_close _ _ Hst). }
    cbn in H. apply outcome_bind_Done in H as (s1 & H1 & H). destruct (stuck_move m k s0 s1 Hst H1) as [k1 Hst1].
    by apply (IH s1 k1).
Qed.

Lemma pool_destruction_witness :
  (∃ s, make_moves [Destroy; CheckerTurn false; Destroy] (at_exit 3 CheckerExecuting 0) = Done s) ∧
  ∀ s, make_moves [Destroy; CheckerTurn false; Destroy] (at_exit 3 CheckerExecuting 1) = Done s → CloseConnections ∈ todo s.
Proof.
  destruct (pool_destruction 3 CheckerExecuting [Destroy; CheckerTurn false; Destroy]) as [Hsafe Hstuck]. split.
  - destruct Hsafe as (s & Hs & _); [set_solver|]. by exists s.
  - intros s Hs. by apply (Hstuck 0).
Defined.

(** A pool whose second connection could not be opened is never closed; at the
    exit its worker looks at a queue that is gone. *)
Example one_connection_left :
  make_moves (concat (replicate 8 round) ++ [WorkerTurn 0]) (at_exit 0 CheckerIdle 1) = Crash "use of a destroyed member".
Proof. vm_compute. reflexivity. Qed.

(** And so does that of a connection the checker opens after Close. *)
Example connection_opened_after_Close :
  make_moves (CheckerTurn true :: concat (replicate 20 round)) (at_exit 0 CheckerExecuting 0) = Crash "use of a destroyed member".
Proof. vm_compute. reflexivity. Qed.

(** ** EscapeString and GetPoolInfo *)
Section Texts.
(** [mysql_real_escape_string]: the bytes it writes before the terminator. *)
Context (mysql_real_escape_string : list Z → list Z).

(** [operator=] of a string, from a terminated array *)
Fixpoint until_nul (l : list Z) : list Z :=
  match l with [] => [] | b :: l => if (b =? 0)%Z then [] else b :: until_nul l end.

(** The overload with buffers: [size] is that of [to], [syncs] the number of
    synchronous connections; [None]: nothing was written. *)
Definition EscapeString_to (syncs size : nat) (from : list Z) : result (option (list Z)) :=
  match from, syncs with
  | [], _ => Done None
  | _, O => Crash "front of an empty vector"
  | _, S _ =>
      let written := mysql_real_escape_string from in
      if (length written <? size)%nat then Done (Some written) else Crash "write past the end of a buffer"
  end.

(** The buffer is not initialised; the length is a [uint32]. *)
Definition EscapeString (syncs : nat) (str : list Z) : result (list Z) :=
  match str with
  | [] => Done []
  | _ =>
      let from := take (Z.to_nat (wrap_u 32 (Z.of_nat (length str)))) str in
      written ← EscapeString_to syncs (length str * 2 + 1) from;
      match written with
      | Some buf => Done (until_nul buf)
      | None => Crash "read of a buffer that is not initialised"
      end
  end.

(** What its manual says: at most two bytes for one, and no zero byte. *)
Hypothesis escape_length : ∀ s, length (mysql_real_escape_string s) ≤ 2 * length s.
Hypothesis escape_no_nul : ∀ s b, b ∈ mysql_real_escape_string s → b ≠ 0%Z.

Lemma until_nul_id l : (∀ b, b ∈ l → b ≠ 0%Z) → until_nul l = l.
Proof.
  induction l as [|b l IH]; intros Hl; cbn; [done|]. destruct (Z.eqb_spec b 0) as [->|]; [by destruct (Hl 0%Z ltac:(by left))|].
  f_equal. apply IH. intros b' Hb. apply Hl. by right.
Qed.

(** A text of less than 4 GiB is escaped as a whole, within the buffer. *)
Theorem EscapeString_whole (syncs : nat) (str : list Z) :
  0 < length str → (Z.of_nat (length str) < 2 ^ 32)%Z → 0 < syncs →
  EscapeString syncs str = Done (mysql_real_escape_string str).
Proof.
  intros Hpos Hlt Hs. destruct str as [|b str]; [cbn in Hpos; lia|]. set (l := b :: str) in *.
  assert (EscapeString syncs l = (written ← EscapeString_to syncs (length l * 2 + 1) l;
    match written with Some buf => Done (until_nul buf) | None => Crash "read of a buffer that is not initialised" end)) as ->.
  { unfold EscapeString, l at 1. rewrite wrap_u_small, Nat2Z.id, firstn_all by lia. done. }
  unfold EscapeString_to, l at 1. destruct syncs; [lia|].
  pose proof (escape_length l). destruct (Nat.ltb_spec (length (mysql_real_escape_string l)) (length l * 2 + 1)); [|lia]. cbn.
  f_equal. apply until_nul_id. intros b' Hb. by eapply escape_no_nul.
Qed.
End Texts.

(** A double of every quote, as the library does in the mode without backslashes. *)
Definition double_quotes (s : list Z) : list Z := s ≫= λ b, if (b =? 39)%Z then [39; 39]%Z else if (b =? 0)%Z then [92; 48]%Z else [b].
Lemma EscapeString_whole_witness : EscapeString double_quotes 1 [79; 39; 88]%Z = Done [79; 39; 39; 88]%Z.
Proof.
  apply (EscapeString_whole double_quotes); [| |cbn; lia|cbn; lia|lia].
  - intros s. unfold double_quotes. induction s as [|b s IH]; [cbn; lia|]. rewrite bind_cons, length_app. cbn [length].
    destruct (b =? 39)%Z, (b =? 0)%Z; cbn; lia.
  - intros s b (b' & Hb & _)%list_elem_of_bind. destruct (Z.eqb_spec b' 39), (Z.eqb_spec b' 0); set_solver.
Defined.

Definition print_nat (n : nat) : string := print_Z (Z.of_nat n).
Definition GetPoolInfo (poolName : string) (sync async queueSize : nat) (maxAsyncQueueSize : nat) : list string :=
  ["Pool name: " +:+ poolName +:+ ". Connections count (sync/async): " +:+ print_nat sync +:+ "/" +:+ print_nat async;
   "Queue size: " +:+ print_nat queueSize +:+ ". Max size: " +:+ print_nat maxAsyncQueueSize].
