(* ===== verification/Main.v ===== *)
(** * The server: app/Main.cpp, BotMgr.cpp

    [main] from its first line to the destructors of its locals, over the
    configuration of [Config] and the databases of [DatabaseMgr].  The clock and
    the flag [_stopEvent], which another thread sets, are functions of the
    number of the reading; what Discord and the callbacks do to the world behind
    the pools is the interface [BotOps].  Their calls may throw or end the
    process, as those of the pools; an exception that leaves [main] ends it. *)
From S2P Require Import Prelude CppString Convert Timer Config Scheduler DatabaseMgr PoolTasks.

(** The first number for which [f] holds. *)
Lemma first_true (f : nat → bool) N : f N = true → ∃ k, k ≤ N ∧ f k = true ∧ ∀ j, j < k → f j = false.
Proof.
  revert f. induction N as [|N IH]; intros f HN.
  - exists 0. split; [done|split; [done|]]. intros; lia.
  - destruct (f 0) eqn:E; [exists 0; split; [lia|split; [done|]]; intros; lia|].
    destruct (IH (λ n, f (S n)) HN) as (k & Hk & Hs & Hno). exists (S k). split; [lia|split; [done|]].
    intros [|j] Hj; [done|]. apply Hno. lia.
Qed.

(** ** Data *)
Inductive app_event :=
| AppSignals
| AppLogInit
| AppThreads                  (* the thread that runs the I/O context *)
| AppDiscordConfig
| AppDiscordStart
| AppUpdate (diff : Z)
| AppHalt
| AppJoin                     (* ~ThreadPool *)
| AppCloseAll.

Class BotOps (W : Type) := {
  Log_Initialize : W → outcome string unit * W;
  ProcessReadyCallbacks : W → outcome string unit * W;
  DiscordConfigMgr_LoadConfig : W → outcome string unit * W;
  DiscordMgr_Start : W → outcome string unit * W }.

(** The process ends because a call of the log, a pool, its updater, the bot or a
    callback ends it, or throws, with this text. *)
Definition world_ends {W : Type} `{PoolOps W} `{BotOps W} (why : string) : Prop :=
  ∃ x, (x = Thrown why ∨ x = Ended why) ∧
    (pool_stops x ∨
     ∃ w f, f ∈ [Log_Initialize; ProcessReadyCallbacks; DiscordConfigMgr_LoadConfig; DiscordMgr_Start] ∧ stop_of id (fst (f w)) = Some x).

Definition WARHEAD_SERVER_CONFIG : string := "DiscordBot.conf".
Definition DatabaseType_Discord : Z := 1.

Section App.
Context {W : Type} `{PoolOps W} `{BotOps W}.

Record App := mk_App {
  app_config : ConfigState;
  app_dbm : DatabaseMgr (W := W);
  app_log : list app_event }.

Abbreviation AM := (SM fuel_error App).

Definition with_dbm (m : DatabaseMgr (W := W)) (s : App) : App := mk_App (app_config s) m (app_log s).
Definition log_event (e : app_event) : AM unit := modify_state (λ s, mk_App (app_config s) (app_dbm s) (app_log s ++ [e])).

(** Calls of [sDatabaseMgr] and of [sConfigMgr]: an exception out of them ends
    the process. *)
Definition in_dbm {A : Type} (c : SM string (DatabaseMgr (W := W)) A) : AM A := λ s,
  let '(r, m) := c (app_dbm s) in
  (match r with Done a => Done a | Throw e => Crash e | Crash w => Crash w end, with_dbm m s).
Definition in_config {A : Type} (c : CM A) : AM A := λ s,
  let '(r, cfg) := c (app_config s) in
  (match r with Done a => Done a | Throw e => Crash e | Crash w => Crash w end, mk_App cfg (app_dbm s) (app_log s)).
Definition in_world (f : W → outcome string unit * W) : AM unit := in_dbm (call_world f).

(** ** BotMgr.cpp *)
Definition ProcessQueryCallbacks : AM unit := in_world ProcessReadyCallbacks.

Definition BotMgr_Update (diff : Z) : AM unit :=
  _ ← log_event (AppUpdate diff);
  _ ← ProcessQueryCallbacks;
  in_dbm (DatabaseMgr.Update diff).

(** ** Main.cpp *)
Section Run.
Variable IsStopped : nat → bool.
Variable GetTimeMS : nat → Z.

(** The loop at its [n]-th test; the clock was read once before it. *)
Fixpoint update_loop (fuel n : nat) (realPrevTime : Z) : AM unit :=
  if IsStopped n then mret ()
  else match fuel with
  | O => throw OutOfFuel
  | S fuel =>
      let realCurrTime := GetTimeMS (S n) in
      let diff := GetMSTimeDiff realPrevTime realCurrTime in
      if (diff =? 0)%Z then update_loop fuel (S n) realPrevTime
      else
        _ ← BotMgr_Update diff;
        update_loop fuel (S n) realCurrTime
  end.

Definition ServerUpdateLoop (fuel : nat) : AM unit := update_loop fuel 0 (GetTimeMS 0).

Definition StartDB : AM bool :=
  _ ← in_dbm (AddDatabase "Discord" DatabaseType_Discord);
  s ← get_state;
  ok ← in_dbm (Load (app_config s));
  if negb ok then mret false else mret true.

(** [DiscordMgr::LoadConfig]: no bot without a token. *)
Definition DiscordMgr_LoadConfig : AM unit :=
  s ← get_state;
  let _botToken := fst (GetOption_string "Discord.Bot.Token" "" true (app_config s)) in
  if is_empty _botToken then abort "Empty bot token"
  else
    _ ← log_event AppDiscordConfig;
    in_world DiscordConfigMgr_LoadConfig.

(** The constructor of the singleton reads the options. *)
Definition construct_DatabaseMgr : AM unit :=
  modify_state (λ s, with_dbm (new_DatabaseMgr (app_config s) (world (app_dbm s))) s).

(** What the destructors of [threadPool] and of [dbHandle] do, in this order. *)
Definition leave_main : AM unit :=
  _ ← log_event AppJoin;
  _ ← log_event AppCloseAll;
  in_dbm CloseAllConnections.

Variable abort_incorrect : bool.
Variable order : gmap string string → list (string * string).
Variable fs : string → option file.
Variable conf_dir : string.

Definition main (fuel : nat) : AM Z :=
  _ ← log_event AppSignals;
  _ ← in_config (Configure (conf_dir +:+ "/" +:+ WARHEAD_SERVER_CONFIG));
  loaded ← in_config (LoadAppConfigs abort_incorrect order fs);
  if negb loaded then mret 1%Z
  else
    _ ← log_event AppLogInit;
    _ ← in_world Log_Initialize;
    _ ← construct_DatabaseMgr;
    started ← StartDB;
    if negb started then mret 1%Z
    else
      _ ← log_event AppThreads;
      _ ← DiscordMgr_LoadConfig;
      _ ← log_event AppDiscordStart;
      _ ← in_world DiscordMgr_Start;
      _ ← ServerUpdateLoop fuel;
      _ ← log_event AppHalt;
      _ ← leave_main;
      mret 0%Z.

(** ** Lemmas *)
(** The differences the loop passes on in [k] tests from the [n]-th on. *)
Fixpoint diffs (k n : nat) (prev : Z) : list Z :=
  match k with
  | O => []
  | S k =>
      let cur := GetTimeMS (S n) in
      let diff := GetMSTimeDiff prev cur in
      if (diff =? 0)%Z then diffs k (S n) prev else diff :: diffs k (S n) cur
  end.

Lemma update_loop_diffs fuel : ∀ k n prev s,
  (∀ j, n ≤ j < n + k → IsStopped j = false) → IsStopped (n + k) = true → k ≤ fuel →
  update_loop fuel n prev s = for_each BotMgr_Update (diffs k n prev) s.
Proof.
  induction fuel as [|fuel IH]; intros k n prev s Hrun Hstop Hk.
  - assert (k = 0) as -> by lia. rewrite Nat.add_0_r in Hstop. cbn. by rewrite Hstop.
  - destruct k as [|k]; [rewrite Nat.add_0_r in Hstop; cbn; by rewrite Hstop|].
    cbn [update_loop diffs]. rewrite Hrun by lia.
    assert (∀ prev s, update_loop fuel (S n) prev s = for_each BotMgr_Update (diffs k (S n) prev) s) as IH'.
    { intros prev' s'. apply IH; [intros; apply Hrun; lia|by rewrite Nat.add_succ_comm|lia]. }
    destruct (_ =? 0)%Z; [apply IH'|]. cbn [for_each].
    unfold mbind, SM_bind. destruct (BotMgr_Update _ s) as [[] s']; [apply IH'|done..].
Qed.

(** On a clock that does not go back: every difference is positive, and they
    add up to the time that has passed. *)
Lemma diffs_clock k : ∀ n, (∀ i, GetTimeMS i ≤ GetTimeMS (S i))%Z →
  Forall (λ d, 0 < d)%Z (diffs k n (GetTimeMS n)) ∧ sum_Z (diffs k n (GetTimeMS n)) = (GetTimeMS (n + k) - GetTimeMS n)%Z.
Proof.
  induction k as [|k IH]; intros n Hmono; [rewrite Nat.add_0_r; split; [constructor|cbn; lia]|].
  specialize (IH (S n) Hmono) as [IHp IHs]. cbn [diffs]. pose proof (Hmono n) as Hn.
  assert (GetMSTimeDiff (GetTimeMS n) (GetTimeMS (S n)) = GetTimeMS (S n) - GetTimeMS n)%Z as ->.
  { unfold GetMSTimeDiff. destruct (Z.ltb_spec (GetTimeMS (S n)) (GetTimeMS n)); lia. }
  replace (n + S k) with (S n + k) by lia.
  destruct (Z.eqb_spec (GetTimeMS (S n) - GetTimeMS n) 0) as [Hz|Hz].
  - assert (GetTimeMS n = GetTimeMS (S n)) as -> by lia. by split.
  - split; [constructor; [lia|done]|]. unfold sum_Z in *. cbn [foldr]. rewrite IHs. lia.
Qed.

(** An update changes nothing of the manager but the world. *)
Definition app_same (s s' : App) : Prop :=
  app_config s' = app_config s ∧ mgr_trace (app_dbm s') = mgr_trace (app_dbm s) ∧
  _close (app_dbm s') = _close (app_dbm s) ∧ _poolList (app_dbm s') = _poolList (app_dbm s).

(** What a part of the program does to the app, or that the process ends. *)
Definition app_step (s : App) (Q : App → Prop) (p : outcome fuel_error unit * App) : Prop :=
  match p with
  | (Done _, s') => Q s'
  | (Throw _, _) => False
  | (Crash why, _) => world_ends (W := W) why
  end.

Lemma pool_ends {A : Type} (r : outcome string A) x why :
  stop_of id r = Some x → pool_stops x → (r = Throw why ∨ r = Crash why) → world_ends (W := W) why.
Proof.
  intros Hx Hp Hr. exists x. split; [|by left]. destruct Hr as [-> | ->]; cbn in Hx; injection Hx as <-; auto.
Qed.

Lemma bot_call f s :
  f ∈ [Log_Initialize; ProcessReadyCallbacks; DiscordConfigMgr_LoadConfig; DiscordMgr_Start] →
  app_step s (λ s', ∃ w', f (world (app_dbm s)) = (Done (), w') ∧ s' = with_dbm (with_world w' (app_dbm s)) s) (in_world f s).
Proof.
  intros Hf. unfold in_world, in_dbm, call_world.
  destruct (f (world (app_dbm s))) as [[[]|e|why] w'] eqn:E; cbn;
    [by exists w'|exists (Thrown e)|exists (Ended why)];
    (split; [auto|right; exists (world (app_dbm s)), f; split; [done|by rewrite E]]).
Qed.

Lemma update_pools diff pools : ∀ m : DatabaseMgr (W := W),
  match for_each (λ pool, call_world (pool_Update diff pool)) pools m with
  | (Done _, m') => mgr_trace m' = mgr_trace m ∧ _close m' = _close m ∧ _poolList m' = _poolList m
  | (r, _) => ∃ x, stop_of id r = Some x ∧ pool_stops x
  end.
Proof.
  induction pools as [|p l IH]; intros m; [done|]. cbn [for_each]. unfold mbind, SM_bind, call_world.
  destruct (pool_Update diff p (world m)) as [[[]|e|why] w] eqn:E.
  - exact (IH (with_world w m)).
  - eexists; split; [done|]. apply (Update_stops _ diff p (world m)). by rewrite E.
  - eexists; split; [done|]. apply (Update_stops _ diff p (world m)). by rewrite E.
Qed.

Lemma BotMgr_Update_spec diff s :
  app_step s (λ s', app_same s s' ∧ app_log s' = app_log s ++ [AppUpdate diff]) (BotMgr_Update diff s).
Proof.
  unfold BotMgr_Update, ProcessQueryCallbacks, log_event. unfold mbind, SM_bind, modify_state.
  match goal with |- context [in_world ProcessReadyCallbacks ?s0] =>
    pose proof (bot_call ProcessReadyCallbacks s0 ltac:(right; left)) as Hc end.
  destruct (in_world _ _) as [[[]|e|why] s1]; cbn in Hc; [|done..].
  - destruct Hc as (w & _ & ->).
    unfold in_dbm, DatabaseMgr.Update, mbind, SM_bind, get_state. cbn.
    match goal with |- context [for_each _ ?l ?m0] => pose proof (update_pools diff l m0) as Hu end.
    destruct (for_each _ _ _) as [[[]|e|why] m']; cbn in *.
    + destruct Hu as (H1 & H2 & H3). done.
    + destruct Hu as (x & Hx & Hp). by eapply (pool_ends (@Throw string unit e)); eauto.
    + destruct Hu as (x & Hx & Hp). by eapply (pool_ends (@Crash string unit why)); eauto.
Qed.

Lemma updates_spec ds : ∀ s,
  app_step s (λ s', app_same s s' ∧ app_log s' = app_log s ++ (AppUpdate <$> ds)) (for_each BotMgr_Update ds s).
Proof.
  induction ds as [|d ds IH]; intros s; [cbn; by rewrite app_nil_r|]. cbn [for_each]. unfold mbind, SM_bind.
  pose proof (BotMgr_Update_spec d s) as H1. destruct (BotMgr_Update d s) as [[[]|e|why] s1]; [|done..].
  destruct H1 as ((Hc1 & Ht1 & Hcl1 & Hp1) & Hl1). specialize (IH s1).
  destruct (for_each _ ds s1) as [[[]|e|why] s2]; [|done..]. destruct IH as ((Hc2 & Ht2 & Hcl2 & Hp2) & Hl2).
  split; [repeat split; congruence|]. by rewrite Hl2, Hl1, <- app_assoc.
Qed.

Lemma ServerUpdateLoop_runs fuel N s :
  IsStopped N = true → N ≤ fuel →
  ∃ k, k ≤ N ∧ ServerUpdateLoop fuel s = for_each BotMgr_Update (diffs k 0 (GetTimeMS 0)) s.
Proof.
  intros HN Hf. destruct (first_true IsStopped N HN) as (k & Hk & Hs & Hno). exists k. split; [done|].
  apply update_loop_diffs; [intros; apply Hno; lia|done|lia].
Qed.

Lemma leave_main_spec s :
  app_step s (λ s', app_log s' = app_log s ++ [AppJoin; AppCloseAll] ∧
    mgr_trace (app_dbm s') = mgr_trace (app_dbm s) ++ (EvClose <$> _close (app_dbm s)) ∧ _close (app_dbm s') = [])
    (leave_main s).
Proof.
  unfold leave_main, log_event, CloseAllConnections. sm_unfold. unfold in_dbm. cbn.
  pose proof (close_all_spec (_close (app_dbm s)) (app_dbm s)) as Hc.
  destruct (close_all _ _) as [[[]|e|why] m']; cbn in *.
  - destruct Hc as [-> ->]. by rewrite <- app_assoc.
  - destruct Hc as (x & Hx & Hp). by eapply (pool_ends (@Throw string unit e)); eauto.
  - destruct Hc as (x & Hx & Hp). by eapply (pool_ends (@Crash string unit why)); eauto.
Qed.

(** [StartDB] leaves the stack of open pools, or closes all of them. *)
Lemma StartDB_spec s :
  _close (app_dbm s) = [] →
  match StartDB s with
  | (Done b, s') => app_config s' = app_config s ∧ app_log s' = app_log s ∧
      ∃ tr, mgr_trace (app_dbm s') = mgr_trace (app_dbm s) ++ tr ∧
        if (b : bool) then closed_by tr = [] ∧ _close (app_dbm s') = reverse (opened_by tr)
        else closed_by tr = reverse (opened_by tr) ∧ _close (app_dbm s') = []
  | (Throw _, _) => False
  | (Crash why, _) => world_ends (W := W) why
  end.
Proof.
  intros Hc0. unfold StartDB. unfold in_dbm at 1, AddDatabase. sm_unfold. cbn.
  unfold in_dbm. cbn.
  match goal with |- context [Load ?cfg ?m] => pose proof (Load_ran cfg m) as Hr end.
  destruct (Load _ _) as [[b|e|why] m']; cbn in Hr |- *.
  - destruct Hr as (tr & Ht & Hcl & Hb). cbn in Ht, Hcl. rewrite Hc0, app_nil_r in Hcl.
    destruct b; cbn; (split; [done|]); (split; [done|]); exists tr; (split; [exact Ht|]).
    + split; [done|]. by rewrite <- Hcl, Hb.
    + split; [|done]. by rewrite <- Hcl, Hb, app_nil_r.
  - destruct Hr as (x & Hx & Hp). by eapply (pool_ends (@Throw string bool e)); eauto.
  - destruct Hr as (x & Hx & Hp). by eapply (pool_ends (@Crash string bool why)); eauto.
Qed.
End Run.
End App.

(** ** Properties *)
Ltac step := erewrite SM_bind_Done by reflexivity.

(** The next call is one of the bot. *)
Ltac bot_runs :=
  match goal with |- context [in_world ?f ?s0] =>
    let Hc := fresh "Hc" in
    pose proof (bot_call f s0 ltac:(repeat (first [left|right]))) as Hc;
    destruct (in_world f s0) as [[[]|?|?] ?]; [destruct Hc as (? & _ & ->)|done|by right]
  end.

Lemma LoadConfig_spec {W : Type} `{PoolOps W} `{BotOps W} (s : App (W := W)) :
  match DiscordMgr_LoadConfig s with
  | (Done _, s') => ∃ w, s' = mk_App (app_config s) (with_world w (app_dbm s)) (app_log s ++ [AppDiscordConfig])
  | (Throw _, _) => False
  | (Crash why, _) =>
      fst (GetOption_string "Discord.Bot.Token" "" true (app_config s)) = "" ∨ world_ends (W := W) why
  end.
Proof.
  unfold DiscordMgr_LoadConfig, log_event. sm_unfold.
  destruct (fst (GetOption_string "Discord.Bot.Token" "" true (app_config s))) as [|c token]; cbn; [by left|].
  bot_runs. by eexists.
Qed.

Definition initial_app {W : Type} (w : W) : App := mk_App initial_state (new_DatabaseMgr initial_state w) [].

(** What is in the log when the server has run: the updates lie between the
    start of the bot and the end of the I/O thread, and the databases are
    closed after both. *)
Definition served_log (ds : list Z) : list app_event :=
  [AppSignals; AppLogInit; AppThreads; AppDiscordConfig; AppDiscordStart] ++ (AppUpdate <$> ds) ++
  [AppHalt; AppJoin; AppCloseAll].

(** C4 Whatever the configuration: when the server is stopped some time, [main]
    returns 0 or 1, unless there is no token for the bot, or a call of the log, a
    pool, its updater, the bot or a callback throws or ends the process.  When it
    returns, every database that was opened has been closed exactly once, in the
    reverse order, and none before it was no longer used: with 0 all of them last
    of all, after the updates of the main loop and the end of the I/O thread. *)
Theorem main_closes_databases {W : Type} `{PoolOps W} `{BotOps W} IsStopped GetTimeMS abort_incorrect order fs conf_dir
    fuel N (w : W) loaded cfg :
  IsStopped N = true → N ≤ fuel →
  LoadAppConfigs abort_incorrect order fs (snd (Configure (conf_dir +:+ "/" +:+ WARHEAD_SERVER_CONFIG) initial_state))
    = (Done loaded, cfg) →
  match main IsStopped GetTimeMS abort_incorrect order fs conf_dir fuel (initial_app w) with
  | (Done code, s) =>
      let tr := mgr_trace (app_dbm s) in
      closed_by tr = reverse (opened_by tr) ∧ _close (app_dbm s) = [] ∧
      ((code = 1%Z ∧ AppThreads ∉ app_log s) ∨
       (code = 0%Z ∧ loaded = true ∧ (∃ k, app_log s = served_log (diffs GetTimeMS k 0 (GetTimeMS 0))) ∧
        ∃ tr0, tr = tr0 ++ (EvClose <$> reverse (opened_by tr0)) ∧ closed_by tr0 = []))
  | (Crash why, _) => (loaded = true ∧ fst (GetOption_string "Discord.Bot.Token" "" true cfg) = "") ∨ world_ends (W := W) why
  | (Throw _, _) => False
  end.
Proof.
  intros HN Hf Hl. unfold main. do 2 step. erewrite SM_bind_Done by (unfold in_config; cbn in Hl |- *; rewrite Hl; reflexivity).
  destruct loaded; cbn [negb].
  2: { cbn. split; [done|split; [done|left]]. split; [done|set_solver]. }
  step. unfold mbind at 1, SM_bind at 1. bot_runs. step. unfold mbind at 1, SM_bind at 1.
  match goal with |- context [StartDB ?s0] => pose proof (StartDB_spec s0 eq_refl) as Hst end.
  destruct (StartDB _) as [[b|e|why] s1]; [|done|by right]. destruct Hst as (Hc & Hlog & tr & Ht & Hb). cbn in Hc, Hlog, Ht.
  destruct b; cbn [negb].
  2: { cbn. rewrite Ht. destruct Hb as [Hb1 Hb2].
       split; [done|split; [done|left]]. split; [done|]. rewrite Hlog. set_solver. }
  destruct Hb as [Hb1 Hb2]. step. unfold mbind at 1, SM_bind at 1.
  match goal with |- context [DiscordMgr_LoadConfig ?s0] => pose proof (LoadConfig_spec s0) as Hlc end.
  destruct (DiscordMgr_LoadConfig _) as [[[]|e|why] s2]; [|done|].
  2: { cbn in Hlc. rewrite Hc in Hlc. naive_solver. }
  destruct Hlc as (w2 & ->). step. unfold mbind at 1, SM_bind at 1. bot_runs. unfold mbind at 1, SM_bind at 1.
  match goal with |- context [ServerUpdateLoop _ _ _ ?s3] =>
    destruct (ServerUpdateLoop_runs IsStopped GetTimeMS fuel N s3 HN Hf) as (k & _ & ->);
    pose proof (updates_spec (diffs GetTimeMS k 0 (GetTimeMS 0)) s3) as Hu end.
  destruct (for_each _ _ _) as [[[]|e|why] s3]; [|done|by right].
  destruct Hu as ((_ & Ht3 & Hcl3 & _) & Hlog3). cbn in Ht3, Hcl3, Hlog3. step. unfold mbind at 1, SM_bind at 1.
  match goal with |- context [leave_main ?s4] => pose proof (leave_main_spec s4) as Hlm end.
  destruct (leave_main _) as [[[]|e|why] s5]; [|done|by right]. destruct Hlm as (Hlog5 & Ht5 & Hc5).
  cbn in Hlog5, Ht5. cbn. rewrite Ht5, Ht3, Hcl3, Ht, Hb2.
  rewrite closed_by_app, opened_by_app, closed_by_close, opened_by_close, Hb1, app_nil_r.
  split; [done|split; [done|right]]. split; [done|split; [done|split]].
  - exists k. rewrite Hlog5, Hlog3, Hlog. unfold served_log. cbn. by rewrite <- app_assoc.
  - by exists tr.
Qed.

(** What the main loop relies on from a pool: its [Update], when it returns, is
    the one of its own scheduler, and neither the updates of other pools nor the
    callbacks touch that scheduler.  [sched] is the scheduler of the pool of that
    name. *)
Class PoolSched (W : Type) `{PoolOps W} `{BotOps W} := {
  sched : W → string → result TaskScheduler;
  sched_fuel : nat;
  sched_update d name w w' : (0 < d)%Z → pool_Update d name w = (Done (), w') →
    sched w' name = (s ← sched w name; DatabaseWorkerPool_Update sched_fuel 0 d s);
  sched_other d name name' w w' : name ≠ name' → pool_Update d name' w = (Done (), w') → sched w' name = sched w name;
  sched_callbacks name w w' : ProcessReadyCallbacks w = (Done (), w') → sched w' name = sched w name }.

Section Sched.
Context {W : Type} `{PoolSched W}.
Implicit Types m : DatabaseMgr (W := W).

Lemma sched_update_pools d name pools : ∀ m m',
  (0 < d)%Z → NoDup pools →
  for_each (λ pool, call_world (pool_Update d pool)) pools m = (Done (), m') →
  _poolList m' = _poolList m ∧
  sched (world m') name =
    if decide (name ∈ pools) then (s ← sched (world m) name; DatabaseWorkerPool_Update sched_fuel 0 d s)
    else sched (world m) name.
Proof.
  induction pools as [|p l IH]; intros m m' Hd Hn; cbn [for_each].
  { intros [= <-]. rewrite decide_False; [done|]. apply not_elem_of_nil. }
  apply NoDup_cons in Hn as [Hp Hn]. unfold mbind, SM_bind, call_world.
  destruct (pool_Update d p (world m)) as [[[]|e|why] w] eqn:E; [|done..].
  intros Hr. destruct (IH (with_world w m) m' Hd Hn Hr) as [Hpl ->]. split; [exact Hpl|]. cbn [world with_world].
  destruct (decide (name = p)) as [->|Hne].
  - rewrite decide_False, decide_True by (done || left). by apply sched_update.
  - rewrite (sched_other _ name p _ _ Hne E). destruct (decide (name ∈ l)) as [Hin|Hin].
    + rewrite decide_True; [done|]. by right.
    + rewrite decide_False; [done|]. by intros [->|?]%elem_of_cons.
Qed.

Lemma BotMgr_Update_sched d name (s s' : App (W := W)) :
  (0 < d)%Z → NoDup (_poolList (app_dbm s)) → name ∈ _poolList (app_dbm s) →
  BotMgr_Update d s = (Done (), s') →
  _poolList (app_dbm s') = _poolList (app_dbm s) ∧
  sched (world (app_dbm s')) name =
    (t ← sched (world (app_dbm s)) name; DatabaseWorkerPool_Update sched_fuel 0 d t).
Proof.
  intros Hd Hn Hin. unfold BotMgr_Update, ProcessQueryCallbacks, in_world, log_event, in_dbm, call_world,
    DatabaseMgr.Update. unfold mbind, SM_bind, modify_state, get_state. cbn.
  destruct (ProcessReadyCallbacks (world (app_dbm s))) as [[[]|e|why] w] eqn:E; cbn; [|done..].
  match goal with |- context [for_each ?f ?l ?m0] => destruct (for_each f l m0) as [[[]|e|why] m'] eqn:Eu end; [|done..].
  intros [= <-]. cbn. destruct (sched_update_pools d name _ _ _ Hd Hn Eu) as [Hpl ->]. split; [exact Hpl|].
  rewrite decide_True by done. cbn. by rewrite (sched_callbacks name _ _ E).
Qed.

Lemma updates_sched name ds : ∀ s s' : App (W := W),
  Forall (λ d, 0 < d)%Z ds → NoDup (_poolList (app_dbm s)) → name ∈ _poolList (app_dbm s) →
  for_each BotMgr_Update ds s = (Done (), s') →
  sched (world (app_dbm s')) name =
    (t ← sched (world (app_dbm s)) name; pool_updates sched_fuel ((λ d, (0%Z, d)) <$> ds) t).
Proof.
  induction ds as [|d ds IH]; intros s s' Hpos Hn Hin; cbn [for_each].
  { intros [= <-]. cbn. by destruct (sched _ _). }
  apply Forall_cons in Hpos as [Hd Hpos]. unfold mbind at 1, SM_bind at 1.
  destruct (BotMgr_Update d s) as [[[]|e|why] s1] eqn:E; [|done..]. intros Hr.
  destruct (BotMgr_Update_sched d name s s1 Hd Hn Hin E) as [Hpl Hs].
  rewrite (IH s1 s'), Hs by (rewrite ?Hpl; done). by rewrite outcome_bind_assoc.
Qed.
End Sched.


(** ** A server to run: one pool whose world is its scheduler *)
Section Example_server.
Abbreviation ex_world := (gmap string (result TaskScheduler)).

Definition ex_files (name : string) : option file :=
  if String.eqb name "/etc/DiscordBot.conf.dist"
  then Some (mk_file ("DiscordDatabaseInfo = x" +:+ String newline ("Discord.Bot.Token = t" +:+ String newline "MaxPingTime = 1")) None)
  else None.
Definition ex_order (m : gmap string string) : list (string * string) := map_to_list m.

#[local] Instance ex_pools : PoolOps ex_world := {
  pool_Open name w :=
    match AddTasks (ping_config "1") (TaskScheduler_new 77 None) with
    | Done s => (Done 0%Z, <[name := Done s]> w)
    | _ => (Crash "AddTasks", w)
    end;
  pool_Close name w := (Done (), delete name w);
  pool_SetConnectionInfo name info w := (Done (), w);
  pool_PrepareStatements name w := (Done true, w);
  pool_Update diff name w := (Done (), alter (λ r, s ← r; DatabaseWorkerPool_Update 500 0 diff s) name w);
  updater_Create name w := (Done true, w);
  updater_Populate name w := (Done true, w);
  updater_Update name w := (Done true, w) }.

#[local] Instance ex_bot : BotOps ex_world := {
  Log_Initialize w := (Done (), w); ProcessReadyCallbacks w := (Done (), w);
  DiscordConfigMgr_LoadConfig w := (Done (), w); DiscordMgr_Start w := (Done (), w) }.

#[local] Program Instance ex_sched : PoolSched ex_world := {
  sched w name := default (Crash "no such pool") (w !! name);
  sched_fuel := 500 }.
Next Obligation. intros d name w w' Hd [= <-]. rewrite lookup_alter_eq. by destruct (w !! name). Qed.
Next Obligation. intros d name name' w w' Hn [= <-]. by rewrite lookup_alter_ne by done. Qed.
Next Obligation. by intros name w w' [= <-]. Qed.

Definition ex_stop (n : nat) : bool := (5 <=? n)%nat.
Definition ex_clock (n : nat) : Z := (Z.of_nat n * 13000)%Z.

Definition ex_run : outcome fuel_error Z * App (W := ex_world) :=
  main ex_stop ex_clock false ex_order ex_files "/etc" 10 (initial_app ∅).

Example ex_run_ok : fst ex_run = Done 0%Z ∧ app_log (snd ex_run) = served_log [13000; 13000; 13000; 13000; 13000]%Z ∧
  mgr_trace (app_dbm (snd ex_run)) = [EvOpen "Discord" true; EvPrepare "Discord" true; EvClose "Discord"].
Proof. vm_compute. done. Qed.

Definition ex_loaded : outcome string bool * ConfigState :=
  LoadAppConfigs false ex_order ex_files (snd (Configure ("/etc" +:+ "/" +:+ WARHEAD_SERVER_CONFIG) initial_state)).

Lemma main_closes_databases_witness :
  let s := snd ex_run in
  let tr := mgr_trace (app_dbm s) in
  closed_by tr = reverse (opened_by tr) ∧ _close (app_dbm s) = [] ∧
  ((0%Z = 1%Z ∧ AppThreads ∉ app_log s) ∨
   (0%Z = 0%Z ∧ true = true ∧ (∃ k, app_log s = served_log (diffs ex_clock k 0 (ex_clock 0))) ∧
    ∃ tr0, tr = tr0 ++ (EvClose <$> reverse (opened_by tr0)) ∧ closed_by tr0 = [])).
Proof.
  assert (LoadAppConfigs false ex_order ex_files
    (snd (Configure ("/etc" +:+ "/" +:+ WARHEAD_SERVER_CONFIG) initial_state)) = (Done true, snd ex_loaded)) as Hl
    by (vm_compute; reflexivity).
  pose proof (main_closes_databases ex_stop ex_clock false ex_order ex_files "/etc" 10 7 (∅ : ex_world) true
    (snd ex_loaded) eq_refl ltac:(lia) Hl) as Hm.
  fold ex_run in Hm. pose proof (proj1 ex_run_ok) as Hd. destruct ex_run as [r s]. cbn in Hd. subst r. exact Hm.
Defined.

Definition ex_app : App (W := ex_world) :=
  mk_App (ping_config "1") (mk_DatabaseMgr true 0 [] [] [] [] ["Discord"] ["Discord"]
    {["Discord" := Done (pool_start "1")]} []) [].


(** And it ends without a crash. *)
Example ex_app_runs : is_done (fst (ServerUpdateLoop ex_stop ex_clock 10 ex_app)) = true.
Proof. vm_compute. reflexivity. Qed.
End Example_server.
