(* ===== verification/StartProcess.v ===== *)
(** * Child processes: common/Utilities/StartProcess.cpp

    The sink that cuts the output of a child process into messages of the log,
    and [CreateChildProcess] as a state machine: the child writes to two pipes of
    a bounded capacity, the parent copies the standard output until its end, then
    the standard error until its end, and only then waits for the child.  The
    [AsyncProcessResult] of another thread shares [my_child] and
    [was_terminated] with it. *)
From S2P Require Import Prelude.

Abbreviation text := (list ascii).

Definition is_eol (c : ascii) : bool := Ascii.eqb c (ch 13) || Ascii.eqb c (ch 10).

(** ** WHLogSink *)
(** [find_first_of] of the two line ends. *)
Fixpoint find_eol (str : text) : option nat :=
  match str with
  | [] => None
  | c :: str => if is_eol c then Some 0 else S <$> find_eol str
  end.

(** What the callback gets, and the number of processed characters. *)
Definition write (str : text) : option text * nat :=
  let '(consoleStr, processedCharacters) :=
    match find_eol str with
    | Some lineEnd => (take lineEnd str, lineEnd + 1)
    | None => (str, length str)
    end in
  (match consoleStr with [] => None | _ => Some consoleStr end, processedCharacters).

(** [copy] gives the sink what it has read until the sink has taken all. *)
Fixpoint write_all (fuel : nat) (str : text) : list text :=
  match fuel, str with
  | S fuel, _ :: _ =>
      let '(msg, n) := write str in
      (match msg with Some m => [m] | None => [] end) ++ write_all fuel (drop n str)
  | _, _ => []
  end.
Definition messages (str : text) : list text := write_all (length str) str.

(** ** CreateChildProcess *)
Inductive stream := StdOut | StdErr.
#[export] Instance stream_eq_dec : EqDecision stream.
Proof. solve_decision. Defined.

(** Where the parent is. *)
Inductive phase := CopyOut | CopyErr | InWaiter | Returned (result : Z).

Definition EXIT_FAILURE : Z := 1.

Record process := mk_process {
  pr_todo : list (stream * ascii);    (* what the child has still to write *)
  pr_closed : bool;                   (* it has closed its output *)
  pr_exit : option Z;                 (* it has ended *)
  pr_out : text;                      (* the two pipes *)
  pr_err : text;
  pr_phase : phase;
  pr_log : list (stream * text);      (* LOG_INFO and LOG_ERROR *)
  my_child : bool;
  was_terminated : bool }.

Section Process.
Variable capacity : nat.
(** The exit code of the child, when it is not killed. *)
Variable code : Z.

Definition started (todo : list (stream * ascii)) : process :=
  mk_process todo false None [] [] CopyOut [] false false.

Inductive step : process → process → Prop :=
(** the child: writing waits for room in the pipe *)
| step_write_out c todo p :
    pr_exit p = None → pr_todo p = (StdOut, c) :: todo → length (pr_out p) < capacity →
    step p (mk_process todo (pr_closed p) None (pr_out p ++ [c]) (pr_err p) (pr_phase p) (pr_log p) (my_child p) (was_terminated p))
| step_write_err c todo p :
    pr_exit p = None → pr_todo p = (StdErr, c) :: todo → length (pr_err p) < capacity →
    step p (mk_process todo (pr_closed p) None (pr_out p) (pr_err p ++ [c]) (pr_phase p) (pr_log p) (my_child p) (was_terminated p))
| step_close p :
    pr_exit p = None → pr_todo p = [] → pr_closed p = false →
    step p (mk_process [] true None (pr_out p) (pr_err p) (pr_phase p) (pr_log p) (my_child p) (was_terminated p))
| step_exit p :
    pr_exit p = None → pr_closed p = true →
    step p (mk_process (pr_todo p) true (Some code) (pr_out p) (pr_err p) (pr_phase p) (pr_log p) (my_child p) (was_terminated p))
(** the parent: [copy(outStream, outInfo)], [copy(errStream, outError)] *)
| step_read_out chunk rest p :
    pr_phase p = CopyOut → pr_out p = chunk ++ rest → chunk ≠ [] →
    step p (mk_process (pr_todo p) (pr_closed p) (pr_exit p) rest (pr_err p) CopyOut
              (pr_log p ++ ((StdOut,.) <$> messages chunk)) (my_child p) (was_terminated p))
| step_end_out p :
    pr_phase p = CopyOut → pr_out p = [] → pr_closed p = true →
    step p (mk_process (pr_todo p) (pr_closed p) (pr_exit p) [] (pr_err p) CopyErr (pr_log p) (my_child p) (was_terminated p))
| step_read_err chunk rest p :
    pr_phase p = CopyErr → pr_err p = chunk ++ rest → chunk ≠ [] →
    step p (mk_process (pr_todo p) (pr_closed p) (pr_exit p) (pr_out p) rest CopyErr
              (pr_log p ++ ((StdErr,.) <$> messages chunk)) (my_child p) (was_terminated p))
(** the waiter of [AsyncProcessResultImplementation::StartProcess] *)
| step_end_err p :
    pr_phase p = CopyErr → pr_err p = [] → pr_closed p = true →
    step p (mk_process (pr_todo p) (pr_closed p) (pr_exit p) (pr_out p) [] InWaiter (pr_log p) true (was_terminated p))
| step_wait exitCode p :
    pr_phase p = InWaiter → pr_exit p = Some exitCode →
    step p (mk_process (pr_todo p) (pr_closed p) (pr_exit p) (pr_out p) (pr_err p)
              (Returned (if was_terminated p then EXIT_FAILURE else exitCode)) (pr_log p) false (was_terminated p)).

(** [Terminate], from another thread; a killed child closes what it had open. *)
Definition Terminate (p : process) : process :=
  if my_child p then
    mk_process (pr_todo p) true (match pr_exit p with Some c => Some c | None => Some EXIT_FAILURE end) (pr_out p) (pr_err p)
      (pr_phase p) (pr_log p) (my_child p) true
  else p.

Inductive reachable (todo : list (stream * ascii)) : process → Prop :=
| reach_start : reachable todo (started todo)
| reach_step p p' : reachable todo p → step p p' → reachable todo p'
| reach_terminate p : reachable todo p → reachable todo (Terminate p).
End Process.

(** ** Lemmas: the sink *)
(** The pieces between the line ends. *)
Fixpoint split_eol (str : text) : list text :=
  match str with
  | [] => [[]]
  | c :: str => if is_eol c then [] :: split_eol str
                else match split_eol str with piece :: pieces => (c :: piece) :: pieces | [] => [[c]] end
  end.
Definition not_empty (str : text) : bool := match str with [] => false | _ => true end.
Definition strip (str : text) : text := List.filter (λ c, negb (is_eol c)) str.

Lemma split_find_eol str :
  split_eol str = match find_eol str with
                  | Some n => take n str :: split_eol (drop (n + 1) str)
                  | None => [str]
                  end.
Proof.
  induction str as [|c str IH]; [done|]. cbn. destruct (is_eol c); [done|]. rewrite IH. by destruct (find_eol str).
Qed.

Lemma write_spec str :
  (match (write str).1 with Some m => [m] | None => [] end) ++ List.filter not_empty (split_eol (drop (write str).2 str)) =
    List.filter not_empty (split_eol str) ∧ (str ≠ [] → 0 < (write str).2).
Proof.
  rewrite (split_find_eol str). unfold write. destruct (find_eol str) as [n|] eqn:E; cbn [fst snd].
  - split; [|lia]. cbn. by destruct (take n str).
  - rewrite drop_all. split; [by destruct str|]. destruct str; [done|cbn; lia].
Qed.

(** Every line that is not empty is one message. *)
Lemma messages_lines str : messages str = List.filter not_empty (split_eol str).
Proof.
  unfold messages. assert (∀ fuel str, length str ≤ fuel → write_all fuel str = List.filter not_empty (split_eol str)) as H; [|by apply H].
  clear str. induction fuel as [|fuel IH]; intros str Hf; [by destruct str; [|cbn in Hf; lia]|].
  destruct str as [|c str]; [done|]. cbn [write_all]. destruct (write_spec (c :: str)) as [Hw Hpos].
  destruct (write (c :: str)) as [msg n]. cbn [fst snd] in Hw, Hpos. specialize (Hpos ltac:(done)).
  rewrite IH by (rewrite length_drop; cbn in *; lia). exact Hw.
Qed.

Lemma concat_messages str : concat (messages str) = strip str.
Proof.
  rewrite messages_lines. transitivity (concat (split_eol str)).
  - induction (split_eol str) as [|p ps IH]; [done|]. cbn. destruct p; cbn; by rewrite IH.
  - unfold strip. induction str as [|c str IH]; [done|]. cbn. destruct (is_eol c); cbn; [done|].
    rewrite <- IH. by destruct (split_eol str).
Qed.

(** ** Lemmas: the machine *)
Section Machine.
Variable capacity : nat.
Variable code : Z.

Definition written (s : stream) (todo : list (stream * ascii)) : text := (List.filter (λ x, bool_decide (x.1 = s)) todo).*2.
Definition logged (s : stream) (log : list (stream * text)) : text :=
  concat (List.filter (λ x, bool_decide (x.1 = s)) log).*2.

Lemma logged_app s a b : logged s (a ++ b) = logged s a ++ logged s b.
Proof. unfold logged. by rewrite List.filter_app, fmap_app, concat_app. Qed.

Lemma logged_messages s s' chunk :
  logged s ((s',.) <$> messages chunk) = if bool_decide (s' = s) then strip chunk else [].
Proof.
  rewrite <- concat_messages. unfold logged. induction (messages chunk) as [|m ms IH]; [by case_bool_decide|].
  cbn. case_bool_decide; cbn; [by rewrite IH|exact IH].
Qed.

Lemma strip_app a b : strip (a ++ b) = strip a ++ strip b.
Proof. apply List.filter_app. Qed.

(** What is in the log, in a pipe, and still to be written is what the child
    writes. *)
Definition conserved (s : stream) (pipe : text) (todo0 : list (stream * ascii)) (p : process) : Prop :=
  strip (written s todo0) = logged s (pr_log p) ++ strip pipe ++ strip (written s (pr_todo p)).

Record inv (todo0 : list (stream * ascii)) (p : process) : Prop := {
  iv_closed : pr_closed p = true → pr_todo p = [];
  iv_exit : ∀ c, pr_exit p = Some c → pr_closed p = true ∧ (was_terminated p = false → c = code);
  iv_err : length (pr_err p) ≤ capacity;
  iv_conserved_out : conserved StdOut (pr_out p) todo0 p;
  iv_conserved_err : conserved StdErr (pr_err p) todo0 p;
  iv_phase : match pr_phase p with
             | CopyOut => my_child p = false ∧ was_terminated p = false ∧
                 length (pr_err p) + length (written StdErr (pr_todo p)) = length (written StdErr todo0)
             | CopyErr => my_child p = false ∧ was_terminated p = false ∧ pr_closed p = true ∧ pr_out p = []
             | InWaiter => my_child p = true ∧ pr_closed p = true ∧ pr_out p = [] ∧ pr_err p = []
             | Returned r => my_child p = false ∧ pr_closed p = true ∧ pr_out p = [] ∧ pr_err p = [] ∧
                 r = if was_terminated p then EXIT_FAILURE else code
             end }.

Lemma inv_started todo0 : inv todo0 (started todo0).
Proof. split; cbn; try done; try lia. Qed.

Lemma written_cons s s' c todo : written s ((s', c) :: todo) = (if bool_decide (s' = s) then [c] else []) ++ written s todo.
Proof. unfold written. cbn. by case_bool_decide. Qed.

(** The child writes only while its output is open, and the parent is then
    copying the standard output. *)
Lemma inv_writing todo0 p x todo :
  inv todo0 p → pr_todo p = x :: todo → pr_closed p = false ∧ pr_phase p = CopyOut.
Proof.
  intros [Hc _ _ _ _ Hp] Ht. destruct (pr_closed p); [by rewrite Hc in Ht|]. split; [done|].
  destruct (pr_phase p); destruct_and!; repeat split; congruence || lia.
Qed.

Ltac proc_simpl := cbn [pr_todo pr_closed pr_exit pr_out pr_err pr_phase pr_log my_child was_terminated] in *.

Lemma child_inv_step todo0 p p' : inv todo0 p → step capacity code p p' → inv todo0 p'.
Proof.
  intros Hi Hs. destruct Hs as [c todo p Hx Ht Hl|c todo p Hx Ht Hl|p Hx Ht Hcl|p Hx Hcl|chunk rest p Hph Ho Hne|p Hph Ho Hcl
    |chunk rest p Hph Ho Hne|p Hph Ho Hcl|e p Hph Hx].
  1,2: destruct (inv_writing _ _ _ _ Hi Ht) as [Hcl Hph].
  all: destruct Hi as [Hc Hex He Hco Hce Hp]; unfold conserved in *; split; unfold conserved; proc_simpl; try done.
  all: try (rewrite Hph in Hp; proc_simpl).
  all: try (rewrite Ht in *; rewrite !written_cons in *).
  all: try rewrite Hph in *.
  all: rewrite ?logged_app, ?logged_messages, ?strip_app, ?Ho in *; rewrite ?strip_app, ?length_app in *; proc_simpl.
  all: try done.
  all: try (rewrite ?app_nil_r, ?app_assoc in *; cbn in *; rewrite ?app_nil_r, ?app_assoc in *; done || lia).
  1,2: by rewrite Hcl.
  - destruct Hp as (? & ? & Hl'). change (bool_decide (StdErr = StdErr)) with true in Hl'. cbn [length] in *.
    split; [done|split; [done|lia]].
  - by rewrite <- Ht.
  - by rewrite <- Ht.
  - rewrite <- Ht. destruct (pr_phase p); destruct_and!; repeat split; congruence || lia.
  - by intros _; apply Hc.
  - by intros c [= <-].
  - destruct (pr_phase p); destruct_and!; repeat split; congruence || lia.
  - naive_solver.
  - naive_solver.
  - destruct (Hex e Hx) as [_ He']. destruct Hp as (_ & ? & ? & ?). do 4 (split; [done|]).
    destruct (was_terminated p); [done|by apply He'].
Qed.

Lemma inv_Terminate todo0 p : inv todo0 p → inv todo0 (Terminate p).
Proof.
  intros Hi. unfold Terminate. destruct (my_child p) eqn:Hm; [|done]. destruct Hi as [Hc Hex He Hco Hce Hp].
  destruct (pr_phase p) eqn:Hph; try (destruct Hp as [Hp _]; congruence).
  destruct Hp as (_ & Hcl & Ho & Hr). split; unfold conserved in *; proc_simpl; try done.
  intros _. by apply Hc.
Qed.

Lemma child_reachable_inv todo0 p : reachable capacity code todo0 p → inv todo0 p.
Proof. induction 1; [apply inv_started|by eapply child_inv_step|by apply inv_Terminate]. Qed.

(** Every step of the child and of the parent is one towards the end. *)
Definition phase_rank (ph : phase) : nat := match ph with CopyOut => 3 | CopyErr => 2 | InWaiter => 1 | Returned _ => 0 end.
Definition work (p : process) : nat :=
  2 * length (pr_todo p) + length (pr_out p) + length (pr_err p) + (if pr_closed p then 0 else 1) +
  (match pr_exit p with Some _ => 0 | None => 1 end) + phase_rank (pr_phase p).

Lemma step_work p p' : step capacity code p p' → work p' < work p.
Proof.
  intros Hs. destruct Hs; unfold work; cbn.
  all: repeat match goal with H : _ = _ |- _ => rewrite H end; rewrite ?length_app; cbn; try lia.
  all: destruct chunk; [done|cbn; lia].
Qed.

Lemma Terminate_work p : work (Terminate p) ≤ work p.
Proof. unfold Terminate, work. destruct (my_child p); [|lia]. cbn. destruct (pr_closed p), (pr_exit p); lia. Qed.

(** The parent leaves the first copy only when the child has written all. *)
Lemma progress todo0 p :
  0 < capacity → length (written StdErr todo0) ≤ capacity → inv todo0 p →
  (∃ r, pr_phase p = Returned r) ∨ ∃ p', step capacity code p p'.
Proof.
  intros Hcap Hfit Hi. destruct (pr_phase p) as [| | |r] eqn:Hph; [right|right|right|by left; exists r].
  - pose proof Hi as [Hc Hex He Hco Hce Hp]. rewrite Hph in Hp. destruct Hp as (_ & _ & Hl).
    destruct (pr_out p) as [|c out] eqn:Ho; [|eexists; apply (step_read_out _ _ [c] out); [done|done|done]].
    destruct (pr_exit p) as [e|] eqn:Hx.
    { destruct (Hex e eq_refl) as [Hcl _]. eexists. by apply step_end_out. }
    destruct (pr_todo p) as [|[[] c] todo] eqn:Ht.
    + destruct (pr_closed p) eqn:Hcl; eexists; [by apply step_end_out|by apply step_close].
    + eexists. eapply step_write_out; [done|done|]. by rewrite Ho.
    + eexists. eapply step_write_err; [done|done|]. rewrite written_cons, length_app in Hl.
      change (bool_decide (StdErr = StdErr)) with true in Hl. cbn [length] in Hl. lia.
  - pose proof (iv_phase _ _ Hi) as Hp. rewrite Hph in Hp. destruct Hp as (_ & _ & Hcl & _).
    destruct (pr_err p) as [|c err] eqn:Hr; eexists; [by apply step_end_err|by apply (step_read_err _ _ [c] err)].
  - pose proof (iv_phase _ _ Hi) as Hp. rewrite Hph in Hp. destruct Hp as (_ & Hcl & _).
    destruct (pr_exit p) as [e|] eqn:Hx; eexists; [by apply (step_wait _ _ e)|by apply step_exit].
Qed.
End Machine.

(** ** Properties *)
(** Whatever the child writes, in whatever pieces the parent reads it and
    whenever another thread calls Terminate: when CreateChildProcess returns, the
    log has all the child wrote to its standard output as information and all it
    wrote to its standard error as errors, cut at the line ends and nothing
    else lost; the result is the exit code, or EXIT_FAILURE when Terminate found
    a child.  And Terminate finds none, and changes nothing, as long as the child
    has not closed its output. *)
Theorem child_process_logged capacity code todo p :
  reachable capacity code todo p →
  (∀ r, pr_phase p = Returned r →
     logged StdOut (pr_log p) = strip (written StdOut todo) ∧ logged StdErr (pr_log p) = strip (written StdErr todo) ∧
     r = if was_terminated p then EXIT_FAILURE else code) ∧
  (pr_closed p = false → Terminate p = p).
Proof.
  intros Hi%child_reachable_inv. destruct Hi as [Hc Hex He Hco Hce Hp]. unfold conserved in *. split.
  - intros r Hr. rewrite Hr in Hp. destruct Hp as (_ & Hcl & Ho & Hre & Hres). rewrite (Hc Hcl), Ho in Hco.
    rewrite (Hc Hcl), Hre in Hce. cbn in Hco, Hce. by rewrite !app_nil_r in *.
  - intros Hcl. unfold Terminate. destruct (my_child p) eqn:Hm; [|done]. exfalso.
    destruct (pr_phase p); destruct_and!; congruence.
Qed.

(** C38 CreateChildProcess and the pipes: every run of the child and the parent
    is finite, [work] falls with each step.  When what the child writes to its
    standard error fits into the pipe, no run is stuck before the parent has
    returned.  When it does not, the parent never returns: it waits for the end
    of the standard output while the child waits for room in the other pipe. *)
Theorem child_process_returns capacity code todo p :
  0 < capacity → reachable capacity code todo p →
  (∀ p', step capacity code p p' → work p' < work p) ∧
  if decide (length (written StdErr todo) ≤ capacity)
  then (∃ r, pr_phase p = Returned r) ∨ ∃ p', step capacity code p p'
  else ∀ r, pr_phase p ≠ Returned r.
Proof.
  intros Hcap Hr. split; [intros p'; apply step_work|].
  case_decide as Hfit; [by apply progress with todo; [| |apply child_reachable_inv]|].
  assert (pr_phase p = CopyOut) as ->; [|done]. induction Hr as [|p p' Hr IH Hs|p Hr IH]; [done| |].
  - pose proof (child_reachable_inv _ _ _ _ Hr) as Hi. destruct Hs; cbn in *; try congruence.
    pose proof (iv_phase _ _ _ _ Hi) as Hp. rewrite IH in Hp. destruct Hp as (_ & _ & Hl).
    rewrite (iv_closed _ _ _ _ Hi) in Hl by done. pose proof (iv_err _ _ _ _ Hi). cbn in Hl. lia.
  - unfold Terminate. by destruct (my_child p).
Qed.

(** ** Witnesses: a child that writes one character, read to the end *)
Definition ex_todo : list (stream * ascii) := [(StdOut, "k"%char)].
Definition ex_returned : process := mk_process [] true (Some 0%Z) [] [] (Returned 0) [(StdOut, ["k"%char])] false false.

Lemma child_reachable : reachable 1 0 ex_todo ex_returned.
Proof.
  eapply reach_step; [|apply (step_wait 1 0 0%Z (mk_process [] true (Some 0%Z) [] [] InWaiter [(StdOut, ["k"%char])] true false)); done].
  eapply reach_step; [|apply (step_exit 1 0 (mk_process [] true None [] [] InWaiter [(StdOut, ["k"%char])] true false)); done].
  eapply reach_step; [|apply (step_end_err 1 0 (mk_process [] true None [] [] CopyErr [(StdOut, ["k"%char])] false false)); done].
  eapply reach_step; [|apply (step_end_out 1 0 (mk_process [] true None [] [] CopyOut [(StdOut, ["k"%char])] false false)); done].
  eapply reach_step; [|apply (step_close 1 0 (mk_process [] false None [] [] CopyOut [(StdOut, ["k"%char])] false false)); done].
  eapply reach_step; [|apply (step_read_out 1 0 ["k"%char] [] (mk_process [] false None ["k"%char] [] CopyOut [] false false)); done].
  eapply reach_step; [|apply (step_write_out 1 0 "k"%char [] (started ex_todo)); [done|done|cbn; lia]].
  apply reach_start.
Qed.

Lemma child_process_logged_witness :
  (∀ r, pr_phase ex_returned = Returned r →
     logged StdOut (pr_log ex_returned) = strip (written StdOut ex_todo) ∧
     logged StdErr (pr_log ex_returned) = strip (written StdErr ex_todo) ∧
     r = if was_terminated ex_returned then EXIT_FAILURE else 0%Z) ∧
  (pr_closed ex_returned = false → Terminate ex_returned = ex_returned).
Proof. apply (child_process_logged 1 0 ex_todo ex_returned child_reachable). Defined.

Lemma child_process_returns_witness :
  (∀ p', step 1 0 ex_returned p' → work p' < work ex_returned) ∧
  if decide (length (written StdErr ex_todo) ≤ 1)
  then (∃ r, pr_phase ex_returned = Returned r) ∨ ∃ p', step 1 0 ex_returned p'
  else ∀ r, pr_phase ex_returned ≠ Returned r.
Proof. refine (child_process_returns 1 0 ex_todo ex_returned _ child_reachable). lia. Defined.

(** A line that the parent reads in two pieces is logged as two messages. *)
Example line_cut_by_reading :
  messages (["a"; "b"; ch 10; "c"]%char) = [["a"; "b"]; ["c"]]%char ∧
  messages ["a"]%char ++ messages ["b"; ch 10]%char = [["a"]; ["b"]]%char.
Proof. done. Qed.
