(* ===== verification/ProgressBar.v ===== *)
(** * The progress bar: common/Progress/ProgressBar.cpp and ProgressBar.h

    The bar is indicators::ProgressBar (deps/indicators), of which the code uses
    the progress, the texts and the end; [drawn] is what it has drawn, newest
    last.  [Update] saves the progress and draws at most once in [_tickTime],
    except the last time.  The build has no WH_DISABLE_PROGRESS_BAR; times are
    microseconds of the steady clock. *)
From S2P Require Import Prelude.

(** ** indicators::ProgressBar, incremental and alone *)
Record indicators_bar := mk_indicators_bar {
  progress_ : Z;
  min_progress : Z;
  max_progress : Z;
  bar_width : Z;
  prefix_text : string;
  postfix_text : string;
  completed : bool;
  drawn : list Z }.

Definition indicators_bar_new : indicators_bar := mk_indicators_bar 0 0 100 100 "" "" false [].

Definition print_progress (b : indicators_bar) : indicators_bar :=
  mk_indicators_bar (progress_ b) (min_progress b) (max_progress b) (bar_width b) (prefix_text b) (postfix_text b)
    (completed b || (max_progress b <=? progress_ b)%Z) (drawn b ++ [progress_ b]).

Definition with_progress (n : Z) (b : indicators_bar) : indicators_bar :=
  mk_indicators_bar n (min_progress b) (max_progress b) (bar_width b) (prefix_text b) (postfix_text b)
    (completed b) (drawn b).
Definition set_progress (n : Z) (b : indicators_bar) : indicators_bar := print_progress (with_progress n b).
Definition tick (b : indicators_bar) : indicators_bar := print_progress (with_progress (wrap_u 64 (progress_ b + 1)) b).
Definition current (b : indicators_bar) : Z := Z.min (progress_ b) (max_progress b).
Definition mark_as_completed (b : indicators_bar) : indicators_bar :=
  print_progress (mk_indicators_bar (progress_ b) (min_progress b) (max_progress b) (bar_width b) (prefix_text b)
    (postfix_text b) true (drawn b)).

(** ** ProgressBar *)
Definition ADDITIONAL_INFO_SIZE : Z := 15.
Definition DEFAULT_POST_INFO_SIZE : Z := 50.
Definition DEFAULT_POST_BAR_SIZE : Z := ADDITIONAL_INFO_SIZE + DEFAULT_POST_INFO_SIZE.
Definition DEFAULT_TICK_TIME : Z := 100000.

Record ProgressBar := mk_ProgressBar {
  _bar : indicators_bar;
  _unprintProgress : Z;
  _size : Z;
  _lastUpdateTime : Z;
  _tickTime : Z }.

Definition set_bar (b : indicators_bar) (s : ProgressBar) : ProgressBar :=
  mk_ProgressBar b (_unprintProgress s) (_size s) (_lastUpdateTime s) (_tickTime s).

(** [Init], in a terminal of width [terminalWidth]. *)
Definition Init (prefixText : string) (size cur terminalWidth : Z) (b : indicators_bar)
    : outcome Empty_set indicators_bar :=
  let prefix := if String.eqb prefixText "" then prefix_text b else prefixText +:+ " " in
  let terminalWidth := if ((terminalWidth =? 0) || (120 <? terminalWidth))%Z then 120%Z else terminalWidth in
  _ ← assert (DEFAULT_POST_BAR_SIZE <? terminalWidth)%Z "terminalWidth > DEFAULT_POST_BAR_SIZE";
  Done (mk_indicators_bar (progress_ b) cur size (terminalWidth - DEFAULT_POST_BAR_SIZE) prefix (postfix_text b)
    (completed b) (drawn b)).

Definition ProgressBar_new (prefixText : string) (size cur terminalWidth : Z) : outcome Empty_set ProgressBar :=
  b ← Init prefixText size cur terminalWidth indicators_bar_new;
  Done (mk_ProgressBar b 0 size 0 DEFAULT_TICK_TIME).

Definition IsCompleted (s : ProgressBar) : bool := completed (_bar s).
Definition GetProgress (s : ProgressBar) : Z := current (_bar s).
Definition SetTickTime (tickTime : Z) (s : ProgressBar) : ProgressBar :=
  mk_ProgressBar (_bar s) (_unprintProgress s) (_size s) (_lastUpdateTime s) tickTime.

Definition SaveUnprintProgress (progress : Z) (s : ProgressBar) : ProgressBar :=
  let saved := if (progress =? 0)%Z then (_unprintProgress s + 1)%Z else (_unprintProgress s + progress)%Z in
  mk_ProgressBar (_bar s) (wrap_u 64 saved) (_size s) (_lastUpdateTime s) (_tickTime s).
Definition ClearUnprintProgress (s : ProgressBar) : ProgressBar :=
  mk_ProgressBar (_bar s) 0 (_size s) (_lastUpdateTime s) (_tickTime s).

Definition CanPrintProgress (timeNow : Z) (s : ProgressBar) : bool * ProgressBar :=
  if (_size s <=? wrap_u 64 (current (_bar s) + _unprintProgress s))%Z then (true, s)
  else if ((0 <? _lastUpdateTime s) && (timeNow <? _lastUpdateTime s + _tickTime s))%Z then (false, s)
  else (true, mk_ProgressBar (_bar s) (_unprintProgress s) (_size s) timeNow (_tickTime s)).

Definition Update (progress timeNow : Z) (s : ProgressBar) : ProgressBar :=
  if IsCompleted s then s
  else
    let s := SaveUnprintProgress progress s in
    let '(can, s) := CanPrintProgress timeNow s in
    if negb can then s
    else
      let b := if (_unprintProgress s =? 0)%Z then tick (_bar s)
               else set_progress (wrap_u 64 (current (_bar s) + _unprintProgress s)) (_bar s) in
      ClearUnprintProgress (set_bar b s).

(** [Stop]; the cursor and the line are the terminal's. *)
Definition Stop (s : ProgressBar) : ProgressBar :=
  if completed (_bar s) then s else set_bar (mark_as_completed (_bar s)) s.

Definition set_texts (prefix postfix : string) (s : ProgressBar) : ProgressBar :=
  let b := _bar s in
  set_bar (mk_indicators_bar (progress_ b) (min_progress b) (max_progress b) (bar_width b) prefix postfix
    (completed b) (drawn b)) s.
Definition UpdatePrefixText (text : string) (s : ProgressBar) : ProgressBar :=
  set_texts (text +:+ " ") (postfix_text (_bar s)) s.
Definition UpdatePostfixText (text : string) (s : ProgressBar) : ProgressBar :=
  let max := Z.to_nat (DEFAULT_POST_INFO_SIZE - 3) in
  set_texts (prefix_text (_bar s)) (if Nat.ltb max (String.length text) then String.substring 0 max text else text) s.

(** Calls of [Update]: the progress and the time of each. *)
Fixpoint updates (ups : list (Z * Z)) (s : ProgressBar) : ProgressBar :=
  match ups with
  | [] => s
  | (progress, now) :: ups => updates ups (Update progress now s)
  end.

(** What they add up to: a call without a number counts one. *)
Definition total (ups : list (Z * Z)) : Z :=
  foldr (λ u t, (if (u.1 =? 0)%Z then 1 else u.1) + t)%Z 0%Z ups.

(** The times of the calls that drew the bar, but for the one that completes it. *)
Fixpoint draw_times (ups : list (Z * Z)) (s : ProgressBar) : list Z :=
  match ups with
  | [] => []
  | (progress, now) :: ups =>
      let s' := Update progress now s in
      (if negb (Nat.eqb (length (drawn (_bar s'))) (length (drawn (_bar s)))) && negb (IsCompleted s') then [now] else [])
      ++ draw_times ups s'
  end.

(** ** Lemmas *)

(** A bar that is not complete has drawn or saved [t] of its [_size]. *)
Record running (t : Z) (s : ProgressBar) : Prop := {
  ru_open : completed (_bar s) = false;
  ru_max : max_progress (_bar s) = _size s;
  ru_size : (0 < _size s < 2 ^ 64)%Z;
  ru_saved : (0 ≤ _unprintProgress s)%Z;
  ru_progress : (0 ≤ progress_ (_bar s))%Z;
  ru_total : (progress_ (_bar s) + _unprintProgress s = t)%Z;
  ru_less : (t < _size s)%Z }.

Definition step_of (progress : Z) : Z := if (progress =? 0)%Z then 1 else progress.

(** One call: it completes the bar, draws in time, or saves the progress. *)
Lemma Update_running t progress now s :
  running t s → (0 ≤ progress)%Z → (t + step_of progress < 2 ^ 64)%Z →
  let s' := Update progress now s in
  let t' := (t + step_of progress)%Z in
  _tickTime s' = _tickTime s ∧
  if (_size s <=? t')%Z then completed (_bar s') = true ∧ drawn (_bar s') = drawn (_bar s) ++ [t']
  else running t' s' ∧ _size s' = _size s ∧
    ((drawn (_bar s') = drawn (_bar s) ∧ _lastUpdateTime s' = _lastUpdateTime s) ∨
     (drawn (_bar s') = drawn (_bar s) ++ [t'] ∧ _lastUpdateTime s' = now ∧
      ((_lastUpdateTime s ≤ 0)%Z ∨ (_lastUpdateTime s + _tickTime s ≤ now)%Z))).
Proof.
  intros [Ho Hm Hs Hu Hp Ht Hl] Hpr Hmax. unfold Update, IsCompleted. rewrite Ho.
  assert (0 < step_of progress)%Z as Hst by (unfold step_of; destruct (Z.eqb_spec progress 0); lia).
  assert (SaveUnprintProgress progress s = mk_ProgressBar (_bar s) (_unprintProgress s + step_of progress) (_size s)
    (_lastUpdateTime s) (_tickTime s)) as ->.
  { unfold SaveUnprintProgress, step_of in *. f_equal. destruct (progress =? 0)%Z; apply wrap_u_small; lia. }
  unfold CanPrintProgress, current. cbn [_bar _unprintProgress _size _lastUpdateTime _tickTime].
  rewrite Hm, Z.min_l by lia. rewrite wrap_u_small by lia.
  replace (progress_ (_bar s) + (_unprintProgress s + step_of progress))%Z with (t + step_of progress)%Z by lia.
  assert ((_unprintProgress s + step_of progress =? 0)%Z = false) as Hnz by (apply Z.eqb_neq; lia).
  destruct (Z.leb_spec (_size s) (t + step_of progress)) as [Hle|Hgt]; cbn [negb].
  - cbn [_unprintProgress _bar _tickTime ClearUnprintProgress set_bar]. rewrite Hnz. split; [done|].
    unfold set_progress, print_progress, current. cbn. rewrite Ho, Hm, Z.min_l by lia.
    rewrite wrap_u_small by lia. replace (progress_ (_bar s) + (_unprintProgress s + step_of progress))%Z with (t + step_of progress)%Z by lia.
    split; [by apply Z.leb_le|done].
  - destruct (_ && _) eqn:Hthr; cbn [negb].
    + split; [done|]. split; [|split; [done|by left]]. split; cbn; try done; lia.
    + cbn [_unprintProgress _bar _tickTime _size _lastUpdateTime ClearUnprintProgress set_bar]. rewrite Hnz.
      unfold set_progress, print_progress, current. cbn. rewrite Hm, Z.min_l by lia. rewrite wrap_u_small by lia.
      replace (progress_ (_bar s) + (_unprintProgress s + step_of progress))%Z with (t + step_of progress)%Z by lia.
      split; [done|]. split; [|split; [done|right]].
      * split; cbn; try done; try lia. rewrite Ho. cbn. apply Z.leb_gt. lia.
      * split; [done|]. split; [done|]. apply andb_false_iff in Hthr as [H|H]; [left|right].
        -- by apply Z.ltb_ge in H.
        -- by apply Z.ltb_ge in H.
Qed.

Lemma updates_completed ups s : completed (_bar s) = true → updates ups s = s ∧ draw_times ups s = [].
Proof.
  intros Hc. induction ups as [|[p now] ups [IH1 IH2]]; [done|]. cbn.
  assert (Update p now s = s) as -> by (unfold Update, IsCompleted; by rewrite Hc).
  unfold IsCompleted. rewrite IH1, IH2, Hc. cbn. by rewrite andb_false_r.
Qed.

Lemma total_nonneg ups : Forall (λ u, 0 ≤ u.1)%Z ups → (0 ≤ total ups)%Z.
Proof.
  unfold total. induction 1 as [|[p now] ups Hp _ IH]; cbn in *; [done|]. destruct (Z.eqb_spec p 0); lia.
Qed.

Lemma updates_running ups t s :
  running t s → Forall (λ u, 0 ≤ u.1)%Z ups → (t + total ups < 2 ^ 64)%Z →
  if (_size s <=? t + total ups)%Z then completed (_bar (updates ups s)) = true
  else running (t + total ups) (updates ups s).
Proof.
  revert t s. induction ups as [|[p now] ups IH]; intros t s Hr Hn Hmax.
  - cbn. rewrite Z.add_0_r. pose proof (ru_less _ _ Hr). by rewrite (proj2 (Z.leb_gt _ _)).
  - apply Forall_cons in Hn as [Hp Hn]. cbn in Hp. pose proof (total_nonneg ups Hn) as Htn.
    change (total ((p, now) :: ups)) with (step_of p + total ups)%Z in *. cbn [updates].
    destruct (Update_running t p now s Hr Hp) as [_ Hu]; [lia|].
    destruct (Z.leb_spec (_size s) (t + step_of p)) as [Hle|Hgt].
    + destruct Hu as [Hc _]. rewrite (proj1 (updates_completed ups _ Hc)).
      by rewrite (proj2 (Z.leb_le (_size s) (t + (step_of p + total ups)))) by lia.
    + destruct Hu as (Hr' & Hsz & _). rewrite Z.add_assoc, <- Hsz. apply IH; [done|done|lia].
Qed.

Lemma draw_times_apart ups t s :
  running t s → Forall (λ u, 0 ≤ u.1 ∧ 0 < u.2)%Z ups → (t + total ups < 2 ^ 64)%Z →
  Sorted (λ a b, a + _tickTime s ≤ b)%Z (draw_times ups s) ∧
  ((0 < _lastUpdateTime s)%Z → HdRel (λ a b, a + _tickTime s ≤ b)%Z (_lastUpdateTime s) (draw_times ups s)).
Proof.
  revert t s. induction ups as [|[p now] ups IH]; intros t s Hr Hn Hmax; [by repeat constructor|].
  apply Forall_cons in Hn as [[Hp Hnow] Hn]. cbn in Hp, Hnow.
  assert (0 ≤ total ups)%Z as Htn by (apply total_nonneg; eapply Forall_impl; [exact Hn|by intros u [? _]]).
  change (total ((p, now) :: ups)) with (step_of p + total ups)%Z in *. cbn [draw_times].
  destruct (Update_running t p now s Hr Hp) as [Htick Hu]; [lia|]. rewrite <- Htick.
  destruct (Z.leb_spec (_size s) (t + step_of p)) as [Hle|Hgt].
  - destruct Hu as [Hc _]. rewrite (proj2 (updates_completed ups _ Hc)). unfold IsCompleted. rewrite Hc.
    cbn. rewrite andb_false_r. cbn. repeat constructor.
  - destruct Hu as (Hr' & _ & Hcase). destruct (IH _ _ Hr' Hn) as [Hs Hh]; [lia|].
    unfold IsCompleted. rewrite (ru_open _ _ Hr'), andb_true_r.
    destruct Hcase as [[-> Hl]|(-> & Hl & Hw)].
    + rewrite Nat.eqb_refl. cbn [negb app]. by rewrite <- Hl.
    + rewrite length_app. cbn [length]. rewrite (proj2 (Nat.eqb_neq _ _)) by lia. cbn [negb app].
      rewrite Hl in Hh. split; [constructor; [done|by apply Hh]|]. intros H0. constructor.
      rewrite Htick. destruct Hw; lia.
Qed.

(** ** Properties *)

(** No progress is lost and the bar is not drawn too often.  A new bar of size
    [size] in a terminal of any width it accepts (the bar is then between 1 and
    55 wide), whatever the start it is given, is complete exactly when the calls
    of [Update] add up to [size]; until then what it has drawn and what it has
    saved are what they add up to, and two drawings are at least the tick time
    apart. *)
Theorem progress_exact (prefix : string) (size cur width : Z) (ups : list (Z * Z)) (s : ProgressBar) :
  ProgressBar_new prefix size cur width = Done s → (0 < size < 2 ^ 64)%Z → (0 ≤ width)%Z →
  Forall (λ u, 0 ≤ u.1 ∧ 0 < u.2)%Z ups → (total ups < 2 ^ 64)%Z →
  let s' := updates ups s in
  (1 ≤ bar_width (_bar s) ≤ 55)%Z ∧
  (IsCompleted s' = true ↔ (size ≤ total ups)%Z) ∧
  ((total ups < size)%Z → (progress_ (_bar s') + _unprintProgress s' = total ups)%Z) ∧
  Sorted (λ a b, a + DEFAULT_TICK_TIME ≤ b)%Z (draw_times ups s).
Proof.
  intros Hnew Hsize Hw Hups Hmax s'. unfold ProgressBar_new, Init in Hnew. cbv zeta in Hnew.
  match type of Hnew with context [assert (_ <? ?w)%Z _] => set (tw := w) in * end.
  destruct (Z.ltb_spec DEFAULT_POST_BAR_SIZE tw) as [Htw|]; [|done]. cbn in Hnew. injection Hnew as <-.
  assert (tw ≤ 120)%Z as Htw2.
  { unfold tw. destruct (_ || _) eqn:E; [lia|]. apply orb_false_iff in E as [_ E]. by apply Z.ltb_ge in E. }
  change DEFAULT_POST_BAR_SIZE with 65%Z in *. match goal with s' := updates _ ?x |- _ => set (s0 := x) in * end.
  assert (running 0 s0) as Hr by (split; cbn; first [done|lia]).
  assert (Forall (λ u, 0 ≤ u.1)%Z ups) as Hn by (eapply Forall_impl; [exact Hups|by intros u [? _]]).
  split; [cbn; lia|]. pose proof (updates_running ups 0 s0 Hr Hn Hmax) as Hu. rewrite Z.add_0_l in Hu.
  fold s' in Hu. change (_size s0) with size in Hu. split; [|split].
  - unfold IsCompleted. destruct (Z.leb_spec size (total ups)) as [?|?]; [by rewrite Hu|].
    rewrite (ru_open _ _ Hu). split; [done|lia].
  - intros Hlt. rewrite (proj2 (Z.leb_gt _ _)) in Hu by done. apply Hu.
  - by apply (draw_times_apart ups 0 s0 Hr).
Qed.

(** ** Concrete runs *)
Lemma progress_exact_witness :
  let ups := [(0, 1000); (0, 2000); (3, 101000); (1, 102000); (0, 300000)]%Z in
  ∃ s, ProgressBar_new "sql" 7 0 80 = Done s ∧ IsCompleted (updates ups s) = true ∧
    drawn (_bar (updates ups s)) = [1; 5; 7]%Z ∧ draw_times ups s = [1000; 101000]%Z.
Proof.
  intros ups. eexists. split; [reflexivity|]. split; [|split; reflexivity].
  match goal with |- IsCompleted (updates _ ?s) = true =>
    refine (proj2 (proj1 (proj2 (progress_exact "sql" 7 0 80 ups s eq_refl _ _ _ _))) _) end;
    try (cbn; lia). repeat constructor; cbn; lia.
Defined.

(** The progress to start from does not count. *)
Example start_is_ignored :
  match ProgressBar_new "" 10 5 80 with
  | Done s => GetProgress (Update 0 1 s) = 1%Z
  | _ => False
  end.
Proof. reflexivity. Qed.
